(* ===== verification/_CoqProject ===== *)
-Q . S2P
Prelude.v
Go.v
NetUtil.v
Share.v
Header.v
Message.v
MessageFacts.v
MessageReuse.v
BufferPool.v
Breaker.v
HashUtils.v
UrlQuery.v
Float64.v
Selectors.v
Geo.v
Client.v
ClientFacts.v
ClientRuns.v
Heartbeat.v
XClient.v
XClientFacts.v
Failover.v
XConcurrent.v
MultiCall.v
Plugins.v
ServerPlugins.v
ClientPlugins.v
XFull.v
Service.v
Server.v
ServerFacts.v
ServerConn.v
Proto.v
ProtoFacts.v
Thrift.v
ColorGroup.v
Codecs.v
EndToEnd.v
Pipeline.v
Gateway.v
Auth.v
FullStack.v
Logging.v
Backoff.v
KVStore.v
Registries.v
RegistryFacts.v
Publish.v
Discovery.v
DiscoveryFacts.v
XSetup.v
Access.v
TypePools.v
FileTransfer.v
JsonRpc.v
Listener.v
Push.v
Connect.v
Mdns.v
AsyncWrite.v
Compress.v
Telemetry.v
Deadline.v
Reporters.v
ServerSetup.v
