(* ===== verification/Prelude.v ===== *)
(** * irpc: a verification development

    irpc is an RPC library in Go: a binary wire protocol (protocol/), a client
    of one connection and a client of many servers (client/), a server
    (server/), plugins that publish services and control access
    (serverplugin/), and the small tools they share (util/, share/, errors/).  A call
    goes from [xClient.Call], which selects a server and takes its cached
    connection, to [Client.send], which numbers the call, keeps it in the
    pending map and writes a [Message]; the server's [serveConn] decodes it,
    authenticates it and gives it to a goroutine, whose [handleRequest] runs
    the registered method and whose answer the client's [input] loop decodes
    and matches, by its number, with the pending call.  A registry plugin of the
    server writes its services to a store, where a discovery of the client finds
    and watches them.

    ** Files and the code they model

    - Prelude, Go: bytes, machine integers, big-endian integers; error values,
      outcomes (value, error, panic, end of the process, no return), the
      monad of stateful programs [prog], slices with their capacity, readers.
      [Error], [MultiError]: errors/error.go.  util/converter.go.
    - NetUtil: util/net.go.  Logging: log/.
    - Share: share/share.go (metadata keys), share/context.go.
    - Header: protocol/message_header.go, message_type.go: the 12 header bytes
      and their bit fields; [view] is the abstract record of fields that the
      setters implement.
    - Message, MessageFacts: protocol/message.go, message_pool.go, func.go,
      compressor.go: [Encode], [WriteTo], [Decode], [Read], [Clone], [FreeMsg].
      MessageReuse: the memory of pooled messages: a heap of arrays, the fields
      as references into the buffer ([hDecode], which refines [Decode]).
    - BufferPool: util/buffer_pool.go, the size classes of byte slices.
    - Breaker: client/circuit_breaker.go.
    - HashUtils: client/hash_utils.go, with its float64 arithmetic.
    - UrlQuery: [urlEncode] of client/client.go, [filterByStateAndGroup] of
      client/xclient.go, and the parts of net/url and strconv they use.
    - Selectors: client/selector_*.go behind the classes [Selector] (the
      operations) and [SelectorLaws] (a selector only names servers it was
      given); [DoubleJump] is the interface of the third-party ring.
    - Float64, Geo: IEEE double precision, and client/selector_geo.go over it.
    - Client, ClientFacts: client/client.go, client_call.go.  The state is what
      the goroutines share; handlers are cut where the mutex is released.
      ClientRuns: the goroutines of calls, raw calls and [input] with these
      handlers as interleaved steps ([rstep]).  Heartbeat: its heartbeat goroutine.
    - XClient, XClientFacts: client/xclient.go, xclient_call.go,
      xclient_cache_client.go: selection, cache, breakers and fail modes, over
      the interface [RPCClient] of a connection, which Client implements.
      Failover: when a call that is retried on other servers succeeds.
      XConcurrent: calls and ended connections that overlap, cut where the mutex
      is free ([gstep]).  XFull: the same client with its plugins, which share
      memory with the connections, and the builders of cached clients
      (cache_client_builder.go).  XSetup: how a client gets its
      servers and its selector (NewXClient, SetSelector, updates).
    - MultiCall: [Broadcast], [Fork] (client/xclient_broadcast.go,
      xclient_fork.go) and [Inform] (xclient.go): goroutines as lists of
      statements, and the loop that collects them, as a step relation; a call may
      never end, and the reply is written word by word.
    - Plugins, ServerPlugins, ClientPlugins: the two plugin_container.go.
      Plugins has the three ways a container runs hooks and their laws.
    - Service: server/service.go, server_register.go: the registry.  Publish:
      registering with the plugins that publish, and UnregisterAll.
    - ServerSetup: server/options.go and [New], the router, [Restart], the start
      and the end of the gateways, server_cors.go, the values of a [Context].
    - Server, ServerFacts: server/server.go, server_serve.go, context.go: what
      happens to one request, down to the bytes of its answer.
    - ServerConn: server/server_serve.go, server.go, server_base.go: a
      connection, the phases of [serveConn], the goroutines of its requests,
      [Shutdown] and [Close], as a step relation.
    - Gateway: server/converter.go, gateway.go: requests over HTTP, their
      conversion and their answers.
    - Codecs: codec/ and the table of share/share.go.  Proto, ProtoFacts, Thrift:
      the generated messages of _testutils/, in protocol buffers and in thrift.
      ColorGroup: the test data of codec/testdata.
    - EndToEnd, Pipeline: the client and the server of the files above at the two
      ends of a connection, for one call and for many that are not waited for.
    - FullStack: the multi-server client of XClient over those connections, with
      the servers of Server behind them; [converse] is one exchange.
    - Auth: the token of [xClient.Auth] and the metadata maps of contexts, which
      are shared, with the server's [auth] at the connection and at the gateway.
    - Backoff: the delays between failed attempts, which three loops share.
    - KVStore: the store behind registries and discoveries ([Store] and its laws
      [StoreLaws]), the paths of its nodes.
    - Registries, RegistryFacts: serverplugin/consul.go, zookeeper.go, redis.go:
      a Module each, the refresh goroutine cut at its operations of the store
      ([RegistryFacts.rstep]); [RegistryPlugin] and [StoppablePlugin] are the contracts that
      the three discharge.  Mdns: serverplugin/mdns.go over [Zeroconf].
    - Discovery, DiscoveryFacts: client/discovery*.go, and the updates of a
      client's servers in client/xclient.go; [wstep] are the steps of the
      channels and goroutines that watch.
    - Access: serverplugin/alias.go, blacklist.go, whitelist.go, tee.go and the
      three rate limits.
    - TypePools: server/pool.go, over a heap of typed objects.
    - FileTransfer: server/file_transfer.go, stream.go, and SendFile,
      DownloadFile and Stream of client/xclient.go.
    - JsonRpc: server/server_jsonrpc2.go, server_jsonrpc2_struct.go.
    - Listener: server/listener*.go, memconn.go, and the listening and closing
      half of server_serve.go and server.go, with many connections ([lstep]).
    - Push: [SendMessage] of server/server.go and the client's channel.
    - Connect: client/client_connect.go.
    - Deadline: [setServerTimeout] of client/xclient.go with server_util.go.
    - AsyncWrite: the writer goroutine of server_serve.go.
    - Compress: util/compress.go, with the arrays that pooled buffers share.
      The compressors of Message are pure functions: Compress says when those
      of gzip behave like that.  [SnappyCompressor] of protocol/compressor.go.
    - Telemetry: serverplugin/metrics.go, opentelemetry.go, trace.go and
      share/trace.go, and what their hooks do to requests and connections.
      Reporters: serverplugin/influxdb.go.

    ** What the theorems show

    End to end: a call that is sent, served and answered completes, once, with
    the decoding of the encoded result of the method ([rpc_call_returns]); calls
    that are pipelined on one connection each get their own reply, in whatever
    order they are served and answered ([calls_pipelined]); a Failover call over
    such connections returns nil with the reply, after one exchange on one
    connection, when a server is up ([stack_call_returns]); the token of a client is
    what the server decides about, and a refused call completes with the reason
    ([auth_decides]).

    The wire: encoding then decoding gives the message back and consumes
    exactly its bytes; whatever the decoder accepts was on the stream; the
    decoder always returns, and panics on malformed inner lengths; the header
    bytes implement independent fields; [WriteTo] writes the bytes of [Encode]
    and returns the wrong count; a path, method or payload that is held after its
    message is freed shows the next frame, if that fits into the buffer.  The
    protobuf and the raw-bytes entry of the table of codecs give the server the
    arguments and the client the reply, but a zero leaves what was in the reply object; protocol buffers and thrift
    decode what they encode and pass by fields they do not know.
    The client: under every interleaving a call is completed, pending, or its
    number was taken by another one, and completed once, but for late encode
    errors and the calls pending at the end of the connection, which stay in the
    map; that end completes all whose number was not taken ([calls_accounted]); what is
    sent decodes to the call; an answer completes exactly its call; one-way
    calls are never completed; a second [Close] is fatal; an answered heartbeat leaves the
    client alone, an unanswered one closes it, and one whose connection ends stops the process.
    The client of many servers: attempts are bounded by the retries and explain
    the result; in fail-over mode a call reaches a server that is up if the selector
    comes to one within the attempts and connections may be closed twice ([failover_reaches]); the cache has one connection per server; selectors are fair or
    consistent and only select current servers, under any updates and settings;
    the nearest server is one of those at the smallest distance; overlapping calls
    lose no connection but those of two to the same new server; plugins whose hooks
    only look on and wrap nothing leave selecting, caching and calling as they
    are; calls on all servers never invent a word of an answer, though they may mix
    several, may hide a failure, and return without their timer unless a call
    that never ends is waited for.
    The server: every accepted request was authorised and is handled once; an
    answer decodes to a response to its request, with a refusal's reason; an
    error of a service method never reaches the client; the HTTP gateway gives
    the same payload, with status 200 even for refusals, and an empty 500 when
    [handleRequest] fails; the registry only
    holds what can be called, and what is published is served; plugin hooks run in
    order up to the first error;
    after [Shutdown] begins at most the request at hand is accepted, [Shutdown]
    waits for the requests that counted themselves, and an accepted request may be
    dropped; no accepted connection is lost, but one failed TLS handshake stops
    the listener; what the server pushes arrives in order.
    Connections: the HTTP handshake succeeds however the answer is cut, and what
    becomes of a dialled connection is known on every network.
    Discovery: after any calls, some failing, the store has exactly the nodes of
    the registered services, for each of the three plugins; a refresh heals the
    store and can bring back a service that is gone; [Stop] waits for it; a
    discovery finds a server exactly while it is registered; watchers get each
    change at most once, and two updates can arrive in the wrong order.
    Services of the library: a file sent is the file received, a token opens one
    connection, pooled objects have their type and one owner, rate limits let
    through what the bucket holds, JSON-RPC never answers; asynchronous answers
    are written once and in order, and lost when the loop ends first; what Zip
    returns is its data until another call takes the buffer; with metrics a
    request above the rate limit ends its connection; a reporter of metrics goes
    on whatever its database answers; what a logger does to the program.

    ** Bounds and fuel

    Integers are [Z] with the wrap-around of their width written out ([u32],
    [u64], [i64]).  These loops run on fuel: [decodeMetadata_loop], which has one
    more than the bytes of the slice and moves by eight bytes at least
    ([decodeMetadata_terminates]); [Hash_loop], which has the number of buckets
    and ends at a strictly growing bucket ([Hash_consistent]); [levels], which
    has the maximal size and doubles a positive one; and [input], for which more
    turns than bytes on the stream are enough ([input_ends]); [send_loop], for
    which a turn per byte is enough unless its context is done, when none is
    ([upload_end_to_end], [SendFile_never_returns]); and [skip_header], which
    has a turn per byte; the loops of the protobuf decoder, with a turn per byte (ten
    for a varint, [proto_unmarshal_returns]); and [read_fields] of thrift, with one
    more than the fields ([colorgroup_roundtrip], [thrift_roundtrip]).  The loop of retries is structural on the number of
    attempts left, [attempts] on the outcomes of the attempts.

    ** Parameters

    Code outside the repository is an argument: compressors with their law
    ([CompressorLaws]), codecs, the ring of the consistent hash
    ([DoubleJumpLaws]), the trigonometric functions ([GoMath]), the libraries of
    the codecs ([Encoders]) and of thrift ([TProtocol]), go-metrics, OpenTelemetry
    and the client of InfluxDB, the interfaces of the host, user code (service methods, plugins, [AuthFunc]), the
    network (dial and invoke oracles), the key-value store, zeroconf, the LRU
    cache, token buckets, encoding/json, clocks, random numbers, and the order
    of map iterations (any permutation).

    ** Not modelled

    The libraries above; what the reporters of go-metrics do once they are started;
    the descriptors, the registration with reflection and the String methods of
    generated code; the signals and files of a process that is started again;
    debug output. *)
From Stdlib Require Import ZArith Lia.
From Stdlib Require Export Strings.Byte.
From stdpp Require Export base option list gmap strings fin_maps numbers pretty.

Ltac Zify.zify_post_hook ::= Z.to_euclidean_division_equations.


(** ** Bytes

    A Go [byte] is the standard library's 256-constructor [byte]; [bz] and [zb]
    are its value in [Z] and the conversion [byte(z)], which wraps modulo 256. *)

Declare Scope go_scope.
Delimit Scope go_scope with go.
Open Scope Z_scope.

Definition bz (b : byte) : Z := Z.of_N (Byte.to_N b).

Definition zb (z : Z) : byte :=
  match Byte.of_N (Z.to_N (z mod 256)) with
  | Some b => b
  | None => x00
  end.

#[export] Instance byte_inhabited : Inhabited byte := populate x00.
#[export] Instance byte_eq_decision : EqDecision byte := Byte.byte_eq_dec.

Lemma bz_range b : 0 <= bz b < 256.
Proof. unfold bz. pose proof (Byte.to_N_bounded b). lia. Qed.

Lemma zb_bz b : zb (bz b) = b.
Proof.
  unfold zb, bz. pose proof (Byte.to_N_bounded b).
  rewrite Z.mod_small by lia. rewrite N2Z.id. by rewrite Byte.of_to_N.
Qed.

Lemma bz_zb z : bz (zb z) = z mod 256.
Proof.
  unfold zb, bz. destruct (Byte.of_N (Z.to_N (z mod 256))) as [b|] eqn:E.
  - apply Byte.to_of_N in E. rewrite E. rewrite Z2N.id; [done|].
    apply Z.mod_pos_bound. lia.
  - apply Byte.of_N_None_iff in E. pose proof (Z.mod_pos_bound z 256). lia.
Qed.

#[export] Instance bz_inj : Inj (=) (=) bz.
Proof. intros a b H. by rewrite <- (zb_bz a), <- (zb_bz b), H. Qed.

(** The bit operations of Go on [byte]: [&], [|], [&^], [<<] and [>>]. *)
Definition band (a b : byte) : byte := zb (Z.land (bz a) (bz b)).
Definition bor (a b : byte) : byte := zb (Z.lor (bz a) (bz b)).
Definition bandnot (a b : byte) : byte := zb (Z.ldiff (bz a) (bz b)).
Definition bshl (a : byte) (k : Z) : byte := zb (Z.shiftl (bz a) k).
Definition bshr (a : byte) (k : Z) : byte := zb (Z.shiftr (bz a) k).

Infix ".&" := band (at level 45, left associativity) : go_scope.
Infix ".|" := bor (at level 52, left associativity) : go_scope.
Infix ".&^" := bandnot (at level 45, left associativity) : go_scope.
Infix ".<<" := bshl (at level 46, no associativity) : go_scope.
Infix ".>>" := bshr (at level 46, no associativity) : go_scope.

(** A property decided by computation on each of the 256 bytes holds of every
    byte: the proof principle behind the header's bit-field lemmas. *)
Definition all_bytes : list byte := zb <$> seqZ 0 256.

Lemma elem_of_all_bytes b : b ∈ all_bytes.
Proof.
  unfold all_bytes. rewrite list_elem_of_fmap. exists (bz b).
  rewrite zb_bz, elem_of_seqZ. pose proof (bz_range b). split; [done|lia].
Qed.

Lemma byte_ind_compute (P : byte -> bool) :
  forallb P all_bytes = true -> forall b, P b = true.
Proof.
  intros H b. rewrite forallb_forall in H. apply H.
  apply list_elem_of_In, elem_of_all_bytes.
Qed.

Lemma byte_ind_compute2 (P : byte -> byte -> bool) :
  forallb (fun a => forallb (P a) all_bytes) all_bytes = true ->
  forall a b, P a b = true.
Proof.
  intros H a b. apply byte_ind_compute.
  by apply (byte_ind_compute (fun a => forallb (P a) all_bytes)).
Qed.

(** Decide a goal over one or two byte variables by running it on all bytes. *)
Ltac byte_to_bool :=
  match goal with
  | |- ?G => apply (bool_decide_eq_true_1 G)
  end.
Ltac byte_compute1 b :=
  byte_to_bool; revert b; apply byte_ind_compute; vm_compute; reflexivity.
Ltac byte_compute2 a b :=
  byte_to_bool; revert a b; apply byte_ind_compute2; vm_compute; reflexivity.

(** ** Machine integers *)

Definition two32 : Z := 2 ^ 32.
Definition two63 : Z := 2 ^ 63.
Definition two64 : Z := 2 ^ 64.

(** [uint32(z)], [uint64(z)]: the value modulo the width. *)
Definition u32 (z : Z) : Z := z mod two32.
Definition u64 (z : Z) : Z := z mod two64.

(** [int(z)], [int64(z)]: two's complement at 64 bits; [int32(z)] at 32. *)
Definition i64 (z : Z) : Z := (z + two63) mod two64 - two63.
Definition i32 (z : Z) : Z := (z + 2 ^ 31) mod two32 - 2 ^ 31.

Lemma u32_small z : 0 <= z < two32 -> u32 z = z.
Proof. apply Z.mod_small. Qed.

Lemma u64_small z : 0 <= z < two64 -> u64 z = z.
Proof. apply Z.mod_small. Qed.

Lemma u32_range z : 0 <= u32 z < two32.
Proof. apply Z.mod_pos_bound. reflexivity. Qed.

Lemma u64_range z : 0 <= u64 z < two64.
Proof. apply Z.mod_pos_bound. reflexivity. Qed.

Lemma i64_small z : - two63 <= z < two63 -> i64 z = z.
Proof. intros H. unfold i64. rewrite Z.mod_small; unfold two63, two64 in *; lia. Qed.

Lemma i64_range z : - two63 <= i64 z < two63.
Proof.
  unfold i64. pose proof (Z.mod_pos_bound (z + two63) two64 ltac:(reflexivity)).
  unfold two63, two64 in *. lia.
Qed.

Lemma i32_small z : - 2 ^ 31 <= z < 2 ^ 31 -> i32 z = z.
Proof. intros H. unfold i32. rewrite Z.mod_small; unfold two32 in *; lia. Qed.

(** ** Big-endian integers

    [binary.BigEndian.PutUint32], [PutUint64], [Uint32] and [Uint64] of the
    standard library, on the bytes themselves. *)

Fixpoint be_put (n : nat) (v : Z) : list byte :=
  match n with
  | O => []
  | S n' => zb (Z.shiftr v (8 * Z.of_nat n')) :: be_put n' v
  end.

Definition be_get (bs : list byte) : Z :=
  fold_left (fun acc b => acc * 256 + bz b) bs 0.

Definition be32 (v : Z) : list byte := be_put 4 v.
Definition be64 (v : Z) : list byte := be_put 8 v.

Lemma length_be_put n v : length (be_put n v) = n.
Proof. induction n; simpl; congruence. Qed.

Lemma be_get_acc bs acc :
  fold_left (fun acc b => acc * 256 + bz b) bs acc =
  acc * 2 ^ (8 * Z.of_nat (length bs)) + be_get bs.
Proof.
  unfold be_get. revert acc. induction bs as [|b bs IH]; intros acc; cbn [fold_left length].
  - rewrite Z.mul_0_r. simpl. lia.
  - rewrite IH, (IH (0 * 256 + bz b)).
    replace (8 * Z.of_nat (S (length bs))) with (8 + 8 * Z.of_nat (length bs)) by lia.
    rewrite Z.pow_add_r by lia. change (2 ^ 8) with 256. ring.
Qed.

Lemma be_get_cons b bs :
  be_get (b :: bs) = bz b * 2 ^ (8 * Z.of_nat (length bs)) + be_get bs.
Proof. unfold be_get at 1. cbn [fold_left]. rewrite be_get_acc. ring. Qed.

Lemma be_get_range bs : 0 <= be_get bs < 2 ^ (8 * Z.of_nat (length bs)).
Proof.
  induction bs as [|b bs IH]; [unfold be_get; simpl; lia|].
  rewrite be_get_cons. pose proof (bz_range b). cbn [length].
  replace (8 * Z.of_nat (S (length bs))) with (8 + 8 * Z.of_nat (length bs)) by lia.
  rewrite Z.pow_add_r by lia. change (2 ^ 8) with 256. nia.
Qed.

Lemma be_get_put n v : be_get (be_put n v) = v mod 2 ^ (8 * Z.of_nat n).
Proof.
  induction n as [|n IH]; [by rewrite Z.mul_0_r, Z.mod_1_r|].
  cbn [be_put]. rewrite be_get_cons, length_be_put, IH, bz_zb.
  rewrite Z.shiftr_div_pow2 by lia.
  replace (8 * Z.of_nat (S n)) with (8 * Z.of_nat n + 8) by lia.
  set (k := 8 * Z.of_nat n) in *. rewrite Z.pow_add_r by lia.
  rewrite (Z.rem_mul_r v (2 ^ k) (2 ^ 8)) by (try apply Z.pow_nonzero; lia).
  change (2 ^ 8) with 256. ring.
Qed.

Lemma be_put_get bs : be_put (length bs) (be_get bs) = bs.
Proof.
  assert (H : forall n bs hi, length bs = n ->
    be_put n (hi * 2 ^ (8 * Z.of_nat n) + be_get bs) = bs).
  { clear. induction n as [|n IH]; intros bs hi Hl; destruct bs as [|b bs];
      try discriminate; [done|]. injection Hl as Hl. cbn [be_put]. f_equal.
    - rewrite be_get_cons, Hl, Z.shiftr_div_pow2 by lia.
      replace (8 * Z.of_nat (S n)) with (8 + 8 * Z.of_nat n) by lia.
      rewrite Z.pow_add_r by lia. change (2 ^ 8) with 256.
      pose proof (be_get_range bs) as Hr. rewrite Hl in Hr.
      set (p := 2 ^ (8 * Z.of_nat n)) in *.
      replace (hi * (256 * p) + (bz b * p + be_get bs))
        with (be_get bs + (hi * 256 + bz b) * p) by ring.
      rewrite Z.div_add by lia. rewrite Z.div_small by lia.
      apply bz_inj. rewrite bz_zb. rewrite Z.add_0_l, Z.add_comm, Z.mod_add by lia.
      apply Z.mod_small, bz_range.
    - rewrite be_get_cons, Hl.
      replace (8 * Z.of_nat (S n)) with (8 + 8 * Z.of_nat n) by lia.
      rewrite Z.pow_add_r by lia. change (2 ^ 8) with 256.
      set (p := 2 ^ (8 * Z.of_nat n)) in *.
      replace (hi * (256 * p) + (bz b * p + be_get bs))
        with ((hi * 256 + bz b) * p + be_get bs) by ring.
      by apply IH. }
  specialize (H (length bs) bs 0 eq_refl). by rewrite Z.mul_0_l, Z.add_0_l in H.
Qed.
