(* ===== verification/Go.v ===== *)
(** The part of the Go language and its standard library that every component
    uses: error values, outcomes (value, error, panic, process end, no return),
    a state-and-outcome monad, slices with their capacity, readers, strings as
    bytes. *)
From S2P Require Import Prelude.

(** ** Error values

    One constructor for every error variable the code compares by identity
    ([io.EOF], [ErrShutdown], ...), one for each dynamic error type the code
    tests with a type assertion ([ServiceError], [MultiError]) and
    [ErrorString] for the values of [errors.New] and [fmt.Errorf].  [Foreign]
    is an error made by code outside the repository. *)
#[warnings="-register-all"]
Inductive error : Type :=
| EOF | ErrUnexpectedEOF
| ErrNetClosed
| DeadlineExceeded | Canceled
| ErrMetaKVMissing | ErrMessageTooLong | ErrUnsupportedCompressor
| WrongMagic (b : byte)
| ErrShutdown | ErrUnsupportedCodec
| ServiceError (s : string)
| ErrBreakerOpen | ErrBreakerTimeout
| ErrXClientShutdown | ErrXClientNoServer | ErrServerUnavailable
| ErrServerClosed | ErrReqReachLimit | ErrNotAccept
| ErrorString (s : string)
| MultiError (es : list error)
| Foreign (s : string).

(** [strings.Join(ss, " ")]. *)
Fixpoint join_sp (ss : list string) : string :=
  match ss with
  | [] => ""
  | [s] => s
  | s :: ss' => s +:+ " " +:+ join_sp ss'
  end.

(** The [Error()] method of each error; [MultiError] prints its slice with
    [fmt.Sprintf("%v", e.Errors)]. *)
Fixpoint Error (e : error) : string :=
  match e with
  | EOF => "EOF"
  | ErrUnexpectedEOF => "unexpected EOF"
  | ErrNetClosed => "use of closed network connection"
  | DeadlineExceeded => "context deadline exceeded"
  | Canceled => "context canceled"
  | ErrMetaKVMissing => "wrong metadata lines. some keys or values are missing"
  | ErrMessageTooLong => "message is too long"
  | ErrUnsupportedCompressor => "unsupported compressor"
  | WrongMagic b => "wrong magic number: " +:+ pretty (bz b)
  | ErrShutdown => "connection is shut down"
  | ErrUnsupportedCodec => "unsupported codec"
  | ServiceError s => s
  | ErrBreakerOpen => "breaker open"
  | ErrBreakerTimeout => "breaker time out"
  | ErrXClientShutdown => "xClient is shut down"
  | ErrXClientNoServer => "can not found any server"
  | ErrServerUnavailable => "selected server is unavailable"
  | ErrServerClosed => "ServeListener: Server closed"
  | ErrReqReachLimit => "request reached rate limit"
  | ErrNotAccept => "server refused the connection"
  | ErrorString s => s
  | MultiError es => "[" +:+ join_sp (map Error es) +:+ "]"
  | Foreign s => s
  end.

(** ** Outcomes

    [Panic] is a run-time panic (a deferred [recover] stops it), [Fatal] ends
    the whole process (no [recover] stops it), [Blocked] never returns. *)
Inductive result (A : Type) : Type :=
| Ok (a : A)
| Err (e : error)
| Panic
| Fatal
| Blocked.
Arguments Ok {A} a.
Arguments Err {A} e.
Arguments Panic {A}.
Arguments Fatal {A}.
Arguments Blocked {A}.

#[export] Instance result_ret : MRet result := fun A a => Ok a.
#[export] Instance result_bind : MBind result := fun A B f m =>
  match m with
  | Ok a => f a
  | Err e => Err e
  | Panic => Panic
  | Fatal => Fatal
  | Blocked => Blocked
  end.

(** A Go function that changes state of type [S] and returns [A] or an error:
    the state it leaves is kept on every outcome. *)
Definition prog (S A : Type) : Type := S -> S * result A.

#[export] Instance prog_ret {S} : MRet (prog S) := fun A a s => (s, Ok a).
#[export] Instance prog_bind {S} : MBind (prog S) := fun A B f m s =>
  match m s with
  | (s', Ok a) => f a s'
  | (s', Err e) => (s', Err e)
  | (s', Panic) => (s', Panic)
  | (s', Fatal) => (s', Fatal)
  | (s', Blocked) => (s', Blocked)
  end.

Definition get_st {S} : prog S S := fun s => (s, Ok s).
Definition put_st {S} (s : S) : prog S unit := fun _ => (s, Ok tt).
Definition modify {S} (f : S -> S) : prog S unit := fun s => (f s, Ok tt).
Definition fail {S A} (e : error) : prog S A := fun s => (s, Err e).
Definition lift {S A} (r : result A) : prog S A := fun s => (s, r).

(** Reduce a program applied to a state. *)
Ltac prog_step :=
  unfold mbind, mret, prog_bind, prog_ret, result_bind, result_ret,
    get_st, put_st, modify, fail, lift in *; cbn beta iota in *.

Lemma bind_Ok {A B} (a : A) (f : A -> result B) : Ok a ≫= f = f a.
Proof. done. Qed.

(** ** Strings as bytes *)
Definition bytes_of (s : string) : list byte := String.list_byte_of_string s.
Definition string_of (bs : list byte) : string := String.string_of_list_byte bs.

(** [util.SliceByteToString] and [util.StringToSliceByte] reinterpret the same
    memory; as values they are these two conversions. *)
Definition SliceByteToString (b : list byte) : string := string_of b.
Definition StringToSliceByte (s : string) : list byte := bytes_of s.

Lemma string_of_bytes_of s : string_of (bytes_of s) = s.
Proof. apply String.string_of_list_byte_of_string. Qed.

Lemma bytes_of_string_of bs : bytes_of (string_of bs) = bs.
Proof. apply String.list_byte_of_string_of_list_byte. Qed.

Definition slen (s : string) : Z := Z.of_nat (length (bytes_of s)).

Lemma slen_nonneg s : 0 <= slen s.
Proof. unfold slen. lia. Qed.

(** ** Slices

    A slice is the array from its first element to the end of its capacity and
    its length; the bytes between the length and the capacity are real memory
    which a slice expression can bring back into view. *)
Record slice : Type := mk_slice { arr : list byte; len : Z }.

Definition cap (s : slice) : Z := Z.of_nat (length (arr s)).
Definition contents (s : slice) : list byte := take (Z.to_nat (len s)) (arr s).
Definition slice_wf (s : slice) : Prop := 0 <= len s <= cap s.

Definition slice_of (bs : list byte) : slice := mk_slice bs (Z.of_nat (length bs)).

(** [s[a:b]]: bounds are checked against the capacity, not the length. *)
Definition slice_range (s : slice) (a b : Z) : result slice :=
  if (0 <=? a) && (a <=? b) && (b <=? cap s)
  then Ok (mk_slice (drop (Z.to_nat a) (arr s)) (b - a))
  else Panic.

(** [s[a:]]: the upper bound is the length. *)
Definition slice_from (s : slice) (a : Z) : result slice := slice_range s a (len s).

(** [binary.BigEndian.Uint32(b)] reads [b[3]] first, so it panics on less than
    four bytes. *)
Definition Uint32 (s : slice) : result Z :=
  if 4 <=? len s then Ok (be_get (take 4 (contents s))) else Panic.

(** [copy(buf[a:b], src)] on a buffer whose capacity is its length: the number
    of bytes copied is the smaller of the two lengths. *)
Definition copy_at (a b : Z) (src : list byte) (buf : list byte) : result (list byte) :=
  if (0 <=? a) && (a <=? b) && (b <=? Z.of_nat (length buf)) then
    let n := Nat.min (Z.to_nat (b - a)) (length src) in
    Ok (take (Z.to_nat a) buf ++ take n src ++ drop (Z.to_nat a + n) buf)
  else Panic.

(** ** Readers

    What is left of the stream, and the error a read returns when nothing is
    left ([EOF], or a network error). *)
Record reader : Type := mk_reader { rest : list byte; fin : error }.

(** [io.ReadFull(r, buf)] with [len(buf) = n]: the bytes it stored at the front
    of [buf], its error, and the reader after it. *)
Definition ReadFull (n : Z) (r : reader) : list byte * option error * reader :=
  let k := Z.to_nat (Z.min n (Z.of_nat (length (rest r)))) in
  let got := take k (rest r) in
  let r' := mk_reader (drop k (rest r)) (fin r) in
  if n <=? Z.of_nat (length (rest r)) then (got, None, r')
  else
    let e := match fin r, got with
             | EOF, _ :: _ => ErrUnexpectedEOF
             | e, _ => e
             end in
    (got, Some e, r').

(** Overwrite the front of a buffer. *)
Definition overlay (src buf : list byte) : list byte := src ++ drop (length src) buf.

Lemma ReadFull_app bs rs fn :
  ReadFull (Z.of_nat (length bs)) (mk_reader (bs ++ rs) fn) = (bs, None, mk_reader rs fn).
Proof.
  unfold ReadFull. cbn [rest fin]. rewrite length_app.
  rewrite Z.min_l by lia. rewrite Nat2Z.id.
  rewrite (proj2 (Z.leb_le _ _)) by lia.
  by rewrite take_app_length, drop_app_length.
Qed.

Lemma ReadFull_Some n r bs r' :
  0 <= n -> ReadFull n r = (bs, None, r') ->
  rest r = bs ++ rest r' /\ Z.of_nat (length bs) = n /\ fin r' = fin r.
Proof.
  intros Hn. unfold ReadFull. destruct (Z.leb_spec n (Z.of_nat (length (rest r)))) as [Hle|];
    [|by destruct (fin r), (take _ _)].
  rewrite Z.min_l by lia. intros [= <- <-]. cbn [rest fin].
  rewrite take_drop, length_take. split_and!; [done| |done]. lia.
Qed.

Lemma slice_range_Ok s a b s' :
  slice_range s a b = Ok s' ->
  0 <= a <= b /\ b <= cap s /\ s' = mk_slice (drop (Z.to_nat a) (arr s)) (b - a).
Proof.
  unfold slice_range. destruct ((0 <=? a) && (a <=? b) && (b <=? cap s)) eqn:E; [|done].
  intros [= <-]. rewrite !andb_true_iff, !Z.leb_le in E. destruct E as [[? ?] ?]. done.
Qed.

Lemma slice_range_in s a b :
  0 <= a <= b -> b <= cap s ->
  slice_range s a b = Ok (mk_slice (drop (Z.to_nat a) (arr s)) (b - a)).
Proof.
  intros H1 H2. unfold slice_range.
  by rewrite !(proj2 (Z.leb_le _ _)) by lia.
Qed.

(** What a slice expression shows of a buffer split at its bounds. *)
Lemma contents_slice_app pre mid post n a b :
  a = Z.of_nat (length pre) -> b = a + Z.of_nat (length mid) ->
  exists s, slice_range (mk_slice (pre ++ mid ++ post) n) a b = Ok s /\
    contents s = mid /\ len s = Z.of_nat (length mid).
Proof.
  intros -> ->. eexists. split; [apply slice_range_in|].
  - lia.
  - unfold cap. cbn [arr]. rewrite !length_app. lia.
  - unfold contents. cbn [arr len]. rewrite Nat2Z.id, drop_app_length.
    replace (Z.to_nat _) with (length mid) by lia. rewrite take_app_length. split; [done|lia].
Qed.

(** A copy into the middle of a buffer replaces exactly that part. *)
Lemma copy_at_app pre old post src a b :
  a = Z.of_nat (length pre) -> length old = length src ->
  a + Z.of_nat (length src) <= b <= Z.of_nat (length (pre ++ old ++ post)) ->
  copy_at a b src (pre ++ old ++ post) = Ok (pre ++ src ++ post).
Proof.
  intros -> Ho Hb. unfold copy_at.
  rewrite !(proj2 (Z.leb_le _ _)) by lia. cbn [andb].
  rewrite Nat2Z.id, Nat.min_r by lia.
  rewrite take_app_length, (take_ge src) by lia.
  rewrite drop_app_add, <- Ho, drop_app_length. done.
Qed.

(** ** Durations are nanoseconds *)
Definition millisecond : Z := 1000000.
Definition second : Z := 1000000000.

(** ** Channels that carry no value: nil, open, closed *)
Inductive chan_state : Type := NilChan | OpenChan | ClosedChan.

#[export] Instance chan_state_eq_dec : EqDecision chan_state.
Proof. solve_decision. Defined.

(** [close(c)] panics on a nil and on a closed channel. *)
Definition close_chan (c : chan_state) : result chan_state :=
  match c with OpenChan => Ok ClosedChan | NilChan | ClosedChan => Panic end.
