(* ===== verification/NetUtil.v ===== *)
(** util/net.go: the address of a host among those of its interfaces.

    The interfaces are data, as [net.Interfaces] and [Addrs] give them; an
    address is the bytes of a [net.IP], or none for an address of another kind
    than [*net.IPNet] and [*net.IPAddr].  [String] of an address is an argument. *)
From S2P Require Import Prelude Go.
Open Scope go_scope.

Notation IP := (list byte).

(** [net.IP]: four bytes, sixteen bytes, or not an address. *)
Definition v4_in_v6 : list byte := replicate 10 x00 ++ [xff; xff].

Definition To4 (ip : IP) : option IP :=
  if decide (length ip = 4%nat) then Some ip
  else if decide (length ip = 16%nat /\ take 12 ip = v4_in_v6) then Some (drop 12 ip)
  else None.

Definition To16 (ip : IP) : option IP :=
  if decide (length ip = 4%nat) then Some (v4_in_v6 ++ ip)
  else if decide (length ip = 16%nat) then Some ip
  else None.

Definition IsLoopback (ip : IP) : bool :=
  match To4 ip with
  | Some (b :: _) => bool_decide (b = x7f)
  | _ => bool_decide (ip = replicate 15 x00 ++ [x01])
  end.

Record iface : Type := mk_iface {
  FlagUp : bool;
  FlagLoopback : bool;
  Addrs : list (option IP) + error
}.

Section external.
Context (String_ : IP -> string).

(** [net.Listen("tcp", "127.0.0.1:0")]: the port of the listener, which is closed
    again. *)
Definition GetFreePort (listen : Z + error) : Z * option error :=
  match listen with inl port => (port, None) | inr e => (0, Some e) end.

(** The loop over the addresses of an interface; [conv] is [To4] or [To16]. *)
Fixpoint first_address (conv : IP -> option IP) (addresses : list (option IP)) : option string :=
  match addresses with
  | [] => None
  | Some ip :: addresses =>
      if IsLoopback ip then first_address conv addresses
      else match conv ip with
           | Some ip => Some (String_ ip)
           | None => first_address conv addresses
           end
  | None :: addresses => first_address conv addresses
  end.

Fixpoint external (conv : IP -> option IP) (iFaces : list iface) : string * option error :=
  match iFaces with
  | [] => ("", Some (ErrorString "are you connected to the network"))
  | i :: iFaces =>
      if negb (FlagUp i) then external conv iFaces
      else if FlagLoopback i then external conv iFaces
      else match Addrs i with
           | inr e => ("", Some e)
           | inl addresses =>
               match first_address conv addresses with
               | Some s => (s, None)
               | None => external conv iFaces
               end
           end
  end.

Definition ExternalIP (conv : IP -> option IP) (interfaces : list iface + error) : string * option error :=
  match interfaces with inl iFaces => external conv iFaces | inr e => ("", Some e) end.

Definition ExternalIPV4 : list iface + error -> string * option error := ExternalIP To4.
Definition ExternalIPV6 : list iface + error -> string * option error := ExternalIP To16.

(** ** Facts *)

(** The addresses in the order in which they are tried. *)
Definition candidates (iFaces : list iface) : list IP :=
  iFaces ≫= fun i =>
    if FlagUp i && negb (FlagLoopback i)
    then match Addrs i with inl a => omap id a | inr _ => [] end
    else [].

Definition readable (iFaces : list iface) : Prop :=
  Forall (fun i => FlagUp i = true -> FlagLoopback i = false -> exists a, Addrs i = inl a) iFaces.

Definition usable (conv : IP -> option IP) (ip : IP) : option IP := if IsLoopback ip then None else conv ip.

Lemma first_address_spec conv addresses :
  first_address conv addresses = String_ <$> head (omap (usable conv) (omap id addresses)).
Proof.
  induction addresses as [|[ip|] addresses IH]; cbn; [done| |done]. unfold usable at 1.
  destruct (IsLoopback ip); [done|]. by destruct (conv ip).
Qed.

Lemma external_spec conv iFaces : readable iFaces ->
  external conv iFaces =
    match head (omap (usable conv) (candidates iFaces)) with
    | Some ip => (String_ ip, None)
    | None => ("", Some (ErrorString "are you connected to the network"))
    end.
Proof.
  induction 1 as [|i iFaces Hi _ IH]; [done|]. cbn [external]. unfold candidates. rewrite bind_cons. fold (candidates iFaces).
  destruct (FlagUp i), (FlagLoopback i); cbn [negb andb]; try exact IH.
  destruct (Hi eq_refl eq_refl) as [a ->]. rewrite first_address_spec, omap_app.
  by destruct (omap (usable conv) (omap id a)).
Qed.

(** [ExternalIPV4] gives the first address of version four that is not loopback,
    of the interfaces that are up and not loopback.  [ExternalIPV6] gives the
    first address of either version: its answer is of version six only when no
    address of version four comes before. *)
Theorem external_addresses iFaces : readable iFaces ->
  Forall (fun ip => length ip = 4%nat \/ length ip = 16%nat) (candidates iFaces) ->
  let up := filter (fun ip => IsLoopback ip = false) (candidates iFaces) in
  ExternalIPV4 (inl iFaces) =
    match head (omap To4 up) with
    | Some ip => (String_ ip, None) | None => ("", Some (ErrorString "are you connected to the network"))
    end /\
  ExternalIPV6 (inl iFaces) =
    match up with
    | ip :: _ => (String_ (default [] (To16 ip)), None) | [] => ("", Some (ErrorString "are you connected to the network"))
    end.
Proof.
  intros Hr Hlen up. unfold ExternalIPV4, ExternalIPV6, ExternalIP. rewrite !external_spec by done.
  assert (Hup : forall conv, omap (usable conv) (candidates iFaces) = omap conv up).
  { intros conv. unfold up. generalize (candidates iFaces). intros l. induction l as [|ip l IH]; [done|].
    rewrite filter_cons. cbn [omap list_omap]. unfold usable at 1. destruct (IsLoopback ip) eqn:E.
    - by rewrite decide_False.
    - rewrite decide_True by done. cbn [omap list_omap]. by rewrite <- IH. }
  rewrite !Hup. split; [done|].
  assert (Hup16 : Forall (fun ip => length ip = 4%nat \/ length ip = 16%nat) up).
  { apply Forall_forall. intros ip [_ Hin]%list_elem_of_filter. by eapply Forall_forall in Hlen. }
  destruct Hup16 as [|ip l Hip _]; [done|]. cbn. unfold To16. destruct Hip as [->| ->]; done.
Qed.
End external.

(** A host with one address of version four has it as its external address of
    version six. *)
Example ipv6_is_ipv4 :
  ExternalIPV6 string_of (inl [mk_iface true false (inl [Some (map zb [10; 0; 0; 5])])]) =
    (string_of (v4_in_v6 ++ map zb [10; 0; 0; 5]), None).
Proof. vm_compute. reflexivity. Qed.
