(* ===== verification/Share.v ===== *)
(** share/share.go and share/context.go: the names both sides use in metadata,
    and the context that carries values through a call. *)
From S2P Require Import Prelude Go.

(** [AuthKey], [ServerAddress], [ServerTimeout] of share.go. *)
Definition AuthKey : string := "__AUTH".
Definition ServerAddress : string := "__ServerAddress".
Definition ServerTimeout : string := "__ServerTimeout".

(** ** [share.Context]

    [K] are the comparable Go values used as keys; [tags] is nil in a zero
    [Context]; [parent] is the [Value] method of the embedded context. *)
Section context.
Context {K V : Type} `{Countable K}.

Record share_Context : Type := mk_Context { tags : option (gmap K V); parent : K -> option V }.

Definition ctx_Value (key : K) (c : share_Context) : share_Context * option V :=
  let m := default ∅ (tags c) in
  (mk_Context (Some m) (parent c), match m !! key with Some v => Some v | None => parent c key end).

Definition ctx_SetValue (key : K) (val : V) (c : share_Context) : share_Context :=
  mk_Context (Some (<[key := val]> (default ∅ (tags c)))) (parent c).

(** A nil key is [None]. *)
Definition ctx_DeleteKey (key : option K) (c : share_Context) : share_Context :=
  match tags c, key with
  | Some m, Some key => mk_Context (Some (delete key m)) (parent c)
  | _, _ => c
  end.

Definition NewContext (ctx : K -> option V) : share_Context := mk_Context (Some ∅) ctx.

Definition WithValue (ctx : K -> option V) (key : option K) (val : V) : result share_Context :=
  match key with
  | None => Panic
  | Some key => Ok (mk_Context (Some {[key := val]}) ctx)
  end.

(** Reading does not change what a context gives. *)
Lemma ctx_Value_pure k k' c : (ctx_Value k' (ctx_Value k c).1).2 = (ctx_Value k' c).2.
Proof. unfold ctx_Value. cbn. by destruct (tags c). Qed.

(** The last value set wins, over the parent's; other keys are untouched. *)
Lemma ctx_Value_set k v c : (ctx_Value k (ctx_SetValue k v c)).2 = Some v.
Proof. unfold ctx_Value, ctx_SetValue. cbn. by rewrite lookup_insert_eq. Qed.

Lemma ctx_Value_set_ne k k' v c : k <> k' -> (ctx_Value k' (ctx_SetValue k v c)).2 = (ctx_Value k' c).2.
Proof. intros. unfold ctx_Value, ctx_SetValue. cbn. by rewrite lookup_insert_ne. Qed.

(** Deleting a key uncovers the parent's value. *)
Lemma ctx_Value_delete k c : (ctx_Value k (ctx_DeleteKey (Some k) c)).2 = parent c k.
Proof.
  unfold ctx_Value, ctx_DeleteKey. destruct (tags c) as [m|] eqn:E; cbn; [by rewrite lookup_delete_eq|].
  rewrite E. cbn. by rewrite lookup_empty.
Qed.
End context.
