(* ===== verification/Header.v ===== *)
(** protocol/message_header.go, message_type.go and message_magic_number.go:
    the twelve-byte header of a message and its bit fields, with the record of
    fields a header stands for and the theorem that every getter and setter
    works on that record. *)
From S2P Require Import Prelude Go.
Open Scope go_scope.

(** ** Constants of message_type.go *)
Definition Request : byte := x00.
Definition Response : byte := x01.
Definition Normal : byte := x00.
(** [protocol.Error], renamed because [Error] is the method of errors. *)
Definition StatusError : byte := x01.
Definition None_ : byte := x00.
Definition Gzip : byte := x01.
Definition SerializeNone : byte := x00.
Definition JSON : byte := x01.
Definition ProtoBuffer : byte := x02.
Definition MsgPack : byte := x03.
Definition Thrift : byte := x04.

Definition magicNumber : byte := x08.
Definition MagicNumber : byte := magicNumber.

(** ** The header: [type Header [12]byte] *)
Definition Header : Type := list byte.
Definition Header_wf (h : Header) : Prop := length h = 12%nat.

(** [Header([12]byte{})] with [header[0] = magicNumber]. *)
Definition newHeader : Header := <[0%nat:=magicNumber]> (replicate 12 x00).

Definition CheckMagicNumber (h : Header) : bool := bool_decide (h !!! 0%nat = magicNumber).

Definition Version (h : Header) : byte := h !!! 1%nat.
Definition SetVersion (v : byte) (h : Header) : Header := <[1%nat:=v]> h.

Definition MessageType (h : Header) : byte := (h !!! 2%nat .& x80) .>> 7.
Definition SetMessageType (mt : byte) (h : Header) : Header :=
  <[2%nat := h !!! 2%nat .| (mt .<< 7)]> h.

Definition IsHeartbeat (h : Header) : bool := bool_decide (h !!! 2%nat .& x40 = x40).
Definition SetHeartbeat (hb : bool) (h : Header) : Header :=
  if hb then <[2%nat := h !!! 2%nat .| x40]> h else <[2%nat := h !!! 2%nat .&^ x40]> h.

Definition IsOneway (h : Header) : bool := bool_decide (h !!! 2%nat .& x20 = x20).
Definition SetOneway (oneway : bool) (h : Header) : Header :=
  if oneway then <[2%nat := h !!! 2%nat .| x20]> h else <[2%nat := h !!! 2%nat .&^ x20]> h.

Definition CompressType (h : Header) : byte := (h !!! 2%nat .& x1c) .>> 2.
Definition SetCompressType (ct : byte) (h : Header) : Header :=
  <[2%nat := (h !!! 2%nat .&^ x1c) .| ((ct .<< 2) .& x1c)]> h.

Definition MessageStatusType (h : Header) : byte := h !!! 2%nat .& x03.
Definition SetMessageStatusType (mt : byte) (h : Header) : Header :=
  <[2%nat := (h !!! 2%nat .&^ x03) .| (mt .& x03)]> h.

Definition SerializeType (h : Header) : byte := (h !!! 3%nat .& xf0) .>> 4.
Definition SetSerializeType (st : byte) (h : Header) : Header :=
  <[3%nat := (h !!! 3%nat .&^ xf0) .| (st .<< 4)]> h.

(** [binary.BigEndian.Uint64(h[4:])] and [PutUint64(h[4:], seq)]. *)
Definition Seq (h : Header) : Z := be_get (take 8 (drop 4 h)).
Definition SetSeq (seq : Z) (h : Header) : Header := take 4 h ++ be64 seq.

(** ** The fields a header stands for *)
Record fields : Type := mk_fields {
  f_magic : byte;
  f_version : byte;
  f_type : byte;
  f_heartbeat : bool;
  f_oneway : bool;
  f_compress : byte;
  f_status : byte;
  f_serialize : byte;
  f_reserved : byte;
  f_seq : Z
}.

Definition view (h : Header) : fields := {|
  f_magic := h !!! 0%nat;
  f_version := Version h;
  f_type := MessageType h;
  f_heartbeat := IsHeartbeat h;
  f_oneway := IsOneway h;
  f_compress := CompressType h;
  f_status := MessageStatusType h;
  f_serialize := SerializeType h;
  f_reserved := h !!! 3%nat .& x0f;
  f_seq := Seq h
|}.

(** The header that carries given fields. *)
Definition unview (f : fields) : Header :=
  f_magic f :: f_version f ::
  ((f_type f .<< 7) .| ((if f_heartbeat f then x40 else x00)
     .| ((if f_oneway f then x20 else x00) .| ((f_compress f .<< 2) .| f_status f)))) ::
  ((f_serialize f .<< 4) .| f_reserved f) :: be64 (f_seq f).

(** The fields packed in byte 2, and the two halves of byte 3. *)
Definition flags (b : byte) : byte * bool * bool * byte * byte :=
  ((b .& x80) .>> 7, bool_decide (b .& x40 = x40), bool_decide (b .& x20 = x20),
   (b .& x1c) .>> 2, b .& x03).
Definition nibbles (b : byte) : byte * byte := ((b .& xf0) .>> 4, b .& x0f).

Lemma flags_type b mt : flags (b .| (mt .<< 7)) =
  (((b .& x80) .>> 7) .| (mt .& x01), bool_decide (b .& x40 = x40),
   bool_decide (b .& x20 = x20), (b .& x1c) .>> 2, b .& x03).
Proof. byte_compute2 b mt. Qed.

Lemma flags_heartbeat b hb : flags (if hb : bool then b .| x40 else b .&^ x40) =
  ((b .& x80) .>> 7, hb, bool_decide (b .& x20 = x20), (b .& x1c) .>> 2, b .& x03).
Proof. destruct hb; byte_compute1 b. Qed.

Lemma flags_oneway b ow : flags (if ow : bool then b .| x20 else b .&^ x20) =
  ((b .& x80) .>> 7, bool_decide (b .& x40 = x40), ow, (b .& x1c) .>> 2, b .& x03).
Proof. destruct ow; byte_compute1 b. Qed.

Lemma flags_compress b ct : flags ((b .&^ x1c) .| ((ct .<< 2) .& x1c)) =
  ((b .& x80) .>> 7, bool_decide (b .& x40 = x40), bool_decide (b .& x20 = x20),
   ct .& x07, b .& x03).
Proof. byte_compute2 b ct. Qed.

Lemma flags_status b st : flags ((b .&^ x03) .| (st .& x03)) =
  ((b .& x80) .>> 7, bool_decide (b .& x40 = x40), bool_decide (b .& x20 = x20),
   (b .& x1c) .>> 2, st .& x03).
Proof. byte_compute2 b st. Qed.

Lemma nibbles_serialize b st : nibbles ((b .&^ xf0) .| (st .<< 4)) = (st .& x0f, b .& x0f).
Proof. byte_compute2 b st. Qed.

Lemma flags_unpack b :
  (let '(t, hb, ow, ct, st) := flags b in
   (t .<< 7) .| ((if hb then x40 else x00) .| ((if ow then x20 else x00) .| ((ct .<< 2) .| st))))
  = b.
Proof. byte_compute1 b. Qed.

Lemma nibbles_unpack b : (let '(hi, lo) := nibbles b in (hi .<< 4) .| lo) = b.
Proof. byte_compute1 b. Qed.

(** A well-formed header is its four leading bytes and the eight of [seq]. *)
Lemma Header_wf_inv h : Header_wf h ->
  exists b0 b1 b2 b3 sq, h = b0 :: b1 :: b2 :: b3 :: sq /\ length sq = 8%nat.
Proof.
  intros H. unfold Header_wf in H.
  destruct h as [|b0 [|b1 [|b2 [|b3 sq]]]]; try discriminate.
  exists b0, b1, b2, b3, sq. naive_solver.
Qed.

Lemma Seq_explode b0 b1 b2 b3 sq :
  length sq = 8%nat -> Seq (b0 :: b1 :: b2 :: b3 :: sq) = be_get sq.
Proof. intros H. unfold Seq. change (drop 4 _) with sq. by rewrite take_ge by lia. Qed.

Lemma unview_view h : Header_wf h -> unview (view h) = h.
Proof.
  intros (b0 & b1 & b2 & b3 & sq & -> & Hl)%Header_wf_inv.
  unfold unview, view. cbn [f_magic f_version f_type f_heartbeat f_oneway f_compress
    f_status f_serialize f_reserved f_seq].
  rewrite Seq_explode by done. unfold be64. rewrite <- Hl, be_put_get.
  f_equal. f_equal. f_equal; [apply flags_unpack|]. f_equal. apply nibbles_unpack.
Qed.

Lemma view_inj h1 h2 : Header_wf h1 -> Header_wf h2 -> view h1 = view h2 -> h1 = h2.
Proof. intros H1 H2 E. by rewrite <- (unview_view h1), <- (unview_view h2), E. Qed.

Lemma length_header_set (h : list byte) i b : length (<[i:=b]> h) = length h.
Proof. apply length_insert. Qed.

Create HintDb header.
Create Rewrite HintDb header.
#[export] Hint Rewrite length_header_set : header.

Lemma SetSeq_wf seq h : Header_wf h -> Header_wf (SetSeq seq h).
Proof.
  unfold Header_wf, SetSeq, be64. intros H.
  rewrite length_app, length_take, length_be_put. lia.
Qed.

(** Every setter keeps the header at twelve bytes. *)
Ltac header_wf := unfold Header_wf, SetVersion, SetMessageType, SetHeartbeat, SetOneway,
  SetCompressType, SetMessageStatusType, SetSerializeType in *;
  repeat case_match; autorewrite with header; assumption.

Lemma SetVersion_wf v h : Header_wf h -> Header_wf (SetVersion v h).
Proof. intros; header_wf. Qed.
Lemma SetMessageType_wf v h : Header_wf h -> Header_wf (SetMessageType v h).
Proof. intros; header_wf. Qed.
Lemma SetHeartbeat_wf v h : Header_wf h -> Header_wf (SetHeartbeat v h).
Proof. intros; header_wf. Qed.
Lemma SetOneway_wf v h : Header_wf h -> Header_wf (SetOneway v h).
Proof. intros; header_wf. Qed.
Lemma SetCompressType_wf v h : Header_wf h -> Header_wf (SetCompressType v h).
Proof. intros; header_wf. Qed.
Lemma SetMessageStatusType_wf v h : Header_wf h -> Header_wf (SetMessageStatusType v h).
Proof. intros; header_wf. Qed.
Lemma SetSerializeType_wf v h : Header_wf h -> Header_wf (SetSerializeType v h).
Proof. intros; header_wf. Qed.
Lemma newHeader_wf : Header_wf newHeader.
Proof. reflexivity. Qed.

#[export] Hint Resolve SetVersion_wf SetMessageType_wf SetHeartbeat_wf SetOneway_wf
  SetCompressType_wf SetMessageStatusType_wf SetSerializeType_wf SetSeq_wf newHeader_wf : header.

(** The abstract effect of each setter on the fields. *)
Definition with_version (v : byte) (f : fields) : fields :=
  mk_fields (f_magic f) v (f_type f) (f_heartbeat f) (f_oneway f) (f_compress f) (f_status f)
    (f_serialize f) (f_reserved f) (f_seq f).
Definition with_type (t : byte) (f : fields) : fields :=
  mk_fields (f_magic f) (f_version f) t (f_heartbeat f) (f_oneway f) (f_compress f) (f_status f)
    (f_serialize f) (f_reserved f) (f_seq f).
Definition with_heartbeat (b : bool) (f : fields) : fields :=
  mk_fields (f_magic f) (f_version f) (f_type f) b (f_oneway f) (f_compress f) (f_status f)
    (f_serialize f) (f_reserved f) (f_seq f).
Definition with_oneway (b : bool) (f : fields) : fields :=
  mk_fields (f_magic f) (f_version f) (f_type f) (f_heartbeat f) b (f_compress f) (f_status f)
    (f_serialize f) (f_reserved f) (f_seq f).
Definition with_compress (c : byte) (f : fields) : fields :=
  mk_fields (f_magic f) (f_version f) (f_type f) (f_heartbeat f) (f_oneway f) c (f_status f)
    (f_serialize f) (f_reserved f) (f_seq f).
Definition with_status (s : byte) (f : fields) : fields :=
  mk_fields (f_magic f) (f_version f) (f_type f) (f_heartbeat f) (f_oneway f) (f_compress f) s
    (f_serialize f) (f_reserved f) (f_seq f).
Definition with_serialize (s : byte) (f : fields) : fields :=
  mk_fields (f_magic f) (f_version f) (f_type f) (f_heartbeat f) (f_oneway f) (f_compress f)
    (f_status f) s (f_reserved f) (f_seq f).
Definition with_seq (n : Z) (f : fields) : fields :=
  mk_fields (f_magic f) (f_version f) (f_type f) (f_heartbeat f) (f_oneway f) (f_compress f)
    (f_status f) (f_serialize f) (f_reserved f) n.

(** The view of an exploded header, in terms of [flags] and [nibbles]. *)
Lemma view_explode b0 b1 b2 b3 sq : length sq = 8%nat ->
  view (b0 :: b1 :: b2 :: b3 :: sq) =
  let '(t, hb, ow, ct, st) := flags b2 in
  let '(hi, lo) := nibbles b3 in
  mk_fields b0 b1 t hb ow ct st hi lo (be_get sq).
Proof. intros H. rewrite <- (Seq_explode b0 b1 b2 b3 sq H). reflexivity. Qed.

Ltac header_view :=
  match goal with
  | H : Header_wf ?h |- _ =>
      destruct (Header_wf_inv h H) as (? & ? & ? & ? & ? & -> & ?)
  end.

Lemma view_SetVersion v h : Header_wf h -> view (SetVersion v h) = with_version v (view h).
Proof. intros. by header_view. Qed.

Lemma view_SetMessageType mt h : Header_wf h ->
  view (SetMessageType mt h) = with_type (MessageType h .| (mt .& x01)) (view h).
Proof.
  intros. header_view. unfold SetMessageType. cbn [insert list_insert].
  by rewrite !view_explode, flags_type.
Qed.

Lemma view_SetHeartbeat hb h : Header_wf h ->
  view (SetHeartbeat hb h) = with_heartbeat hb (view h).
Proof.
  intros. header_view. replace (SetHeartbeat hb _) with
    (x :: x0 :: (if hb then x1 .| x40 else x1 .&^ x40) :: x2 :: x3) by (by destruct hb).
  by rewrite !view_explode, flags_heartbeat.
Qed.

Lemma view_SetOneway ow h : Header_wf h ->
  view (SetOneway ow h) = with_oneway ow (view h).
Proof.
  intros. header_view. replace (SetOneway ow _) with
    (x :: x0 :: (if ow then x1 .| x20 else x1 .&^ x20) :: x2 :: x3) by (by destruct ow).
  by rewrite !view_explode, flags_oneway.
Qed.

Lemma view_SetCompressType ct h : Header_wf h ->
  view (SetCompressType ct h) = with_compress (ct .& x07) (view h).
Proof.
  intros. header_view. unfold SetCompressType. cbn [insert list_insert].
  by rewrite !view_explode, flags_compress.
Qed.

Lemma view_SetMessageStatusType st h : Header_wf h ->
  view (SetMessageStatusType st h) = with_status (st .& x03) (view h).
Proof.
  intros. header_view. unfold SetMessageStatusType. cbn [insert list_insert].
  by rewrite !view_explode, flags_status.
Qed.

Lemma view_SetSerializeType st h : Header_wf h ->
  view (SetSerializeType st h) = with_serialize (st .& x0f) (view h).
Proof.
  intros. header_view. unfold SetSerializeType. cbn [insert list_insert].
  by rewrite !view_explode, nibbles_serialize.
Qed.

Lemma view_SetSeq n h : Header_wf h -> view (SetSeq n h) = with_seq (u64 n) (view h).
Proof.
  intros. header_view. change (SetSeq n _) with (x :: x0 :: x1 :: x2 :: be64 n).
  rewrite !view_explode by (done || apply length_be_put).
  unfold be64. rewrite be_get_put. done.
Qed.

(** ** Properties *)

(** A call of one of the eight setters, what it does to the twelve bytes and
    what it promises about the fields. *)
Inductive setter : Type :=
| OpVersion (v : byte) | OpMessageType (mt : byte) | OpHeartbeat (hb : bool) | OpOneway (ow : bool)
| OpCompress (ct : byte) | OpStatus (st : byte) | OpSerialize (st : byte) | OpSeq (n : Z).

Definition apply_setter (o : setter) : Header -> Header :=
  match o with
  | OpVersion v => SetVersion v | OpMessageType mt => SetMessageType mt
  | OpHeartbeat b => SetHeartbeat b | OpOneway b => SetOneway b
  | OpCompress ct => SetCompressType ct | OpStatus st => SetMessageStatusType st
  | OpSerialize st => SetSerializeType st | OpSeq n => SetSeq n
  end.

Definition spec_setter (o : setter) (f : fields) : fields :=
  match o with
  | OpVersion v => with_version v f
  | OpMessageType mt => with_type (f_type f .| (mt .& x01)) f
  | OpHeartbeat b => with_heartbeat b f
  | OpOneway b => with_oneway b f
  | OpCompress ct => with_compress (ct .& x07) f
  | OpStatus st => with_status (st .& x03) f
  | OpSerialize st => with_serialize (st .& x0f) f
  | OpSeq n => with_seq (u64 n) f
  end.

Lemma apply_setter_wf o h : Header_wf h -> Header_wf (apply_setter o h).
Proof. destruct o; cbn; auto with header. Qed.

Lemma apply_setter_spec o h : Header_wf h -> view (apply_setter o h) = spec_setter o (view h).
Proof.
  intros H. destruct o; cbn [apply_setter spec_setter];
    auto using view_SetVersion, view_SetMessageType, view_SetHeartbeat, view_SetOneway,
      view_SetCompressType, view_SetMessageStatusType, view_SetSerializeType, view_SetSeq.
Qed.

(** C6: the twelve header bytes implement a record of nine independent fields.
    After any sequence of setter calls on a well-formed header the header is
    well-formed, its fields are those the abstract setters give (each setter
    changes its own field, cut to the field's width, and no other), and two
    headers with the same fields are the same bytes. *)
Theorem setters_refine ops h :
  Header_wf h ->
  Header_wf (fold_left (fun h o => apply_setter o h) ops h) /\
  view (fold_left (fun h o => apply_setter o h) ops h)
    = fold_left (fun f o => spec_setter o f) ops (view h) /\
  (forall h', Header_wf h' -> view h' = view h -> h' = h).
Proof.
  intros H. split_and!; [| |auto using view_inj].
  - revert h H. induction ops as [|o ops IH]; cbn; auto using apply_setter_wf.
  - revert h H. induction ops as [|o ops IH]; intros h H; cbn [fold_left]; [done|].
    rewrite IH by auto using apply_setter_wf. by rewrite apply_setter_spec.
Qed.

Lemma setters_refine_witness :
  Header_wf newHeader /\
  view (fold_left (fun h o => apply_setter o h)
          [OpCompress Gzip; OpSeq 258; OpStatus StatusError; OpOneway true] newHeader)
  = mk_fields magicNumber x00 x00 false true Gzip StatusError x00 x00 258.
Proof.
  split; [reflexivity|].
  etransitivity; [apply (setters_refine _ newHeader); reflexivity|]. vm_compute. reflexivity.
Defined.

(** [SetMessageType] only ORs the bit: a header that says [Response] still
    says [Response] after any sequence of [SetMessageType] calls. *)
Theorem SetMessageType_sticky mts h :
  Header_wf h -> MessageType h = Response ->
  MessageType (fold_left (fun h mt => SetMessageType mt h) mts h) = Response.
Proof.
  revert h. induction mts as [|mt mts IH]; intros h H Hr; cbn [fold_left]; [done|].
  apply IH; [auto with header|].
  change (f_type (view (SetMessageType mt h)) = Response).
  rewrite view_SetMessageType by done. cbn [f_type with_type]. rewrite Hr.
  clear. by destruct mt.
Qed.

Lemma SetMessageType_sticky_witness :
  MessageType (fold_left (fun h mt => SetMessageType mt h) [Request]
    (SetMessageType Response newHeader)) = Response.
Proof. apply SetMessageType_sticky; reflexivity. Defined.
