(* ===== verification/Message.v ===== *)
(** protocol/message.go, message_pool.go, func.go and compressor.go: messages,
    their wire format ([EncodeSlicePointer], [WriteTo], [Decode]), the metadata
    block, cloning, resetting and the message pool. *)
From S2P Require Import Prelude Go Header.
Open Scope go_scope.

(** ** Data *)

(** The key [ServiceError] of metadata. *)
Definition ServiceErrorKey : string := "__irpc_error__".

(** [Metadata] is a Go map, [None] when nil.  [data] is the buffer the message
    was read into; it keeps its capacity when the message is reset. *)
Record message : Type := mk_message {
  hdr : Header;
  ServicePath : string;
  ServiceMethod : string;
  Metadata : option (gmap string string);
  Payload : list byte;
  data : slice
}.

Definition set_hdr (h : Header) (m : message) : message :=
  mk_message h (ServicePath m) (ServiceMethod m) (Metadata m) (Payload m) (data m).
Definition set_ServicePath (s : string) (m : message) : message :=
  mk_message (hdr m) s (ServiceMethod m) (Metadata m) (Payload m) (data m).
Definition set_ServiceMethod (s : string) (m : message) : message :=
  mk_message (hdr m) (ServicePath m) s (Metadata m) (Payload m) (data m).
Definition set_Metadata (x : option (gmap string string)) (m : message) : message :=
  mk_message (hdr m) (ServicePath m) (ServiceMethod m) x (Payload m) (data m).
Definition set_Payload (p : list byte) (m : message) : message :=
  mk_message (hdr m) (ServicePath m) (ServiceMethod m) (Metadata m) p (data m).
Definition set_data (d : slice) (m : message) : message :=
  mk_message (hdr m) (ServicePath m) (ServiceMethod m) (Metadata m) (Payload m) d.

(** Reading a nil map gives the zero value; so does a missing key. *)
Definition meta_get (k : string) (x : option (gmap string string)) : string :=
  default "" (m ← x; m !! k).

(** The [Compressor] interface and the [Compressors] map. *)
Record Compressor : Type := mk_Compressor {
  Zip : list byte -> result (list byte);
  Unzip : list byte -> result (list byte)
}.
Definition compressors : Type := byte -> option Compressor.

Definition RawDataCompressor : Compressor := mk_Compressor (fun d => Ok d) (fun d => Ok d).

(** [var Compressors]: the two entries of the source; [util.Zip] and
    [util.Unzip] (compress/gzip) are the parameter [gz]. *)
Definition Compressors (gz : Compressor) : compressors := fun ct =>
  if decide (ct = None_) then Some RawDataCompressor
  else if decide (ct = Gzip) then Some gz
  else None.

(** What a caller relies on of a registered compressor: zipping succeeds and
    unzipping gives the data back. *)
Class CompressorLaws (cs : compressors) : Prop :=
  zip_unzip : forall ct c d, cs ct = Some c ->
    exists z, Zip c d = Ok z /\ Unzip c z = Ok d.

(** [bufferPool.Get]: a buffer of the requested length with any contents. *)
Class BufferGet (get : Z -> list byte) : Prop :=
  length_get : forall l, 0 <= l -> Z.of_nat (length (get l)) = l.

(** ** Making, resetting, cloning *)

Definition NewMessage : message :=
  mk_message newHeader "" "" None [] (mk_slice [] 0).

(** [copy(h[1:], zeroHeader)]. *)
Definition resetHeader (h : Header) : Header := take 1 h ++ replicate 11 x00.

Definition Reset (m : message) : message :=
  mk_message (resetHeader (hdr m)) "" "" None [] (mk_slice (arr (data m)) 0).

(** A pool is a set of messages; [Get] returns any of them or a new one, which
    the caller of the model chooses. *)
Definition GetPooledMsg (choice : nat) (pool : list message) : message * list message :=
  match pool !! choice with
  | Some m => (m, delete choice pool)
  | None => (NewMessage, pool)
  end.

(** [FreeMsg] resets and pools a message with a small buffer.  The pointer the
    caller still holds sees the reset message. *)
Definition FreeMsg (m : message) (pool : list message) : message * list message :=
  if cap (data m) <? 1024 then (Reset m, Reset m :: pool) else (m, pool).

(** [Clone]: [c] is the message taken from the pool. *)
Definition Clone (m c : message) : message :=
  set_ServiceMethod (ServiceMethod m) (set_ServicePath (ServicePath m)
    (set_hdr (SetCompressType None_ (hdr m)) c)).

Definition HandleError (err : option error) (m : message) : message :=
  match err with
  | None => m
  | Some e =>
      let m := set_hdr (SetMessageStatusType StatusError (hdr m)) m in
      let meta := default ∅ (Metadata m) in
      set_Metadata (Some (<[ServiceErrorKey := Error e]> meta)) m
  end.

(** ** Metadata block *)

(** [encodeMetadata] writes the pairs in the order Go's map iteration gives
    them: [kvs] is that order. *)
Definition encodeMetadata (kvs : list (string * string)) : list byte :=
  fold_left (fun bb '(k, v) =>
    bb ++ be32 (slen k) ++ StringToSliceByte k ++ be32 (slen v) ++ StringToSliceByte v)
    kvs [].

(** The loop of [decodeMetadata]: [n], [l] and their sums are [uint32].  The
    fuel bounds the iterations; [decodeMetadata_total] shows it is enough. *)
Fixpoint decodeMetadata_loop (fuel : nat) (l : Z) (d : slice) (n : Z)
    (m : gmap string string) : gmap string string * result unit :=
  if negb (n <? l) then (m, Ok tt) else
  match fuel with
  | O => (m, Blocked)
  | S fuel =>
      match slice_range d n (u32 (n + 4)) ≫= Uint32 with
      | Ok sl =>
          let n := u32 (n + 4) in
          if u32 (l - 4) <? u32 (n + sl) then (m, Err ErrMetaKVMissing) else
          match slice_range d n (u32 (n + sl)) with
          | Ok ks =>
              let k := string_of (contents ks) in
              let n := u32 (n + sl) in
              match slice_range d n (u32 (n + 4)) ≫= Uint32 with
              | Ok sl =>
                  let n := u32 (n + 4) in
                  if l <? u32 (n + sl) then (m, Err ErrMetaKVMissing) else
                  match slice_range d n (u32 (n + sl)) with
                  | Ok vs =>
                      let v := string_of (contents vs) in
                      decodeMetadata_loop fuel l d (u32 (n + sl)) (<[k := v]> m)
                  | _ => (m, Panic)
                  end
              | _ => (m, Panic)
              end
          | _ => (m, Panic)
          end
      | _ => (m, Panic)
      end
  end.

(** Each iteration moves [n] by at least eight within the slice's capacity. *)
Definition decodeMetadata (l : Z) (d : slice) : gmap string string * result unit :=
  decodeMetadata_loop (S (length (arr d))) l d 0 ∅.

(** ** Encoding *)
Section encode.
Context (cs : compressors) (get : Z -> list byte).

(** The payload [EncodeSlicePointer] sends and the header it leaves: an
    unknown compressor or a failing [Zip] falls back to the raw payload and
    clears the compress type in the shared header. *)
Definition compressPayload (m : message) : result (Header * list byte) :=
  if decide (CompressType (hdr m) = None_) then Ok (hdr m, Payload m)
  else match cs (CompressType (hdr m)) with
       | None => Ok (SetCompressType None_ (hdr m), Payload m)
       | Some compressor =>
           match Zip compressor (Payload m) with
           | Ok z => Ok (hdr m, z)
           | Err _ => Ok (SetCompressType None_ (hdr m), Payload m)
           | Panic => Panic | Fatal => Fatal | Blocked => Blocked
           end
       end.

(** [EncodeSlicePointer]: the bytes and the header it leaves behind.  [kvs] is
    the order in which the map iteration visits the metadata. *)
Definition EncodeSlicePointer (kvs : list (string * string)) (m : message)
    : result (list byte * Header) :=
  let meta := encodeMetadata kvs in
  let metaL := Z.of_nat (length meta) in
  let spL := slen (ServicePath m) in
  let smL := slen (ServiceMethod m) in
  '(h, payload) ← compressPayload m;
  let payL := Z.of_nat (length payload) in
  let totalL := (4 + spL) + (4 + smL) + (4 + metaL) + (4 + payL) in
  let metaStart := 12 + 4 + (4 + spL) + (4 + smL) in
  let payLoadStart := metaStart + (4 + metaL) in
  let l := 12 + 4 + totalL in
  let d := get l in
  let L := Z.of_nat (length d) in
  d ← copy_at 0 L h d;
  d ← copy_at 12 16 (be32 totalL) d;
  d ← copy_at 16 20 (be32 spL) d;
  d ← copy_at 20 (20 + spL) (StringToSliceByte (ServicePath m)) d;
  d ← copy_at (20 + spL) (24 + spL) (be32 smL) d;
  d ← copy_at (24 + spL) metaStart (StringToSliceByte (ServiceMethod m)) d;
  d ← copy_at metaStart (metaStart + 4) (be32 metaL) d;
  d ← copy_at (metaStart + 4) L meta d;
  d ← copy_at payLoadStart (payLoadStart + 4) (be32 payL) d;
  d ← copy_at (payLoadStart + 4) L payload d;
  Ok (d, h).

(** [Encode] returns the bytes only. *)
Definition Encode (kvs : list (string * string)) (m : message) : result (list byte) :=
  '(d, _) ← EncodeSlicePointer kvs m; Ok d.
End encode.

(** ** Writing to a writer

    A writer holds what has been written and a script of the outcomes of the
    next [Write] calls: [Some (k, e)] writes [k] bytes and fails with [e], an
    exhausted script succeeds. *)
Record writer : Type := mk_writer { out : list byte; script : list (option (nat * error)) }.

Definition Write (p : list byte) (w : writer) : writer * (Z * option error) :=
  match script w with
  | Some (k, e) :: sc =>
      let k := Nat.min k (length p) in
      (mk_writer (out w ++ take k p) sc, (Z.of_nat k, Some e))
  | None :: sc => (mk_writer (out w ++ p) sc, (Z.of_nat (length p), None))
  | [] => (mk_writer (out w ++ p) [], (Z.of_nat (length p), None))
  end.

(** Write the chunks one after the other and stop at the first failure. *)
Fixpoint write_all (ps : list (list byte)) (w : writer) : writer * option error :=
  match ps with
  | [] => (w, None)
  | p :: ps =>
      match Write p w with
      | (w, (_, Some e)) => (w, Some e)
      | (w, (_, None)) => write_all ps w
      end
  end.

Definition WriteTo (cs : compressors) (kvs : list (string * string)) (m : message) (w : writer)
    : writer * result (Z * option error) :=
  let '(w, (n, err)) := Write (hdr m) w in
  match err with
  | Some e => (w, Ok (n, Some e))
  | None =>
      let meta := encodeMetadata kvs in
      let spL := slen (ServicePath m) in
      let smL := slen (ServiceMethod m) in
      let compressed :=
        if decide (CompressType (hdr m) = None_) then Ok (Payload m)
        else match cs (CompressType (hdr m)) with
             | None => Err ErrUnsupportedCompressor
             | Some compressor => Zip compressor (Payload m)
             end in
      match compressed with
      | Ok payload =>
          let totalL := (4 + spL) + (4 + smL) + (4 + Z.of_nat (length meta))
                        + (4 + Z.of_nat (length payload)) in
          match write_all [be32 totalL;
                           be32 (slen (ServicePath m)); StringToSliceByte (ServicePath m);
                           be32 (slen (ServiceMethod m)); StringToSliceByte (ServiceMethod m);
                           be32 (Z.of_nat (length meta)); meta;
                           be32 (Z.of_nat (length payload))] w with
          | (w, Some e) => (w, Ok (n, Some e))
          | (w, None) =>
              let '(w, (nn, err)) := Write payload w in
              (w, Ok (nn, err))
          end
      | Err e => (w, Ok (n, Some e))
      | Panic => (w, Panic) | Fatal => (w, Fatal) | Blocked => (w, Blocked)
      end
  end.

(** ** Decoding *)
Section decode.
Context (cs : compressors) (MaxMessageLength : Z).

(** The state of [Decode]: the reader and the message being filled. *)
Definition dstate : Type := reader * message.

(** [io.ReadFull(r, m.Header[i:j])]. *)
Definition readHeader (i j : nat) : prog dstate unit := fun '(r, m) =>
  let '(got, err, r) := ReadFull (Z.of_nat (j - i)) r in
  let h := take i (hdr m) ++ overlay got (drop i (hdr m)) in
  ((r, set_hdr h m), match err with None => Ok tt | Some e => Err e end).

(** [io.ReadFull] into the four-byte pooled buffer, and its value. *)
Definition readUint32 : prog dstate Z := fun '(r, m) =>
  let '(got, err, r) := ReadFull 4 r in
  ((r, m), match err with None => Ok (be_get got) | Some e => Err e end).

(** Size [m.data] to [n] bytes, re-using its array when it is large enough. *)
Definition sizeData (n : Z) (d : slice) : slice :=
  if n <=? cap d then mk_slice (arr d) n
  else mk_slice (replicate (Z.to_nat n) x00) n.

(** [io.ReadFull(r, m.data)]. *)
Definition readData : prog dstate unit := fun '(r, m) =>
  let '(got, err, r) := ReadFull (len (data m)) r in
  let d := mk_slice (overlay got (arr (data m))) (len (data m)) in
  ((r, set_data d m), match err with None => Ok tt | Some e => Err e end).

Definition get_msg : prog dstate message := fun s => (s, Ok s.2).
Definition set_msg (f : message -> message) : prog dstate unit :=
  modify (fun '(r, m) => (r, f m)).

(** The first half of [Decode]: the header, the total length and its check,
    and the whole frame into [m.data]. *)
Definition decodeHead : prog dstate unit :=
  (* parse header *)
  readHeader 0 1;;
  m ← get_msg;
  (if CheckMagicNumber (hdr m) then mret tt else fail (WrongMagic (hdr m !!! 0%nat)));;
  readHeader 1 12;;
  (* parse total *)
  l ← readUint32;
  (if (0 <? MaxMessageLength) && (MaxMessageLength <? l)
   then fail ErrMessageTooLong else mret tt);;
  (* parse data *)
  set_msg (fun m => set_data (sizeData l (data m)) m);;
  readData.

(** The second half: the fields of the frame held in [m.data]. *)
Definition decodeFrame : prog dstate unit :=
  m ← get_msg;
  let d := data m in
  (* parse servicePath *)
  l ← lift (slice_range d 0 4 ≫= Uint32);
  let n := 4 in
  let nEnd := n + l in
  s ← lift (slice_range d n nEnd);
  set_msg (set_ServicePath (SliceByteToString (contents s)));;
  let n := nEnd in
  (* parse serviceMethod *)
  l ← lift (slice_range d n (n + 4) ≫= Uint32);
  let n := n + 4 in
  let nEnd := n + l in
  s ← lift (slice_range d n nEnd);
  set_msg (set_ServiceMethod (SliceByteToString (contents s)));;
  let n := nEnd in
  (* parse meta *)
  l ← lift (slice_range d n (n + 4) ≫= Uint32);
  let n := n + 4 in
  let nEnd := n + l in
  (if 0 <? l then
     s ← lift (slice_range d n nEnd);
     let '(mm, res) := decodeMetadata l s in
     set_msg (set_Metadata (Some mm));;
     lift res
   else mret tt);;
  let n := nEnd in
  (* parse payload *)
  _ ← lift (slice_range d n (n + 4) ≫= Uint32);
  let n := n + 4 in
  s ← lift (slice_from d n);
  set_msg (set_Payload (contents s));;
  m ← get_msg;
  if decide (CompressType (hdr m) = None_) then mret tt
  else match cs (CompressType (hdr m)) with
       | None => fail ErrUnsupportedCompressor
       | Some compressor =>
           match Unzip compressor (Payload m) with
           | Ok p => set_msg (set_Payload p)
           | Err e => set_msg (set_Payload []);; fail e
           | Panic => lift Panic | Fatal => lift Fatal | Blocked => lift Blocked
           end
       end.

Definition Decode : prog dstate unit := decodeHead;; decodeFrame.

(** [Read] of func.go: a new message, or the error. *)
Definition Read (r : reader) : reader * result message :=
  let '((r, m), res) := Decode (r, NewMessage) in
  (r, match res with
      | Ok _ => Ok m
      | Err e => Err e
      | Panic => Panic | Fatal => Fatal | Blocked => Blocked
      end).
End decode.
