(* ===== verification/MessageFacts.v ===== *)
(** Lemmas and theorems about Message.v: the encoder against the wire format,
    the decoder on encoded frames and on arbitrary frames. *)
From S2P Require Import Prelude Go Header Message.
Open Scope go_scope.

(** ** The wire format, as one concatenation *)
Definition lv (bs : list byte) : list byte := be32 (Z.of_nat (length bs)) ++ bs.

Definition frame (sp sm meta payload : list byte) : list byte :=
  lv sp ++ lv sm ++ lv meta ++ lv payload.

Definition wire (h : Header) (sp sm meta payload : list byte) : list byte :=
  h ++ be32 (Z.of_nat (length (frame sp sm meta payload))) ++ frame sp sm meta payload.

(** A pair of the metadata block, and the block as a concatenation of pairs. *)
Definition pair_bytes (kv : string * string) : list byte :=
  lv (bytes_of kv.1) ++ lv (bytes_of kv.2).

Lemma length_be32 v : length (be32 v) = 4%nat.
Proof. apply length_be_put. Qed.

Lemma length_lv bs : length (lv bs) = (4 + length bs)%nat.
Proof. unfold lv. by rewrite length_app, length_be32. Qed.

Lemma be_get_be32 v : 0 <= v < two32 -> be_get (be32 v) = v.
Proof. intros. unfold be32. rewrite be_get_put. by apply Z.mod_small. Qed.

Create Rewrite HintDb lens.
#[export] Hint Rewrite @length_app length_be32 length_lv @length_take @length_drop
  Nat2Z.inj_add : lens.

Lemma encodeMetadata_acc kvs bb :
  fold_left (fun bb '(k, v) =>
    bb ++ be32 (slen k) ++ StringToSliceByte k ++ be32 (slen v) ++ StringToSliceByte v)
    kvs bb = bb ++ concat (map pair_bytes kvs).
Proof.
  revert bb. induction kvs as [|[k v] kvs IH]; intros bb; cbn [fold_left concat map].
  - by rewrite app_nil_r.
  - rewrite IH. unfold pair_bytes, lv, slen, StringToSliceByte. by rewrite <- !app_assoc.
Qed.

Lemma encodeMetadata_concat kvs : encodeMetadata kvs = concat (map pair_bytes kvs).
Proof. unfold encodeMetadata. by rewrite encodeMetadata_acc. Qed.

(** ** Encoding writes the wire format over whatever the buffer held *)

(** One write at the end of the part already written. *)
Lemma copy_at_fill pre tail src a b :
  a = Z.of_nat (length pre) ->
  a + Z.of_nat (length src) <= b <= Z.of_nat (length pre + length tail) ->
  copy_at a b src (pre ++ tail) = Ok ((pre ++ src) ++ drop (length src) tail).
Proof.
  intros Ha Hb. rewrite <- (take_drop (length src) tail) at 1.
  rewrite (copy_at_app pre (take (length src) tail)); [by rewrite <- app_assoc|done| |].
  - rewrite length_take. lia.
  - rewrite !length_app, length_take, length_drop. lia.
Qed.

Section encode.
Context (cs : compressors) (get : Z -> list byte) `{!BufferGet get}.

Lemma compressPayload_wf m h p :
  Header_wf (hdr m) -> compressPayload cs m = Ok (h, p) -> Header_wf h.
Proof.
  intros Hw. unfold compressPayload. repeat case_match; intros [= <- <-]; auto with header.
Qed.

Ltac fill := rewrite copy_at_fill by (autorewrite with lens; cbn [length]; lia); rewrite bind_Ok.

Lemma EncodeSlicePointer_wire kvs m :
  Header_wf (hdr m) ->
  EncodeSlicePointer cs get kvs m =
    ('(h, payload) ← compressPayload cs m;
     Ok (wire h (bytes_of (ServicePath m)) (bytes_of (ServiceMethod m))
           (encodeMetadata kvs) payload, h)).
Proof.
  intros Hw. unfold EncodeSlicePointer.
  destruct (compressPayload cs m) as [[h payload]|e| | |] eqn:Ec; try done.
  apply compressPayload_wf in Ec as Hh; [|done]. unfold Header_wf in Hh.
  cbn [mbind result_bind]. unfold slen.
  set (sp := bytes_of (ServicePath m)). set (sm := bytes_of (ServiceMethod m)).
  set (meta := encodeMetadata kvs).
  set (total := 4 + _ + (4 + _) + (4 + _) + (4 + _)).
  pose proof (length_get (12 + 4 + total) ltac:(lia)) as Hl.
  set (d := get (12 + 4 + total)) in *. clearbody d.
  change (StringToSliceByte (ServicePath m)) with sp.
  change (StringToSliceByte (ServiceMethod m)) with sm.
  rewrite <- (app_nil_l d) at 2. do 10 fill.
  rewrite app_nil_l, drop_ge, app_nil_r by (autorewrite with lens; lia).
  replace total with (Z.of_nat (length (frame sp sm meta payload)))
    by (unfold total, frame; autorewrite with lens; lia).
  unfold wire, frame, lv. by rewrite <- !app_assoc.
Qed.
End encode.

(** ** Decoding the metadata block *)

(** Inserting the pairs in order, as the loop does. *)
Definition insert_all (kvs : list (string * string)) (m : gmap string string) :=
  fold_left (fun m '(k, v) => <[k := v]> m) kvs m.

Lemma insert_all_perm kvs m :
  kvs ≡ₚ map_to_list m -> insert_all kvs ∅ = m.
Proof.
  intros Hp.
  assert (Hnd : NoDup kvs.*1) by (rewrite Hp; apply NoDup_fst_map_to_list).
  assert (H : forall m0, (forall k, k ∈ kvs.*1 -> m0 !! k = None) ->
    insert_all kvs m0 = list_to_map kvs ∪ m0).
  { clear Hp. induction kvs as [|[k v] kvs IH]; intros m0 Hm0.
    - cbn. by rewrite (left_id_L ∅ (∪)).
    - cbn in Hnd. apply NoDup_cons in Hnd as [Hk Hnd]. cbn [insert_all fold_left].
      change (fold_left _ kvs ?x) with (insert_all kvs x). rewrite IH; [|done|].
      + rewrite list_to_map_cons, <- insert_union_l, insert_union_r; [done|].
        by apply not_elem_of_list_to_map_1.
      + intros k' Hk'. rewrite lookup_insert_ne by (intros ->; done).
        apply Hm0. cbn. by apply list_elem_of_further. }
  rewrite H by (intros; apply lookup_empty).
  rewrite (right_id_L ∅ (∪)), <- (list_to_map_to_list m). by apply list_to_map_proper.
Qed.

(** The decoder's loop on a slice that holds encoded pairs after [pre]. *)
Lemma slice_cap pre mid post n :
  cap (mk_slice (pre ++ mid ++ post) n) =
  Z.of_nat (length pre) + Z.of_nat (length mid) + Z.of_nat (length post).
Proof. unfold cap. cbn [arr]. rewrite !length_app. lia. Qed.

(** Reading a length-prefixed string at offset [|pre|]. *)
Lemma read_length pre bs post n :
  Z.of_nat (length bs) < two32 ->
  (slice_range (mk_slice (pre ++ lv bs ++ post) n) (Z.of_nat (length pre))
     (Z.of_nat (length pre) + 4) ≫= Uint32) = Ok (Z.of_nat (length bs)).
Proof.
  intros Hb. unfold lv. rewrite <- app_assoc.
  destruct (contents_slice_app pre (be32 (Z.of_nat (length bs))) (bs ++ post) n
    (Z.of_nat (length pre)) (Z.of_nat (length pre) + 4)) as (s & -> & Hc & Hl); [done|by rewrite length_be32|].
  rewrite bind_Ok. unfold Uint32. rewrite Hl, Hc, length_be32. cbn [Z.leb].
  rewrite take_ge by (by rewrite length_be32). rewrite be_get_be32; [done|]. lia.
Qed.

Lemma read_body pre bs post n :
  exists s, slice_range (mk_slice (pre ++ lv bs ++ post) n) (Z.of_nat (length pre) + 4)
     (Z.of_nat (length pre) + 4 + Z.of_nat (length bs)) = Ok s /\ contents s = bs
     /\ arr s = bs ++ post /\ len s = Z.of_nat (length bs).
Proof.
  unfold lv. rewrite <- app_assoc, app_assoc.
  destruct (contents_slice_app (pre ++ be32 (Z.of_nat (length bs))) bs post n
    (Z.of_nat (length pre) + 4) (Z.of_nat (length pre) + 4 + Z.of_nat (length bs)))
    as (s & Hs & Hc & Hl); [autorewrite with lens; lia|lia|].
  exists s. split_and!; [done|done| |done].
  apply slice_range_Ok in Hs as (_ & _ & ->). cbn [arr].
  rewrite drop_app_length'; [done|]. autorewrite with lens; lia.
Qed.

Lemma length_pair_bytes kv :
  Z.of_nat (length (pair_bytes kv)) = 8 + slen kv.1 + slen kv.2.
Proof. unfold pair_bytes, slen. autorewrite with lens. lia. Qed.

Lemma decodeMetadata_loop_enc kvs :
  forall pre post fuel m n,
  (length kvs <= fuel)%nat ->
  Z.of_nat (length pre) + Z.of_nat (length (concat (map pair_bytes kvs))) < two32 ->
  decodeMetadata_loop fuel
    (Z.of_nat (length pre) + Z.of_nat (length (concat (map pair_bytes kvs))))
    (mk_slice (pre ++ concat (map pair_bytes kvs) ++ post) n) (Z.of_nat (length pre)) m
  = (insert_all kvs m, Ok tt).
Proof.
  induction kvs as [|[k v] kvs IH]; intros pre post fuel m n Hf Hl.
  - cbn [map concat length]. rewrite Z.add_0_r.
    destruct fuel; cbn [decodeMetadata_loop]; by rewrite Z.ltb_irrefl.
  - destruct fuel as [|fuel]; [cbn in Hf; lia|]. cbn [map concat] in *.
    rewrite length_app, Nat2Z.inj_add, length_pair_bytes in *. cbn [fst snd] in *.
    set (E := concat (map pair_bytes kvs)) in *.
    set (P := Z.of_nat (length pre)) in *.
    pose proof (slen_nonneg k). pose proof (slen_nonneg v).
    assert (HP : 0 <= P) by lia.
    set (l := P + _). cbn [decodeMetadata_loop].
    rewrite (proj2 (Z.ltb_lt P l)) by lia. cbn [negb].
    replace (pre ++ (pair_bytes (k, v) ++ E) ++ post)
      with (pre ++ lv (bytes_of k) ++ (lv (bytes_of v) ++ E ++ post))
      by (unfold pair_bytes; cbn [fst snd]; by rewrite <- !app_assoc).
    rewrite (u32_small (P + 4)) by lia. rewrite read_length by (unfold slen in *; lia).
    fold (slen k).
    rewrite (u32_small (l - 4)), (u32_small (P + 4 + slen k)) by lia.
    rewrite (proj2 (Z.ltb_ge (l - 4) _)) by lia.
    destruct (read_body pre (bytes_of k) (lv (bytes_of v) ++ E ++ post) n) as (s & Hs & Hc & _).
    fold (slen k) in Hs. fold P in Hs. rewrite Hs, Hc, string_of_bytes_of.
    set (pre2 := pre ++ lv (bytes_of k)).
    assert (HP2 : P + 4 + slen k = Z.of_nat (length pre2))
      by (unfold pre2, slen, P; autorewrite with lens; lia).
    rewrite HP2, app_assoc. fold pre2. rewrite (u32_small (_ + 4)) by lia.
    rewrite read_length by (unfold slen in *; lia). fold (slen v).
    rewrite (u32_small (_ + slen v)) by lia.
    rewrite (proj2 (Z.ltb_ge l _)) by lia.
    destruct (read_body pre2 (bytes_of v) (E ++ post) n) as (s2 & Hs2 & Hc2 & _).
    fold (slen v) in Hs2. rewrite Hs2, Hc2, string_of_bytes_of, app_assoc.
    set (pre3 := pre2 ++ lv (bytes_of v)).
    assert (HP3 : Z.of_nat (length pre2) + 4 + slen v = Z.of_nat (length pre3))
      by (unfold pre3, slen; autorewrite with lens; lia).
    rewrite HP3. unfold l. replace (P + _) with (Z.of_nat (length pre3) + Z.of_nat (length E)) by lia.
    apply IH; cbn in Hf; unfold E in *; lia.
Qed.

Lemma length_pairs_le kvs : (length kvs <= length (concat (map pair_bytes kvs)))%nat.
Proof.
  induction kvs as [|kv kvs IH]; cbn [map concat length]; [lia|].
  rewrite length_app. pose proof (length_pair_bytes kv).
  pose proof (slen_nonneg kv.1). pose proof (slen_nonneg kv.2). lia.
Qed.

Lemma decodeMetadata_enc kvs s post n :
  arr s = encodeMetadata kvs ++ post -> len s = n ->
  Z.of_nat (length (encodeMetadata kvs)) < two32 ->
  decodeMetadata (Z.of_nat (length (encodeMetadata kvs))) s = (insert_all kvs ∅, Ok tt).
Proof.
  rewrite encodeMetadata_concat. intros Ha Hn Hl. unfold decodeMetadata.
  destruct s as [a' n']. cbn [arr len] in *. subst a' n'.
  rewrite <- (decodeMetadata_loop_enc kvs [] post (S (length (concat (map pair_bytes kvs) ++ post))) ∅ n).
  - done.
  - rewrite length_app. pose proof (length_pairs_le kvs). lia.
  - cbn. lia.
Qed.

Lemma Uint32_range s v : Uint32 s = Ok v -> 0 <= v < two32.
Proof.
  unfold Uint32. case_match; [|done]. intros [= <-].
  pose proof (be_get_range (take 4 (contents s))) as Hr.
  rewrite length_take in Hr.
  assert (2 ^ (8 * Z.of_nat (4 `min` length (contents s))) <= two32); [|lia].
  apply Z.pow_le_mono_r; lia.
Qed.

(** A [uint32] sum that does not fall below its first term has not wrapped. *)
Lemma u32_add_no_wrap n k : 0 <= n < two32 -> 0 <= k < two32 -> n <= u32 (n + k) -> u32 (n + k) = n + k.
Proof.
  intros Hn Hk Hle. unfold u32 in *. destruct (decide (n + k < two32)).
  - apply Z.mod_small. lia.
  - assert ((n + k) mod two32 = n + k - two32); [|lia].
    symmetry. apply Z.mod_unique with 1; lia.
Qed.

(** The loop never runs out of fuel: every iteration that does not stop moves
    [n] up by at least eight, within the capacity. *)
Lemma decodeMetadata_loop_total fuel l d n m :
  0 <= n < two32 -> (0 < fuel)%nat -> cap d - n < 8 * Z.of_nat fuel ->
  (decodeMetadata_loop fuel l d n m).2 <> Blocked.
Proof.
  revert n m. induction fuel as [|fuel IH]; intros n m Hn Hf Hcap; [lia|].
  cbn [decodeMetadata_loop]. case_match; [done|].
  destruct (slice_range d n _) as [s1| | | |] eqn:E1; cbn; try done.
  unfold mbind, result_bind.
  destruct (Uint32 s1) as [sl| | | |] eqn:U1; cbn; try done.
  case_match; [done|].
  destruct (slice_range d (u32 (n + 4)) _) as [s2| | | |] eqn:E2; try done.
  destruct (slice_range d (u32 (u32 (n + 4) + sl)) _) as [s3| | | |] eqn:E3; cbn; try done.
  destruct (Uint32 s3) as [sl2| | | |] eqn:U3; cbn; try done.
  case_match; [done|].
  destruct (slice_range d (u32 (u32 (u32 (n + 4) + sl) + 4)) _) as [s4| | | |] eqn:E4; cbn; try done.
  apply slice_range_Ok in E1 as (? & _ & _), E2 as (? & _ & _), E3 as (? & _ & _), E4 as (? & Hle & _).
  apply Uint32_range in U1, U3.
  pose proof (u32_range (n + 4)) as R1.
  pose proof (u32_add_no_wrap n 4 Hn ltac:(unfold two32; lia) ltac:(lia)) as A1.
  set (n1 := u32 (n + 4)) in *. clearbody n1.
  pose proof (u32_range (n1 + sl)) as R2.
  pose proof (u32_add_no_wrap n1 sl R1 U1 ltac:(lia)) as A2.
  set (n2 := u32 (n1 + sl)) in *. clearbody n2.
  pose proof (u32_range (n2 + 4)) as R3.
  pose proof (u32_add_no_wrap n2 4 R2 ltac:(unfold two32; lia) ltac:(lia)) as A3.
  set (n3 := u32 (n2 + 4)) in *. clearbody n3.
  pose proof (u32_range (n3 + sl2)) as R4.
  pose proof (u32_add_no_wrap n3 sl2 R3 U3 ltac:(lia)) as A4.
  set (n4 := u32 (n3 + sl2)) in *. clearbody n4.
  apply IH; lia.
Qed.

Lemma decodeMetadata_terminates l d : (decodeMetadata l d).2 <> Blocked.
Proof.
  apply decodeMetadata_loop_total; [unfold two32; lia|lia|]. unfold cap. lia.
Qed.

(** ** Decoding a frame *)
Section decode.
Context (cs : compressors) (MaxMessageLength : Z).

Lemma readHeader_full i j got m rs fn :
  (i <= j)%nat -> length got = (j - i)%nat ->
  readHeader i j (mk_reader (got ++ rs) fn, m) =
    ((mk_reader rs fn, set_hdr (take i (hdr m) ++ overlay got (drop i (hdr m))) m), Ok tt).
Proof.
  intros Hij Hg. unfold readHeader. rewrite <- Hg.
  by rewrite ReadFull_app.
Qed.

Lemma readUint32_full v m rs fn :
  0 <= v < two32 ->
  readUint32 (mk_reader (be32 v ++ rs) fn, m) = ((mk_reader rs fn, m), Ok v).
Proof.
  intros Hv. unfold readUint32. change 4 with (Z.of_nat (length (be32 v))).
  rewrite (ReadFull_app (be32 v)). by rewrite be_get_be32.
Qed.

Lemma readData_full fr m rs fn :
  len (data m) = Z.of_nat (length fr) ->
  readData (mk_reader (fr ++ rs) fn, m) =
    ((mk_reader rs fn, set_data (mk_slice (overlay fr (arr (data m))) (len (data m))) m), Ok tt).
Proof.
  intros Hl. unfold readData. rewrite Hl. by rewrite (ReadFull_app fr).
Qed.

(** Reading a complete head leaves the frame in [m.data]. *)
Lemma decodeHead_full h fr rs fn m :
  Header_wf (hdr m) -> Header_wf h -> h !!! 0%nat = magicNumber ->
  Z.of_nat (length fr) < two32 ->
  (0 < MaxMessageLength -> Z.of_nat (length fr) <= MaxMessageLength) ->
  exists d, decodeHead MaxMessageLength
      (mk_reader (h ++ be32 (Z.of_nat (length fr)) ++ fr ++ rs) fn, m)
    = ((mk_reader rs fn, set_data d (set_hdr h m)), Ok tt)
    /\ (exists stale, arr d = fr ++ stale) /\ len d = Z.of_nat (length fr).
Proof.
  intros Hm Hh Hmagic Hl Hmax. unfold Header_wf in *.
  destruct h as [|b0 h]; [done|]. cbn in Hmagic. subst b0.
  unfold decodeHead, mbind, prog_bind.
  change ((magicNumber :: h) ++ ?x) with ([magicNumber] ++ h ++ x).
  rewrite readHeader_full by (done || lia). cbn [get_msg snd].
  destruct (hdr m) as [|b0 hm] eqn:Ehm; [done|].
  unfold CheckMagicNumber. cbn [hdr set_hdr take app overlay drop length].
  rewrite (bool_decide_eq_true_2 (_ = _)) by done. cbn [mret prog_ret].
  rewrite readHeader_full by (cbn in *; lia). cbn [hdr set_hdr].
  rewrite readUint32_full by lia.
  set (h' := take 1 _ ++ _).
  assert (Hh' : h' = magicNumber :: h).
  { unfold h', overlay. cbn. rewrite !drop_0, take_0, (drop_ge hm) by (cbn in *; lia).
    by rewrite app_nil_r. }
  clearbody h'. subst h'.
  assert (Hg : (0 <? MaxMessageLength) && (MaxMessageLength <? Z.of_nat (length fr)) = false).
  { destruct (Z.ltb_spec 0 MaxMessageLength); cbn [andb]; [|done]. apply Z.ltb_ge. auto. }
  rewrite Hg. cbn [mret prog_ret set_msg modify].
  rewrite readData_full by (unfold sizeData; cbn [data set_data]; by case_match).
  eexists. split; [reflexivity|]. cbn [arr len data set_data].
  split; [by eexists|]. unfold sizeData. by case_match.
Qed.
End decode.

(** The payload a decoder hands out for the bytes on the wire. *)
Definition unpacked (cs : compressors) (h : Header) (wirep p : list byte) : Prop :=
  if decide (CompressType h = None_) then p = wirep
  else exists c, cs (CompressType h) = Some c /\ Unzip c wirep = Ok p.

Definition filled (sp sm : list byte) (mt : option (gmap string string)) (p : list byte)
    (m : message) : message :=
  mk_message (hdr m) (string_of sp) (string_of sm) mt p (data m).

Lemma decodeFrame_full cs sp sm kvs payload p stale m r :
  arr (data m) = frame sp sm (encodeMetadata kvs) payload ++ stale ->
  len (data m) = Z.of_nat (length (frame sp sm (encodeMetadata kvs) payload)) ->
  len (data m) < two32 ->
  unpacked cs (hdr m) payload p ->
  decodeFrame cs (r, m) =
    ((r, filled sp sm (if decide (kvs = []) then Metadata m else Some (insert_all kvs ∅)) p m), Ok tt).
Proof.
  intros Ha Hlen Hlt Hp. unfold frame in *. set (meta := encodeMetadata kvs) in *.
  destruct m as [h sp0 sm0 mt0 p0 [a n]]. cbn [data arr len hdr Metadata] in *.
  autorewrite with lens in Hlen.
  unfold decodeFrame, mbind, prog_bind, lift, get_msg, set_msg, modify. cbn [snd data].
  subst a. rewrite <- !app_assoc.
  (* service path *)
  change (slice_range _ 0 4) with (slice_range (mk_slice ([] ++ lv sp ++ lv sm ++ lv meta ++ lv payload ++ stale) n)
    (Z.of_nat (length (@nil byte))) (Z.of_nat (length (@nil byte)) + 4)).
  rewrite read_length by lia.
  destruct (read_body [] sp (lv sm ++ lv meta ++ lv payload ++ stale) n) as (s1 & Hs1 & Hc1 & _).
  change (Z.of_nat (length [])+ 4) with 4 in Hs1. rewrite app_nil_l in *.
  rewrite Hs1, Hc1. clear s1 Hs1 Hc1.
  (* service method *)
  set (q1 := lv sp). replace (4 + Z.of_nat (length sp)) with (Z.of_nat (length q1))
    by (unfold q1; autorewrite with lens; lia).
  rewrite read_length by lia.
  destruct (read_body q1 sm (lv meta ++ lv payload ++ stale) n) as (s2 & -> & -> & _). clear s2.
  set (q2 := q1 ++ lv sm).
  replace (Z.of_nat (length q1) + 4 + Z.of_nat (length sm)) with (Z.of_nat (length q2))
    by (unfold q2; autorewrite with lens; lia).
  replace (q1 ++ lv sm ++ lv meta ++ lv payload ++ stale) with (q2 ++ lv meta ++ lv payload ++ stale)
    by (unfold q2; by rewrite <- app_assoc).
  (* metadata *)
  rewrite read_length by lia.
  destruct (read_body q2 meta (lv payload ++ stale) n) as (s3 & Hs3 & _ & Ha3 & Hl3).
  set (q3 := q2 ++ lv meta).
  assert (Hq3 : Z.of_nat (length q2) + 4 + Z.of_nat (length meta) = Z.of_nat (length q3))
    by (unfold q3; autorewrite with lens; lia).
  assert (Hq3n : n = Z.of_nat (length (q3 ++ lv payload)))
    by (unfold q3, q2, q1; autorewrite with lens; lia).
  rewrite Hs3, Hq3.
  replace (q2 ++ lv meta ++ lv payload ++ stale) with (q3 ++ lv payload ++ stale)
    by (unfold q3; by rewrite <- app_assoc).
  assert (Hpl : slice_from (mk_slice (q3 ++ lv payload ++ stale) n) (Z.of_nat (length q3) + 4)
    = Ok (mk_slice (payload ++ stale) (Z.of_nat (length payload)))).
  { unfold slice_from. cbn [len]. rewrite slice_range_in.
    - f_equal. unfold lv. rewrite <- !app_assoc, app_assoc. cbn [arr]. f_equal.
      + rewrite drop_app_length'; [done|]. autorewrite with lens. lia.
      + rewrite Hq3n. autorewrite with lens. lia.
    - rewrite Hq3n. autorewrite with lens. lia.
    - unfold cap. cbn [arr]. rewrite Hq3n. autorewrite with lens. lia. }
  assert (Hc : contents (mk_slice (payload ++ stale) (Z.of_nat (length payload))) = payload).
  { unfold contents. cbn [arr len]. by rewrite Nat2Z.id, take_app_length. }
  destruct (Z.ltb_spec 0 (Z.of_nat (length meta))) as [Hm|Hm].
  - pose proof (decodeMetadata_enc kvs s3 (lv payload ++ stale) _ Ha3 Hl3 ltac:(fold meta; lia)) as Hd.
    fold meta in Hd. rewrite Hd. clear Hd.
    rewrite read_length by lia. rewrite Hpl, Hc.
    rewrite (decide_False (P := kvs = [])) by (intros ->; cbn in Hm; lia).
    cbn [snd hdr set_hdr set_Payload set_Metadata set_ServicePath set_ServiceMethod] in *.
    unfold unpacked in Hp. case_decide; [by subst p|].
    destruct Hp as (c & -> & Hu). cbn [Payload set_Payload]. by rewrite Hu.
  - assert (kvs = []) as ->.
    { pose proof (length_pairs_le kvs). unfold meta in Hm. rewrite encodeMetadata_concat in Hm.
      destruct kvs; [done|cbn in *; lia]. }
    cbn [mret prog_ret]. rewrite read_length by lia. rewrite Hpl, Hc.
    rewrite (decide_True (P := [] = [])) by done.
    cbn [snd hdr set_hdr set_Payload set_Metadata set_ServicePath set_ServiceMethod] in *.
    unfold unpacked in Hp. case_decide; [by subst p|].
    destruct Hp as (c & -> & Hu). cbn [Payload set_Payload]. by rewrite Hu.
Qed.

(** ** Any frame the decoder accepts is a frame of the wire format *)

(** A length field and the body it announces, read at offset [n]. *)
Lemma read_field a L n l s :
  (slice_range (mk_slice a L) n (n + 4) ≫= Uint32) = Ok l ->
  slice_range (mk_slice a L) (n + 4) (n + 4 + l) = Ok s ->
  drop (Z.to_nat n) a = lv (contents s) ++ drop (Z.to_nat (n + 4 + l)) a
  /\ 0 <= n /\ 0 <= l /\ Z.of_nat (length (contents s)) = l /\ n + 4 + l <= Z.of_nat (length a).
Proof.
  intros H1 H2. unfold mbind, result_bind in H1.
  destruct (slice_range (mk_slice a L) n (n + 4)) as [s1| | | |] eqn:E1; try done.
  pose proof (Uint32_range _ _ H1) as Hl.
  apply slice_range_Ok in E1 as (Hn & Hn4 & ->), H2 as (Hb & Hcap & ->).
  unfold Uint32, cap, contents in *. cbn [arr len] in *.
  replace (n + 4 - n) with 4 in H1 by lia. cbn [Z.leb] in H1.
  assert (H4 : Z.to_nat 4 = 4%nat) by done. rewrite H4 in H1.
  cbn in H1. injection H1 as H1. rewrite take_take in H1. cbn [Nat.min] in H1.
  assert (Hlen : length (take (Z.to_nat (n + 4 + l - (n + 4))) (drop (Z.to_nat (n + 4)) a)) = Z.to_nat l)
    by (rewrite length_take, length_drop; lia).
  split_and!; try lia.
  unfold lv. rewrite Hlen, Z2Nat.id by lia.
  replace (be32 l) with (take 4 (drop (Z.to_nat n) a)).
  2:{ subst l. unfold be32.
      replace 4%nat with (length (take 4 (drop (Z.to_nat n) a))) at 2
        by (rewrite length_take, length_drop; lia).
      by rewrite be_put_get. }
  rewrite <- app_assoc.
  replace (Z.to_nat (n + 4 + l - (n + 4))) with (Z.to_nat l) by lia.
  rewrite <- (take_drop 4 (drop (Z.to_nat n) a)) at 1. f_equal.
  rewrite drop_drop. replace (Z.to_nat n + 4)%nat with (Z.to_nat (n + 4)) by lia.
  rewrite <- (take_drop (Z.to_nat l) (drop (Z.to_nat (n + 4)) a)) at 1. f_equal.
  rewrite drop_drop. f_equal. lia.
Qed.

(** The same with the sums of [decodeMetadata], which do not wrap then. *)
Lemma read_field_u32 a L n l s :
  0 <= n < two32 ->
  (slice_range (mk_slice a L) n (u32 (n + 4)) ≫= Uint32) = Ok l ->
  slice_range (mk_slice a L) (u32 (n + 4)) (u32 (u32 (n + 4) + l)) = Ok s ->
  u32 (n + 4) = n + 4 /\ u32 (u32 (n + 4) + l) = n + 4 + l /\ 0 <= l /\ n + 4 + l < two32 /\
  drop (Z.to_nat n) a = lv (contents s) ++ drop (Z.to_nat (n + 4 + l)) a /\ Z.of_nat (length (contents s)) = l.
Proof.
  intros Hn H1 H2. assert (Hl : 0 <= l < two32 /\ 0 <= n <= u32 (n + 4)).
  { destruct (slice_range _ n _) as [s1| | | |] eqn:E1; try done. apply slice_range_Ok in E1 as (? & _).
    cbn in H1. by apply Uint32_range in H1. }
  assert (H2' := H2). apply slice_range_Ok in H2' as (? & _).
  assert (A1 : u32 (n + 4) = n + 4) by (apply u32_add_no_wrap; [done|unfold two32; lia|apply Hl]).
  pose proof (u32_range (n + 4)) as R1.
  assert (A2 : u32 (u32 (n + 4) + l) = n + 4 + l) by (rewrite u32_add_no_wrap; lia).
  pose proof (u32_range (u32 (n + 4) + l)) as R2. rewrite A2, A1 in *.
  destruct (read_field a L n l s H1 H2) as (Hd & _ & ? & ? & _). split_and!; [done|done|lia|lia|done|done].
Qed.

(** The pairs that [decodeMetadata] stores are those of the block: the block is
    nothing but their encodings, one after the other. *)
Lemma decodeMetadata_loop_sound fuel l a L n m mm :
  0 <= n <= l -> l < two32 ->
  decodeMetadata_loop fuel l (mk_slice a L) n m = (mm, Ok tt) ->
  exists kvs, take (Z.to_nat (l - n)) (drop (Z.to_nat n) a) = concat (map pair_bytes kvs) /\ mm = insert_all kvs m.
Proof.
  revert n m. induction fuel as [|fuel IH]; intros n m Hn Hl; cbn [decodeMetadata_loop];
    (destruct (Z.ltb_spec n l) as [Hlt|Hge]; cbn [negb]; [|intros [= <-]; exists []; by replace (l - n) with 0 by lia]); [done|].
  destruct (slice_range _ n _ ≫= Uint32) as [sl| | | |] eqn:E1; try done.
  destruct (Z.ltb_spec (u32 (l - 4)) (u32 (u32 (n + 4) + sl))) as [|H1]; [done|].
  destruct (slice_range _ _ (u32 (u32 (n + 4) + sl))) as [ks| | | |] eqn:E2; try done.
  destruct (read_field_u32 a L n sl ks ltac:(lia) E1 E2) as (_ & A2 & Hsl & Hb & Hd & Hks). rewrite A2 in *.
  destruct (slice_range _ (n + 4 + sl) _ ≫= Uint32) as [sl2| | | |] eqn:E3; try done.
  destruct (Z.ltb_spec l (u32 (u32 (n + 4 + sl + 4) + sl2))) as [|H2]; [done|].
  destruct (slice_range _ _ (u32 (u32 (n + 4 + sl + 4) + sl2))) as [vs| | | |] eqn:E4; try done.
  destruct (read_field_u32 a L (n + 4 + sl) sl2 vs ltac:(lia) E3 E4) as (_ & A4 & Hsl2 & Hb2 & Hd2 & Hvs). rewrite A4 in *.
  set (n' := n + 4 + sl + 4 + sl2) in *. intros E. destruct (IH n' _ ltac:(lia) Hl E) as (kvs & Hk & ->).
  exists ((string_of (contents ks), string_of (contents vs)) :: kvs). split; [|done].
  cbn [map concat]. rewrite <- Hk. unfold pair_bytes. cbn [fst snd]. rewrite !bytes_of_string_of, Hd, Hd2, app_assoc.
  rewrite take_app_ge by (rewrite length_app, !length_lv; lia). f_equal. f_equal.
  rewrite length_app, !length_lv. lia.
Qed.

Lemma decodeMetadata_sound l a L mm :
  0 <= l < two32 -> decodeMetadata l (mk_slice a L) = (mm, Ok tt) ->
  exists kvs, take (Z.to_nat l) a = concat (map pair_bytes kvs) /\ mm = insert_all kvs ∅.
Proof.
  intros Hl E. destruct (decodeMetadata_loop_sound _ l a L 0 ∅ mm ltac:(lia) ltac:(lia) E) as (kvs & Hk & ?).
  exists kvs. by rewrite Z.sub_0_r in Hk.
Qed.

(** What the metadata field of an accepted frame stands for: an empty block
    leaves what was there, any other is the encodings of the pairs, and nothing
    else; later pairs win. *)
Definition decoded_meta (metab : list byte) (x x' : option (gmap string string)) : Prop :=
  (metab = [] /\ x' = x) \/
  exists kvs, metab = concat (map pair_bytes kvs) /\ x' = Some (insert_all kvs ∅).

Lemma lift_bind_Ok {S A B} (x : result A) (f : A -> prog S B) s s' b :
  (lift x ≫= f) s = (s', Ok b) -> exists a, x = Ok a /\ f a s = (s', Ok b).
Proof. unfold mbind, prog_bind, lift. destruct x; naive_solver. Qed.

Lemma prog_bind_Ok {S A B} (p : prog S A) (f : A -> prog S B) s s' b :
  (p ≫= f) s = (s', Ok b) -> exists s1 a, p s = (s1, Ok a) /\ f a s1 = (s', Ok b).
Proof. unfold mbind, prog_bind. destruct (p s) as [s1 [a| | | |]]; naive_solver. Qed.

Lemma set_msg_Ok f r m s x : set_msg f (r, m) = (s, Ok x) -> s = (r, f m).
Proof. by intros [= <-]. Qed.

Lemma decodeFrame_sound cs r m r' m' :
  slice_wf (data m) ->
  decodeFrame cs (r, m) = ((r', m'), Ok tt) ->
  exists sp sm metab pl payload,
    contents (data m) = lv sp ++ lv sm ++ lv metab ++ pl ++ payload
    /\ length pl = 4%nat /\ r' = r /\ hdr m' = hdr m /\ data m' = data m
    /\ ServicePath m' = string_of sp /\ ServiceMethod m' = string_of sm
    /\ decoded_meta metab (Metadata m) (Metadata m')
    /\ unpacked cs (hdr m) payload (Payload m').
Proof.
  intros Hwf. destruct m as [h sp0 sm0 mt0 p0 [a L]]. unfold slice_wf, cap in Hwf.
  cbn [data arr len] in Hwf. unfold decodeFrame.
  intros H. apply prog_bind_Ok in H as (s1 & mm & [= <- <-] & H). cbn [snd data] in H.
  apply lift_bind_Ok in H as (l1 & E1 & H). apply lift_bind_Ok in H as (b1 & B1 & H).
  apply prog_bind_Ok in H as (s2 & ? & [= <- <-] & H).
  apply lift_bind_Ok in H as (l2 & E2 & H). apply lift_bind_Ok in H as (b2 & B2 & H).
  apply prog_bind_Ok in H as (s3 & ? & [= <- <-] & H).
  apply lift_bind_Ok in H as (l3 & E3 & H).
  cbn [set_ServicePath set_ServiceMethod] in H.
  destruct (read_field a L 0 l1 b1 E1 B1) as (D1 & _ & P1 & C1 & _).
  destruct (read_field a L (4 + l1) l2 b2 E2 B2) as (D2 & _ & P2 & C2 & _).
  set (n3 := 4 + l1 + 4 + l2) in *.
  apply prog_bind_Ok in H as (s4 & ? & Hmeta & H).
  apply lift_bind_Ok in H as (l4 & E4 & H). apply lift_bind_Ok in H as (b5 & B5 & H).
  apply prog_bind_Ok in H as (s5 & ? & Hs5 & H).
  apply prog_bind_Ok in H as (s6 & m6 & Hs6 & H).
  destruct s4 as [r4 m4]. apply set_msg_Ok in Hs5 as ->. injection Hs6 as <- <-.
  apply slice_range_Ok in B5 as (Hn5 & Hc5 & ->). unfold cap in Hc5. cbn [arr len] in *.
  assert (E4' := E4). unfold mbind, result_bind in E4'.
  destruct (slice_range (mk_slice a L) _ _) as [s7| | | |] eqn:E7 in E4'; try done.
  apply slice_range_Ok in E7 as (H7 & _ & _).
  assert (P3 : 0 <= l3) by (destruct (slice_range (mk_slice a L) n3 (n3 + 4)) eqn:Ex;
    cbn in E3; try done; apply Uint32_range in E3; lia).
  assert (B3 : slice_range (mk_slice a L) (n3 + 4) (n3 + 4 + l3) =
    Ok (mk_slice (drop (Z.to_nat (n3 + 4)) a) l3)).
  { rewrite slice_range_in; [f_equal; f_equal; cbn; lia|unfold n3; lia|unfold cap; cbn; lia]. }
  destruct (read_field a L n3 l3 _ E3 B3) as (D3 & _ & _ & C3 & _).
  set (b3 := mk_slice _ l3) in *. set (n5 := n3 + 4 + l3 + 4) in *.
  assert (Hmeta' : r4 = r /\ hdr m4 = h /\ data m4 = mk_slice a L
    /\ ServicePath m4 = string_of (contents b1) /\ ServiceMethod m4 = string_of (contents b2)
    /\ decoded_meta (contents b3) mt0 (Metadata m4)).
  { destruct (Z.ltb_spec 0 l3) as [Hl3|Hl3].
    - rewrite B3 in Hmeta. apply lift_bind_Ok in Hmeta as (b3' & [= <-] & Hmeta).
      destruct (decodeMetadata l3 b3) as [mm res] eqn:Ed.
      apply prog_bind_Ok in Hmeta as (s8 & ? & [= <- <-] & Hmeta).
      destruct res as [[]| | | |]; try done. injection Hmeta as <- <-. split_and!; try done.
      right. assert (R3 : 0 <= l3 < two32).
      { destruct (slice_range (mk_slice a L) n3 (n3 + 4)) eqn:Ex; cbn in E3; try done. by apply Uint32_range in E3. }
      destruct (decodeMetadata_sound l3 _ l3 mm R3 Ed) as (kvs & Hk & ->). by exists kvs.
    - injection Hmeta as <- <-. split_and!; try done. left. split; [|done].
      apply length_zero_iff_nil. lia. }
  destruct Hmeta' as (-> & Hh & Hd & Hsp & Hsm & Hmt).
  set (p4 := take 4 (drop (Z.to_nat (n3 + 4 + l3)) a)).
  set (pay := contents (mk_slice (drop (Z.to_nat n5) a) (L - n5))) in *.
  exists (contents b1), (contents b2), (contents b3), p4, pay.
  assert (Hcont : take (Z.to_nat L) a = lv (contents b1) ++ lv (contents b2) ++ lv (contents b3) ++ p4 ++ pay).
  { change (drop (Z.to_nat 0) a) with a in D1. change (0 + 4 + l1) with (4 + l1) in D1.
    rewrite D2, D3 in D1. rewrite D1 at 1.
    assert (Hp4 : length p4 = 4%nat)
      by (unfold p4; rewrite length_take, length_drop; unfold n5, n3 in *; lia).
    replace (drop (Z.to_nat (n3 + 4 + l3)) a) with (p4 ++ drop (Z.to_nat n5) a).
    2:{ rewrite <- (take_drop 4 (drop (Z.to_nat (n3 + 4 + l3)) a)), drop_drop. unfold p4.
        f_equal. f_equal. unfold n5, n3 in *. lia. }
    do 3 (rewrite take_app_ge by (rewrite !length_lv; unfold n5, n3 in *; lia); f_equal).
    rewrite take_app_ge by (rewrite !length_lv; unfold n5, n3 in *; lia). f_equal.
    change pay with (take (Z.to_nat (L - n5)) (drop (Z.to_nat n5) a)). f_equal. rewrite Hp4, !length_lv. unfold n5, n3 in *. lia. }
  split; [exact Hcont|]. split; [unfold p4; rewrite length_take, length_drop; unfold n5, n3 in *; lia|].
  cbn [hdr data set_Payload] in *. unfold unpacked. rewrite Hh in H.
  case_decide as Hct.
  - injection H as <- <-. cbn. split_and!; done.
  - destruct (cs (CompressType h)) as [c|]; [|done]. cbn [Payload set_Payload] in H.
    destruct (Unzip c pay) as [p| | | |] eqn:Eu; try done.
    apply set_msg_Ok in H as [= -> ->]. cbn. split_and!; try done. by exists c.
Qed.

Lemma readHeader_Ok i j r m r' m' x :
  (i <= j)%nat -> readHeader i j (r, m) = ((r', m'), Ok x) ->
  exists got, rest r = got ++ rest r' /\ length got = (j - i)%nat /\
    m' = set_hdr (take i (hdr m) ++ overlay got (drop i (hdr m))) m.
Proof.
  intros Hij. unfold readHeader.
  destruct (ReadFull _ r) as [[got [e|]] r2] eqn:E; [done|]. intros [= <- <- _].
  apply ReadFull_Some in E as (Hr & Hl & _); [|lia]. exists got. split_and!; [done|lia|done].
Qed.

Lemma readUint32_Ok r m r' m' l :
  readUint32 (r, m) = ((r', m'), Ok l) ->
  rest r = be32 l ++ rest r' /\ m' = m /\ 0 <= l < two32.
Proof.
  unfold readUint32. destruct (ReadFull 4 r) as [[got [e|]] r2] eqn:E; [done|].
  intros [= <- <- <-]. apply ReadFull_Some in E as (Hr & Hl & _); [|lia].
  assert (Hg : length got = 4%nat) by lia. unfold be32. rewrite <- Hg, be_put_get.
  pose proof (be_get_range got) as Hb. rewrite Hg in Hb.
  split; [done|]. split; [done|]. exact Hb.
Qed.

Lemma guard_Ok {S} (b : bool) (e : error) (s s' : S) x :
  (if b then fail e else mret tt) s = (s', Ok x) -> b = false /\ s' = s.
Proof. destruct b; [done|]. by intros [= <- <-]. Qed.

Lemma guard_Ok' {S} (b : bool) (e : error) (s s' : S) x :
  (if b then mret tt else fail e) s = (s', Ok x) -> b = true /\ s' = s.
Proof. destruct b; [|done]. by intros [= <- <-]. Qed.

Lemma decodeHead_sound max r m r' m' :
  Header_wf (hdr m) -> decodeHead max (r, m) = ((r', m'), Ok tt) ->
  exists h fr, rest r = h ++ be32 (Z.of_nat (length fr)) ++ fr ++ rest r'
    /\ Header_wf h /\ CheckMagicNumber h = true
    /\ (0 < max -> Z.of_nat (length fr) <= max)
    /\ contents (data m') = fr /\ slice_wf (data m')
    /\ m' = set_data (data m') (set_hdr h m).
Proof.
  unfold Header_wf. intros Hw H. unfold decodeHead in H.
  apply prog_bind_Ok in H as ([r1 m1] & ? & H1 & H).
  apply readHeader_Ok in H1 as (g1 & Hr1 & Hg1 & ->); [|lia].
  apply prog_bind_Ok in H as (s2 & m2 & [= <- <-] & H). cbn [snd hdr set_hdr] in H.
  apply prog_bind_Ok in H as (s3 & ? & H3 & H). apply guard_Ok' in H3 as [Hmagic ->].
  apply prog_bind_Ok in H as ([r4 m4] & ? & H4 & H).
  apply readHeader_Ok in H4 as (g2 & Hr2 & Hg2 & ->); [|lia].
  destruct g1 as [|b0 [|]]; try done. cbn [take hdr set_hdr app] in *.
  apply prog_bind_Ok in H as ([r5 m5] & l & H5 & H).
  apply readUint32_Ok in H5 as (Hr3 & -> & Hl).
  apply prog_bind_Ok in H as (s6 & ? & H6 & H). apply guard_Ok in H6 as [Hmax ->].
  apply prog_bind_Ok in H as (s7 & ? & [= <- <-] & H).
  unfold readData in H. cbn [data set_data set_hdr] in H.
  set (d := sizeData l _) in *.
  assert (Hd : len d = l /\ l <= cap d).
  { unfold d, sizeData. destruct (Z.leb_spec l (cap (data m))); cbn [len]; split; try done.
    unfold cap. cbn [arr]. rewrite length_replicate. lia. }
  destruct (ReadFull (len d) r5) as [[fr [e|]] r7] eqn:E; [done|]. injection H as <- <-.
  apply ReadFull_Some in E as (Hr4 & Hfr & _); [|lia].
  exists (b0 :: g2), fr. cbn [data set_data].
  assert (Hll : length (overlay fr (arr d)) = length (arr d)).
  { unfold overlay. rewrite length_app, length_drop. unfold cap in Hd. lia. }
  split_and!.
  - rewrite Hr1, Hr2, Hr3, Hr4. replace (Z.of_nat (length fr)) with l by lia. done.
  - cbn. by rewrite Hg2.
  - unfold CheckMagicNumber in *. done.
  - intros Hpos. apply andb_false_iff in Hmax. rewrite !Z.ltb_ge in Hmax. lia.
  - unfold contents, overlay. cbn [arr len].
    replace (Z.to_nat (len d)) with (length fr) by lia. apply take_app_length.
  - unfold slice_wf, cap in *. cbn [arr len]. rewrite Hll. lia.
  - unfold set_data, set_hdr. cbn. f_equal. f_equal.
    unfold overlay. rewrite drop_ge, app_nil_r; [done|]. cbn.
    rewrite !length_drop, Hg2. lia.
Qed.

(** The array behind the message: the frame over what the message's buffer held,
    or over a new one when that is too small. *)
Lemma decodeHead_array max r m r' m' :
  decodeHead max (r, m) = ((r', m'), Ok tt) ->
  exists fr, contents (data m') = fr /\
    data m' = mk_slice (overlay fr (arr (sizeData (Z.of_nat (length fr)) (data m)))) (Z.of_nat (length fr)).
Proof.
  intros H. unfold decodeHead in H.
  apply prog_bind_Ok in H as ([r1 m1] & ? & H1 & H).
  apply readHeader_Ok in H1 as (g1 & _ & _ & ->); [|lia].
  apply prog_bind_Ok in H as (s2 & m2 & [= <- <-] & H).
  apply prog_bind_Ok in H as (s3 & ? & H3 & H). apply guard_Ok' in H3 as [_ ->].
  apply prog_bind_Ok in H as ([r4 m4] & ? & H4 & H).
  apply readHeader_Ok in H4 as (g2 & _ & _ & ->); [|lia].
  apply prog_bind_Ok in H as ([r5 m5] & l & H5 & H).
  apply readUint32_Ok in H5 as (_ & -> & Hl).
  apply prog_bind_Ok in H as (s6 & ? & H6 & H). apply guard_Ok in H6 as [_ ->].
  apply prog_bind_Ok in H as (s7 & ? & [= <- <-] & H).
  unfold readData in H. cbn [data set_data set_hdr] in H.
  assert (Hd : len (sizeData l (data m)) = l) by (unfold sizeData; by destruct (_ <=? _)).
  rewrite Hd in H. destruct (ReadFull l r5) as [[fr [e|]] r7] eqn:E; [done|]. injection H as <- <-.
  apply ReadFull_Some in E as (_ & Hfr & _); [|lia]. exists fr. cbn [data set_data].
  subst l. cbn [set_hdr data len] in *. split; [|done].
  unfold contents, overlay. cbn [arr len]. by rewrite Nat2Z.id, take_app_length.
Qed.

(** A new message gets a buffer of exactly the frame's size. *)
Lemma decodeHead_new_cap max r r' m' :
  decodeHead max (r, NewMessage) = ((r', m'), Ok tt) -> cap (data m') = Z.max 0 (len (data m')).
Proof.
  intros (fr & _ & ->)%decodeHead_array. unfold cap, sizeData, overlay. cbn [arr len data NewMessage].
  rewrite length_app, length_drop. unfold cap. cbn [arr length].
  destruct (Z.leb_spec (Z.of_nat (length fr)) (Z.of_nat 0)); cbn [arr length]; rewrite ?length_replicate; lia.
Qed.

(** ** Properties *)

(** A nil and an empty metadata map are the same on the wire. *)
Definition norm_meta (x : option (gmap string string)) : option (gmap string string) :=
  m ← x; if decide (m = ∅) then None else Some m.

Lemma insert_all_norm kvs x :
  kvs ≡ₚ map_to_list (default ∅ x) ->
  (if decide (kvs = []) then None else Some (insert_all kvs ∅)) = norm_meta x.
Proof.
  intros Hp. unfold norm_meta. destruct x as [m|]; cbn in *.
  - case_decide as Hk; case_decide as Hm; subst; try done.
    + by apply Permutation_nil_l, eq_sym, map_to_list_empty_iff in Hp.
    + rewrite map_to_list_empty in Hp. by apply Permutation_nil_r in Hp.
    + f_equal. by apply insert_all_perm.
  - rewrite map_to_list_empty in Hp. apply Permutation_nil_r in Hp. by rewrite decide_True.
Qed.

Lemma compressPayload_unpacked cs `{!CompressorLaws cs} m h p :
  Header_wf (hdr m) -> compressPayload cs m = Ok (h, p) ->
  unpacked cs h p (Payload m) /\ h !!! 0%nat = hdr m !!! 0%nat.
Proof.
  intros Hw. unfold compressPayload, unpacked.
  assert (Hnone : CompressType (SetCompressType None_ (hdr m)) = None_ /\
    SetCompressType None_ (hdr m) !!! 0%nat = hdr m !!! 0%nat).
  { pose proof (view_SetCompressType None_ (hdr m) Hw) as E.
    split; [exact (f_equal f_compress E)|exact (f_equal f_magic E)]. }
  case_decide as Hc.
  - intros [= <- <-]. by rewrite decide_True by done.
  - destruct (cs (CompressType (hdr m))) as [c|] eqn:Ecs.
    + destruct (Zip c (Payload m)) as [z|e| | |] eqn:Ez; try done; intros [= <- <-].
      * rewrite decide_False by done. split; [|done]. exists c. split; [done|].
        destruct (zip_unzip _ c (Payload m) Ecs) as (z' & Hz & Hu). congruence.
      * destruct Hnone as [H1 H2]. by rewrite decide_True.
    + intros [= <- <-]. destruct Hnone as [H1 H2]. by rewrite decide_True.
Qed.

Lemma compressPayload_ok cs `{!CompressorLaws cs} m : exists h p, compressPayload cs m = Ok (h, p).
Proof.
  unfold compressPayload. case_decide; [by eexists _, _|].
  destruct (cs (CompressType (hdr m))) as [c|] eqn:Ecs; [|by eexists _, _].
  destruct (zip_unzip _ c (Payload m) Ecs) as (z & -> & _). by eexists _, _.
Qed.

(** Compressing changes at most the compress type of the header. *)
Lemma compressPayload_header cs m h p :
  Header_wf (hdr m) -> compressPayload cs m = Ok (h, p) ->
  exists ct, view h = with_compress ct (view (hdr m)).
Proof.
  intros Hw. unfold compressPayload.
  assert (Hsame : view (hdr m) = with_compress (CompressType (hdr m)) (view (hdr m))) by done.
  assert (Hnone : view (SetCompressType None_ (hdr m)) = with_compress (None_ .& x07) (view (hdr m)))
    by (by apply view_SetCompressType).
  repeat case_match; intros [= <- <-]; eauto.
Qed.

Lemma length_wire h sp sm meta p :
  Header_wf h -> Z.of_nat (length (wire h sp sm meta p)) = 16 + Z.of_nat (length (frame sp sm meta p)).
Proof. unfold Header_wf, wire. intros H. autorewrite with lens. lia. Qed.

Lemma Decode_EncodeSlicePointer cs get max kvs m m0 bs h tail fn :
  CompressorLaws cs -> BufferGet get ->
  Header_wf (hdr m) -> CheckMagicNumber (hdr m) = true ->
  Header_wf (hdr m0) -> Metadata m0 = None ->
  kvs ≡ₚ map_to_list (default ∅ (Metadata m)) ->
  EncodeSlicePointer cs get kvs m = Ok (bs, h) ->
  Z.of_nat (length bs) < two32 -> (0 < max -> Z.of_nat (length bs) <= max + 16) ->
  exists d p,
    compressPayload cs m = Ok (h, p) /\
    Decode cs max (mk_reader (bs ++ tail) fn, m0) =
      ((mk_reader tail fn,
        mk_message h (ServicePath m) (ServiceMethod m) (norm_meta (Metadata m)) (Payload m) d),
       Ok tt).
Proof.
  intros Hcs Hget Hw Hmagic Hw0 Hm0 Hkvs Henc Hlen Hmax.
  rewrite EncodeSlicePointer_wire in Henc by done.
  destruct (compressPayload cs m) as [[h' p]|e| | |] eqn:Ec; try done. injection Henc as <- ->.
  pose proof (compressPayload_wf cs m h p Hw Ec) as Hh.
  destruct (compressPayload_unpacked cs m h p Hw Ec) as [Hup Hb0].
  rewrite length_wire in * by done. unfold wire. rewrite <- !app_assoc.
  assert (Hm : h !!! 0%nat = magicNumber) by (rewrite Hb0; by apply bool_decide_eq_true in Hmagic).
  destruct (decodeHead_full max h (frame (bytes_of (ServicePath m)) (bytes_of (ServiceMethod m))
    (encodeMetadata kvs) p) tail fn m0) as (d & Hd & (stale & Ha) & Hl); try done; [lia|lia|].
  exists d, p. split; [done|]. unfold Decode, mbind, prog_bind. rewrite Hd.
  rewrite (decodeFrame_full cs _ _ kvs p (Payload m) stale) by (done || cbn [data set_data]; lia).
  unfold filled. cbn [hdr data set_data set_hdr Metadata].
  rewrite Hm0, (insert_all_norm kvs (Metadata m)) by done. by rewrite !string_of_bytes_of.
Qed.

(** C4: what [Encode] writes, [Decode] reads back, and it consumes exactly
    those bytes of the stream.  The order of the map iteration, the contents of
    the encoder's pooled buffer, the stale bytes of the decoder's message and
    the compressor are arbitrary; an empty metadata map comes back as nil, and
    the header that comes back is the one the encoder leaves (it clears the
    compress type when it could not compress). *)
Theorem Decode_Encode cs get max kvs m m0 bs tail fn :
  CompressorLaws cs -> BufferGet get ->
  Header_wf (hdr m) -> CheckMagicNumber (hdr m) = true ->
  Header_wf (hdr m0) -> Metadata m0 = None ->
  kvs ≡ₚ map_to_list (default ∅ (Metadata m)) ->
  Encode cs get kvs m = Ok bs ->
  Z.of_nat (length bs) < two32 -> (0 < max -> Z.of_nat (length bs) <= max + 16) ->
  exists h d p,
    compressPayload cs m = Ok (h, p) /\
    Decode cs max (mk_reader (bs ++ tail) fn, m0) =
      ((mk_reader tail fn,
        mk_message h (ServicePath m) (ServiceMethod m) (norm_meta (Metadata m)) (Payload m) d),
       Ok tt).
Proof.
  intros Hcs Hget Hw Hmagic Hw0 Hm0 Hkvs Henc Hlen Hmax. unfold Encode in Henc.
  destruct (EncodeSlicePointer cs get kvs m) as [[bs' h]|e| | |] eqn:E; try done. injection Henc as ->.
  destruct (Decode_EncodeSlicePointer cs get max kvs m m0 bs h tail fn) as (d & p & Hc & Hd); try done.
  by exists h, d, p.
Qed.

(** Concrete inputs for the witnesses: no compressor of our own beyond raw data,
    and a pool that hands out buffers full of 0xff. *)
Definition raw_compressors : compressors := Compressors RawDataCompressor.

#[export] Instance raw_compressors_laws : CompressorLaws raw_compressors.
Proof.
  intros ct c d. unfold raw_compressors, Compressors.
  repeat case_decide; intros [= <-]; eexists; split; reflexivity.
Qed.

Definition dirty_get (l : Z) : list byte := replicate (Z.to_nat l) xff.

#[export] Instance dirty_get_laws : BufferGet dirty_get.
Proof. intros l Hl. unfold dirty_get. rewrite length_replicate. lia. Qed.

Definition sample_msg : message :=
  mk_message (SetSeq 7 newHeader) "Arith" "Mul" (Some {["k" := "v"]}) [x01; x02] (mk_slice [] 0).

Lemma Decode_Encode_witness :
  exists h d p, compressPayload raw_compressors sample_msg = Ok (h, p) /\
    Decode raw_compressors 0 (mk_reader (default [] (match Encode raw_compressors dirty_get
      [("k", "v")] sample_msg with Ok bs => Some bs | _ => None end) ++ [xff]) EOF, NewMessage) =
    ((mk_reader [xff] EOF, mk_message h "Arith" "Mul" (norm_meta (Some {["k" := "v"]})) [x01; x02] d),
     Ok tt).
Proof.
  refine (Decode_Encode raw_compressors dirty_get 0 [("k", "v")] sample_msg NewMessage _ [xff] EOF
    _ _ _ _ _ _ _ _ _ _); try apply _; try (vm_compute; reflexivity).
  vm_compute. discriminate.
Defined.

(** C5: whatever the stream holds, a message that [Decode] accepts was on the
    stream in the wire format: the consumed bytes are a well-formed header with
    the magic number, the exact length of the frame (at most
    [MaxMessageLength] when that is set), the three length-prefixed fields,
    four bytes and the payload; the metadata block is the encodings of the pairs
    that the message gets and nothing else, or is empty; so every field of the
    message comes from those bytes and none from the stale part of its buffer. *)
Theorem Decode_sound cs max r m r' m' :
  Header_wf (hdr m) -> Decode cs max (r, m) = ((r', m'), Ok tt) ->
  exists sp sm metab pl payload,
    let fr := lv sp ++ lv sm ++ lv metab ++ pl ++ payload in
    rest r = hdr m' ++ be32 (Z.of_nat (length fr)) ++ fr ++ rest r'
    /\ Header_wf (hdr m') /\ CheckMagicNumber (hdr m') = true
    /\ (0 < max -> Z.of_nat (length fr) <= max) /\ length pl = 4%nat
    /\ ServicePath m' = string_of sp /\ ServiceMethod m' = string_of sm
    /\ decoded_meta metab (Metadata m) (Metadata m')
    /\ unpacked cs (hdr m') payload (Payload m').
Proof.
  intros Hw H. unfold Decode in H.
  apply prog_bind_Ok in H as ([r1 m1] & [] & H1 & H).
  apply decodeHead_sound in H1 as (h & fr & Hr & Hh & Hmagic & Hmax & Hc & Hwf & Hm1); [|done].
  apply decodeFrame_sound in H as (sp & sm & metab & pl & payload & Hfr & Hpl & -> & Hhdr & _ &
    Hsp & Hsm & Hmeta & Hup); [|done].
  rewrite Hc in Hfr. rewrite Hm1 in Hmeta, Hup, Hhdr. cbn [hdr set_data set_hdr Metadata] in *.
  exists sp, sm, metab, pl, payload. cbn zeta. rewrite <- Hfr, Hhdr. by split_and!.
Qed.

Lemma Decode_sound_witness :
  exists sp sm metab pl payload,
    let fr := lv sp ++ lv sm ++ lv metab ++ pl ++ payload in
    newHeader ++ be32 17 ++ replicate 16 x00 ++ [xff; x01]
      = newHeader ++ be32 (Z.of_nat (length fr)) ++ fr ++ [x01]
    /\ Header_wf newHeader /\ CheckMagicNumber newHeader = true
    /\ (0 < 20 -> Z.of_nat (length fr) <= 20) /\ length pl = 4%nat
    /\ "" = string_of sp /\ "" = string_of sm
    /\ decoded_meta metab None None /\ unpacked raw_compressors newHeader payload [xff].
Proof.
  apply (Decode_sound raw_compressors 20
    (mk_reader (newHeader ++ be32 17 ++ replicate 16 x00 ++ [xff; x01]) EOF) NewMessage
    (mk_reader [x01] EOF)
    (mk_message newHeader "" "" None [xff] (mk_slice (replicate 16 x00 ++ [xff]) 17)));
    vm_compute; reflexivity.
Defined.

Lemma Write_ok p w :
  Forall (eq None) (script w) ->
  exists sc, Forall (eq None) sc /\ Write p w = (mk_writer (out w ++ p) sc, (Z.of_nat (length p), None)).
Proof.
  destruct w as [o sc]. cbn [script out]. intros H. destruct H as [|x sc <- Hsc].
  - exists []. split; [constructor|done].
  - exists sc. by split.
Qed.

Lemma write_all_ok ps w :
  Forall (eq None) (script w) ->
  exists sc, Forall (eq None) sc /\ write_all ps w = (mk_writer (out w ++ concat ps) sc, None).
Proof.
  revert w. induction ps as [|p ps IH]; intros w Hw; cbn [write_all concat].
  - exists (script w). rewrite app_nil_r. by destruct w.
  - destruct (Write_ok p w Hw) as (sc & Hsc & ->).
    destruct (IH (mk_writer (out w ++ p) sc) Hsc) as (sc' & Hsc' & ->).
    exists sc'. cbn [out]. by rewrite <- app_assoc.
Qed.

(** When no write fails and the compressor accepts the payload, [WriteTo]
    puts exactly the bytes of [Encode] on the writer, whatever the encoder's
    pooled buffer held; the count it returns is that of its last write, the
    payload, not of the message. *)
Theorem WriteTo_Encode cs get kvs m w p :
  BufferGet get -> Header_wf (hdr m) -> Forall (eq None) (script w) ->
  compressPayload cs m = Ok (hdr m, p) ->
  exists bs sc,
    Encode cs get kvs m = Ok bs /\
    WriteTo cs kvs m w = (mk_writer (out w ++ bs) sc, Ok (Z.of_nat (length p), None)) /\
    Z.of_nat (length p) < Z.of_nat (length bs).
Proof.
  intros Hget Hw Hsc Hc. unfold Encode. rewrite EncodeSlicePointer_wire, Hc by done.
  cbn [mbind result_bind]. eexists. unfold WriteTo.
  destruct (Write_ok (hdr m) w Hsc) as (sc1 & Hsc1 & ->).
  assert (Hz : (if decide (CompressType (hdr m) = None_) then Ok (Payload m)
     else match cs (CompressType (hdr m)) with
          | None => Err ErrUnsupportedCompressor
          | Some compressor => Zip compressor (Payload m)
          end) = Ok p).
  { assert (Hn : CompressType (SetCompressType None_ (hdr m)) = None_)
      by exact (f_equal f_compress (view_SetCompressType None_ (hdr m) Hw)).
    unfold compressPayload in Hc. case_decide as Hct; [by injection Hc as <-|].
    destruct (cs (CompressType (hdr m))) as [c|]; [destruct (Zip c (Payload m))|]; try done;
      first [by injection Hc as <- | injection Hc as Hh <-; by rewrite Hh in Hn]. }
  rewrite Hz. clear Hz.
  match goal with |- context [write_all ?ps ?w] =>
    destruct (write_all_ok ps w Hsc1) as (sc2 & Hsc2 & ->) end.
  match goal with |- context [Write ?q ?w] =>
    destruct (Write_ok q w Hsc2) as (sc3 & Hsc3 & ->) end.
  exists sc3. split; [reflexivity|]. cbn [out]. split.
  - f_equal. f_equal. cbn [concat]. unfold wire, frame, lv, slen, StringToSliceByte.
    rewrite app_nil_r, <- !app_assoc. do 4 f_equal. autorewrite with lens. lia.
  - rewrite length_wire by done. unfold frame. autorewrite with lens. lia.
Qed.

Lemma WriteTo_Encode_witness :
  exists bs sc,
    Encode raw_compressors dirty_get [("k", "v")] sample_msg = Ok bs /\
    WriteTo raw_compressors [("k", "v")] sample_msg (mk_writer [] []) =
      (mk_writer ([] ++ bs) sc, Ok (2, None)) /\ 2 < Z.of_nat (length bs).
Proof.
  apply (WriteTo_Encode raw_compressors dirty_get [("k", "v")] sample_msg (mk_writer [] []) [x01; x02]).
  - apply _.
  - reflexivity.
  - constructor.
  - reflexivity.
Defined.

(** Decompression that returns is all [Decode] waits for. *)
Lemma Decode_not_blocked cs max s :
  (forall ct c p, cs ct = Some c -> Unzip c p <> Blocked) ->
  (Decode cs max s).2 <> Blocked.
Proof.
  intros Hcs. unfold Decode, decodeHead, decodeFrame.
  assert (Hu : forall s, Uint32 s <> Blocked) by (intros x; unfold Uint32; by case_match).
  assert (Hs : forall s a b, slice_range s a b <> Blocked)
    by (intros x a b; unfold slice_range; by case_match).
  assert (Hsu : forall s a b, (slice_range s a b ≫= Uint32) <> Blocked).
  { intros x a b. unfold mbind, result_bind. specialize (Hs x a b).
    destruct (slice_range x a b); done || apply Hu. }
  assert (Hbind : forall {A B} (p : prog dstate A) (f : A -> prog dstate B),
    (forall s, (p s).2 <> Blocked) -> (forall a s, (f a s).2 <> Blocked) ->
    forall s, ((p ≫= f) s).2 <> Blocked).
  { intros A B p f Hp Hf x. unfold mbind, prog_bind. specialize (Hp x).
    destruct (p x) as [x' [a| | | |]]; cbn in *; done || apply Hf. }
  assert (Hlift : forall A (x : result A), x <> Blocked -> forall s : dstate, (lift x s).2 <> Blocked) by done.
  assert (Hh : forall i j s, (readHeader i j s).2 <> Blocked).
  { intros i j [r m]. unfold readHeader. by destruct (ReadFull _ r) as [[? [|]] ?]. }
  assert (H4 : forall s, (readUint32 s).2 <> Blocked).
  { intros [r m]. unfold readUint32. by destruct (ReadFull _ r) as [[? [|]] ?]. }
  assert (Hd : forall s, (readData s).2 <> Blocked).
  { intros [r m]. unfold readData. by destruct (ReadFull _ r) as [[? [|]] ?]. }
  repeat first
    [ apply Hbind; intros | apply Hh | apply H4 | apply Hd | apply Hlift; done || apply Hsu
    | match goal with
      | |- context [if ?b then _ else _] => destruct b
      | |- context [match cs ?ct with _ => _ end] => destruct (cs ct) eqn:?
      | |- context [match Unzip ?c ?p with _ => _ end] =>
          pose proof (Hcs _ c p ltac:(eassumption)); destruct (Unzip c p)
      | |- context [decodeMetadata ?l ?x] =>
          pose proof (decodeMetadata_terminates l x); destruct (decodeMetadata l x) as [? []]
      end
    | apply Hlift, Hs | done | by destruct s ].
Qed.

(** A decoded message takes at least sixteen bytes of the stream. *)
Lemma Decode_consumes cs max r m r' m' :
  Header_wf (hdr m) -> Decode cs max (r, m) = ((r', m'), Ok tt) ->
  (16 + length (rest r') <= length (rest r))%nat.
Proof.
  intros Hw H. unfold Decode in H. apply prog_bind_Ok in H as ([r1 m1] & [] & H1 & H).
  apply decodeHead_sound in H1 as (h & fr & Hr & Hh & _ & _ & _ & Hwf & _); [|done].
  apply decodeFrame_sound in H as (? & ? & ? & ? & ? & _ & _ & -> & _); [|done].
  rewrite Hr, !length_app, length_be32, Hh. lia.
Qed.

(** [Decode] returns: on any stream and any message, if decompressing
    returns, the decoder comes to an end with a value, an error or a panic. *)
Theorem Decode_returns cs max s :
  (forall ct c p, cs ct = Some c -> Unzip c p <> Blocked) ->
  (Decode cs max s).2 <> Blocked.
Proof. apply Decode_not_blocked. Qed.

Lemma Decode_returns_witness :
  (Decode raw_compressors 0 (mk_reader (newHeader ++ be32 4294967295) EOF, NewMessage)).2 <> Blocked.
Proof.
  apply Decode_returns. intros ct c p. unfold raw_compressors, Compressors.
  repeat case_decide; by intros [= <-].
Defined.

(** The lengths inside a frame are not checked against it before they are
    used: [Read] of a header that announces a frame of fewer than four bytes
    panics instead of returning an error, whatever those bytes are. *)
Theorem Read_short_frame_panics cs max h fr tail fn :
  Header_wf h -> CheckMagicNumber h = true -> (length fr < 4)%nat ->
  (0 < max -> Z.of_nat (length fr) <= max) ->
  exists r', Read cs max (mk_reader (h ++ be32 (Z.of_nat (length fr)) ++ fr ++ tail) fn) = (r', Panic).
Proof.
  intros Hw Hmagic Hl Hmax. apply bool_decide_eq_true in Hmagic.
  assert (E : exists d, decodeHead max (mk_reader (h ++ be32 (Z.of_nat (length fr)) ++ fr ++ tail) fn, NewMessage)
    = ((mk_reader tail fn, set_data d (set_hdr h NewMessage)), Ok tt) /\ cap d < 4).
  { destruct (decodeHead_full max h fr tail fn NewMessage) as (d & Hd & (stale & Ha) & Hld);
      [reflexivity|done|done|unfold two32; lia|done|].
    exists d. split; [done|].
    pose proof (decodeHead_new_cap max (mk_reader (h ++ be32 (Z.of_nat (length fr)) ++ fr ++ tail) fn) _ _ Hd) as Hc.
    cbn [data set_data set_hdr] in Hc. lia. }
  destruct E as (d & Hd & Hc). exists (mk_reader tail fn).
  unfold Read, Decode, mbind, prog_bind. rewrite Hd.
  unfold decodeFrame, mbind, prog_bind, lift, get_msg. cbn [snd data set_data].
  unfold slice_range. rewrite (proj2 (Z.leb_gt 4 (cap d))) by lia. done.
Qed.

Lemma Read_short_frame_panics_witness :
  exists r', Read raw_compressors 0 (mk_reader (newHeader ++ be32 2 ++ [x01; x02] ++ []) EOF) = (r', Panic).
Proof. apply (Read_short_frame_panics raw_compressors 0 newHeader [x01; x02] [] EOF); [reflexivity|reflexivity|cbn; lia|done]. Defined.
