(* ===== verification/MessageReuse.v ===== *)
(** protocol/message.go and message_pool.go: the memory of a message.

    Message gives the fields of a message as values.  In the code [Decode] does
    not copy them: [ServicePath], [ServiceMethod] and an uncompressed [Payload]
    are slices of the array of [m.data], and [FreeMsg] puts that array with the
    message into the pool.  Here arrays are in a heap, fields are references into
    it, and [hDecode] is [Decode] with the references it makes; what it shows of
    the heap are the values of [Decode] ([hDecode_refines]). *)
From S2P Require Import Prelude Go Header Message MessageFacts.
Open Scope go_scope.

(** ** The heap *)

(** Arrays by address; the array of a nil slice is empty. *)
Notation heap := (gmap nat (list byte)).
Definition arr_of (H : heap) (a : nat) : list byte := default [] (H !! a).

(** A slice or a string: an array, the first element and the length. *)
Record ref : Type := mk_ref { addr : nat; off : nat; rlen : nat }.
Definition nil_ref : ref := mk_ref 0 0 0.

(** What it is worth in a heap. *)
Definition ref_slice (H : heap) (v : ref) : slice := mk_slice (drop (off v) (arr_of H (addr v))) (Z.of_nat (rlen v)).
Definition load (H : heap) (v : ref) : list byte := contents (ref_slice H v).

(** [v[a:b]]. *)
Definition ref_range (H : heap) (v : ref) (a b : Z) : result ref :=
  if (0 <=? a) && (a <=? b) && (b <=? cap (ref_slice H v))
  then Ok (mk_ref (addr v) (off v + Z.to_nat a) (Z.to_nat (b - a)))
  else Panic.

(** [make] and what [Unzip] returns: a new array. *)
Definition alloc (bs : list byte) (H : heap) : heap * ref :=
  let a := fresh (dom H) in (<[a := bs]> H, mk_ref a 0 (length bs)).

Record hmessage : Type := mk_hmessage {
  hHeader : Header;
  hServicePath : ref;
  hServiceMethod : ref;
  hMetadata : option (gmap string string);
  hPayload : ref;
  hData : ref
}.

Definition set_hHeader (h : Header) (m : hmessage) : hmessage :=
  mk_hmessage h (hServicePath m) (hServiceMethod m) (hMetadata m) (hPayload m) (hData m).
Definition set_hServicePath (v : ref) (m : hmessage) : hmessage :=
  mk_hmessage (hHeader m) v (hServiceMethod m) (hMetadata m) (hPayload m) (hData m).
Definition set_hServiceMethod (v : ref) (m : hmessage) : hmessage :=
  mk_hmessage (hHeader m) (hServicePath m) v (hMetadata m) (hPayload m) (hData m).
Definition set_hMetadata (x : option (gmap string string)) (m : hmessage) : hmessage :=
  mk_hmessage (hHeader m) (hServicePath m) (hServiceMethod m) x (hPayload m) (hData m).
Definition set_hPayload (v : ref) (m : hmessage) : hmessage :=
  mk_hmessage (hHeader m) (hServicePath m) (hServiceMethod m) (hMetadata m) v (hData m).
Definition set_hData (v : ref) (m : hmessage) : hmessage :=
  mk_hmessage (hHeader m) (hServicePath m) (hServiceMethod m) (hMetadata m) (hPayload m) v.

(** [NewMessage], [Reset] and [FreeMsg]. *)
Definition hNewMessage : hmessage := mk_hmessage newHeader nil_ref nil_ref None nil_ref nil_ref.
Definition hReset (m : hmessage) : hmessage :=
  mk_hmessage (resetHeader (hHeader m)) nil_ref nil_ref None nil_ref (mk_ref (addr (hData m)) (off (hData m)) 0).
Definition hFreeMsg (H : heap) (m : hmessage) (pool : list hmessage) : hmessage * list hmessage :=
  if cap (ref_slice H (hData m)) <? 1024 then (hReset m, hReset m :: pool) else (m, pool).

(** ** [Decode] *)
Definition hstate : Type := heap * reader * hmessage.

Section decode.
Context (cs : compressors) (MaxMessageLength : Z).

Definition hmsg : prog hstate hmessage := fun s => (s, Ok s.2).
Definition hset (f : hmessage -> hmessage) : prog hstate unit := modify (fun '(H, r, m) => (H, r, f m)).

Definition hreadHeader (i j : nat) : prog hstate unit := fun '(H, r, m) =>
  let '(got, err, r) := ReadFull (Z.of_nat (j - i)) r in
  let h := take i (hHeader m) ++ overlay got (drop i (hHeader m)) in
  ((H, r, set_hHeader h m), match err with None => Ok tt | Some e => Err e end).

Definition hreadUint32 : prog hstate Z := fun '(H, r, m) =>
  let '(got, err, r) := ReadFull 4 r in
  ((H, r, m), match err with None => Ok (be_get got) | Some e => Err e end).

(** [m.data = m.data[:totalL]] or [m.data = make([]byte, totalL)]. *)
Definition hsizeData (n : Z) : prog hstate unit := fun '(H, r, m) =>
  if n <=? cap (ref_slice H (hData m))
  then ((H, r, set_hData (mk_ref (addr (hData m)) (off (hData m)) (Z.to_nat n)) m), Ok tt)
  else let '(H, v) := alloc (replicate (Z.to_nat n) x00) H in ((H, r, set_hData v m), Ok tt).

(** [io.ReadFull(r, data)] writes into the array. *)
Definition hreadData : prog hstate unit := fun '(H, r, m) =>
  let v := hData m in
  let '(got, err, r) := ReadFull (Z.of_nat (rlen v)) r in
  let a := arr_of H (addr v) in
  ((<[addr v := take (off v) a ++ overlay got (drop (off v) a)]> H, r, m),
   match err with None => Ok tt | Some e => Err e end).

Definition hdecodeHead : prog hstate unit :=
  hreadHeader 0 1;;
  m ← hmsg;
  (if CheckMagicNumber (hHeader m) then mret tt else fail (WrongMagic (hHeader m !!! 0%nat)));;
  hreadHeader 1 12;;
  l ← hreadUint32;
  (if (0 <? MaxMessageLength) && (MaxMessageLength <? l)
   then fail ErrMessageTooLong else mret tt);;
  hsizeData l;;
  hreadData.

(** [binary.BigEndian.Uint32(v[a:b])], [v[a:b]] and [v[a:]]. *)
Definition hUint32 (v : ref) (a b : Z) : prog hstate Z := fun '(H, r, m) =>
  ((H, r, m), w ← ref_range H v a b; Uint32 (ref_slice H w)).
Definition hrange (v : ref) (a b : Z) : prog hstate ref := fun '(H, r, m) => ((H, r, m), ref_range H v a b).
Definition hfrom (v : ref) (a : Z) : prog hstate ref := hrange v a (Z.of_nat (rlen v)).

(** [decodeMetadata(l, data[n:nEnd])], which copies the keys and values. *)
Definition hdecodeMetadata (l : Z) (v : ref) : prog hstate unit := fun '(H, r, m) =>
  let '(mm, res) := decodeMetadata l (ref_slice H v) in ((H, r, set_hMetadata (Some mm) m), res).

(** [m.Payload, err = compressor.Unzip(m.Payload)]. *)
Definition hUnzip (compressor : Compressor) : prog hstate unit := fun '(H, r, m) =>
  match Unzip compressor (load H (hPayload m)) with
  | Ok p => let '(H, v) := alloc p H in ((H, r, set_hPayload v m), Ok tt)
  | Err e => ((H, r, set_hPayload nil_ref m), Err e)
  | Panic => ((H, r, m), Panic) | Fatal => ((H, r, m), Fatal) | Blocked => ((H, r, m), Blocked)
  end.

(** The fields, of the buffer [d]. *)
Definition hfields (d : ref) : prog hstate unit :=
  (* parse servicePath *)
  l ← hUint32 d 0 4;
  let n := 4 in
  let nEnd := n + l in
  v ← hrange d n nEnd;
  hset (set_hServicePath v);;
  let n := nEnd in
  (* parse serviceMethod *)
  l ← hUint32 d n (n + 4);
  let n := n + 4 in
  let nEnd := n + l in
  v ← hrange d n nEnd;
  hset (set_hServiceMethod v);;
  let n := nEnd in
  (* parse meta *)
  l ← hUint32 d n (n + 4);
  let n := n + 4 in
  let nEnd := n + l in
  (if 0 <? l then v ← hrange d n nEnd; hdecodeMetadata l v else mret tt);;
  let n := nEnd in
  (* parse payload *)
  _ ← hUint32 d n (n + 4);
  let n := n + 4 in
  v ← hfrom d n;
  hset (set_hPayload v);;
  m ← hmsg;
  if decide (CompressType (hHeader m) = None_) then mret tt
  else match cs (CompressType (hHeader m)) with
       | None => fail ErrUnsupportedCompressor
       | Some compressor => hUnzip compressor
       end.

Definition hdecodeFrame : prog hstate unit := m ← hmsg; hfields (hData m).

Definition hDecode : prog hstate unit := hdecodeHead;; hdecodeFrame.
End decode.

(** ** The values of the heap *)
Definition habs_msg (H : heap) (m : hmessage) : message :=
  mk_message (hHeader m) (string_of (load H (hServicePath m))) (string_of (load H (hServiceMethod m)))
    (hMetadata m) (load H (hPayload m)) (ref_slice H (hData m)).
Definition habs (st : hstate) : dstate := let '(H, r, m) := st in (r, habs_msg H m).

(** A message as [GetPooledMsg] gives it: its fields show nothing. *)
Definition blank (m : hmessage) : Prop :=
  rlen (hServicePath m) = 0%nat /\ rlen (hServiceMethod m) = 0%nat /\ rlen (hPayload m) = 0%nat /\ off (hData m) = 0%nat.

Lemma blank_new : blank hNewMessage.
Proof. done. Qed.

Lemma blank_reset m : off (hData m) = 0%nat -> blank (hReset m).
Proof. done. Qed.

Lemma load_empty H v : rlen v = 0%nat -> load H v = [].
Proof. intros E. unfold load, contents, ref_slice. cbn. by rewrite E. Qed.

(** [p] on the values does what [hp] does on the heap. *)
Definition sim {A B} (R : A -> B -> Prop) (hp : prog hstate A) (p : prog dstate B) (P Q : hstate -> Prop) : Prop :=
  forall st, P st -> exists st' x y, hp st = (st', x) /\ p (habs st) = (habs st', y) /\
    match x, y with
    | Ok a, Ok b => Q st' /\ R a b
    | Err e, Err e' => e = e'
    | Panic, Panic | Fatal, Fatal | Blocked, Blocked => True
    | _, _ => False
    end.

Lemma sim_bind {A B A' B'} (R : A -> B -> Prop) (R' : A' -> B' -> Prop) hp p hk k P Q Q' :
  sim R hp p P Q -> (forall a b, R a b -> sim R' (hk a) (k b) Q Q') -> sim R' (hp ≫= hk) (p ≫= k) P Q'.
Proof.
  intros Hp Hk st HP. destruct (Hp st HP) as (st' & x & y & E1 & E2 & Hxy). unfold mbind, prog_bind. rewrite E1, E2.
  destruct x, y; try done; [|subst; by do 3 eexists|by do 3 eexists|by do 3 eexists|by do 3 eexists].
  destruct Hxy as [HQ HR]. by apply (Hk a a0 HR).
Qed.

Lemma sim_ret {A} (x : A) P : sim eq (mret x) (mret x) P P.
Proof. intros st HP. by do 3 eexists. Qed.

Lemma sim_fail {A B} (R : A -> B -> Prop) e P Q : sim R (fail e) (fail e) P Q.
Proof. intros st HP. by do 3 eexists. Qed.

Lemma sim_if {A B} (R : A -> B -> Prop) (b : bool) hp hp' p p' P Q :
  sim R hp p P Q -> sim R hp' p' P Q -> sim R (if b then hp else hp') (if b then p else p') P Q.
Proof. by destruct b. Qed.

Lemma sim_weaken {A B} (R : A -> B -> Prop) hp p (P P' Q Q' : hstate -> Prop) :
  (forall st, P' st -> P st) -> (forall st, Q st -> Q' st) -> sim R hp p P Q -> sim R hp p P' Q'.
Proof.
  intros HP HQ H st Hst. destruct (H st (HP st Hst)) as (st' & x & y & E1 & E2 & Hxy).
  exists st', x, y. split; [done|]. split; [done|]. destruct x, y; try done. destruct Hxy. auto.
Qed.

(** *** The first half *)
Definition on_blank (st : hstate) : Prop := blank st.2.

Lemma habs_blank H m : blank m ->
  habs_msg H m = mk_message (hHeader m) "" "" (hMetadata m) [] (mk_slice (arr_of H (addr (hData m))) (Z.of_nat (rlen (hData m)))).
Proof.
  intros (H1 & H2 & H3 & H4). unfold habs_msg, ref_slice. rewrite !load_empty by done. by rewrite H4, drop_0.
Qed.

Lemma sim_readHeader i j : sim eq (hreadHeader i j) (readHeader i j) on_blank on_blank.
Proof.
  intros [[H r] m] Hb. unfold hreadHeader, readHeader, habs. cbn [hdr habs_msg].
  destruct (ReadFull _ r) as [[got [e|]] r']; by do 3 eexists.
Qed.

Lemma sim_readUint32 : sim (fun a b => a = b /\ 0 <= a) hreadUint32 readUint32 on_blank on_blank.
Proof.
  intros [[H r] m] Hb. unfold hreadUint32, readUint32, habs.
  destruct (ReadFull _ r) as [[got [e|]] r']; do 3 eexists; [done|]. split; [done|]. split; [done|].
  split; [done|]. split; [done|]. apply be_get_range.
Qed.

Lemma sim_sizeData l : 0 <= l ->
  sim eq (hsizeData l) (set_msg (fun m => set_data (sizeData l (data m)) m)) on_blank on_blank.
Proof.
  intros Hl [[H r] m] Hb. pose proof Hb as (B1 & B2 & B3 & B4). cbn in B4. unfold hsizeData, set_msg, modify, habs. cbn in Hb.
  rewrite (habs_blank _ _ Hb). unfold ref_slice. rewrite B4, drop_0. cbn [data set_data]. unfold sizeData, cap. cbn [arr].
  destruct (l <=? _) eqn:Hle.
  - do 3 eexists. split; [done|]. cbv beta iota. rewrite habs_blank by done. cbn. rewrite Z2Nat.id by done. by repeat split.
  - do 3 eexists. split; [done|]. cbv beta iota. rewrite habs_blank by done.
    cbn [hHeader set_hData hMetadata hData addr rlen]. unfold arr_of. rewrite lookup_insert_eq, length_replicate, Z2Nat.id by done. by repeat split.
Qed.

(** After it the buffer's array is in the heap. *)
Definition on_read (st : hstate) : Prop := blank st.2 /\ addr (hData st.2) ∈ dom st.1.1.

Lemma sim_readData : sim eq hreadData readData on_blank on_read.
Proof.
  intros [[H r] m] Hb. pose proof Hb as (B1 & B2 & B3 & B4). cbn in B4. unfold hreadData, readData, habs. cbn in Hb.
  rewrite (habs_blank _ _ Hb). rewrite B4, drop_0, take_0. cbn [data len arr set_data app].
  destruct (ReadFull _ r) as [[got err] r']. do 3 eexists. split; [done|]. cbv beta iota.
  rewrite habs_blank by done. unfold arr_of. rewrite lookup_insert_eq. cbn [default]. split; [done|].
  destruct err; [done|]. split; [|done]. split; [done|]. cbn. set_solver.
Qed.

Lemma sim_decodeHead max : sim eq (hdecodeHead max) (decodeHead max) on_blank on_read.
Proof.
  unfold hdecodeHead, decodeHead.
  eapply sim_bind; [apply sim_readHeader|intros _ _ _].
  eapply (sim_bind (fun a b => hHeader a = hdr b)).
  { intros [[H r] m] Hb. by do 3 eexists. }
  intros m m' ->.
  eapply sim_bind; [apply sim_if; [apply sim_ret|apply sim_fail]|intros _ _ _].
  eapply sim_bind; [apply sim_readHeader|intros _ _ _].
  eapply sim_bind; [apply sim_readUint32|].
  intros l ? [<- Hl].
  eapply sim_bind; [apply sim_if; [apply sim_fail|apply sim_ret]|intros _ _ _].
  eapply sim_bind; [by apply sim_sizeData|intros _ _ _]. apply sim_readData.
Qed.

(** *** The second half *)

(** The heap and the buffer do not change, and the fields show the buffer. *)
Definition framing (H : heap) (d : ref) (st : hstate) : Prop :=
  st.1.1 = H /\ hData st.2 = d /\ addr d ∈ dom H /\
  (rlen (hServicePath st.2) = 0%nat \/ addr (hServicePath st.2) = addr d) /\
  (rlen (hServiceMethod st.2) = 0%nat \/ addr (hServiceMethod st.2) = addr d) /\
  (rlen (hPayload st.2) = 0%nat \/ addr (hPayload st.2) = addr d).

Section frame.
Context (H : heap) (d : ref).

Lemma ref_range_slice v a b :
  slice_range (ref_slice H v) a b = match ref_range H v a b with Ok w => Ok (ref_slice H w) | _ => Panic end.
Proof.
  unfold ref_range, slice_range. destruct ((0 <=? a) && (a <=? b) && (b <=? cap (ref_slice H v))) eqn:E; [|done].
  rewrite !andb_true_iff, !Z.leb_le in E. unfold ref_slice. cbn. rewrite drop_drop, Z2Nat.id by lia. done.
Qed.

Lemma ref_range_cases v a b : ref_range H v a b = Panic \/
  exists w, ref_range H v a b = Ok w /\ addr w = addr v /\ off w = (off v + Z.to_nat a)%nat /\ rlen w = Z.to_nat (b - a) /\
    0 <= a <= b /\ b <= cap (ref_slice H v).
Proof.
  unfold ref_range. destruct ((0 <=? a) && (a <=? b) && (b <=? cap (ref_slice H v))) eqn:E; [right|by left].
  rewrite !andb_true_iff, !Z.leb_le in E. eexists. split; [done|]. cbn. lia.
Qed.

Definition seen (v : ref) (s : slice) : Prop := s = ref_slice H v /\ addr v = addr d.

Lemma sim_range a b : sim seen (hrange d a b) (lift (slice_range (ref_slice H d) a b)) (framing H d) (framing H d).
Proof.
  intros [[H' r] m] Hf. pose proof Hf as (E & _). cbn in E. subst H'. unfold hrange, lift. rewrite ref_range_slice.
  destruct (ref_range_cases d a b) as [->|(w & -> & Hw & _)]; by do 3 eexists.
Qed.

Lemma sim_from a : sim seen (hfrom d a) (lift (slice_from (ref_slice H d) a)) (framing H d) (framing H d).
Proof. apply sim_range. Qed.

Lemma sim_Uint32 a b :
  sim eq (hUint32 d a b) (lift (slice_range (ref_slice H d) a b ≫= Uint32)) (framing H d) (framing H d).
Proof.
  intros [[H' r] m] Hf. pose proof Hf as (E & _). cbn in E. subst H'. unfold hUint32, lift. rewrite ref_range_slice.
  destruct (ref_range_cases d a b) as [->|(w & -> & _)]; cbn; [by do 3 eexists|].
  unfold Uint32. destruct (4 <=? _); by do 3 eexists.
Qed.

(** A field is set to a part of the buffer. *)
Lemma sim_set (hf : hmessage -> hmessage) (f : message -> message) :
  (forall m, habs_msg H (hf m) = f (habs_msg H m)) ->
  (forall r m, framing H d (H, r, m) -> framing H d (H, r, hf m)) ->
  sim eq (hset hf) (set_msg f) (framing H d) (framing H d).
Proof.
  intros Hf Hk [[H' r] m] HP. pose proof HP as (E & _). cbn in E. subst H'. unfold hset, set_msg, modify, habs.
  do 3 eexists. split; [done|]. cbv beta iota. rewrite Hf. split; [done|]. split; [by apply Hk|done].
Qed.

Lemma sim_metadata l v s : seen v s ->
  sim eq (hdecodeMetadata l v) (let '(mm, res) := decodeMetadata l s in set_msg (set_Metadata (Some mm));; lift res)
    (framing H d) (framing H d).
Proof.
  intros [-> _] [[H' r] m] HP. pose proof HP as (E & _). cbn in E. subst H'. unfold hdecodeMetadata.
  destruct (decodeMetadata l (ref_slice H v)) as [mm res]. unfold mbind, prog_bind, set_msg, modify, lift, habs.
  do 3 eexists. split; [done|]. split; [done|]. by destruct res as [[]| | | |].
Qed.

Lemma habs_alloc m p v r : framing H d (H, r, m) ->
  alloc p H = (<[fresh (dom H) := p]> H, v) -> v = mk_ref (fresh (dom H)) 0 (length p) ->
  habs_msg (<[fresh (dom H) := p]> H) (set_hPayload v m) = set_Payload p (habs_msg H m).
Proof.
  intros (_ & Hd & Hin & Hp & Hm & _) _ ->. cbn in Hd, Hp, Hm. pose proof (is_fresh (dom H)) as Hfr.
  assert (Harr : arr_of (<[fresh (dom H) := p]> H) (addr d) = arr_of H (addr d))
    by (unfold arr_of; rewrite lookup_insert_ne; [done|intros E; by rewrite E in Hfr]).
  assert (Hl : forall w, rlen w = 0%nat \/ addr w = addr d -> load (<[fresh (dom H) := p]> H) w = load H w).
  { intros w [E|E]; [by rewrite !load_empty|]. unfold load, ref_slice. by rewrite E, Harr. }
  unfold habs_msg, set_Payload. cbn. rewrite (Hl _ Hp), (Hl _ Hm), Hd. f_equal.
  - unfold load, ref_slice, contents, arr_of. cbn [addr off rlen arr len].
    rewrite lookup_insert_eq. cbn. by rewrite Nat2Z.id, firstn_all.
  - unfold ref_slice. by rewrite Harr.
Qed.

Lemma sim_Unzip compressor :
  sim eq (hUnzip compressor)
    (m ← get_msg;
     match Unzip compressor (Payload m) with
     | Ok p => set_msg (set_Payload p)
     | Err e => set_msg (set_Payload []);; fail e
     | Panic => lift Panic | Fatal => lift Fatal | Blocked => lift Blocked
     end) (framing H d) (fun _ => True).
Proof.
  intros [[H' r] m] HP. pose proof HP as (E & _). cbn in E. subst H'. unfold hUnzip, get_msg, mbind, prog_bind, habs.
  cbn [snd Payload habs_msg]. destruct (Unzip compressor (load H (hPayload m))) as [p|e| | |]; unfold set_msg, modify, lift, fail.
  - destruct (alloc p H) as [H' v] eqn:Ha. pose proof Ha as E. unfold alloc in E. injection E as <- <-.
    do 3 eexists. split; [done|]. cbv beta iota. by rewrite (habs_alloc m p _ r HP Ha).
  - do 3 eexists. split; [done|]. by split.
  - by do 3 eexists.
  - by do 3 eexists.
  - by do 3 eexists.
Qed.

(** The whole of it, on the values. *)
Definition fields (cs : compressors) (d : slice) : prog dstate unit :=
  l ← lift (slice_range d 0 4 ≫= Uint32);
  let n := 4 in
  let nEnd := n + l in
  s ← lift (slice_range d n nEnd);
  set_msg (set_ServicePath (SliceByteToString (contents s)));;
  let n := nEnd in
  l ← lift (slice_range d n (n + 4) ≫= Uint32);
  let n := n + 4 in
  let nEnd := n + l in
  s ← lift (slice_range d n nEnd);
  set_msg (set_ServiceMethod (SliceByteToString (contents s)));;
  let n := nEnd in
  l ← lift (slice_range d n (n + 4) ≫= Uint32);
  let n := n + 4 in
  let nEnd := n + l in
  (if 0 <? l then
     s ← lift (slice_range d n nEnd);
     let '(mm, res) := decodeMetadata l s in
     set_msg (set_Metadata (Some mm));;
     lift res
   else mret tt);;
  let n := nEnd in
  _ ← lift (slice_range d n (n + 4) ≫= Uint32);
  let n := n + 4 in
  s ← lift (slice_from d n);
  set_msg (set_Payload (contents s));;
  m ← get_msg;
  if decide (CompressType (hdr m) = None_) then mret tt
  else match cs (CompressType (hdr m)) with
       | None => fail ErrUnsupportedCompressor
       | Some compressor =>
           match Unzip compressor (Payload m) with
           | Ok p => set_msg (set_Payload p)
           | Err e => set_msg (set_Payload []);; fail e
           | Panic => lift Panic | Fatal => lift Fatal | Blocked => lift Blocked
           end
       end.

Lemma decodeFrame_fields cs (st : dstate) : decodeFrame cs st = fields cs (data st.2) st.
Proof. done. Qed.

Lemma sim_last cs : sim eq
    (m ← hmsg; if decide (CompressType (hHeader m) = None_) then mret tt
     else match cs (CompressType (hHeader m)) with
          | None => fail ErrUnsupportedCompressor
          | Some compressor => hUnzip compressor
          end)
    (m ← get_msg; if decide (CompressType (hdr m) = None_) then mret tt
     else match cs (CompressType (hdr m)) with
          | None => fail ErrUnsupportedCompressor
          | Some compressor =>
              match Unzip compressor (Payload m) with
              | Ok p => set_msg (set_Payload p)
              | Err e => set_msg (set_Payload []);; fail e
              | Panic => lift Panic | Fatal => lift Fatal | Blocked => lift Blocked
              end
          end) (framing H d) (fun _ => True).
Proof.
  intros [[H' r] m] HP. pose proof HP as (E & _). cbn in E. subst H'.
  unfold hmsg, mbind, prog_bind. cbn [snd]. change (get_msg (habs (H, r, m))) with (habs (H, r, m), Ok (habs_msg H m)).
  cbv beta iota. change (hdr (habs_msg H m)) with (hHeader m).
  destruct (decide _); [by do 3 eexists|]. destruct (cs _) as [compressor|]; [|by do 3 eexists].
  apply (sim_Unzip compressor (H, r, m) HP).
Qed.

Lemma sim_fields cs : sim eq (hfields cs d) (fields cs (ref_slice H d)) (framing H d) (fun _ => True).
Proof.
  assert (Hs : forall v s, seen v s -> contents s = load H v) by (by intros v s [-> _]).
  unfold hfields, fields.
  eapply sim_bind; [apply sim_Uint32|intros l _ <-].
  eapply sim_bind; [apply sim_range|intros v s Hv].
  eapply sim_bind; [apply sim_set; [intros m; by rewrite (Hs _ _ Hv)|]|intros _ _ _].
  { destruct Hv as [_ Hv]. intros r m (? & ? & ? & ? & ? & ?). repeat split; cbn in *; auto. }
  clear v s Hv. eapply sim_bind; [apply sim_Uint32|intros l' _ <-].
  eapply sim_bind; [apply sim_range|intros v s Hv].
  eapply sim_bind; [apply sim_set; [intros m; by rewrite (Hs _ _ Hv)|]|intros _ _ _].
  { destruct Hv as [_ Hv]. intros r m (? & ? & ? & ? & ? & ?). repeat split; cbn in *; auto. }
  clear v s Hv. eapply sim_bind; [apply sim_Uint32|intros l'' _ <-].
  eapply sim_bind.
  { apply sim_if; [|apply sim_ret]. eapply sim_bind; [apply sim_range|intros v s Hv]. by apply sim_metadata. }
  intros _ _ _. eapply sim_bind; [apply sim_Uint32|intros _ _ _].
  eapply sim_bind; [apply sim_from|intros v s Hv].
  eapply sim_bind; [apply sim_set; [intros m; by rewrite (Hs _ _ Hv)|]|intros _ _ _; apply sim_last].
  destruct Hv as [_ Hv]. intros r m (? & ? & ? & ? & ? & ?). repeat split; cbn in *; auto.
Qed.
End frame.

(** [Decode] on the heap shows the values of [Decode], whatever its outcome. *)
Lemma hDecode_refines cs max H r m : blank m ->
  exists st x, hDecode cs max (H, r, m) = (st, x) /\ Decode cs max (r, habs_msg H m) = (habs st, x).
Proof.
  intros Hb. destruct (sim_decodeHead max (H, r, m) Hb) as ([[H1 r1] m1] & x & y & E1 & E2 & Hxy).
  unfold hDecode, Decode, mbind, prog_bind. rewrite E1. change (habs (H, r, m)) with (r, habs_msg H m) in E2. rewrite E2.
  destruct x, y; try done; [|subst; by do 2 eexists|by do 2 eexists|by do 2 eexists|by do 2 eexists].
  destruct Hxy as [[(B1 & B2 & B3 & B4) Hin] _]. unfold hdecodeFrame, hmsg, mbind, prog_bind. cbn [snd].
  rewrite decodeFrame_fields. change (data (habs (H1, r1, m1)).2) with (ref_slice H1 (hData m1)).
  destruct (sim_fields H1 (hData m1) cs (H1, r1, m1)) as (st & x & y & E3 & E4 & Hxy); [repeat split; cbn; auto|].
  rewrite E3, E4. exists st, x. split; [done|]. destruct x, y; try done; [by destruct Hxy as [_ ->]|by subst].
Qed.

(** ** Where the fields are *)
Lemma hUint32_Ok v a b st st' l : hUint32 v a b st = (st', Ok l) -> st' = st.
Proof. destruct st as [[H r] m]. by intros [= <- _]. Qed.

Lemma hrange_Ok d v a b H r m st' : off d = 0%nat -> hrange d a b (H, r, m) = (st', Ok v) ->
  st' = (H, r, m) /\ addr v = addr d /\ (off v + rlen v <= length (arr_of H (addr d)))%nat /\
  (off v + rlen v)%nat = Z.to_nat b.
Proof.
  intros Hd [= <- E]. destruct (ref_range_cases H d a b) as [Hp|(w & Hw & Ha & Ho & Hl & Hb & Hc)]; [congruence|].
  rewrite Hw in E. injection E as <-. unfold cap, ref_slice in Hc. cbn in Hc. rewrite Hd, drop_0 in Hc.
  split_and!; [done|done|lia|lia].
Qed.

Definition in_array (H : heap) (a : nat) (v : ref) : Prop :=
  addr v = a /\ (off v + rlen v <= length (arr_of H a))%nat.

Lemma hfields_layout cs d H r m H' r' m' : off d = 0%nat ->
  hfields cs d (H, r, m) = ((H', r', m'), Ok tt) -> CompressType (hHeader m') = None_ ->
  H' = H /\ hData m' = hData m /\ hHeader m' = hHeader m /\
  in_array H (addr d) (hServicePath m') /\ in_array H (addr d) (hServiceMethod m') /\
  in_array H (addr d) (hPayload m') /\ (off (hPayload m') + rlen (hPayload m'))%nat = rlen d.
Proof.
  intros Hd E Hc. unfold hfields in E.
  apply prog_bind_Ok in E as (s1 & l1 & ->%hUint32_Ok & E).
  apply prog_bind_Ok in E as (s2 & v1 & (-> & P1 & P2 & _)%hrange_Ok & E); [|done].
  apply prog_bind_Ok in E as (s3 & ? & [= <- _] & E).
  apply prog_bind_Ok in E as (s4 & l2 & ->%hUint32_Ok & E).
  apply prog_bind_Ok in E as (s5 & v2 & (-> & M1 & M2 & _)%hrange_Ok & E); [|done].
  apply prog_bind_Ok in E as (s6 & ? & [= <- _] & E).
  apply prog_bind_Ok in E as (s7 & l3 & ->%hUint32_Ok & E).
  apply prog_bind_Ok in E as (s8 & ? & Em & E).
  assert (Hm : exists mm, s8 = (H, r, set_hMetadata mm (set_hServiceMethod v2 (set_hServicePath v1 m)))).
  { destruct (0 <? l3).
    - apply prog_bind_Ok in Em as (s9 & v3 & (-> & _)%hrange_Ok & Em); [|done].
      unfold hdecodeMetadata in Em. destruct (decodeMetadata _ _) as [mm res]. injection Em as <- _. by eexists.
    - injection Em as <- _. by exists (hMetadata m). }
  destruct Hm as [mm ->].
  apply prog_bind_Ok in E as (s10 & l4 & ->%hUint32_Ok & E).
  apply prog_bind_Ok in E as (s11 & v4 & (-> & L1 & L2 & L3)%hrange_Ok & E); [|done].
  apply prog_bind_Ok in E as (s12 & ? & [= <- _] & E).
  apply prog_bind_Ok in E as (s13 & m2 & [= <- <-] & E). cbn [snd] in E.
  rewrite Nat2Z.id in L3. case_decide as Hn.
  - injection E as <- <- <-. cbn. unfold in_array. cbn. split_and!; done.
  - destruct (cs _) as [compressor|]; [|done]. unfold hUnzip in E.
    destruct (Unzip compressor _) as [p| | | |]; try done. cbn in E. injection E as <- <- <-. done.
Qed.

Lemma hreadHeader_Ok i j H r m st x : hreadHeader i j (H, r, m) = (st, Ok x) ->
  exists r' h, st = (H, r', set_hHeader h m).
Proof.
  unfold hreadHeader. destruct (ReadFull _ r) as [[got [e|]] r']; [done|]. intros [= <- _]. by do 2 eexists.
Qed.

(** The buffer of an accepted frame: the message's own array when it is large
    enough, with the frame over its front, else a new one. *)
Definition buffered (H : heap) (d : ref) (H' : heap) (d' : ref) : Prop :=
  let fr := load H' d' in
  off d' = 0%nat /\ length fr = rlen d' /\ addr d' ∈ dom H' /\ (forall b, b <> addr d' -> H' !! b = H !! b) /\
  if decide (length fr <= length (arr_of H (addr d)))%nat
  then addr d' = addr d /\ arr_of H' (addr d') = fr ++ drop (length fr) (arr_of H (addr d))
  else addr d' ∉ dom H /\ arr_of H' (addr d') = fr.

Lemma buffered_intro H d H' a fr old :
  H' = <[a := fr ++ drop (length fr) old]> H' -> (forall b, b <> a -> H' !! b = H !! b) ->
  (if decide (length fr <= length (arr_of H (addr d)))%nat
   then a = addr d /\ old = arr_of H (addr d) else a ∉ dom H /\ length old = length fr) ->
  buffered H d H' (mk_ref a 0 (length fr)).
Proof.
  intros E Ho Hc. assert (Ha : arr_of H' a = fr ++ drop (length fr) old) by (rewrite E; unfold arr_of; by rewrite lookup_insert_eq).
  assert (Hl : load H' (mk_ref a 0 (length fr)) = fr).
  { unfold load, contents, ref_slice. cbn [addr off rlen arr len]. by rewrite Ha, drop_0, Nat2Z.id, take_app_length. }
  unfold buffered. rewrite Hl. cbn [addr off rlen]. split_and!; [done|done|rewrite E; set_solver|done|].
  rewrite Ha. destruct (decide _); [by destruct Hc as [-> ->]|]. destruct Hc as [? Hold]. split; [done|].
  by rewrite drop_ge, app_nil_r by lia.
Qed.

Lemma hdecodeHead_layout max H r m H' r' m' : blank m ->
  hdecodeHead max (H, r, m) = ((H', r', m'), Ok tt) -> buffered H (hData m) H' (hData m').
Proof.
  intros (_ & _ & _ & B4) E. unfold hdecodeHead in E.
  apply prog_bind_Ok in E as (s1 & ? & (r1 & h1 & ->)%hreadHeader_Ok & E).
  apply prog_bind_Ok in E as (s2 & ? & [= <- <-] & E).
  apply prog_bind_Ok in E as (s3 & ? & [_ ->]%guard_Ok' & E).
  apply prog_bind_Ok in E as (s4 & ? & (r2 & h2 & ->)%hreadHeader_Ok & E).
  apply prog_bind_Ok in E as (s5 & l & E5 & E).
  unfold hreadUint32 in E5. destruct (ReadFull 4 r2) as [[got [e|]] r3]; [done|]. injection E5 as <- Hl.
  apply prog_bind_Ok in E as (s6 & ? & [_ ->]%guard_Ok & E).
  assert (Hl0 : 0 <= l) by (subst; apply be_get_range).
  apply prog_bind_Ok in E as (s7 & ? & E7 & E). unfold hsizeData in E7.
  cbn [hData set_hHeader] in E7. unfold cap, ref_slice in E7. rewrite B4, drop_0 in E7. cbn [arr] in E7.
  destruct (Z.leb_spec l (Z.of_nat (length (arr_of H (addr (hData m)))))) as [Hle|Hgt].
  - injection E7 as <-. unfold hreadData in E. cbn [hData set_hData addr off rlen] in E.
    rewrite drop_0, take_0 in E. cbn [app] in E.
    destruct (ReadFull _ r3) as [[fr [e|]] r4] eqn:Ef; [done|]. injection E as <- _ <-.
    apply ReadFull_Some in Ef as (_ & Hfr & _); [|lia]. cbn [hData set_hData].
    replace (Z.to_nat l) with (length fr) by lia. apply (buffered_intro _ _ _ _ fr (arr_of H (addr (hData m)))).
    + by rewrite insert_insert_eq.
    + intros b Hb. by rewrite lookup_insert_ne.
    + rewrite decide_True by lia. done.
  - unfold alloc in E7. injection E7 as <-. unfold hreadData in E. cbn [hData set_hData addr off rlen] in E.
    rewrite drop_0, take_0, length_replicate in E. cbn [app] in E.
    destruct (ReadFull _ r3) as [[fr [e|]] r4] eqn:Ef; [done|]. injection E as <- _ <-.
    apply ReadFull_Some in Ef as (_ & Hfr & _); [|lia]. cbn [hData set_hData].
    replace (Z.to_nat l) with (length fr) by lia.
    apply (buffered_intro _ _ _ _ fr (replicate (length fr) x00)).
    + unfold arr_of. rewrite lookup_insert_eq. cbn [default]. by rewrite !insert_insert_eq.
    + intros b Hb. by rewrite !lookup_insert_ne.
    + rewrite decide_False by lia. split; [apply is_fresh|by rewrite length_replicate].
Qed.

(** The layout of a decoded message that is not compressed. *)
Lemma hDecode_layout cs max H r m H' r' m' : blank m ->
  hDecode cs max (H, r, m) = ((H', r', m'), Ok tt) -> CompressType (hHeader m') = None_ ->
  buffered H (hData m) H' (hData m') /\ in_array H' (addr (hData m')) (hServicePath m') /\
  in_array H' (addr (hData m')) (hServiceMethod m') /\ in_array H' (addr (hData m')) (hPayload m') /\
  (off (hPayload m') + rlen (hPayload m'))%nat = rlen (hData m').
Proof.
  intros Hb E Hc. apply prog_bind_Ok in E as ([[H1 r1] m1] & [] & E1 & E).
  apply hdecodeHead_layout in E1 as Hbuf; [|done].
  apply prog_bind_Ok in E as (? & ? & [= <- <-] & E). cbn [snd] in E.
  apply hfields_layout in E as (-> & Hd & _ & Hsp & Hsm & Hpl & Hend); [|by destruct Hbuf|done].
  by rewrite Hd.
Qed.

(** A frame that ends with [k] bytes from [o] on, written over an array. *)
Lemma written_over (fr old : list byte) o k n : (o + k)%nat = length fr -> (k <= n)%nat -> (length fr <= length old)%nat ->
  take n (drop o (fr ++ drop (length fr) old)) =
  take k (drop o (fr ++ drop (length fr) old)) ++ drop k (take n (drop o old)).
Proof.
  intros Hk Hn Hle. rewrite drop_app_le by lia.
  assert (Hl : length (drop o fr) = k) by (rewrite length_drop; lia).
  rewrite (take_app_le _ _ k), (take_ge (drop o fr)) by lia.
  rewrite take_app_ge, Hl by lia. f_equal. rewrite skipn_firstn_comm, drop_drop. by rewrite Hk.
Qed.

(** ** Properties *)

(** C39: what a path, a method or an uncompressed payload shows that somebody
    still holds when its message is freed and used again.  [Decode] on the heap
    has the values of [Decode], and [FreeMsg] puts the array into the pool with
    the message.  If the next frame decoded into that message fits into the
    array, the held bytes become the bytes of that frame at their place, and
    those of the array behind its end; in particular a held payload that starts
    where the new payload starts, and is no shorter, becomes the new payload
    followed by its own rest.  If the next frame does not fit, a new array is
    made and the held bytes stay. *)
Theorem payload_reused cs max H0 r1 m0 H1 r2 m1 pool v :
  blank m0 -> hDecode cs max (H0, r1, m0) = ((H1, r2, m1), Ok tt) -> CompressType (hHeader m1) = None_ ->
  v ∈ [hServicePath m1; hServiceMethod m1; hPayload m1] -> cap (ref_slice H1 (hData m1)) < 1024 ->
  Decode cs max (r1, habs_msg H0 m0) = ((r2, habs_msg H1 m1), Ok tt) /\
  hFreeMsg H1 m1 pool = (hReset m1, hReset m1 :: pool) /\
  forall H r3 H2 r4 m2, H !! addr (hData m1) = H1 !! addr (hData m1) ->
    hDecode cs max (H, r3, hReset m1) = ((H2, r4, m2), Ok tt) -> CompressType (hHeader m2) = None_ ->
    let old := arr_of H1 (addr (hData m1)) in
    let fr := load H2 (hData m2) in
    if decide (length fr <= length old)%nat
    then load H2 v = take (rlen v) (drop (off v) (fr ++ drop (length fr) old)) /\
      (off v = off (hPayload m2) -> (rlen (hPayload m2) <= rlen v)%nat ->
       load H2 v = load H2 (hPayload m2) ++ drop (rlen (hPayload m2)) (load H1 v))
    else load H2 v = load H1 v.
Proof.
  intros Hb E1 Hc1 Hv Hcap. destruct (hDecode_refines cs max H0 r1 m0 Hb) as (st & x & E1' & Er).
  rewrite E1 in E1'. injection E1' as <- <-. split; [exact Er|].
  destruct (hDecode_layout _ _ _ _ _ _ _ _ Hb E1 Hc1) as (Hbuf & Hsp & Hsm & Hpl & _).
  split; [unfold hFreeMsg; by rewrite (proj2 (Z.ltb_lt _ _))|].
  intros H r3 H2 r4 m2 HH E2 Hc2 old fr.
  assert (Hin : in_array H1 (addr (hData m1)) v) by (rewrite !elem_of_cons, elem_of_nil in Hv; naive_solver).
  destruct Hin as [Hav Hlv]. destruct Hbuf as (Hoff & _ & Hdom & _).
  destruct (hDecode_layout _ _ _ _ _ _ _ _ (blank_reset _ Hoff) E2 Hc2) as ((Ho2 & Hl2 & _ & Hsame & Hif) & _ & _ & [Hap Hlp] & Hend).
  cbn [hReset hData addr] in Hif. fold fr in Hif, Hl2.
  replace (arr_of H (addr (hData m1))) with old in Hif by (unfold old, arr_of; by rewrite HH).
  rewrite <- Hl2 in Hend. destruct (decide _) as [Hfit|Hbig].
  - destruct Hif as [Ha2 Harr2]. rewrite Ha2 in Harr2, Hap.
    assert (Hload : load H2 v = take (rlen v) (drop (off v) (fr ++ drop (length fr) old))).
    { unfold load, contents, ref_slice. cbn. by rewrite Nat2Z.id, Hav, Harr2. }
    split; [exact Hload|]. intros Ho Hle. rewrite Hload.
    unfold load, contents, ref_slice. cbn [arr len]. rewrite !Nat2Z.id, Hap, Harr2, Hav, <- Ho. fold old.
    rewrite Ho. apply written_over; lia.
  - destruct Hif as [Hnew _]. unfold load, ref_slice. rewrite Hav.
    assert (Hne : addr (hData m1) <> addr (hData m2)).
    { intros E. apply Hnew. rewrite <- E. apply elem_of_dom. rewrite HH. by apply elem_of_dom. }
    unfold arr_of. rewrite (Hsame _ Hne), HH. done.
Qed.

(** ** Witness: two frames without path, method and metadata *)
Definition bare (p : list byte) : reader :=
  mk_reader (newHeader ++ be32 (16 + Z.of_nat (length p)) ++ be32 0 ++ be32 0 ++ be32 0 ++ be32 (Z.of_nat (length p)) ++ p) EOF.

Definition first_read : hstate := (hDecode raw_compressors 0 (∅, bare [x01; x02; x03], hNewMessage)).1.
Definition second_read (p : list byte) : hstate :=
  (hDecode raw_compressors 0 (first_read.1.1, bare p, hReset first_read.2)).1.
Definition held : ref := hPayload first_read.2.

(** The second payload is 9 8: the held 1 2 3 became 9 8 3. *)
Lemma payload_reused_witness :
  load first_read.1.1 held = [x01; x02; x03] /\ load (second_read [x09; x08]).1.1 held = [x09; x08; x03].
Proof.
  split; [vm_compute; reflexivity|].
  destruct (payload_reused raw_compressors 0 ∅ (bare [x01; x02; x03]) hNewMessage first_read.1.1 first_read.1.2 first_read.2
    [] held blank_new) as (_ & _ & H); [vm_compute; reflexivity|reflexivity|by right; right; left|vm_compute; reflexivity|].
  specialize (H first_read.1.1 (bare [x09; x08]) (second_read [x09; x08]).1.1 (second_read [x09; x08]).1.2
    (second_read [x09; x08]).2 eq_refl ltac:(vm_compute; reflexivity) eq_refl).
  cbn zeta in H. rewrite decide_True in H by (vm_compute; lia). destruct H as [_ H]. rewrite H; [vm_compute; reflexivity|vm_compute; reflexivity|vm_compute; lia].
Defined.

(** A longer second frame is read into a new array. *)
Example longer_frame_apart :
  load (second_read [x09; x08; x07; x06]).1.1 held = [x01; x02; x03] /\
  addr (hData (second_read [x09; x08; x07; x06]).2) <> addr (hData first_read.2).
Proof. vm_compute. done. Qed.
