(* ===== verification/BufferPool.v ===== *)
(** util/buffer_pool.go: the pool of buffers by size level that the encoder and
    the decoder of messages take their buffers from.  [math.Log2] of a float64
    quotient is modelled by the exact logarithm; the two agree on the sizes of
    the protocol's pool (512 to 4096), where the quotient is exact. *)
From S2P Require Import Prelude Go Message.
Open Scope go_scope.

(** ** Data: a level holds buffers that were put back *)
Record levelPool : Type := mk_levelPool { size : Z; bufs : list slice }.

Record LimitedPool : Type := mk_LimitedPool {
  minSize : Z;
  maxSize : Z;
  pools : list levelPool
}.

Definition newLevelPool (n : Z) : levelPool := mk_levelPool n [].

(** The buffer [sync.Pool.New] of a level makes. *)
Definition freshBuffer (n : Z) : slice := slice_of (replicate (Z.to_nat n) x00).

(** The doubling loop of [NewLimitedPool]; [None] when the fuel is not enough,
    that is when the loop does not end (a minimal size of 0). *)
Fixpoint levels (fuel : nat) (curSize max : Z) : option (list levelPool) :=
  if curSize <? max then
    match fuel with
    | O => None
    | S fuel => cons (newLevelPool curSize) <$> levels fuel (i64 (curSize * 2)) max
    end
  else Some [newLevelPool max].

Definition NewLimitedPool (min max : Z) : result LimitedPool :=
  if max <? min then Panic
  else match levels (Z.to_nat max) min max with
       | Some ps => Ok (mk_LimitedPool min max ps)
       | None => Blocked
       end.

(** [int(math.Ceil(math.Log2(size/minSize)))], 0 when negative. *)
Definition ceilIdx (p : LimitedPool) (n : Z) : Z :=
  Z.max 0 (Z.log2_up ((n + minSize p - 1) / minSize p)).

(** [int(math.Floor(math.Log2(size/minSize)))], 0 when negative. *)
Definition floorIdx (p : LimitedPool) (n : Z) : Z := Z.max 0 (Z.log2 (n / minSize p)).

Definition findPool (p : LimitedPool) (n : Z) : option nat :=
  if maxSize p <? n then None
  else let idx := ceilIdx p n in
       if Z.of_nat (length (pools p)) - 1 <? idx then None else Some (Z.to_nat idx).

Definition findPutPool (p : LimitedPool) (n : Z) : option nat :=
  if maxSize p <? n then None
  else if n <? minSize p then None
  else let idx := floorIdx p n in
       if Z.of_nat (length (pools p)) - 1 <? idx then None else Some (Z.to_nat idx).

Definition set_bufs (i : nat) (bs : list slice) (p : LimitedPool) : LimitedPool :=
  mk_LimitedPool (minSize p) (maxSize p)
    (alter (fun lv => mk_levelPool (size lv) bs) i (pools p)).

(** [sync.Pool.Get] gives any buffer of the level or a new one: [choice] says
    which. *)
Definition Get (choice : nat) (n : Z) (p : LimitedPool) : LimitedPool * result slice :=
  match findPool p n with
  | None => (p, if n <? 0 then Panic else Ok (freshBuffer n))
  | Some i =>
      match pools p !! i with
      | None => (p, Panic)
      | Some lv =>
          match bufs lv !! choice with
          | Some b => (set_bufs i (delete choice (bufs lv)) p, slice_range b 0 n)
          | None => (p, slice_range (freshBuffer (size lv)) 0 n)
          end
      end
  end.

Definition Put (b : slice) (p : LimitedPool) : LimitedPool :=
  match findPutPool p (cap b) with
  | None => p
  | Some i =>
      match pools p !! i with
      | None => p
      | Some lv => set_bufs i (mk_slice (arr b) (cap b) :: bufs lv) p
      end
  end.

(** ** Invariant: level [i] has size [min * 2^i] (the last one [max]) and every
    buffer in it has at least that capacity *)
Record pool_wf (p : LimitedPool) : Prop := {
  wf_min : 0 < minSize p <= maxSize p;
  wf_size : forall i lv, pools p !! i = Some lv ->
    size lv = Z.min (minSize p * 2 ^ Z.of_nat i) (maxSize p);
  wf_top : (0 < length (pools p))%nat /\
    maxSize p <= minSize p * 2 ^ (Z.of_nat (length (pools p)) - 1);
  wf_bufs : forall i lv b, pools p !! i = Some lv -> b ∈ bufs lv -> size lv <= cap b
}.

Lemma levels_spec fuel cur max :
  0 < cur <= max -> max <= 2 ^ 62 -> max <= cur + Z.of_nat fuel -> exists ps,
  levels fuel cur max = Some ps /\ (0 < length ps)%nat /\
  max <= cur * 2 ^ (Z.of_nat (length ps) - 1) /\
  forall i lv, ps !! i = Some lv -> size lv = Z.min (cur * 2 ^ Z.of_nat i) max /\ bufs lv = [].
Proof.
  revert cur. induction fuel as [|fuel IH]; intros cur Hc H62 Hf; cbn [levels].
  - rewrite (proj2 (Z.ltb_ge cur max)) by lia. exists [newLevelPool max].
    split_and!; cbn; [done|lia|lia|]. intros [|i] lv; [intros [= <-]|done]. cbn. split; [lia|done].
  - destruct (Z.ltb_spec cur max) as [Hlt|Hge].
    + rewrite (i64_small (cur * 2)) by (unfold two63; lia).
      destruct (Z.le_gt_cases (cur * 2) max) as [Hle|Hgt].
      * destruct (IH (cur * 2)) as (ps & -> & Hn & Htop & Hps); [lia|lia|lia|].
        exists (newLevelPool cur :: ps). cbn [fmap option_fmap option_map length].
        split_and!; [done|lia| |].
        -- replace (Z.of_nat (S (length ps)) - 1) with (Z.of_nat (length ps) - 1 + 1) by lia.
           rewrite Z.pow_add_r by lia. lia.
        -- intros [|i] lv; cbn [lookup list_lookup].
           ++ intros [= <-]. cbn. split; [lia|done].
           ++ intros Hi. destruct (Hps i lv Hi) as [-> ?]. split; [|done].
              rewrite Nat2Z.inj_succ, <- Z.add_1_r, Z.pow_add_r by lia. lia.
      * exists [newLevelPool cur; newLevelPool max].
        destruct fuel; cbn [levels]; rewrite (proj2 (Z.ltb_ge _ max)) by lia;
        (split_and!; cbn; [done|lia|lia|]; intros [|[|i]] lv; cbn; try done;
         intros [= <-]; cbn; (split; [lia|done])).
    + exists [newLevelPool max]. split_and!; cbn; [done|lia|lia|].
      intros [|i] lv; [intros [= <-]|done]. cbn. split; [lia|done].
Qed.

Lemma NewLimitedPool_wf min max :
  0 < min <= max -> max <= 2 ^ 62 -> exists p, NewLimitedPool min max = Ok p /\ pool_wf p /\
    minSize p = min /\ maxSize p = max.
Proof.
  intros H H62. unfold NewLimitedPool. rewrite (proj2 (Z.ltb_ge max min)) by lia.
  destruct (levels_spec (Z.to_nat max) min max H H62 ltac:(lia)) as (ps & -> & Hn & Htop & Hps).
  eexists. split; [done|]. split; [|done]. split; cbn; [lia| |done|].
  - intros i lv Hi. by apply Hps.
  - intros i lv b Hi. destruct (Hps i lv Hi) as [_ ->]. inversion 1.
Qed.

Lemma log2_up_pow a : a <= 2 ^ Z.max 0 (Z.log2_up a).
Proof.
  destruct (Z.le_gt_cases a 1).
  - rewrite Z.log2_up_eqn0 by done. cbn. lia.
  - rewrite Z.max_r by apply Z.log2_up_nonneg. by apply Z.log2_up_spec.
Qed.

(** The level [findPool] picks holds buffers of at least the asked size. *)
Lemma findPool_fits p n i lv :
  pool_wf p -> findPool p n = Some i -> pools p !! i = Some lv -> n <= size lv.
Proof.
  intros Hp. unfold findPool. destruct (Z.ltb_spec (maxSize p) n) as [|Hle]; [done|].
  destruct (Z.ltb_spec (Z.of_nat (length (pools p)) - 1) (ceilIdx p n)); [done|]. intros [= <-] Hi.
  pose proof (wf_min p Hp). rewrite (wf_size p Hp _ _ Hi).
  assert (0 <= ceilIdx p n) by (unfold ceilIdx; lia). rewrite Z2Nat.id by done.
  apply Z.min_glb; [|done]. unfold ceilIdx in *.
  pose proof (log2_up_pow ((n + minSize p - 1) / minSize p)) as Hc.
  set (c := (n + minSize p - 1) / minSize p) in *.
  assert (n <= minSize p * c) by (unfold c; lia). nia.
Qed.

(** A size up to the maximum always has a level. *)
Lemma findPool_some p n :
  pool_wf p -> n <= maxSize p -> exists i lv, findPool p n = Some i /\ pools p !! i = Some lv.
Proof.
  intros Hp Hn. unfold findPool. rewrite (proj2 (Z.ltb_ge _ n)) by done.
  destruct (wf_top p Hp) as [Hlen Htop]. pose proof (wf_min p Hp).
  assert (Hc : ceilIdx p n <= Z.of_nat (length (pools p)) - 1).
  { unfold ceilIdx. apply Z.max_lub; [lia|].
    rewrite <- (Z.log2_up_pow2 (Z.of_nat (length (pools p)) - 1)) by lia.
    apply Z.log2_up_le_mono.
    assert (0 < 2 ^ (Z.of_nat (length (pools p)) - 1)) by (apply Z.pow_pos_nonneg; lia).
    set (T := 2 ^ _) in *. clearbody T.
    assert (H1 : (n + minSize p - 1) / minSize p < T + 1); [|lia].
    apply Z.div_lt_upper_bound; lia. }
  rewrite (proj2 (Z.ltb_ge _ (ceilIdx p n))) by done.
  assert (Hi : (Z.to_nat (ceilIdx p n) < length (pools p))%nat) by (unfold ceilIdx in *; lia).
  destruct (lookup_lt_is_Some_2 (pools p) _ Hi) as [lv Hlv]. by eexists _, lv.
Qed.

(** The level [findPutPool] picks is not above the buffer's capacity. *)
Lemma findPutPool_fits p n i lv :
  pool_wf p -> findPutPool p n = Some i -> pools p !! i = Some lv -> size lv <= n.
Proof.
  intros Hp. unfold findPutPool. destruct (Z.ltb_spec (maxSize p) n); [done|].
  destruct (Z.ltb_spec n (minSize p)) as [|Hmin]; [done|].
  destruct (Z.ltb_spec (Z.of_nat (length (pools p)) - 1) (floorIdx p n)); [done|]. intros [= <-] Hi.
  pose proof (wf_min p Hp). rewrite (wf_size p Hp _ _ Hi).
  assert (0 <= floorIdx p n) by (unfold floorIdx; lia). rewrite Z2Nat.id by done.
  transitivity (minSize p * 2 ^ floorIdx p n); [lia|].
  assert (Hq : 0 < n / minSize p) by (apply Z.div_str_pos; lia).
  unfold floorIdx in *. rewrite Z.max_r in * by apply Z.log2_nonneg.
  destruct (Z.log2_spec _ Hq) as [Hlog _].
  assert (minSize p * (n / minSize p) <= n) by lia. nia.
Qed.

Lemma set_bufs_lookup i bs p j lv :
  pools (set_bufs i bs p) !! j = Some lv ->
  exists lv0, pools p !! j = Some lv0 /\ size lv = size lv0 /\ (bufs lv = bufs lv0 \/ i = j /\ bufs lv = bs).
Proof.
  cbn. destruct (decide (i = j)) as [->|Hne].
  - rewrite list_lookup_alter_eq. destruct (pools p !! j) as [lv0|]; [|done]. intros [= <-].
    exists lv0. auto.
  - rewrite list_lookup_alter_ne by done. intros ->. exists lv. auto.
Qed.

Lemma set_bufs_wf i bs p :
  pool_wf p -> (forall lv b, pools p !! i = Some lv -> b ∈ bs -> size lv <= cap b) ->
  pool_wf (set_bufs i bs p).
Proof.
  intros Hp Hbs. split.
  - apply (wf_min p Hp).
  - intros j lv (lv0 & Hj & -> & _)%set_bufs_lookup. by apply (wf_size p Hp).
  - cbn. rewrite length_alter. apply (wf_top p Hp).
  - intros j lv b (lv0 & Hj & -> & Hb)%set_bufs_lookup Hin.
    destruct Hb as [Hb|[-> Hb]]; rewrite Hb in Hin; [by eapply (wf_bufs p Hp)|by eapply Hbs].
Qed.

Lemma Get_spec choice n p :
  pool_wf p -> 0 <= n ->
  exists p' b, Get choice n p = (p', Ok b) /\ len b = n /\ slice_wf b /\ pool_wf p'
    /\ (findPool p n = None <-> maxSize p < n).
Proof.
  intros Hp Hn.
  destruct (Z.le_gt_cases n (maxSize p)) as [Hle|Hgt].
  - destruct (findPool_some p n Hp Hle) as (i & lv & Hf & Hi).
    pose proof (findPool_fits p n i lv Hp Hf Hi) as Hfit.
    unfold Get. rewrite Hf, Hi.
    destruct (bufs lv !! choice) as [b|] eqn:Eb.
    + assert (Hb : b ∈ bufs lv) by (by eapply list_elem_of_lookup_2).
      pose proof (wf_bufs p Hp i lv b Hi Hb).
      rewrite slice_range_in by lia. eexists _, _. split_and!; [done|cbn; lia| |
        |split; [done|lia]].
      * unfold slice_wf, cap in *. cbn [arr len]. rewrite length_drop. lia.
      * apply set_bufs_wf; [done|]. intros lv' b' Hi' Hb'. rewrite Hi in Hi'. injection Hi' as <-.
        eapply (wf_bufs p Hp); [done|]. rewrite list_elem_of_lookup in Hb' |- *.
        destruct Hb' as [j Hj].
        destruct (decide (j < choice)%nat).
        -- rewrite list_lookup_delete_lt in Hj by done. eauto.
        -- rewrite list_lookup_delete_ge in Hj by lia. eauto.
    + assert (0 <= size lv) by lia.
      rewrite slice_range_in; [|lia|unfold cap, freshBuffer; cbn; rewrite length_replicate; lia].
      eexists _, _. split_and!; [done|cbn; lia| |done|split; [done|lia]].
      unfold slice_wf, cap. cbn [arr len]. rewrite length_drop. cbn. rewrite length_replicate. lia.
  - unfold Get. assert (Hf : findPool p n = None).
    { unfold findPool. by rewrite (proj2 (Z.ltb_lt _ n)) by lia. }
    rewrite Hf, (proj2 (Z.ltb_ge n 0)) by lia.
    eexists _, _. split_and!; [done| | |done|split; [lia|done]];
      unfold slice_wf, cap, freshBuffer; cbn; rewrite length_replicate; lia.
Qed.

Lemma Put_wf b p : pool_wf p -> pool_wf (Put b p).
Proof.
  intros Hp. unfold Put. destruct (findPutPool p (cap b)) as [i|] eqn:Ef; [|done].
  destruct (pools p !! i) as [lv|] eqn:Ei; [|done].
  apply set_bufs_wf; [done|]. intros lv' b' Hi [->|Hb]%elem_of_cons;
    rewrite Ei in Hi; injection Hi as <-.
  - by eapply findPutPool_fits.
  - by eapply (wf_bufs p Hp).
Qed.

(** ** The pool as the message encoder sees it *)
Definition buffer (r : result slice) : list byte :=
  match r with Ok b => contents b | _ => [] end.

#[export] Instance Get_BufferGet choice p : pool_wf p ->
  BufferGet (fun n => buffer (Get choice n p).2).
Proof.
  intros Hp n Hn. destruct (Get_spec choice n p Hp Hn) as (p' & b & -> & Hl & Hwf & _).
  unfold slice_wf, cap in Hwf. cbn. unfold contents. rewrite length_take. lia.
Qed.

(** A sequence of uses of the pool. *)
Inductive pool_op : Type := OpGet (choice : nat) (n : Z) | OpPut (b : slice).

Definition run_op (p : LimitedPool) (o : pool_op) : LimitedPool :=
  match o with OpGet c n => (Get c n p).1 | OpPut b => Put b p end.

Definition op_ok (o : pool_op) : Prop := match o with OpGet _ n => 0 <= n | OpPut _ => True end.

(** The pool [NewLimitedPool] makes ([0 < min <= max], with the doubled
    sizes inside the range of [int]; it always returns)
    keeps its level invariant under any sequence of [Get] and [Put], whatever
    buffers are put and whichever buffer [sync.Pool] hands out; in every state
    so reached [Get] of a size returns a slice of exactly that length, without
    a slice-bounds panic. *)
Theorem pool_Get_Put min max ops :
  0 < min <= max -> max <= 2 ^ 62 -> Forall op_ok ops ->
  exists p0, NewLimitedPool min max = Ok p0 /\
    let p := fold_left run_op ops p0 in
    pool_wf p /\
    forall choice n, 0 <= n -> exists p' b, Get choice n p = (p', Ok b) /\ len b = n /\ slice_wf b.
Proof.
  intros Hm H62 Hops. destruct (NewLimitedPool_wf min max Hm H62) as (p0 & -> & Hp0 & _).
  exists p0. split; [done|]. cbn zeta.
  assert (Hp : pool_wf (fold_left run_op ops p0)).
  { revert p0 Hp0. induction Hops as [|o ops Ho _ IH]; intros p0 Hp0; cbn; [done|]. apply IH.
    destruct o as [c n|b]; cbn; [|by apply Put_wf].
    by destruct (Get_spec c n p0 Hp0 Ho) as (? & ? & -> & ? & ? & ? & ?). }
  split; [done|]. intros choice n Hn.
  destruct (Get_spec choice n _ Hp Hn) as (p' & b & ? & ? & ? & _). eauto.
Qed.

Lemma pool_Get_Put_witness :
  exists p0, NewLimitedPool 512 4096 = Ok p0 /\
    let p := fold_left run_op [OpPut (freshBuffer 1100); OpGet 0 700; OpGet 3 5000] p0 in
    pool_wf p /\
    forall choice n, 0 <= n -> exists p' b, Get choice n p = (p', Ok b) /\ len b = n /\ slice_wf b.
Proof.
  apply pool_Get_Put; [lia|lia|].
  repeat constructor; cbn; lia.
Defined.
