(* ===== verification/Breaker.v ===== *)
(** client/circuit_breaker.go: the breaker that opens after a number of
    consecutive failures within a sliding window.  Time is in nanoseconds and
    every operation is given the clock readings it makes. *)
From S2P Require Import Prelude Go.

Record ConsecCircuitBreaker : Type := mk_breaker {
  lastFailureTime : Z;
  failures : Z;
  failureThreshold : Z;
  window : Z
}.

Definition NewConsecCircuitBreaker (threshold w : Z) : ConsecCircuitBreaker :=
  mk_breaker 0 0 (u64 threshold) w.

Definition reset (now : Z) (cb : ConsecCircuitBreaker) : ConsecCircuitBreaker :=
  mk_breaker now 0 (failureThreshold cb) (window cb).

Definition success (now : Z) (cb : ConsecCircuitBreaker) : ConsecCircuitBreaker := reset now cb.

Definition fail (now : Z) (cb : ConsecCircuitBreaker) : ConsecCircuitBreaker :=
  mk_breaker now (u64 (failures cb + 1)) (failureThreshold cb) (window cb).

Definition ready (now : Z) (cb : ConsecCircuitBreaker) : ConsecCircuitBreaker * bool :=
  if window cb <? now - lastFailureTime cb then (reset now cb, true)
  else (cb, failures cb <? failureThreshold cb).

(** What the guarded function does: it ends after [dur] with an error or nil,
    or it never ends. *)
Inductive outcome : Type := Finished (dur : Z) (err : option error) | Never.

(** [Call fn d] started at [now].  With a timeout the function runs in its own
    goroutine; when it ends at the very instant the timer fires the runtime
    chooses, which [tie] stands for. *)
Definition Call (now d : Z) (fn : outcome) (tie : bool) (cb : ConsecCircuitBreaker)
    : ConsecCircuitBreaker * result (option error) :=
  let '(cb, ok) := ready now cb in
  if negb ok then (cb, Ok (Some ErrBreakerOpen))
  else
    let finish (t : Z) (err : option error) :=
      (match err with None => success t cb | Some _ => fail t cb end, Ok err) in
    if d =? 0 then
      match fn with
      | Finished dur err => finish (now + dur) err
      | Never => (cb, Blocked)
      end
    else
      let deadline := now + Z.max 0 d in
      match fn with
      | Finished dur err =>
          if (now + dur <? deadline) || ((now + dur =? deadline) && tie)
          then finish (now + dur) err else finish deadline (Some ErrBreakerTimeout)
      | Never => finish deadline (Some ErrBreakerTimeout)
      end.

(** ** Lemmas *)
Lemma Call_open now d fn tie cb :
  now - lastFailureTime cb <= window cb -> failureThreshold cb <= failures cb ->
  Call now d fn tie cb = (cb, Ok (Some ErrBreakerOpen)).
Proof.
  intros H1 H2. unfold Call, ready.
  rewrite (proj2 (Z.ltb_ge _ _)) by lia. by rewrite (proj2 (Z.ltb_ge _ _)) by lia.
Qed.

Lemma Call_failing now dur e tie cb :
  (now - lastFailureTime cb <= window cb -> failures cb < failureThreshold cb) ->
  Call now 0 (Finished dur (Some e)) tie cb =
    (fail (now + dur) (if window cb <? now - lastFailureTime cb then reset now cb else cb),
     Ok (Some e)).
Proof.
  intros H. unfold Call, ready. destruct (Z.ltb_spec (window cb) (now - lastFailureTime cb)); cbn; [done|].
  by rewrite (proj2 (Z.ltb_lt _ _)) by lia.
Qed.

(** Failing calls, each with its start and duration, none later than the window
    after the previous failure. *)
Definition failing_call (cb : ConsecCircuitBreaker) (c : Z * Z * error) : ConsecCircuitBreaker :=
  let '(now, dur, e) := c in (Call now 0 (Finished dur (Some e)) true cb).1.

Fixpoint within (w last : Z) (cs : list (Z * Z * error)) : Prop :=
  match cs with
  | [] => True
  | (now, dur, _) :: cs => now - last <= w /\ within w (now + dur) cs
  end.

Lemma failing_calls cb cs :
  failures cb + Z.of_nat (length cs) <= failureThreshold cb < two64 -> 0 <= failures cb ->
  within (window cb) (lastFailureTime cb) cs ->
  let cb' := fold_left failing_call cs cb in
  failures cb' = failures cb + Z.of_nat (length cs) /\
  failureThreshold cb' = failureThreshold cb /\ window cb' = window cb.
Proof.
  revert cb. induction cs as [|[[now dur] e] cs IH]; intros cb Hn H0 Hw; cbn [fold_left]; [cbn; lia|].
  cbn [length within] in *. destruct Hw as [Hw1 Hw2].
  assert (Hf : failing_call cb (now, dur, e) = fail (now + dur) cb).
  { unfold failing_call. rewrite Call_failing by lia. cbn.
    by rewrite (proj2 (Z.ltb_ge _ _)) by lia. }
  rewrite Hf. pose proof (u64_small (failures cb + 1)) as Hu.
  destruct (IH (fail (now + dur) cb)) as (H1 & H2 & H3); cbn [fail failures failureThreshold window lastFailureTime];
    rewrite ?Hu by lia; [lia|lia|done|]. cbn zeta. rewrite H1, H2, H3. cbn. rewrite Hu by lia. lia.
Qed.

(** A closed breaker opens after [failureThreshold] consecutive failures
    that follow each other within the window: then every call within the window
    is refused with [ErrBreakerOpen], without running the function and without
    changing the breaker, and a call after the window runs the function again,
    one failure of which does not re-open it unless the threshold is 1; before
    the threshold is reached calls are admitted. *)
Theorem breaker_trips cb cs t d fn tie :
  failures cb = 0 -> 0 < failureThreshold cb < two64 ->
  Z.of_nat (length cs) <= failureThreshold cb ->
  within (window cb) (lastFailureTime cb) cs ->
  let cb' := fold_left failing_call cs cb in
  (Z.of_nat (length cs) < failureThreshold cb -> (ready t cb').2 = true) /\
  (Z.of_nat (length cs) = failureThreshold cb -> t - lastFailureTime cb' <= window cb ->
     Call t d fn tie cb' = (cb', Ok (Some ErrBreakerOpen))) /\
  (window cb < t - lastFailureTime cb' ->
     (ready t cb').2 = true /\
     forall dur e, failures (Call t 0 (Finished dur (Some e)) tie cb').1 = 1).
Proof.
  intros Hf Ht Hn Hw cb'.
  destruct (failing_calls cb cs ltac:(lia) ltac:(lia) Hw) as (H1 & H2 & H3). fold cb' in H1, H2, H3.
  split_and!.
  - intros Hlt. unfold ready. case_match; [done|]. cbn. apply Z.ltb_lt. lia.
  - intros Heq Hin. apply Call_open; lia.
  - intros Hout. split.
    + unfold ready. by rewrite (proj2 (Z.ltb_lt _ _)) by lia.
    + intros dur e. rewrite Call_failing by lia. by rewrite (proj2 (Z.ltb_lt _ _)) by lia.
Qed.

Definition sample_calls : list (Z * Z * error) :=
  [(5, 1, EOF); (8, 0, EOF); (9, 2, EOF)].

Lemma breaker_trips_witness :
  let cb := fold_left failing_call sample_calls (NewConsecCircuitBreaker 3 10) in
  Call 21 0 Never true cb = (cb, Ok (Some ErrBreakerOpen)).
Proof.
  refine (proj1 (proj2 (breaker_trips (NewConsecCircuitBreaker 3 10) sample_calls 21 0 Never true
    _ _ _ _)) _ _); try reflexivity; vm_compute; intuition discriminate.
Defined.
