(* ===== verification/HashUtils.v ===== *)
(** client/hash_utils.go: the jump consistent hash with its float64 arithmetic,
    the FNV-1a hash of a string and the hash of a list of options. *)
From S2P Require Import Prelude Go.
Open Scope go_scope.

(** ** float64

    A positive float64 is a mantissa and a binary exponent; every operation
    rounds to 53 bits, to nearest and ties to even.  The values of [Hash] stay
    far from the limits of the exponent. *)
Record float64 : Type := mk_float { man : Z; expo : Z }.

(** [a / b] rounded to an integer, to nearest and ties to even. *)
Definition rdiv_ne (a b : Z) : Z :=
  let q := a / b in
  let r := a mod b in
  if 2 * r <? b then q
  else if b <? 2 * r then q + 1
  else if Z.even q then q else q + 1.

Definition round53 (m e : Z) : float64 :=
  if m <? 2 ^ 53 then mk_float m e
  else let k := Z.log2 m - 52 in mk_float (rdiv_ne m (2 ^ k)) (e + k).

(** [float64(a) / float64(m)] for integers [m <= a], both exact as floats. *)
Definition fdiv (a m : Z) : float64 :=
  let s := 52 - Z.log2 (a / m) in
  mk_float (rdiv_ne (a * 2 ^ s) m) (- s).

(** [float64(x) * f] for an integer [x] exact as a float. *)
Definition fmul (x : Z) (f : float64) : float64 := round53 (x * man f) (expo f).

(** [int64(f)]: truncation. *)
Definition ftrunc (f : float64) : Z :=
  if 0 <=? expo f then man f * 2 ^ expo f else man f / 2 ^ (- expo f).

(** ** The jump consistent hash *)
Definition next_key (key : Z) : Z := u64 (key * 2862933555777941757 + 1).

Definition jump (b key : Z) : Z :=
  ftrunc (fmul (b + 1) (fdiv (2 ^ 31) (Z.shiftr key 33 + 1))).

(** The loop; [None] when the fuel is not enough. *)
Fixpoint Hash_loop (fuel : nat) (buckets b j key : Z) : option Z :=
  if j <? buckets then
    match fuel with
    | O => None
    | S fuel =>
        let b := j in
        let key := next_key key in
        let j := jump b key in
        Hash_loop fuel buckets b j key
    end
  else Some b.

(** The fuel is the number of buckets: [j] grows with every iteration. *)
Definition Hash (key buckets : Z) : option Z :=
  let buckets := if buckets <=? 0 then 1 else buckets in
  i32 <$> Hash_loop (Z.to_nat buckets) buckets 0 0 key.

(** ** FNV-1a and the hash of options *)
Definition fnv_step (h : Z) (b : byte) : Z := u64 (Z.lxor h (bz b) * 1099511628211).

Definition HashString (s : string) : Z :=
  fold_left fnv_step (bytes_of s) 14695981039346656037.

(** The options as [fmt.Sprintf("%v", opt)] prints them. *)
Definition genKey (options : list string) : Z :=
  HashString (fold_left (fun keyString opt => keyString +:+ "/" +:+ opt) options "").

Definition JumpConsistentHash (len : Z) (options : list string) : option Z :=
  Hash (genKey options) (i32 len).

(** ** Lemmas on the arithmetic *)
Lemma rdiv_ne_ge a b c : 0 < b -> c * b <= a -> c <= rdiv_ne a b.
Proof.
  intros Hb Hc. assert (c <= a / b) by (apply Z.div_le_lower_bound; lia).
  unfold rdiv_ne. repeat case_match; lia.
Qed.

Lemma fdiv_ge a m : 0 < m <= a -> a < 2 ^ 52 ->
  let s := 52 - Z.log2 (a / m) in
  0 < s /\ expo (fdiv a m) = - s /\ 2 ^ s <= man (fdiv a m).
Proof.
  intros Hm Ha s. assert (Hq : 1 <= a / m) by (apply Z.div_le_lower_bound; lia).
  assert (Hs : 0 < s).
  { unfold s. assert (Z.log2 (a / m) < 52); [|lia]. apply Z.log2_lt_pow2; [lia|].
    apply Z.div_lt_upper_bound; nia. }
  unfold fdiv. fold s. cbn [man expo]. split_and!; [done|done|].
  apply rdiv_ne_ge; [lia|]. assert (0 <= 2 ^ s) by lia. nia.
Qed.

(** A product with a factor of at least 1 does not fall below the integer. *)
Lemma fmul_trunc_ge x f s :
  1 <= x <= 2 ^ 52 -> 0 < s -> expo f = - s -> 2 ^ s <= man f -> x <= ftrunc (fmul x f).
Proof.
  intros Hx Hs He Hm. unfold fmul. rewrite He. set (p := x * man f).
  assert (Hp : x * 2 ^ s <= p) by (unfold p; nia). clearbody p.
  assert (0 < 2 ^ s) by lia. unfold round53.
  destruct (Z.ltb_spec p (2 ^ 53)) as [Hlt|Hge].
  - unfold ftrunc. cbn [expo man]. rewrite (proj2 (Z.leb_gt 0 (- s))) by lia.
    rewrite Z.opp_involutive. apply Z.div_le_lower_bound; lia.
  - set (k := Z.log2 p - 52).
    destruct (Z.log2_spec p ltac:(lia)) as [Hlog _].
    assert (Hk : 1 <= k) by (unfold k; pose proof (Z.log2_le_mono (2 ^ 53) p Hge) as Hl;
      rewrite Z.log2_pow2 in Hl by lia; lia).
    assert (H52 : 2 ^ 52 * 2 ^ k <= p).
    { rewrite <- Z.pow_add_r by lia. replace (52 + k) with (Z.log2 p) by (unfold k; lia). done. }
    clearbody k. unfold ftrunc. cbn [expo man]. destruct (Z.leb_spec 0 (- s + k)) as [Hsk|Hsk].
    + assert (2 ^ 52 <= rdiv_ne p (2 ^ k)) by (apply rdiv_ne_ge; lia).
      assert (1 <= 2 ^ (- s + k)) by (apply (Z.pow_le_mono_r 2 0); lia). nia.
    + apply Z.div_le_lower_bound; [apply Z.pow_pos_nonneg; lia|].
      replace (- (- s + k)) with (s - k) by lia. rewrite Z.mul_comm.
      apply rdiv_ne_ge; [lia|].
      rewrite <- Z.mul_assoc, <- Z.pow_add_r by lia. by replace (s - k + k) with s by lia.
Qed.

Lemma next_key_range key : 0 <= next_key key < two64.
Proof. apply u64_range. Qed.

(** Each jump lands strictly beyond the bucket it starts from. *)
Lemma jump_gt b key : 0 <= b < 2 ^ 31 -> 0 <= key < two64 -> b + 1 <= jump b key.
Proof.
  intros Hb Hk. unfold jump. rewrite Z.shiftr_div_pow2 by lia.
  assert (0 <= key / 2 ^ 33 < 2 ^ 31) by (unfold two64 in *; lia).
  destruct (fdiv_ge (2 ^ 31) (key / 2 ^ 33 + 1)) as (Hs & He & Hm); [lia|lia|].
  eapply fmul_trunc_ge; [lia|exact Hs|done|done].
Qed.

(** ** The loop ends, with a bucket, and more fuel does not matter *)
Lemma Hash_loop_ends fuel n b j key :
  0 <= b < n -> 0 <= j -> n <= 2 ^ 31 -> n - j <= Z.of_nat fuel ->
  exists r, Hash_loop fuel n b j key = Some r /\ 0 <= r < n /\
    forall fuel', (fuel <= fuel')%nat -> Hash_loop fuel' n b j key = Some r.
Proof.
  revert b j key. induction fuel as [|fuel IH]; intros b j key Hb Hj Hn Hf; cbn [Hash_loop].
  - rewrite (proj2 (Z.ltb_ge j n)) by lia. exists b. split_and!; [done|lia|lia|].
    intros fuel' _. destruct fuel'; cbn; by rewrite (proj2 (Z.ltb_ge j n)) by lia.
  - destruct (Z.ltb_spec j n) as [Hlt|Hge].
    + pose proof (next_key_range key) as Hk.
      pose proof (jump_gt j (next_key key) ltac:(lia) Hk) as Hjump.
      destruct (IH j (jump j (next_key key)) (next_key key)) as (r & Hr & Hrn & Hmore); try lia.
      exists r. split_and!; [done|lia|lia|]. intros [|fuel'] Hle; [lia|]. cbn [Hash_loop].
      rewrite (proj2 (Z.ltb_lt j n)) by lia. apply Hmore. lia.
    + exists b. split_and!; [done|lia|lia|].
      intros fuel' _. destruct fuel'; cbn; by rewrite (proj2 (Z.ltb_ge j n)) by lia.
Qed.

(** With one more bucket the loop gives the same bucket or the new one. *)
Lemma Hash_loop_next fuel n b j key r r' :
  0 <= b -> 0 <= j -> n < 2 ^ 31 ->
  Hash_loop fuel n b j key = Some r -> Hash_loop fuel (n + 1) b j key = Some r' ->
  r' = r \/ r' = n.
Proof.
  revert b j key. induction fuel as [|fuel IH]; intros b j key Hb Hj Hn; cbn [Hash_loop].
  - destruct (j <? n); [done|]. destruct (j <? n + 1); [done|]. intros; left; congruence.
  - destruct (Z.ltb_spec j n) as [Hlt|Hge].
    + rewrite (proj2 (Z.ltb_lt j (n + 1))) by lia.
      pose proof (jump_gt j (next_key key) ltac:(lia) (next_key_range key)).
      apply IH; lia.
    + destruct (Z.ltb_spec j (n + 1)) as [Hlt'|Hge']; [|intros; left; congruence].
      assert (j = n) as -> by lia. intros _.
      pose proof (jump_gt n (next_key key) ltac:(lia) (next_key_range key)).
      destruct fuel; cbn [Hash_loop]; rewrite (proj2 (Z.ltb_ge _ (n + 1))) by lia;
        intros [= <-]; by right.
Qed.

(** C34: [Hash] is a consistent hash: it ends for every key and every int32
    number of buckets, gives a bucket in range, and when one bucket is added a
    key either stays in its bucket or moves to the new one. *)
Theorem Hash_consistent key n :
  0 <= n < 2 ^ 31 - 1 ->
  exists r r', Hash key n = Some r /\ Hash key (n + 1) = Some r' /\
    0 <= r < Z.max 1 n /\ 0 <= r' <= n /\ (r' = r \/ r' = n).
Proof.
  intros Hn. unfold Hash. rewrite (proj2 (Z.leb_gt (n + 1) 0)) by lia.
  set (m := if n <=? 0 then 1 else n).
  assert (Hm : m = Z.max 1 n) by (unfold m; destruct (Z.leb_spec n 0); lia).
  destruct (Hash_loop_ends (Z.to_nat m) m 0 0 key) as (r & Hr & Hrm & Hmore); try lia.
  destruct (Hash_loop_ends (Z.to_nat (n + 1)) (n + 1) 0 0 key) as (r' & Hr' & Hrn & _); try lia.
  rewrite Hr, Hr'. cbn. rewrite !i32_small by lia. exists r, r'. split_and!; try done; try lia.
  destruct (decide (n = 0)) as [->|Hn0]; [lia|].
  replace m with n in * by lia.
  pose proof (Hmore (Z.to_nat (n + 1)) ltac:(lia)) as Hr2.
  eapply Hash_loop_next; [| | |exact Hr2|exact Hr']; lia.
Qed.

Lemma Hash_consistent_witness :
  exists r r', Hash (HashString "/Arith/Mul") 7 = Some r /\ Hash (HashString "/Arith/Mul") (7 + 1) = Some r' /\
    0 <= r < Z.max 1 7 /\ 0 <= r' <= 7 /\ (r' = r \/ r' = 7).
Proof. apply Hash_consistent. lia. Defined.
