(* ===== verification/UrlQuery.v ===== *)
(** The query strings servers publish as metadata: Go's url.QueryEscape,
    url.ParseQuery, Values.Get and strconv.Atoi as the client uses them, the
    client's [urlEncode] (client/client.go), [filterByStateAndGroup]
    (client/xclient.go) and [splitNetworkAndAddress] (client/xclient_utils.go). *)
From S2P Require Import Prelude Go.
Open Scope go_scope.

(** ** Escaping *)
Definition between (lo hi : byte) (b : byte) : bool := (bz lo <=? bz b) && (bz b <=? bz hi).

Definition unreserved (b : byte) : bool :=
  between "a" "z" b || between "A" "Z" b || between "0" "9" b
  || bool_decide (b ∈ ["-"; "_"; "."; "~"]%byte).

Definition hex_digit (n : Z) : byte := zb (if n <? 10 then 48 + n else 55 + n).

Definition unhex (b : byte) : option Z :=
  if between "0" "9" b then Some (bz b - 48)
  else if between "a" "f" b then Some (bz b - 87)
  else if between "A" "F" b then Some (bz b - 55)
  else None.

Definition escape_byte (b : byte) : list byte :=
  if unreserved b then [b]
  else if decide (b = " "%byte) then ["+"%byte]
  else ["%"%byte; hex_digit (bz b / 16); hex_digit (bz b mod 16)].

Definition QueryEscape (s : list byte) : list byte := concat (map escape_byte s).

(** [None] is [EscapeError]: a percent sign without two hexadecimal digits. *)
Fixpoint QueryUnescape (s : list byte) : option (list byte) :=
  match s with
  | [] => Some []
  | c :: s' =>
      if decide (c = "%"%byte) then
        match s' with
        | a :: b :: s'' => hi ← unhex a; lo ← unhex b; cons (zb (16 * hi + lo)) <$> QueryUnescape s''
        | _ => None
        end
      else cons (if decide (c = "+"%byte) then " "%byte else c) <$> QueryUnescape s'
  end.

(** ** ParseQuery *)

(** [strings.Index] and the two halves around it. *)
Fixpoint split_at (c : byte) (s : list byte) : list byte * option (list byte) :=
  match s with
  | [] => ([], None)
  | b :: s => if decide (b = c) then ([], Some s)
              else let '(l, r) := split_at c s in (b :: l, r)
  end.

Fixpoint split_on (c : byte) (s : list byte) : list (list byte) :=
  match s with
  | [] => [[]]
  | b :: s => if decide (b = c) then [] :: split_on c s
              else match split_on c s with
                   | seg :: segs => (b :: seg) :: segs
                   | [] => [[b]]
                   end
  end.

(** One turn of the loop: the segment's pair, nothing for an empty segment, or
    an error that makes ParseQuery skip the segment. *)
Inductive segment : Type := Pair (k v : list byte) | Skip | Bad.

Definition parse_segment (seg : list byte) : segment :=
  if bool_decide (";"%byte ∈ seg) then Bad
  else match seg with
       | [] => Skip
       | _ =>
           let '(k, v) := split_at "=" seg in
           match QueryUnescape k, QueryUnescape (default [] v) with
           | Some k, Some v => Pair k v
           | _, _ => Bad
           end
       end.

(** The values in order of appearance, and whether there was no error. *)
Definition ParseQuery (q : list byte) : list (list byte * list byte) * bool :=
  fold_left (fun '(vs, ok) seg =>
    match parse_segment seg with
    | Pair k v => (vs ++ [(k, v)], ok)
    | Skip => (vs, ok)
    | Bad => (vs, false)
    end) (split_on "&" q) ([], true).

(** [Values.Get]: the first value of the key, or the empty string. *)
Definition Get (vs : list (list byte * list byte)) (k : string) : string :=
  match filter (fun kv => kv.1 = bytes_of k) vs with
  | (_, v) :: _ => string_of v
  | [] => ""
  end.

(** [Values.Set] replaces the values of the key. *)
Definition Values_Set (k v : string) (vs : list (list byte * list byte)) : list (list byte * list byte) :=
  filter (fun kv => kv.1 <> bytes_of k) vs ++ [(bytes_of k, bytes_of v)].

(** Lexicographic order of byte strings, as [sort.Strings] has it. *)
Fixpoint bytes_leb (a b : list byte) : bool :=
  match a, b with
  | [], _ => true
  | _ :: _, [] => false
  | x :: a, y :: b => if decide (x = y) then bytes_leb a b else bz x <? bz y
  end.

(** A stable sort by key: [Values.Encode] goes through the sorted keys and, for
    each, through its values in order. *)
Fixpoint insert_by_key (kv : list byte * list byte) (vs : list (list byte * list byte)) :=
  match vs with
  | [] => [kv]
  | kv' :: vs => if bytes_leb kv.1 kv'.1 then kv :: kv' :: vs else kv' :: insert_by_key kv vs
  end.

Definition sort_by_key (vs : list (list byte * list byte)) := foldr insert_by_key [] vs.

(** The pairs written with an ampersand between them. *)
Fixpoint join_amp (segs : list (list byte)) : list byte :=
  match segs with
  | [] => []
  | [s] => s
  | s :: segs => s ++ "&"%byte :: join_amp segs
  end.

(** [Values.Encode]. *)
Definition Values_Encode (vs : list (list byte * list byte)) : list byte :=
  join_amp (map (fun kv => QueryEscape kv.1 ++ "="%byte :: QueryEscape kv.2) (sort_by_key vs)).

(** ** strconv.Atoi *)
Fixpoint digits (acc : Z) (s : list byte) : option Z :=
  match s with
  | [] => Some acc
  | b :: s => if between "0" "9" b then digits (acc * 10 + (bz b - 48)) s else None
  end.

Definition Atoi (s : string) : option Z :=
  let '(neg, ds) := match bytes_of s with
                    | b :: ds => if decide (b = "-"%byte) then (true, ds)
                                 else if decide (b = "+"%byte) then (false, ds) else (false, b :: ds)
                    | [] => (false, [])
                    end in
  match ds with
  | [] => None
  | _ => n ← digits 0 ds;
         let n := if neg : bool then - n else n in
         if (- two63 <=? n) && (n <? two63) then Some n else None
  end.

(** ** The client's uses *)

(** [urlEncode]: [data] in the order of the map iteration; the last byte, an
    ampersand, is cut off. *)
Definition urlEncode (data : list (string * string)) : list byte :=
  match data with
  | [] => []
  | _ =>
      let s := concat (map (fun '(k, v) =>
        QueryEscape (bytes_of k) ++ ["="%byte] ++ QueryEscape (bytes_of v) ++ ["&"%byte]) data) in
      take (length s - 1) s
  end.

(** [filterByStateAndGroup]: which entries of the server map stay. *)
Definition keep_server (group v : string) : bool :=
  let '(values, ok) := ParseQuery (bytes_of v) in
  if ok then
    negb (bool_decide (Get values "state" = "inactive"))
    && (bool_decide (group = "") || bool_decide (group = Get values "group"))
  else true.

Definition filterByStateAndGroup (group : string) (servers : gmap string string) : gmap string string :=
  filter (fun '(_, v) => keep_server group v = true) servers.

(** [splitNetworkAndAddress]. *)
Definition splitNetworkAndAddress (server : string) : string * string :=
  match split_at "@" (bytes_of server) with
  | (_, None) => ("tcp", server)
  | (n, Some a) => (string_of n, string_of a)
  end.

(** ** Lemmas *)
Lemma escape_byte_plain b :
  forallb (fun c => negb (bool_decide (c ∈ ["&"; ";"; "="]%byte))) (escape_byte b) = true.
Proof. revert b. apply byte_ind_compute. vm_compute. reflexivity. Qed.

Lemma unescape_escape_byte b s :
  QueryUnescape (escape_byte b ++ s) = cons b <$> QueryUnescape s.
Proof.
  assert (H : match escape_byte b with
    | [c] => c <> "%"%byte /\ (if decide (c = "+"%byte) then " "%byte else c) = b
    | [p; h; l] => p = "%"%byte /\ exists hi lo, unhex h = Some hi /\ unhex l = Some lo /\ zb (16 * hi + lo) = b
    | _ => False end).
  { destruct b; cbn; try (split; [discriminate|reflexivity]);
      (split; [reflexivity|eexists _, _; split_and!; reflexivity]). }
  destruct (escape_byte b) as [|c [|h [|l [|]]]]; try done; cbn [app QueryUnescape].
  - destruct H as [Hc Hb]. rewrite decide_False by done. by rewrite Hb.
  - destruct H as (-> & hi & lo & Hh & Hl & Hb). rewrite decide_True by done.
    rewrite Hh, Hl. cbn. by rewrite Hb.
Qed.

Lemma QueryUnescape_QueryEscape s : QueryUnescape (QueryEscape s) = Some s.
Proof.
  induction s as [|b s IH]; [done|]. cbn [QueryEscape map concat].
  rewrite unescape_escape_byte. change (concat (map escape_byte s)) with (QueryEscape s). by rewrite IH.
Qed.

Lemma QueryEscape_plain s c : bool_decide (c ∈ ["&"; ";"; "="]%byte) = true -> c ∉ QueryEscape s.
Proof.
  intros Hc Hin. induction s as [|b s IH]; cbn in Hin; [by apply elem_of_nil in Hin|].
  apply elem_of_app in Hin as [Hin|Hin]; [|by apply IH].
  pose proof (escape_byte_plain b) as Hp. rewrite forallb_forall in Hp.
  specialize (Hp c (proj1 (list_elem_of_In _ _) Hin)).
  by rewrite Hc in Hp.
Qed.

Lemma split_at_plain c l r : c ∉ l -> split_at c (l ++ c :: r) = (l, Some r).
Proof.
  induction l as [|b l IH]; intros Hc; cbn.
  - by rewrite decide_True.
  - rewrite elem_of_cons in Hc. rewrite decide_False by (intros ->; auto). rewrite IH by auto. done.
Qed.

Lemma split_on_app c seg s :
  c ∉ seg -> split_on c (seg ++ c :: s) = seg :: split_on c s.
Proof.
  induction seg as [|b seg IH]; intros Hc; cbn.
  - by rewrite decide_True.
  - rewrite elem_of_cons in Hc. rewrite decide_False by (intros ->; auto). rewrite IH by auto. done.
Qed.

Lemma split_on_plain c seg : c ∉ seg -> split_on c seg = [seg].
Proof.
  induction seg as [|b seg IH]; intros Hc; cbn; [done|].
  rewrite elem_of_cons in Hc. rewrite decide_False by (intros ->; auto). by rewrite IH by auto.
Qed.

(** The segment [urlEncode] writes for a pair. *)
Definition pair_segment (kv : string * string) : list byte :=
  QueryEscape (bytes_of kv.1) ++ "="%byte :: QueryEscape (bytes_of kv.2).

Lemma pair_segment_plain kv c : c = "&"%byte \/ c = ";"%byte -> c ∉ pair_segment kv.
Proof.
  intros Hc. unfold pair_segment. rewrite elem_of_app, elem_of_cons.
  intros [H|[H|H]]; [|destruct Hc; congruence|];
    (eapply QueryEscape_plain; [|exact H]; by destruct Hc as [-> | ->]).
Qed.

Lemma parse_pair_segment kv :
  parse_segment (pair_segment kv) = Pair (bytes_of kv.1) (bytes_of kv.2).
Proof.
  unfold parse_segment. rewrite bool_decide_eq_false_2 by (apply pair_segment_plain; auto).
  unfold pair_segment at 1. destruct (QueryEscape (bytes_of kv.1) ++ _) eqn:E;
    [by destruct (QueryEscape (bytes_of kv.1))|]. clear E. unfold pair_segment.
  rewrite split_at_plain by (by apply QueryEscape_plain). cbn [from_option id].
  by rewrite !QueryUnescape_QueryEscape.
Qed.

Lemma urlEncode_join data : urlEncode data = join_amp (map pair_segment data).
Proof.
  destruct data as [|kv data]; [done|]. unfold urlEncode.
  assert (H : forall kv, concat (map (fun '(k, v) =>
    QueryEscape (bytes_of k) ++ ["="%byte] ++ QueryEscape (bytes_of v) ++ ["&"%byte]) (kv :: data))
    = join_amp (map pair_segment (kv :: data)) ++ ["&"%byte]).
  { clear kv. induction data as [|kv' data IH]; intros [k v].
    - cbn. unfold pair_segment. cbn. by rewrite app_nil_r, <- !app_assoc.
    - cbn [map concat]. cbn [map concat] in IH. rewrite IH. cbn [join_amp].
      change (pair_segment (k, v)) with
        (QueryEscape (bytes_of k) ++ "="%byte :: QueryEscape (bytes_of v)).
      rewrite <- !app_assoc; cbn [app]; by rewrite <- ?app_assoc. }
  rewrite H. apply take_app_length'. rewrite length_app. cbn. lia.
Qed.

Lemma split_on_join segs :
  segs <> [] -> Forall (fun seg => "&"%byte ∉ seg) segs -> split_on "&" (join_amp segs) = segs.
Proof.
  intros Hne Hf. induction Hf as [|seg segs Hs Hf IH]; [done|].
  destruct segs as [|seg' segs]; [by apply split_on_plain|].
  change (split_on "&" (seg ++ "&"%byte :: join_amp (seg' :: segs)) = seg :: seg' :: segs).
  by rewrite split_on_app, IH.
Qed.

(** Parsing what was written from pairs, the common part of every printer. *)
Lemma ParseQuery_join data :
  ParseQuery (join_amp (map pair_segment data)) = (map (fun '(k, v) => (bytes_of k, bytes_of v)) data, true).
Proof.
  unfold ParseQuery.
  destruct (decide (data = [])) as [->|Hne]; [done|].
  rewrite split_on_join.
  2:{ by destruct data. }
  2:{ apply Forall_fmap, Forall_true. intros kv. apply pair_segment_plain. auto. }
  clear Hne.
  match goal with |- fold_left ?f _ _ = _ => assert (H : forall acc,
    fold_left f (map pair_segment data) (acc, true) =
      (acc ++ map (fun '(k, v) => (bytes_of k, bytes_of v)) data, true)) end.
  { induction data as [|[k v] data IH]; intros acc; cbn [map fold_left].
    - by rewrite app_nil_r.
    - rewrite parse_pair_segment, IH. by rewrite <- app_assoc. }
  apply H.
Qed.

(** The metadata a client sends as a query string is read back exactly:
    parsing [urlEncode] of any pairs, with any bytes in keys and values, gives
    those pairs in order and no error. *)
Theorem ParseQuery_urlEncode data :
  ParseQuery (urlEncode data) = (map (fun '(k, v) => (bytes_of k, bytes_of v)) data, true).
Proof. rewrite urlEncode_join. apply ParseQuery_join. Qed.

(** A stable sort keeps, for each key, the values and their order. *)
Lemma filter_insert_by_key k kv vs :
  filter (fun kv => kv.1 = k) (insert_by_key kv vs) = filter (fun kv => kv.1 = k) (kv :: vs).
Proof.
  induction vs as [|kv' vs IH]; [done|]. cbn [insert_by_key].
  destruct (bytes_leb kv.1 kv'.1) eqn:E; [done|].
  rewrite !filter_cons in *. rewrite IH. case_decide as H1; case_decide as H2; try done.
  exfalso. rewrite H1, H2 in E. clear -E. assert (H : forall l, bytes_leb l l = true)
    by (induction l; cbn; [done|]; by rewrite decide_True). by rewrite H in E.
Qed.

Lemma filter_sort_by_key k vs :
  filter (fun kv => kv.1 = k) (sort_by_key vs) = filter (fun kv => kv.1 = k) vs.
Proof.
  induction vs as [|kv vs IH]; [done|]. cbn [sort_by_key foldr].
  rewrite filter_insert_by_key, !filter_cons. unfold sort_by_key in IH. by rewrite IH.
Qed.

Lemma Get_sort_by_key k vs : Get (sort_by_key vs) k = Get vs k.
Proof. unfold Get. by rewrite filter_sort_by_key. Qed.

Lemma Get_Set_ne k k' v vs : k <> k' -> Get (Values_Set k' v vs) k = Get vs k.
Proof.
  intros Hne. unfold Get, Values_Set. rewrite filter_app, list_filter_filter.
  rewrite filter_cons, filter_nil, decide_False.
  2:{ cbn. intros H. apply Hne. rewrite <- (string_of_bytes_of k), <- H. apply string_of_bytes_of. }
  rewrite app_nil_r.
  rewrite (list_filter_iff (fun kv => kv.1 = bytes_of k /\ kv.1 <> bytes_of k') (fun kv => kv.1 = bytes_of k)); [done|].
  intros [a b]. cbn. split; [by intros []|]. intros ->. split; [done|].
  intros H. apply Hne. by rewrite <- (string_of_bytes_of k), H, string_of_bytes_of.
Qed.

(** Printing any values and parsing them gives them back, sorted by key. *)
Lemma ParseQuery_Values_Encode vs : ParseQuery (Values_Encode vs) = (sort_by_key vs, true).
Proof.
  unfold Values_Encode.
  replace (map _ (sort_by_key vs)) with (map pair_segment (map (fun '(k, v) => (string_of k, string_of v)) (sort_by_key vs))).
  - rewrite ParseQuery_join, map_map. f_equal.
    induction (sort_by_key vs) as [|[k v] l IH]; [done|]. cbn [map]. rewrite IH. by rewrite !bytes_of_string_of.
  - rewrite map_map. apply map_ext. intros [k v]. unfold pair_segment. cbn [fst snd]. by rewrite !bytes_of_string_of.
Qed.
