(* ===== verification/Float64.v ===== *)
(** Go's float64 with its infinities and NaN, and [strconv.ParseFloat]: the
    numbers the geographic selector reads from metadata and computes with.

    A float64 is a [spec_float] of the standard library, whose operations round
    to 53 bits, to nearest and ties to even.  The functions of package math
    that are not exactly specified are the class [GoMath], with the special
    cases its documentation promises in [GoMathLaws]. *)

From Stdlib Require Export SpecFloat.
From S2P Require Import Prelude Go UrlQuery.
Open Scope go_scope.

Definition float : Type := spec_float.

Definition fadd : float -> float -> float := SFadd 53 1024.
Definition fsub : float -> float -> float := SFsub 53 1024.
Definition fmul : float -> float -> float := SFmul 53 1024.
Definition fdiv : float -> float -> float := SFdiv 53 1024.
Definition Sqrt : float -> float := SFsqrt 53 1024.
(** [x < y] and [x == y], false when one is NaN. *)
Definition flt : float -> float -> bool := SFltb.
Definition feq : float -> float -> bool := SFeqb.

(** [float64(z)]. *)
Definition float_of (z : Z) : float := binary_normalize 53 1024 z 0 false.
Definition NaN : float := S754_nan.
Definition Inf (neg : bool) : float := S754_infinity neg.
Definition Pi : float := S754_finite false 7074237752028440 (-51).
Definition MaxFloat64 : float := S754_finite false 9007199254740991 971.

Class GoMath : Type := {
  Sin : float -> float;
  Cos : float -> float;
  Asin : float -> float;
  Pow : float -> float -> float
}.

Class GoMathLaws `{GoMath} : Prop := {
  Sin_Inf b : Sin (Inf b) = NaN;
  Sin_NaN : Sin NaN = NaN;
  Cos_Inf b : Cos (Inf b) = NaN;
  Cos_NaN : Cos NaN = NaN;
  Asin_NaN : Asin NaN = NaN;
  Pow_NaN y : y <> S754_zero false -> y <> S754_zero true -> Pow NaN y = NaN
}.

(** ** strconv.ParseFloat *)
Definition lower (b : byte) : byte := zb (Z.lor (bz b) 32).
Definition is_digit (b : byte) : bool := between "0" "9" b.
Definition is_hex (b : byte) : bool := between "a" "f" (lower b).

(** [special]: "inf", "infinity" and "nan" in any case, the infinities with a
    sign. *)
Definition special (s : list byte) : option float :=
  let eq_fold (w : string) (s : list byte) := bool_decide (map lower s = bytes_of w) in
  match s with
  | [] => None
  | c :: s' =>
      if decide (c = "+"%byte \/ c = "-"%byte) then
        if eq_fold "inf" s' || eq_fold "infinity" s' then Some (Inf (bool_decide (c = "-"%byte))) else None
      else if eq_fold "inf" s || eq_fold "infinity" s then Some (Inf false)
      else if eq_fold "nan" s then Some NaN else None
  end.

(** What the loop over the mantissa has read: the digits, their number from the
    first that is not 0, the place of the point. *)
Record scan : Type := mk_scan { mant : Z; nd : Z; dp : Z; sawdot : bool; sawdigits : bool }.

Fixpoint scan_mantissa (hex : bool) (s : list byte) (x : scan) : scan * list byte :=
  match s with
  | [] => (x, [])
  | c :: s' =>
      let base := if hex then 16 else 10 in
      let digit d := mk_scan (mant x * base + d) (nd x + 1) (dp x) (sawdot x) true in
      if decide (c = "_"%byte) then scan_mantissa hex s' x
      else if decide (c = "."%byte) then
        if sawdot x then (x, s) else scan_mantissa hex s' (mk_scan (mant x) (nd x) (nd x) true (sawdigits x))
      else if is_digit c then
        if decide (c = "0"%byte /\ nd x = 0)
        then scan_mantissa hex s' (mk_scan (mant x) (nd x) (dp x - 1) (sawdot x) true)
        else scan_mantissa hex s' (digit (bz c - 48))
      else if hex && is_hex c then scan_mantissa hex s' (digit (bz (lower c) - 87))
      else (x, s)
  end.

(** The digits of the exponent, which stop counting at five. *)
Fixpoint scan_exponent (s : list byte) (e : Z) : Z * list byte :=
  match s with
  | [] => (e, [])
  | c :: s' =>
      if decide (c = "_"%byte) then scan_exponent s' e
      else if is_digit c then scan_exponent s' (if e <? 10000 then e * 10 + (bz c - 48) else e)
      else (e, s)
  end.

(** Underscores separate digits, or follow the prefix of the base. *)
Inductive seen : Type := AtStart | ADigit | AnUnderscore | Other.

Fixpoint underscores_ok (hex : bool) (saw : seen) (s : list byte) : bool :=
  match s with
  | [] => match saw with AnUnderscore => false | _ => true end
  | c :: s =>
      if is_digit c || hex && is_hex c then underscores_ok hex ADigit s
      else if decide (c = "_"%byte) then
        match saw with ADigit => underscores_ok hex AnUnderscore s | _ => false end
      else match saw with AnUnderscore => false | _ => underscores_ok hex Other s end
  end.

Definition unsigned (s : list byte) : bool * list byte :=
  match s with
  | c :: s' => if decide (c = "+"%byte) then (false, s')
               else if decide (c = "-"%byte) then (true, s') else (false, s)
  | [] => (false, [])
  end.

Definition underscoreOK (s : list byte) : bool :=
  match (unsigned s).2 with
  | c :: d :: s' =>
      if bool_decide (c = "0"%byte) && bool_decide (lower d ∈ ["b"; "o"; "x"]%byte)
      then underscores_ok (bool_decide (lower d = "x"%byte)) ADigit s'
      else underscores_ok false AtStart (c :: d :: s')
  | s => underscores_ok false AtStart s
  end.

(** [readFloat] on the whole string: sign, mantissa, base of the exponent and
    exponent of the number that is written. *)
Definition readFloat (s : list byte) : option (bool * Z * bool * Z) :=
  let '(neg, s1) := unsigned s in
  let '(hex, s2) := match s1 with
                    | c :: d :: ((_ :: _) as s2) =>
                        if bool_decide (c = "0"%byte) && bool_decide (lower d = "x"%byte) then (true, s2) else (false, s1)
                    | _ => (false, s1)
                    end in
  let '(x, s3) := scan_mantissa hex s2 (mk_scan 0 0 0 false false) in
  if sawdigits x then
    let dp := if sawdot x then dp x else nd x in
    let scale := if hex then 4 else 1 in
    let result (e : Z) :=
      if bool_decide ("_"%byte ∈ s) && negb (underscoreOK s) then None
      else Some (neg, mant x, hex, scale * (dp - nd x) + e) in
    match s3 with
    | [] => if hex then None else result 0
    | c :: s4 =>
        if decide (lower c = if hex then "p" else "e")%byte then
          let '(eneg, s5) := unsigned s4 in
          match s5 with
          | d :: _ => if is_digit d then
                        let '(e, s6) := scan_exponent s5 0 in
                        match s6 with [] => result (if eneg then - e else e) | _ => None end
                      else None
          | [] => None
          end
        else None
    end
  else None.

(** The number rounded once; [mant * 2^e] or [mant * 10^e]. *)
Definition round_number (neg : bool) (mant : Z) (hex : bool) (e : Z) : float :=
  match mant with
  | Zpos m =>
      if hex then binary_round 53 1024 neg m e
      else if 0 <=? e then binary_round 53 1024 neg (m * Z.to_pos (10 ^ e)) 0
      else let '(q, e', l) := SFdiv_core_binary 53 1024 (Zpos m) 0 (10 ^ (- e)) 0 in
           binary_round_aux 53 1024 neg q e' l
  | _ => S754_zero neg
  end.

(** [strconv.ParseFloat(s, 64)]: none for a syntax error and for a number out of
    range. *)
Definition ParseFloat (s : string) : option float :=
  match special (bytes_of s) with
  | Some f => Some f
  | None =>
      '(neg, m, hex, e) ← readFloat (bytes_of s);
      match round_number neg m hex e with
      | S754_infinity _ => None
      | f => Some f
      end
  end.

Example ParseFloat_decimal : ParseFloat "-12.5e-1" = Some (S754_finite true 5629499534213120 (-52)).
Proof. vm_compute. reflexivity. Qed.
Example ParseFloat_tenth : ParseFloat "0.1" = Some (S754_finite false 7205759403792794 (-56)).
Proof. vm_compute. reflexivity. Qed.
Example ParseFloat_hex : ParseFloat "0x1.8p+1" = Some (float_of 3).
Proof. vm_compute. reflexivity. Qed.
Example ParseFloat_special :
  (ParseFloat "NaN", ParseFloat "-Infinity", ParseFloat "+nan", ParseFloat "1e400", ParseFloat "1_0", ParseFloat "_1")
  = (Some NaN, Some (Inf true), None, None, Some (float_of 10), None).
Proof. vm_compute. reflexivity. Qed.

(** ** The order of the numbers that are not NaN *)
Notation rank := (Z * Z * Z)%type.

Definition frank (x : float) : option rank :=
  match x with
  | S754_nan => None
  | S754_infinity true => Some (-2, 0, 0)
  | S754_finite true m e => Some (-1, - e, - Zpos m)
  | S754_zero _ => Some (0, 0, 0)
  | S754_finite false m e => Some (1, e, Zpos m)
  | S754_infinity false => Some (2, 0, 0)
  end.

Definition rank_lt (x y : rank) : Prop :=
  let '(a, b, c) := x in let '(a', b', c') := y in a < a' \/ a = a' /\ (b < b' \/ b = b' /\ c < c').

Lemma SFcompare_rank x y a b : frank x = Some a -> frank y = Some b ->
  match SFcompare x y with
  | Some Lt => rank_lt a b
  | Some Eq => a = b
  | Some Gt => rank_lt b a
  | None => False
  end.
Proof.
  destruct x as [s|s| |s m e], y as [s'|s'| |s' m' e']; try done;
    repeat match goal with s : bool |- _ => destruct s end;
    cbn; intros [= <-] [= <-]; try done; try (left; lia);
    destruct (Z.compare_spec e e') as [->| |];
    change (Pos.compare_cont Eq m m') with (m ?= m')%positive;
    try destruct (Pos.compare_spec m m') as [->| |]; cbn; try done; right; split; try done; try (left; lia);
    right; split; try done; lia.
Qed.

Lemma flt_rank x y : flt x y = true <-> exists a b, frank x = Some a /\ frank y = Some b /\ rank_lt a b.
Proof.
  unfold flt, SFltb. split.
  - destruct (frank x) as [a|] eqn:Ha; [|by destruct x as [| | |]; try destruct s].
    destruct (frank y) as [b|] eqn:Hb; [|by destruct x as [| | |], y as [| | |]; repeat destruct s, s0].
    pose proof (SFcompare_rank x y a b Ha Hb) as Hc. destruct (SFcompare x y) as [[]|]; try done. by exists a, b.
  - intros (a & b & Ha & Hb & Hlt). pose proof (SFcompare_rank x y a b Ha Hb) as Hc.
    destruct a as [[a1 a2] a3], b as [[b1 b2] b3]. cbn in Hlt.
    destruct (SFcompare x y) as [[]|]; try done; cbn in Hc; [injection Hc; lia|lia].
Qed.

Lemma feq_rank x y : feq x y = true <-> exists a, frank x = Some a /\ frank y = Some a.
Proof.
  unfold feq, SFeqb. split.
  - destruct (frank x) as [a|] eqn:Ha; [|by destruct x as [| | |]; try destruct s].
    destruct (frank y) as [b|] eqn:Hb; [|by destruct x as [| | |], y as [| | |]; repeat destruct s, s0].
    pose proof (SFcompare_rank x y a b Ha Hb) as Hc. destruct (SFcompare x y) as [[]|]; try done. subst. by exists b.
  - intros (a & Ha & Hb). pose proof (SFcompare_rank x y a a Ha Hb) as Hc.
    destruct a as [[a1 a2] a3]. destruct (SFcompare x y) as [[]|]; try done; cbn in Hc; lia.
Qed.
