(* ===== verification/Selectors.v ===== *)
(** client/selector*.go and client/ping_utils.go: the strategies that choose a
    server for a call.  A Go map is ranged over in an arbitrary order, so every
    constructor and update takes the order in which the loop meets the servers.
    The selector of the closest server is in Geo.v. *)
From stdpp Require Import sorting.
From S2P Require Import Prelude Go UrlQuery HashUtils.
Open Scope go_scope.

(** ** Random *)
Definition randomSelector : Type := list string.

(** [rnd] is the number [fastrand.Uint32n] starts from. *)
Definition random_Select (rnd : nat) (ss : randomSelector) : result string :=
  match ss with
  | [] => Ok ""
  | _ => match ss !! (rnd `mod` length ss)%nat with Some s => Ok s | None => Panic end
  end.

Definition newRandomSelector (servers : list (string * string)) : randomSelector := servers.*1.

(** ** Round robin *)
Record roundRobinSelector : Type := mk_rr { rr_servers : list string; rr_i : Z }.

Definition rr_Select (s : roundRobinSelector) : roundRobinSelector * result string :=
  match rr_servers s with
  | [] => (s, Ok "")
  | ss =>
      let i := Z.rem (rr_i s) (Z.of_nat (length ss)) in
      (mk_rr ss (i64 (i + 1)),
       if i <? 0 then Panic
       else match ss !! Z.to_nat i with Some x => Ok x | None => Panic end)
  end.

Definition rr_UpdateServer (servers : list (string * string)) (s : roundRobinSelector) : roundRobinSelector :=
  mk_rr servers.*1 (rr_i s).

Definition newRoundRobinSelector (servers : list (string * string)) : roundRobinSelector :=
  mk_rr servers.*1 0.

(** ** Smooth weighted round robin *)
Record Weighted : Type := mk_Weighted {
  Server : string;
  Weight : Z;
  CurrentWeight : Z;
  EffectiveWeight : Z
}.

Definition set_CurrentWeight (c : Z) (w : Weighted) : Weighted :=
  mk_Weighted (Server w) (Weight w) c (EffectiveWeight w).

(** The two updates of the loop body. *)
Definition bump (w : Weighted) : Weighted :=
  mk_Weighted (Server w) (Weight w) (i64 (CurrentWeight w + EffectiveWeight w))
    (if EffectiveWeight w <? Weight w then i64 (EffectiveWeight w + 1) else EffectiveWeight w).

(** The loop of [nextWeighted] from index [i]; [best] is the index of the best
    server so far with its current weight. *)
Fixpoint nextWeighted_loop (i : nat) (ws : list Weighted) (total : Z) (best : option (nat * Z))
    : list Weighted * Z * option (nat * Z) :=
  match ws with
  | [] => ([], total, best)
  | w :: ws =>
      let total := i64 (total + EffectiveWeight w) in
      let w := bump w in
      let best := match best with
                  | None => Some (i, CurrentWeight w)
                  | Some (b, v) => if v <? CurrentWeight w then Some (i, CurrentWeight w) else best
                  end in
      let '(ws, total, best) := nextWeighted_loop (S i) ws total best in
      (w :: ws, total, best)
  end.

(** [nextWeighted]: the servers after the call and the index of the best. *)
Definition nextWeighted (ws : list Weighted) : list Weighted * option nat :=
  let '(ws, total, best) := nextWeighted_loop 0 ws 0 None in
  match best with
  | None => (ws, None)
  | Some (b, _) => (alter (fun w => set_CurrentWeight (i64 (CurrentWeight w - total)) w) b ws, Some b)
  end.

Definition weighted_Select (ws : list Weighted) : list Weighted * string :=
  match ws with
  | [] => (ws, "")
  | _ => match nextWeighted ws with
         | (ws, Some b) => (ws, default "" (Server <$> ws !! b))
         | (ws, None) => (ws, "")
         end
  end.

Definition weight_of (metadata : string) : Z :=
  let '(v, ok) := ParseQuery (bytes_of metadata) in
  if ok : bool then
    let ww := UrlQuery.Get v "weight" in
    if decide (ww = "") then 1 else default 1 (Atoi ww)
  else 1.

Definition createWeighted (servers : list (string * string)) : list Weighted :=
  map (fun '(k, metadata) => mk_Weighted k (weight_of metadata) 0 (weight_of metadata)) servers.

(** ** Weights from the round-trip time *)
Definition CalculateWeight (rtt : Z) : Z :=
  if (0 <=? rtt) && (rtt <=? 10) then 191
  else if (10 <? rtt) && (rtt <=? 200) then 201 - rtt
  else if (100 <? rtt) && (rtt <? 1000) then 1
  else 0.

(** The host part of [net.SplitHostPort]; the code drops its error, with which
    the host is empty. *)
Fixpoint last_colon (s : list byte) : option (list byte * list byte) :=
  match s with
  | [] => None
  | b :: s' =>
      match last_colon s' with
      | Some (h, p) => Some (b :: h, p)
      | None => if decide (b = ":"%byte) then Some ([], s') else None
      end
  end.

Definition has (c : byte) (s : list byte) : bool := bool_decide (c ∈ s).

Definition SplitHost (hostport : list byte) : list byte :=
  match last_colon hostport with
  | None => []
  | Some (before, port) =>
      match hostport with
      | "["%byte :: s =>
          match split_at "]" s with
          | (host, Some (":"%byte :: port')) =>
              if has ":" port' || has "[" host || has "[" port' || has "]" port' then [] else host
          | _ => []
          end
      | _ => if has ":" before || has "[" hostport || has "]" hostport then [] else before
      end
  end.

Section icmp.
(** [ping.NewPinger] of github.com/go-ping/ping and the average of the
    statistics of the pinger: [None] when the host does not resolve. *)
Context (AvgRtt : string -> option Z).

Definition Ping (host : string) : Z := default 1000 (AvgRtt host).

(** An address without an at sign makes the index expression panic. *)
Fixpoint createICMPWeighted (servers : list (string * string)) : result (list Weighted) :=
  match servers with
  | [] => Ok []
  | (k, _) :: servers =>
      match split_on "@" (bytes_of k) !! 1%nat with
      | None => Panic
      | Some addr =>
          let rtt := CalculateWeight (Ping (string_of (SplitHost addr))) in
          ws ← createICMPWeighted servers;
          Ok (mk_Weighted k rtt 0 rtt :: ws)
      end
  end.
End icmp.

(** ** Consistent hash

    The operations of github.com/edwingeng/doublejump and what its
    documentation says of them: a set of objects, [Get] gives one of them. *)
Class DoubleJump (H : Type) : Type := {
  NewHash : H;
  Add : string -> H -> H;
  Remove : string -> H -> H;
  Lookup : Z -> H -> option string;
  members : H -> gset string
}.

Class DoubleJumpLaws (H : Type) `{DoubleJump H} : Prop := {
  members_New : members NewHash = ∅;
  members_Add k h : members (Add k h) = {[k]} ∪ members h;
  members_Remove k h : members (Remove k h) = members h ∖ {[k]};
  Lookup_Some key h x : Lookup key h = Some x -> x ∈ members h;
  Lookup_None key h : Lookup key h = None -> members h = ∅
}.

(** [sort.Slice] by the byte order of the strings. *)
Definition str_le (a b : string) : Prop := String.leb a b = true.
#[export] Instance str_le_dec : RelDecision str_le.
Proof. intros a b. unfold str_le. apply _. Defined.

Definition sort_strings (ss : list string) : list string := merge_sort str_le ss.

Section consistent.
Context {H : Type} `{DoubleJump H}.

Record consistentHashSelector : Type := mk_ch { ch_h : H; ch_servers : list string }.

Definition ch_Select (servicePath serviceMethod args : string) (s : consistentHashSelector) : string :=
  match ch_servers s with
  | [] => ""
  | _ => default "" (Lookup (genKey [servicePath; serviceMethod; args]) (ch_h s))
  end.

Definition newConsistentHashSelector (servers : list (string * string)) : consistentHashSelector :=
  mk_ch (fold_left (fun h k => Add k h) servers.*1 NewHash) (sort_strings servers.*1).

(** [servers[k] == ""] is true of a missing key and of an empty value. *)
Definition ch_UpdateServer (servers : list (string * string)) (s : consistentHashSelector)
    : consistentHashSelector :=
  let value k := default "" ((list_to_map servers : gmap string string) !! k) in
  let h := fold_left (fun h k => Add k h) servers.*1 (ch_h s) in
  let h := fold_left (fun h k => if decide (value k = "") then Remove k h else h) (ch_servers s) h in
  mk_ch h (sort_strings servers.*1).
End consistent.
Arguments consistentHashSelector H : clear implicits.

(** ** Round robin: lemmas and property *)

(** [n] selections in a row and the servers they gave. *)
Fixpoint rr_run (n : nat) (s : roundRobinSelector) : roundRobinSelector * list (result string) :=
  match n with
  | O => (s, [])
  | S n => let '(s, x) := rr_Select s in let '(s, xs) := rr_run n s in (s, x :: xs)
  end.

Lemma rr_Select_at ss i :
  (0 < length ss)%nat -> Z.of_nat (length ss) < two63 -> 0 <= i < two63 ->
  exists x, ss !! Z.to_nat (i mod Z.of_nat (length ss)) = Some x /\
    rr_Select (mk_rr ss i) = (mk_rr ss (i mod Z.of_nat (length ss) + 1), Ok x).
Proof.
  intros Hl Hb Hi. set (L := Z.of_nat (length ss)) in *.
  assert (Hm : 0 <= i mod L < L) by (apply Z.mod_pos_bound; lia).
  destruct (lookup_lt_is_Some_2 ss (Z.to_nat (i mod L))) as [x Hx]; [lia|].
  exists x. split; [done|]. unfold rr_Select. cbn [rr_servers rr_i].
  destruct ss as [|s0 ss']; [cbn in Hl; lia|]. fold L.
  rewrite Z.rem_mod_nonneg by lia. rewrite i64_small by (unfold two63 in *; lia).
  rewrite (proj2 (Z.ltb_ge _ 0)) by lia. by rewrite Hx.
Qed.

Lemma rr_run_rotation ss n i :
  (0 < length ss)%nat -> Z.of_nat (length ss) < two63 - 1 -> 0 <= i < two63 ->
  (rr_run n (mk_rr ss i)).2 =
    (fun k => match ss !! Z.to_nat ((i + Z.of_nat k) mod Z.of_nat (length ss)) with
              | Some x => Ok x | None => Panic end) <$> seq 0 n.
Proof.
  revert i. induction n as [|n IH]; intros i Hl Hb Hi; cbn [rr_run]; [done|].
  set (L := Z.of_nat (length ss)) in *.
  destruct (rr_Select_at ss i Hl) as (x & Hx & ->); [unfold two63 in *; lia|unfold two63 in *; lia|].
  fold L in Hx |- *. pose proof (Z.mod_pos_bound i L ltac:(lia)) as Hm.
  specialize (IH (i mod L + 1) Hl Hb ltac:(lia)).
  destruct (rr_run n _) as [s' xs]. cbn [snd] in *. rewrite IH. cbn [seq fmap list_fmap].
  rewrite Z.add_0_r, Hx. f_equal. rewrite <- fmap_S_seq, <- list_fmap_compose.
  apply list_fmap_ext. intros k j _. cbn [compose].
  replace ((i mod L + 1 + Z.of_nat j) mod L) with ((i + Z.of_nat (S j)) mod L); [done|].
  replace (i mod L + 1 + Z.of_nat j) with (i mod L + Z.of_nat (S j)) by lia.
  by rewrite Z.add_mod_idemp_l by lia.
Qed.

(** Round robin visits the servers in order: from any state of the
    selector, [n] selections in a row give the [n] servers that follow the
    position, cyclically, so [length servers] selections in a row give each
    server exactly once; none of them fails. *)
Theorem roundRobin_rotates ss n i :
  (0 < length ss)%nat -> Z.of_nat (length ss) < two63 - 1 -> 0 <= i < two63 ->
  (exists xs, (rr_run n (mk_rr ss i)).2 = Ok <$> xs /\ length xs = n /\
    forall k x, xs !! k = Some x -> ss !! Z.to_nat ((i + Z.of_nat k) mod Z.of_nat (length ss)) = Some x) /\
  (exists ys, (rr_run (length ss) (mk_rr ss i)).2 = Ok <$> ys /\ ys ≡ₚ ss).
Proof.
  intros Hl Hb Hi. set (L := Z.of_nat (length ss)) in *.
  set (at_ k := default "" (ss !! Z.to_nat ((i + Z.of_nat k) mod L))).
  assert (Hat : forall k, ss !! Z.to_nat ((i + Z.of_nat k) mod L) = Some (at_ k)).
  { intros k. pose proof (Z.mod_pos_bound (i + Z.of_nat k) L ltac:(lia)).
    unfold at_. destruct (lookup_lt_is_Some_2 ss (Z.to_nat ((i + Z.of_nat k) mod L))) as [x Hx]; [lia|].
    by rewrite Hx. }
  assert (Hrun : forall m, (rr_run m (mk_rr ss i)).2 = Ok <$> (at_ <$> seq 0 m)).
  { intros m. rewrite rr_run_rotation by done. rewrite <- list_fmap_compose.
    apply list_fmap_ext. intros ? k _. cbn [compose]. fold L. by rewrite Hat. }
  split.
  - exists (at_ <$> seq 0 n). split_and!; [apply Hrun|by rewrite length_fmap, length_seq|].
    intros k x. rewrite list_lookup_fmap. intros (j & Hj & ->)%fmap_Some.
    apply lookup_seq in Hj as [-> _]. apply Hat.
  - exists (at_ <$> seq 0 (length ss)). split; [apply Hrun|].
    set (r := Z.to_nat (i mod L)). pose proof (Z.mod_pos_bound i L ltac:(lia)).
    assert (Hrot : at_ <$> seq 0 (length ss) = drop r ss ++ take r ss).
    { apply list_eq. intros k. rewrite list_lookup_fmap.
      destruct (decide (k < length ss)%nat) as [Hk|Hk].
      - rewrite lookup_seq_lt by done. cbn [fmap option_fmap option_map Nat.add]. rewrite <- Hat.
        destruct (decide (k < length ss - r)%nat) as [Hkr|Hkr].
        + rewrite lookup_app_l by (rewrite length_drop; lia). rewrite lookup_drop. f_equal.
          unfold r. rewrite <- Z.add_mod_idemp_l, Z.mod_small by lia. lia.
        + rewrite lookup_app_r by (rewrite length_drop; lia).
          rewrite length_drop, lookup_take_lt by lia. f_equal.
          rewrite <- Z.add_mod_idemp_l by lia.
          assert (Hmod : (i mod L + Z.of_nat k) mod L = i mod L + Z.of_nat k - L).
          { symmetry. apply Z.mod_unique_pos with 1; lia. }
          rewrite Hmod. lia.
      - rewrite lookup_seq_ge by lia. cbn. symmetry. apply lookup_ge_None_2.
        rewrite length_app, length_drop, length_take. lia. }
    rewrite Hrot. rewrite Permutation_app_comm. by rewrite take_drop.
Qed.

Lemma roundRobin_rotates_witness :
  exists ys, (rr_run 3 (mk_rr ["a"; "b"; "c"] 2)).2 = Ok <$> ys /\ ys ≡ₚ ["a"; "b"; "c"].
Proof.
  refine (proj2 (roundRobin_rotates ["a"; "b"; "c"] 3 2 _ _ _)); cbn; unfold two63; lia.
Defined.

(** ** Weighted round robin: the loop against its specification *)
Definition total_EW (ws : list Weighted) : Z := foldr Z.add 0 (map EffectiveWeight ws).
Definition total_CW (ws : list Weighted) : Z := foldr Z.add 0 (map CurrentWeight ws).

(** The first position of [ws] (counted from [i]) with the largest current
    weight, against a best candidate [best] from before. *)
Definition best_after (i : nat) (ws : list Weighted) (best best' : option (nat * Z)) : Prop :=
  (forall j w, ws !! j = Some w -> exists b v, best' = Some (b, v) /\ CurrentWeight w <= v) /\
  (forall b v, best = Some (b, v) -> exists b' v', best' = Some (b', v') /\ v <= v') /\
  (forall b v, best' = Some (b, v) -> best = Some (b, v) \/
     exists j w, b = (i + j)%nat /\ ws !! j = Some w /\ CurrentWeight w = v).

Lemma nextWeighted_loop_spec i ws total best :
  0 <= total -> Forall (fun w => 0 <= EffectiveWeight w) ws -> total + total_EW ws < two63 ->
  exists best', nextWeighted_loop i ws total best = (map bump ws, total + total_EW ws, best') /\
    best_after i (map bump ws) best best'.
Proof.
  revert i total best. induction ws as [|w ws IH]; intros i total best Ht Hf Hb;
    cbn [nextWeighted_loop map].
  - exists best. split; [by rewrite Z.add_0_r|]. split_and!; [done| |auto].
    intros b v ->. exists b, v. split; [done|lia].
  - apply Forall_cons in Hf as [Hw Hf]. unfold total_EW in *. cbn [map foldr] in *.
    set (T := foldr Z.add 0 (map EffectiveWeight ws)) in *.
    assert (0 <= T) by (unfold T; clear -Hf; induction Hf; cbn; lia).
    rewrite (i64_small (total + _)) by (unfold two63 in *; lia).
    set (best1 := match best with None => _ | _ => _ end).
    destruct (IH (S i) (total + EffectiveWeight w) best1 ltac:(lia) Hf ltac:(lia)) as (best' & -> & H1 & H2 & H3).
    exists best'. split; [f_equal; f_equal; lia|].
    assert (Hb1 : exists b v, best1 = Some (b, v) /\ CurrentWeight (bump w) <= v).
    { unfold best1. destruct best as [[b v]|]; [|by eexists _, _].
      destruct (Z.ltb_spec v (CurrentWeight (bump w))); by eexists _, _. }
    split_and!.
    + intros [|j] w' Hj; cbn in Hj; [|by eapply H1]. injection Hj as <-.
      destruct Hb1 as (b & v & Hbest & Hv). destruct (H2 b v Hbest) as (b' & v' & -> & ?).
      eexists _, _. split; [done|]. etransitivity; eassumption.
    + intros b v ->. destruct Hb1 as (b1 & v1 & Hbest & Hv).
      destruct (H2 b1 v1 Hbest) as (b' & v' & -> & ?). eexists _, _. split; [done|].
      revert Hbest. unfold best1. destruct (Z.ltb_spec v (CurrentWeight (bump w))); intros [=]; lia.
    + intros b v Hbest'. destruct (H3 b v Hbest') as [Hbest|(j & w' & -> & Hj & Hv)].
      * revert Hbest. unfold best1. destruct best as [[b0 v0]|].
        -- destruct (Z.ltb_spec v0 (CurrentWeight (bump w))); [|by left].
           intros [= <- <-]. right. exists 0%nat, (bump w). split_and!; [lia|done|done].
        -- intros [= <- <-]. right. exists 0%nat, (bump w). split_and!; [lia|done|done].
      * right. exists (S j), w'. split_and!; [lia|done|done].
Qed.

(** A server of a balanced list, after [k] selections of which [c] chose it. *)
Definition balanced (W k : Z) (c : nat -> Z) (ws0 ws : list Weighted) : Prop :=
  length ws = length ws0 /\
  forall i w0, ws0 !! i = Some w0 -> exists w, ws !! i = Some w /\
    Server w = Server w0 /\ Weight w = Weight w0 /\ EffectiveWeight w = Weight w0 /\
    CurrentWeight w = k * Weight w0 - W * c i /\ - W < CurrentWeight w.

(** The lists the theorems are about: weights as [createWeighted] sets them,
    none negative, some positive, and small enough for the products. *)
Record fresh_weights (W : Z) (ws : list Weighted) : Prop := {
  fw_new : Forall (fun w => CurrentWeight w = 0 /\ EffectiveWeight w = Weight w /\ 0 <= Weight w) ws;
  fw_total : W = total_EW ws;
  fw_pos : 0 < W;
  fw_bound : (Z.of_nat (length ws) + 1) * W < two63
}.

Lemma total_CW_ge W ws :
  Forall (fun w => - W < CurrentWeight w) ws -> total_CW ws = 0 -> 0 < W ->
  Forall (fun w => CurrentWeight w <= Z.of_nat (length ws) * W) ws.
Proof.
  intros Hf Hs HW. apply Forall_lookup_2. intros i w Hi.
  apply take_drop_middle in Hi. revert Hi.
  generalize (take i ws) as l1, (drop (S i) ws) as l2. intros l1 l2 <-.
  apply Forall_app in Hf as [H1 H2]. apply Forall_cons in H2 as [_ H2].
  unfold total_CW in Hs. rewrite map_app, foldr_app in Hs. cbn [map foldr] in Hs.
  assert (Hsum : forall l z, Forall (fun w => - W < CurrentWeight w) l ->
    foldr Z.add z (map CurrentWeight l) >= z - Z.of_nat (length l) * W).
  { intros l z Hl. induction Hl as [|x l Hx Hl IH]; cbn [map foldr length]; [lia|]. lia. }
  pose proof (Hsum l1 (CurrentWeight w + foldr Z.add 0 (map CurrentWeight l2)) H1) as G1.
  pose proof (Hsum l2 0 H2) as G2. rewrite length_app. cbn [length]. lia.
Qed.

Lemma total_CW_lookup ws i w w' :
  ws !! i = Some w -> total_CW (<[i := w']> ws) = total_CW ws + CurrentWeight w' - CurrentWeight w.
Proof.
  unfold total_CW. revert i. induction ws as [|x ws IH]; intros [|i]; try done.
  - cbn. intros [= ->]. lia.
  - intros Hi. change (<[S i:=w']> (x :: ws)) with (x :: <[i:=w']> ws). cbn [map foldr].
    rewrite (IH i Hi). lia.
Qed.

Lemma total_CW_bump ws :
  Forall (fun w => - two63 <= CurrentWeight w + EffectiveWeight w < two63) ws ->
  total_CW (map bump ws) = total_CW ws + total_EW ws.
Proof.
  unfold total_CW, total_EW. induction 1 as [|w ws Hw _ IH]; cbn; [done|].
  rewrite i64_small by done. lia.
Qed.

Lemma total_CW_max ws v :
  ws <> [] -> Forall (fun w => CurrentWeight w <= v) ws -> 0 < total_CW ws -> 0 < v.
Proof.
  intros Hne Hf Hs. destruct (Z.lt_ge_cases 0 v) as [|Hv]; [done|].
  assert (total_CW ws <= 0); [|lia].
  clear Hs Hne. unfold total_CW. induction Hf; cbn in *; lia.
Qed.

Lemma balanced_total_EW W k c ws0 ws :
  balanced W k c ws0 ws -> total_EW ws = foldr Z.add 0 (map Weight ws0).
Proof.
  intros [Hl Hb]. unfold total_EW. f_equal. apply list_eq. intros i.
  rewrite !list_lookup_fmap. destruct (ws0 !! i) as [w0|] eqn:E.
  - destruct (Hb i w0 E) as (w & -> & _ & _ & HE & _). cbn. by rewrite HE.
  - apply lookup_ge_None_1 in E. rewrite lookup_ge_None_2 by lia. done.
Qed.

Lemma total_Weight_ge ws i w :
  Forall (fun w => 0 <= Weight w) ws -> ws !! i = Some w -> Weight w <= foldr Z.add 0 (map Weight ws).
Proof.
  intros Hf. revert i. induction Hf as [|x ws Hx Hf IH]; intros [|i]; cbn; try done.
  - intros [= ->]. assert (0 <= foldr Z.add 0 (map Weight ws)); [|lia]. clear -Hf.
    induction Hf; cbn; lia.
  - intros Hi. specialize (IH i Hi). lia.
Qed.

Lemma fresh_total_Weight W ws : fresh_weights W ws -> foldr Z.add 0 (map Weight ws) = W.
Proof.
  intros [Hnew -> _ _]. unfold total_EW. induction Hnew as [|x ws (_ & Hx & _) _ IH]; cbn; [done|]. lia.
Qed.

(** A server of a balanced state and the one it started as, with the bounds
    that keep its weights within int64. *)
Lemma balanced_elem W k c ws0 ws i w :
  fresh_weights W ws0 -> balanced W k c ws0 ws -> total_CW ws = 0 -> ws !! i = Some w ->
  exists w0, ws0 !! i = Some w0 /\ Server w = Server w0 /\ Weight w = Weight w0 /\
    EffectiveWeight w = Weight w0 /\ CurrentWeight w = k * Weight w0 - W * c i /\
    - W < CurrentWeight w <= Z.of_nat (length ws0) * W /\ 0 <= Weight w0 <= W.
Proof.
  intros Hfw [Hlen Hbal] Hsum Hi. pose proof (fresh_total_Weight W ws0 Hfw) as HW.
  destruct (lookup_lt_is_Some_2 ws0 i) as [w0 H0]; [apply lookup_lt_Some in Hi; lia|].
  destruct (Hbal i w0 H0) as (w' & Hi' & H1 & H2 & H3 & H4 & H5). rewrite Hi in Hi'.
  injection Hi' as <-. pose proof (fw_new W ws0 Hfw) as Hnew.
  assert (Hpos : Forall (fun w => 0 <= Weight w) ws0) by (eapply Forall_impl; [exact Hnew|by intros x (_ & _ & ?)]).
  assert (Hup : Forall (fun w => CurrentWeight w <= Z.of_nat (length ws) * W) ws).
  { apply total_CW_ge; [|done|apply (fw_pos W ws0 Hfw)]. apply Forall_lookup_2. intros j x Hj.
    destruct (lookup_lt_is_Some_2 ws0 j) as [x0 Hx0]; [apply lookup_lt_Some in Hj; lia|].
    destruct (Hbal j x0 Hx0) as (x' & Hj' & _ & _ & _ & _ & ?). by rewrite Hj in Hj'; injection Hj' as ->. }
  rewrite Hlen, Forall_lookup in Hup. exists w0.
  pose proof (total_Weight_ge ws0 i w0 Hpos H0). rewrite Forall_lookup in Hpos.
  specialize (Hpos i w0 H0). specialize (Hup i w Hi). split_and!; try done; lia.
Qed.

Lemma bump_balanced W k c ws0 ws i w :
  fresh_weights W ws0 -> balanced W k c ws0 ws -> total_CW ws = 0 -> ws !! i = Some w ->
  - two63 <= CurrentWeight w + EffectiveWeight w < two63 /\
  bump w = mk_Weighted (Server w) (Weight w) (CurrentWeight w + EffectiveWeight w) (EffectiveWeight w).
Proof.
  intros Hfw Hbal Hsum Hi.
  destruct (balanced_elem _ _ _ _ _ _ _ Hfw Hbal Hsum Hi) as (w0 & _ & _ & H2 & H3 & _ & Hc & Hw).
  destruct Hfw as [_ _ Hpos Hb].
  assert (Hr : - two63 <= CurrentWeight w + EffectiveWeight w < two63).
  { rewrite H3. unfold two63 in *. nia. }
  split; [done|]. unfold bump. rewrite (i64_small (CurrentWeight w + _)) by done.
  by rewrite H2, H3, Z.ltb_irrefl.
Qed.

Lemma alter_insert_list {A} (f : A -> A) (i : nat) (l : list A) (y : A) : l !! i = Some y -> alter f i l = <[i := f y]> l.
Proof.
  intros Hy. apply list_eq. intros j. destruct (decide (j = i)) as [->|Hj].
  - rewrite list_lookup_alter_eq, Hy, list_lookup_insert_eq; [done|]. by apply lookup_lt_Some in Hy.
  - by rewrite list_lookup_alter_ne, list_lookup_insert_ne.
Qed.

(** What [nextWeighted] does to a balanced state: it charges [W] to a server
    whose bumped weight is positive and the largest. *)
Lemma nextWeighted_step W k c ws0 ws :
  fresh_weights W ws0 -> balanced W k c ws0 ws -> total_CW ws = 0 ->
  exists b w, ws !! b = Some w /\ 0 < CurrentWeight (bump w) /\ total_CW (map bump ws) = W /\
    nextWeighted ws =
      (<[b := set_CurrentWeight (CurrentWeight (bump w) - W) (bump w)]> (map bump ws), Some b).
Proof.
  intros Hfw Hbal Hsum. pose proof (fun i w => balanced_elem W k c ws0 ws i w Hfw Hbal Hsum) as Hel.
  pose proof (fun i w => bump_balanced W k c ws0 ws i w Hfw Hbal Hsum) as Hbump.
  pose proof (balanced_total_EW _ _ _ _ _ Hbal) as HEW. rewrite (fresh_total_Weight W ws0 Hfw) in HEW.
  pose proof (fw_pos W ws0 Hfw) as Hpos. pose proof (fw_bound W ws0 Hfw) as Hbnd.
  destruct (nextWeighted_loop_spec 0 ws 0 None) as (best & Hloop & H1 & _ & H3); [lia| | |].
  { apply Forall_lookup_2. intros i w Hi. destruct (Hel i w Hi) as (w0 & _ & _ & _ & -> & _ & _ & ?). lia. }
  { rewrite HEW. unfold two63 in *. nia. }
  rewrite HEW in Hloop. change (0 + W) with W in Hloop.
  assert (Hsum' : total_CW (map bump ws) = W).
  { rewrite total_CW_bump; [lia|]. apply Forall_lookup_2. intros i x Hi. by apply (Hbump i x). }
  destruct ws as [|w1 ws1]; [cbn in Hsum'; lia|].
  destruct (H1 0%nat (bump w1) eq_refl) as (b & v & -> & _).
  destruct (H3 b v eq_refl) as [|(b' & wb & -> & Hwb & Hv)]; [done|]. cbn [Nat.add] in *.
  pose proof Hwb as Hwb'. rewrite list_lookup_fmap in Hwb. apply fmap_Some in Hwb as (w & Hw & ->).
  assert (Hv0 : 0 < v).
  { apply (total_CW_max (map bump (w1 :: ws1))); [done| |lia]. apply Forall_lookup_2. intros i x Hi.
    destruct (H1 i x Hi) as (b1 & v1 & [= <- <-] & ?). done. }
  exists b', w. rewrite Hv. split_and!; try done.
  unfold nextWeighted. rewrite Hloop, (alter_insert_list _ _ _ _ Hwb'). rewrite i64_small; [by rewrite Hv|].
  destruct (Hbump b' w Hw) as [? Hb]. rewrite Hb in Hv. cbn in Hv. rewrite Hb. cbn [CurrentWeight].
  unfold two63 in *. nia.
Qed.

(** One selection from a balanced state chooses one server, charges it [W] and
    stays balanced. *)
Lemma nextWeighted_balanced W k c ws0 ws :
  fresh_weights W ws0 -> balanced W k c ws0 ws -> total_CW ws = 0 ->
  exists ws' b, nextWeighted ws = (ws', Some b) /\ (b < length ws0)%nat /\
    balanced W (k + 1) (fun i => c i + (if decide (i = b) then 1 else 0)) ws0 ws' /\
    total_CW ws' = 0.
Proof.
  intros Hfw Hbal Hsum.
  destruct (nextWeighted_step W k c ws0 ws Hfw Hbal Hsum) as (b & w & Hw & Hpos & Hsum' & ->).
  pose proof (fw_pos W ws0 Hfw) as HW. pose proof (fw_new W ws0 Hfw) as Hnew.
  rewrite Forall_lookup in Hnew.
  assert (Hb' : map bump ws !! b = Some (bump w)) by (by rewrite list_lookup_fmap, Hw).
  destruct (id Hbal) as [Hlen Hbal'].
  eexists _, b. split; [reflexivity|]. split; [apply lookup_lt_Some in Hw; lia|]. split; [split|].
  - by rewrite length_insert, length_fmap.
  - intros i w0 H0. destruct (Hbal' i w0 H0) as (x & Hx & Hx1 & Hx2 & Hx3 & Hx4 & Hx5).
    destruct (bump_balanced W k c ws0 ws i x Hfw Hbal Hsum Hx) as [_ Hbx].
    destruct (Hnew i w0 H0) as (_ & _ & Hw0). destruct (decide (i = b)) as [->|Hi].
    + rewrite Hw in Hx. injection Hx as <-. rewrite Hbx in Hpos |- *.
      cbn [CurrentWeight] in Hpos.
      eexists. split; [apply list_lookup_insert_eq; by apply lookup_lt_Some in Hb'|].
      cbn. split_and!; try done; lia.
    + exists (bump x). split; [by rewrite list_lookup_insert_ne, list_lookup_fmap, Hx by done|].
      rewrite Hbx. cbn. split_and!; try done; lia.
  - rewrite (total_CW_lookup _ _ _ _ Hb'), Hsum'. cbn [set_CurrentWeight CurrentWeight]. lia.
Qed.

(** ** Fairness *)
Fixpoint weighted_run (n : nat) (ws : list Weighted) : list Weighted * list nat :=
  match n with
  | O => (ws, [])
  | S n => match nextWeighted ws with
           | (ws, Some b) => let '(ws, bs) := weighted_run n ws in (ws, b :: bs)
           | (ws, None) => (ws, [])
           end
  end.

Definition count (i : nat) (bs : list nat) : Z := Z.of_nat (length (filter (fun b => b = i) bs)).

Lemma count_cons i b bs : count i (b :: bs) = (if decide (i = b) then 1 else 0) + count i bs.
Proof.
  unfold count. rewrite filter_cons. destruct (decide (b = i)), (decide (i = b)); subst; try done;
    cbn [length]; lia.
Qed.

Lemma weighted_run_balanced n W k c ws0 ws :
  fresh_weights W ws0 -> balanced W k c ws0 ws -> total_CW ws = 0 ->
  let '(ws', bs) := weighted_run n ws in
  length bs = n /\ Forall (fun b => (b < length ws0)%nat) bs /\
  balanced W (k + Z.of_nat n) (fun i => c i + count i bs) ws0 ws' /\ total_CW ws' = 0.
Proof.
  intros Hfw. revert k c ws. induction n as [|n IH]; intros k c ws Hbal Hsum; cbn [weighted_run].
  - split_and!; [done|constructor| |done]. rewrite Z.add_0_r. destruct Hbal as [Hl Hb].
    split; [done|]. intros i w0 H0. destruct (Hb i w0 H0) as (w & ? & ? & ? & ? & HC & ?).
    exists w. split_and!; try done. rewrite HC. unfold count. cbn. lia.
  - destruct (nextWeighted_balanced W k c ws0 ws Hfw Hbal Hsum) as (ws1 & b & -> & Hb & Hbal1 & Hsum1).
    specialize (IH _ _ ws1 Hbal1 Hsum1). destruct (weighted_run n ws1) as [ws' bs].
    destruct IH as (H1 & H2 & [Hl H3] & H4). split_and!; [cbn; lia|by constructor| |done].
    split; [done|]. intros i w0 H0. destruct (H3 i w0 H0) as (w & ? & ? & ? & ? & HC & ?).
    exists w. split_and!; try done. rewrite HC, count_cons. lia.
Qed.

Lemma fresh_balanced W ws : fresh_weights W ws -> balanced W 0 (fun _ => 0) ws ws /\ total_CW ws = 0.
Proof.
  intros [Hnew _ Hpos _]. split; [split; [done|]|].
  - intros i w Hi. rewrite Forall_lookup in Hnew. destruct (Hnew i w Hi) as (? & ? & ?).
    exists w. split_and!; try done; lia.
  - unfold total_CW. induction Hnew as [|w ws (Hw & _) _ IH]; cbn; [done|]. lia.
Qed.

Lemma mul_above_neg W a : 0 < W -> - W < W * a -> 0 <= W * a.
Proof. intros HW Ha. destruct (Z.lt_ge_cases a 0); nia. Qed.

(** The second part of fairness on its own: [W] selections bring the
    selector back to its first state. *)
Lemma weighted_period W ws :
  fresh_weights W ws ->
  let '(ws', bs) := weighted_run (Z.to_nat W) ws in
  ws' = ws /\ forall i w, ws !! i = Some w -> count i bs = Weight w.
Proof.
  intros Hfw. destruct (fresh_balanced W ws Hfw) as [Hbal Hsum].
  pose proof (fun n => weighted_run_balanced n W 0 _ ws ws Hfw Hbal Hsum) as Hrun.
  specialize (Hrun (Z.to_nat W)). destruct (weighted_run (Z.to_nat W) ws) as [ws' bs].
  destruct Hrun as (_ & _ & [Hl Hb] & Hsum'). pose proof (fw_pos W ws Hfw) as Hpos.
  rewrite Z2Nat.id in Hb by lia. cbn [Z.add] in Hb.
  assert (Hge : Forall (fun w => 0 <= CurrentWeight w) ws').
  { apply Forall_lookup_2. intros i w' Hi.
    destruct (lookup_lt_is_Some_2 ws i) as [w H0]; [apply lookup_lt_Some in Hi; lia|].
    destruct (Hb i w H0) as (x & Hx & _ & _ & _ & HC & ?). rewrite Hi in Hx. injection Hx as <-.
    assert (HC' : CurrentWeight w' = W * (Weight w - count i bs)) by (rewrite HC; ring).
    rewrite HC' in *. by apply mul_above_neg. }
  assert (Hz : Forall (fun w => CurrentWeight w = 0) ws').
  { clear -Hge Hsum'. unfold total_CW in Hsum'. induction Hge as [|w ws' Hw Hge IH]; [constructor|].
    cbn in Hsum'. assert (0 <= foldr Z.add 0 (map CurrentWeight ws')).
    { clear -Hge. induction Hge; cbn; lia. }
    constructor; [lia|apply IH; lia]. }
  rewrite Forall_lookup in Hz. pose proof (fw_new W ws Hfw) as Hnew. rewrite Forall_lookup in Hnew.
  split.
  + apply list_eq. intros i. destruct (ws !! i) as [w|] eqn:E.
    * destruct (Hb i w E) as (x & Hx & H1 & H2 & H3 & _). rewrite Hx. specialize (Hz i x Hx).
      destruct (Hnew i w E) as (? & ? & _). destruct x, w; cbn in *. congruence.
    * apply lookup_ge_None_1 in E. apply lookup_ge_None_2. lia.
  + intros i w Hi. destruct (Hb i w Hi) as (x & Hx & _ & _ & _ & HC & _). specialize (Hz i x Hx).
    assert (HC' : W * (Weight w - count i bs) = 0) by (rewrite <- Hz, HC; ring). nia.
Qed.

(** C33: the weighted selector is exactly fair and smooth: after any number [n]
    of selections a server of weight [w] has been chosen [c] times with
    [n * w - W * c > - W], [W] the sum of the weights; and after [W] selections
    every server has been chosen exactly [w] times and the selector is back in
    its first state. *)
Theorem weighted_fair W ws n :
  fresh_weights W ws ->
  (let '(ws', bs) := weighted_run n ws in
   length bs = n /\ forall i w, ws !! i = Some w -> - W < Z.of_nat n * Weight w - W * count i bs) /\
  (let '(ws', bs) := weighted_run (Z.to_nat W) ws in
   ws' = ws /\ forall i w, ws !! i = Some w -> count i bs = Weight w).
Proof.
  intros Hfw. destruct (fresh_balanced W ws Hfw) as [Hbal Hsum].
  pose proof (fun n => weighted_run_balanced n W 0 _ ws ws Hfw Hbal Hsum) as Hrun. split.
  - specialize (Hrun n). destruct (weighted_run n ws) as [ws' bs].
    destruct Hrun as (Hl & _ & [_ Hb] & _). split; [done|]. intros i w Hi.
    destruct (Hb i w Hi) as (w' & _ & _ & _ & _ & HC & ?). lia.
  - by apply weighted_period.
Qed.

(** Runs in a row, and every window of a period. *)
Lemma nextWeighted_loop_Some i ws total b : is_Some (nextWeighted_loop i ws total (Some b)).2.
Proof.
  revert i total b. induction ws as [|w ws IH]; intros i total [b v]; cbn [nextWeighted_loop]; [by eexists|].
  destruct (v <? CurrentWeight (bump w)).
  all: match goal with |- context [nextWeighted_loop ?i ?l ?t (Some ?b)] =>
    specialize (IH i t b); by destruct (nextWeighted_loop i l t (Some b)) as [[? ?] ?] end.
Qed.

Lemma nextWeighted_None ws ws1 : nextWeighted ws = (ws1, None) -> ws = [] /\ ws1 = [].
Proof.
  destruct ws as [|w ws]; unfold nextWeighted; cbn [nextWeighted_loop]; [by intros [= <-]|].
  match goal with |- context [nextWeighted_loop ?i ?l ?t (Some ?b)] =>
    pose proof (nextWeighted_loop_Some i l t b) as Hs; destruct (nextWeighted_loop i l t (Some b)) as [[ws' t'] b'] end.
  destruct Hs as [[b v] Hb]. cbn in Hb. by subst b'.
Qed.

Lemma weighted_run_app a b ws :
  weighted_run (a + b) ws =
    let '(ws1, bs1) := weighted_run a ws in let '(ws2, bs2) := weighted_run b ws1 in (ws2, bs1 ++ bs2).
Proof.
  revert ws. induction a as [|a IH]; intros ws; cbn [weighted_run Nat.add]; [by destruct (weighted_run b ws)|].
  destruct (nextWeighted ws) as [ws1 [i|]] eqn:E.
  - rewrite IH. destruct (weighted_run a ws1) as [ws2 bs]. by destruct (weighted_run b ws2).
  - apply nextWeighted_None in E as [_ ->]. by destruct b.
Qed.

Lemma count_app i bs1 bs2 : count i (bs1 ++ bs2) = count i bs1 + count i bs2.
Proof. unfold count. rewrite filter_app, length_app. lia. Qed.

Lemma count_zero i bs : i ∉ bs -> count i bs = 0.
Proof.
  induction bs as [|b bs IH]; intros Hn; [done|]. rewrite count_cons.
  apply not_elem_of_cons in Hn as [Hb Hn]. by rewrite decide_False, IH.
Qed.

Lemma weighted_window W ws j i w :
  fresh_weights W ws -> ws !! i = Some w ->
  count i (weighted_run (Z.to_nat W) (weighted_run j ws).1).2 = Weight w.
Proof.
  intros Hfw Hi. pose proof (weighted_period W ws Hfw) as Hp.
  pose proof (weighted_run_app (Z.to_nat W) j ws) as H1. pose proof (weighted_run_app j (Z.to_nat W) ws) as H2.
  rewrite Nat.add_comm, H2 in H1. destruct (weighted_run (Z.to_nat W) ws) as [ws' bs].
  destruct Hp as [-> Hc]. destruct (weighted_run j ws) as [wsj bsj]. cbn [fst].
  destruct (weighted_run (Z.to_nat W) wsj) as [wsk bsk]. injection H1 as _ H1.
  apply (f_equal (count i)) in H1. rewrite !count_app, (Hc i w Hi) in H1. cbn [snd]. lia.
Qed.

Definition sample_servers : list Weighted :=
  createWeighted [("tcp@a:1", "weight=5"); ("tcp@b:1", ""); ("tcp@c:1", "weight=x")].

Lemma weighted_fair_witness :
  fresh_weights 7 sample_servers /\ (weighted_run 7 sample_servers).2 = [0; 0; 1; 0; 2; 0; 0]%nat /\
  (let '(ws', bs) := weighted_run (Z.to_nat 7) sample_servers in
   ws' = sample_servers /\ forall i w, sample_servers !! i = Some w -> count i bs = Weight w).
Proof.
  assert (H : fresh_weights 7 sample_servers).
  { split; [|vm_compute; reflexivity|lia|vm_compute; reflexivity].
    vm_compute. repeat constructor; discriminate. }
  split; [exact H|]. split; [vm_compute; reflexivity|].
  exact (proj2 (weighted_fair 7 sample_servers 0 H)).
Defined.

(** ** Consistent hash: what the hash ring holds *)
Section consistent_facts.
Context {H : Type} `{DoubleJump H} `{!DoubleJumpLaws H}.

Lemma members_Add_all ks h : members (fold_left (fun h k => Add k h) ks h) = list_to_set ks ∪ members h.
Proof.
  revert h. induction ks as [|k ks IH]; intros h; cbn [fold_left list_to_set]; [set_solver|].
  rewrite IH, members_Add. set_solver.
Qed.

Lemma members_Remove_if (P : string -> Prop) `{!forall k, Decision (P k)} ks h x :
  x ∈ members (fold_left (fun h k => if decide (P k) then Remove k h else h) ks h) <->
  x ∈ members h /\ ~ (x ∈ ks /\ P x).
Proof.
  revert h. induction ks as [|k ks IH]; intros h; cbn [fold_left].
  - set_solver.
  - rewrite IH. case_decide as Hk; [rewrite members_Remove|]; set_solver.
Qed.

Lemma elem_of_sort_strings x ss : x ∈ sort_strings ss <-> x ∈ ss.
Proof. unfold sort_strings. by rewrite merge_sort_Permutation. Qed.

(** The ring and the list of servers agree. *)
Definition ring_ok (s : consistentHashSelector H) : Prop :=
  forall x, x ∈ members (ch_h s) <-> x ∈ ch_servers s.

Lemma new_ring_ok servers : ring_ok (newConsistentHashSelector servers).
Proof.
  intros x. cbn. rewrite members_Add_all, members_New, elem_of_sort_strings. set_solver.
Qed.

Lemma Update_members servers s x :
  ring_ok s ->
  x ∈ members (ch_h (ch_UpdateServer servers s)) <->
  x ∈ servers.*1 /\
  (x ∈ ch_servers s -> default "" ((list_to_map servers : gmap string string) !! x) <> "").
Proof.
  intros Hs. cbn. rewrite (members_Remove_if (fun k => default "" ((list_to_map servers : gmap string string) !! k) = "")).
  rewrite members_Add_all, elem_of_union, elem_of_list_to_set, (Hs x).
  split.
  - intros [[Hx|Hx] Hn]; [naive_solver|].
    destruct (decide (x ∈ servers.*1)) as [?|Hnot]; [naive_solver|].
    exfalso. apply Hn. split; [done|]. by rewrite not_elem_of_list_to_map_1.
  - intros [Hx Hn]. split; [by left|]. naive_solver.
Qed.

Lemma ch_Select_member sp sm args s :
  (forall x, x ∈ members (ch_h s) -> x ∈ ch_servers s) ->
  ch_Select sp sm args s ∈ ch_servers s \/ ch_Select sp sm args s = "".
Proof.
  intros Hs. unfold ch_Select. destruct (ch_servers s) as [|y ys]; [by right|].
  destruct (Lookup _ _) as [x|] eqn:E; [|by right]. left. by apply Hs, (Lookup_Some _ _ _ E).
Qed.
End consistent_facts.

(** After an update of a consistent-hash selector the hash ring holds
    exactly the updated servers, except those that were there before and whose
    metadata is the empty string: those are dropped although they are still
    served.  So when every server has metadata a selection gives a current
    server (and is never empty when there is one), while an update that repeats
    servers without metadata leaves a selector that finds no server. *)
Theorem consistentHash_update {H} `{DoubleJumpLaws H} servers0 servers sp sm args :
  let s := ch_UpdateServer servers (newConsistentHashSelector (H := H) servers0) in
  (forall x, x ∈ members (ch_h s) <-> x ∈ servers.*1 /\
     (x ∈ servers0.*1 -> default "" ((list_to_map servers : gmap string string) !! x) <> "")) /\
  (servers <> [] -> (forall x, x ∈ servers.*1 ->
     default "" ((list_to_map servers : gmap string string) !! x) <> "") ->
     ch_Select sp sm args s ∈ servers.*1) /\
  (servers.*1 ⊆ servers0.*1 -> (forall x, x ∈ servers.*1 ->
     default "" ((list_to_map servers : gmap string string) !! x) = "") ->
     ch_Select sp sm args s = "").
Proof.
  intros s.
  assert (Hm : forall x, x ∈ members (ch_h s) <-> x ∈ servers.*1 /\
     (x ∈ servers0.*1 -> default "" ((list_to_map servers : gmap string string) !! x) <> "")).
  { intros x. unfold s. rewrite Update_members by apply new_ring_ok.
    cbn [ch_servers newConsistentHashSelector]. by rewrite elem_of_sort_strings. }
  assert (Hss : forall x, x ∈ ch_servers s <-> x ∈ servers.*1) by (intros x; apply elem_of_sort_strings).
  split; [exact Hm|]. unfold ch_Select. split.
  - intros Hne Hv. destruct servers as [|[k v] servers]; [done|].
    assert (Hk : k ∈ ch_servers s) by (apply Hss; set_solver).
    destruct (ch_servers s) as [|y ys]; [by apply elem_of_nil in Hk|].
    destruct (Lookup _ _) as [x|] eqn:E.
    + apply Lookup_Some in E. by apply Hm in E as [? _].
    + apply Lookup_None in E. exfalso. apply (not_elem_of_empty (C := gset string) k).
      rewrite <- E. apply Hm. split; [set_solver|]. intros _. apply Hv. set_solver.
  - intros Hsub Hv. destruct (ch_servers s) as [|y ys]; [done|].
    destruct (Lookup _ _) as [x|] eqn:E; [|done].
    apply Lookup_Some in E. apply Hm in E as [Hx Hne]. exfalso. by apply Hne; [apply Hsub|apply Hv].
Qed.

(** A hash ring to evaluate the selector with: the objects in order, chosen by
    the key modulo their number. *)
#[export] Instance list_ring : DoubleJump (list string) := {
  NewHash := [];
  Add k h := if decide (k ∈ h) then h else h ++ [k];
  Remove k h := filter (fun x => x <> k) h;
  Lookup key h := match h with [] => None | x :: _ => Some (default x (h !! Z.to_nat (key mod Z.of_nat (length h)))) end;
  members h := list_to_set h
}.

#[export] Instance list_ring_laws : DoubleJumpLaws (list string).
Proof.
  split; cbn.
  - done.
  - intros k h. case_decide; set_solver.
  - intros k h. apply set_eq. intros x. rewrite elem_of_list_to_set, list_elem_of_filter. set_solver.
  - intros key [|y h] x; [done|]. intros [= <-]. apply elem_of_list_to_set.
    destruct ((y :: h) !! _) as [z|] eqn:E; cbn; [by eapply list_elem_of_lookup_2|set_solver].
  - by intros key [|y h].
Qed.

Lemma consistentHash_update_witness :
  let s := ch_UpdateServer [("tcp@a:1", ""); ("tcp@b:1", "")]
             (newConsistentHashSelector (H := list string) [("tcp@a:1", ""); ("tcp@b:1", "")]) in
  ch_servers s = ["tcp@a:1"; "tcp@b:1"] /\ ch_Select "Arith" "Mul" "1" s = "".
Proof.
  split; [vm_compute; reflexivity|].
  refine (proj2 (proj2 (consistentHash_update (H := list string) [("tcp@a:1", ""); ("tcp@b:1", "")]
    [("tcp@a:1", ""); ("tcp@b:1", "")] "Arith" "Mul" "1")) _ _).
  - by intros x.
  - intros x Hx. cbn in Hx. apply elem_of_cons in Hx as [->|Hx]; [reflexivity|].
    apply elem_of_cons in Hx as [->|Hx]; [reflexivity|]. by apply elem_of_nil in Hx.
Defined.

(** ** The interface

    The Go interface [Selector] as a class: what a client of a selector relies
    on is that a selection is either the empty string or one of the servers the
    selector was last given. *)
Record request : Type := mk_request { req_path : string; req_method : string; req_args : string }.

Class Selector (S : Type) : Type := {
  Select : nat -> request -> S -> S * result string;
  UpdateServer : list (string * string) -> S -> result S;
  served : S -> list string;
  selector_wf : S -> Prop
}.

Class SelectorLaws (S : Type) `{Selector S} : Prop := {
  Select_served rnd r s s' k : selector_wf s ->
    Select rnd r s = (s', k) ->
    served s' = served s /\ selector_wf s' /\ forall x, k = Ok x -> x = "" \/ x ∈ served s;
  UpdateServer_served order s s' : selector_wf s ->
    UpdateServer order s = Ok s' -> (forall x, x ∈ served s' -> x ∈ order.*1) /\ selector_wf s'
}.

(** The selectors [newSelector] makes, behind one interface value. *)
Inductive SelectMode : Type :=
| RandomSelect | RoundRobin | WeightedRoundRobin | WeightedICMP | ConsistentHash | Closest | SelectByUser.

Section dispatch.
Context {H : Type} `{DoubleJump H} `{!DoubleJumpLaws H} (AvgRtt : string -> option Z).

Inductive anySelector : Type :=
| SelRandom (s : randomSelector)
| SelRoundRobin (s : roundRobinSelector)
| SelWeighted (s : list Weighted)
| SelICMP (s : list Weighted)
| SelHash (s : consistentHashSelector H).

(** [newSelector]; [SelectByUser] gives nil, the caller sets its own. *)
Definition newSelector (mode : SelectMode) (servers : list (string * string)) : result (option anySelector) :=
  match mode with
  | RandomSelect | Closest => Ok (Some (SelRandom (newRandomSelector servers)))
  | RoundRobin => Ok (Some (SelRoundRobin (newRoundRobinSelector servers)))
  | WeightedRoundRobin => Ok (Some (SelWeighted (createWeighted servers)))
  | WeightedICMP => ws ← createICMPWeighted AvgRtt servers; Ok (Some (SelICMP ws))
  | ConsistentHash => Ok (Some (SelHash (newConsistentHashSelector servers)))
  | SelectByUser => Ok None
  end.

#[export] Instance any_Selector : Selector anySelector := {
  Select rnd r s :=
    match s with
    | SelRandom ss => (s, random_Select rnd ss)
    | SelRoundRobin rr => let '(rr, k) := rr_Select rr in (SelRoundRobin rr, k)
    | SelWeighted ws => let '(ws, k) := weighted_Select ws in (SelWeighted ws, Ok k)
    | SelICMP ws => let '(ws, k) := weighted_Select ws in (SelICMP ws, Ok k)
    | SelHash ch => (s, Ok (ch_Select (req_path r) (req_method r) (req_args r) ch))
    end;
  UpdateServer servers s :=
    match s with
    | SelRandom _ => Ok (SelRandom (newRandomSelector servers))
    | SelRoundRobin rr => Ok (SelRoundRobin (rr_UpdateServer servers rr))
    | SelWeighted _ => Ok (SelWeighted (createWeighted servers))
    | SelICMP _ => ws ← createICMPWeighted AvgRtt servers; Ok (SelICMP ws)
    | SelHash ch => Ok (SelHash (ch_UpdateServer servers ch))
    end;
  served s :=
    match s with
    | SelRandom ss => ss
    | SelRoundRobin rr => rr_servers rr
    | SelWeighted ws | SelICMP ws => map Server ws
    | SelHash ch => ch_servers ch
    end;
  selector_wf s :=
    match s with
    | SelHash ch => forall x, x ∈ members (ch_h ch) -> x ∈ ch_servers ch
    | _ => True
    end
}.

Lemma random_Select_served rnd ss k : random_Select rnd ss = Ok k -> k = "" \/ k ∈ ss.
Proof.
  unfold random_Select. destruct ss as [|x ss]; [intros [= <-]; by left|].
  case_match eqn:E; [|done]. intros [= <-]. right. by eapply list_elem_of_lookup_2.
Qed.

Lemma rr_Select_served rr rr' k :
  rr_Select rr = (rr', k) ->
  rr_servers rr' = rr_servers rr /\ forall x, k = Ok x -> x = "" \/ x ∈ rr_servers rr.
Proof.
  unfold rr_Select. destruct (rr_servers rr) as [|y ss] eqn:Er; intros [= <- <-].
  - split; [by rewrite Er|]. intros x [= <-]. by left.
  - split; [done|]. intros x. case_match; [done|]. case_match eqn:E; [|done]. intros [= <-].
    right. by eapply list_elem_of_lookup_2.
Qed.

Lemma createWeighted_served servers : map Server (createWeighted servers) = servers.*1.
Proof.
  induction servers as [|[k v] servers IH]; [done|].
  change (k :: map Server (createWeighted servers) = k :: servers.*1). by rewrite IH.
Qed.


Lemma map_Server_loop i ws t b : map Server (nextWeighted_loop i ws t b).1.1 = map Server ws.
Proof.
  revert i t b. induction ws as [|w ws IH]; intros i t b; cbn [nextWeighted_loop]; [done|].
  match goal with |- context [nextWeighted_loop ?i ?l ?t ?b] => specialize (IH i t b);
    destruct (nextWeighted_loop i l t b) as [[ws' t'] b'] end.
  cbn in *. by rewrite IH.
Qed.

Lemma weighted_Select_served ws ws' k :
  weighted_Select ws = (ws', k) -> (k = "" \/ k ∈ map Server ws) /\ map Server ws' = map Server ws.
Proof.
  unfold weighted_Select. destruct ws as [|w0 ws0] eqn:Ews; [intros [= <- <-]; auto|].
  rewrite <- Ews. clear w0 ws0 Ews. unfold nextWeighted. pose proof (map_Server_loop 0 ws 0 None) as Hm.
  destruct (nextWeighted_loop 0 ws 0 None) as [[ws1 t] [[b v]|]]; cbn in Hm; [|intros [= <- <-]; auto].
  intros [= <- <-].
  assert (Hs : map Server (alter (fun w => set_CurrentWeight (i64 (CurrentWeight w - t)) w) b ws1) = map Server ws).
  { rewrite <- Hm. change (map Server ?l) with (Server <$> l). 
    apply list_eq. intros i. rewrite !list_lookup_fmap. destruct (decide (i = b)) as [->|Hi].
    - rewrite list_lookup_alter_eq. by destruct (ws1 !! b).
    - by rewrite list_lookup_alter_ne. }
  split; [|done]. rewrite <- Hs.
  destruct (alter _ b ws1 !! b) as [w|] eqn:E; cbn; [right|by left].
  apply list_elem_of_fmap. exists w. split; [done|]. by eapply list_elem_of_lookup_2.
Qed.

Lemma createICMP_served servers ws : createICMPWeighted AvgRtt servers = Ok ws -> map Server ws = servers.*1.
Proof.
  revert ws. induction servers as [|[k v] servers IH]; intros ws; cbn [createICMPWeighted]; [by intros [= <-]|].
  destruct (split_on _ _ !! 1%nat); [|done].
  destruct (createICMPWeighted AvgRtt servers) as [ws1| | | |]; try done. intros [= <-]. cbn.
  f_equal. by apply IH.
Qed.

Lemma ch_Update_sub servers (ch : consistentHashSelector H) x :
  (forall x, x ∈ members (ch_h ch) -> x ∈ ch_servers ch) ->
  x ∈ members (ch_h (ch_UpdateServer servers ch)) -> x ∈ servers.*1.
Proof.
  intros Hs. cbn.
  rewrite (members_Remove_if (fun k => default "" ((list_to_map servers : gmap string string) !! k) = "")).
  rewrite members_Add_all, elem_of_union, elem_of_list_to_set. intros [[Hx|Hx] Hn]; [done|].
  destruct (decide (x ∈ servers.*1)) as [|Hnot]; [done|]. exfalso. apply Hn.
  split; [auto|]. by rewrite not_elem_of_list_to_map_1.
Qed.

Lemma any_Select_served rnd r s s' k : selector_wf s ->
  Select rnd r s = (s', k) ->
  served s' = served s /\ selector_wf s' /\ forall x, k = Ok x -> x = "" \/ x ∈ served s.
Proof.
  destruct s as [ss|rr|ws|ws|ch]; cbn; intros Hwf.
  - intros [= <- <-]. split_and!; [done..|]. intros x. apply random_Select_served.
  - destruct (rr_Select rr) as [rr' x] eqn:E. intros [= <- <-].
    by apply rr_Select_served in E as [? ?].
  - destruct (weighted_Select ws) as [ws' x] eqn:E. intros [= <- <-].
    apply weighted_Select_served in E as [? ?]. split_and!; [done..|]. by intros ? [= <-].
  - destruct (weighted_Select ws) as [ws' x] eqn:E. intros [= <- <-].
    apply weighted_Select_served in E as [? ?]. split_and!; [done..|]. by intros ? [= <-].
  - intros [= <- <-]. split_and!; [done..|]. intros x [= <-].
    destruct (ch_Select_member (req_path r) (req_method r) (req_args r) ch Hwf); auto.
Qed.

Lemma any_Update_served order s s' : selector_wf s ->
  UpdateServer order s = Ok s' -> served s' ≡ₚ order.*1 /\ selector_wf s'.
Proof.
  destruct s as [ss|rr|ws|ws|ch]; cbn; intros Hwf.
  - by intros [= <-].
  - by intros [= <-].
  - intros [= <-]. split; [|done]. cbn. by rewrite createWeighted_served.
  - destruct (createICMPWeighted AvgRtt order) as [ws'| | | |] eqn:E; try done. intros [= <-].
    cbn. by rewrite (createICMP_served _ _ E).
  - intros [= <-]. cbn. split; [apply merge_sort_Permutation|]. intros x Hx.
    apply elem_of_sort_strings. by eapply ch_Update_sub.
Qed.

#[export] Instance any_SelectorLaws : SelectorLaws anySelector.
Proof.
  split; [eauto using any_Select_served|]. intros order s s' Hwf [Hs Hs']%any_Update_served; [|done].
  split; [|done]. intros x. by rewrite Hs.
Qed.

Lemma newSelector_served mode servers s :
  newSelector mode servers = Ok (Some s) -> served s ≡ₚ servers.*1 /\ selector_wf s.
Proof.
  destruct mode; cbn; try (by intros [= <-]).
  - intros [= <-]. split; [|done]. cbn. by rewrite createWeighted_served.
  - destruct (createICMPWeighted AvgRtt servers) as [ws'| | | |] eqn:E; try done. intros [= <-].
    cbn. by rewrite (createICMP_served _ _ E).
  - intros [= <-]. split; [apply merge_sort_Permutation|]. intros x Hx. by apply new_ring_ok.
Qed.

(** A use of a selector: a selection, or an update of the servers. *)
Inductive selector_use : Type := UseSelect (rnd : nat) (r : request) | UseUpdate (order : list (string * string)).

Definition use (s : anySelector) (u : selector_use) : anySelector :=
  match u with
  | UseSelect rnd r => (Select rnd r s).1
  | UseUpdate order => match UpdateServer order s with Ok s' => s' | _ => s end
  end.

(** The servers of the last update that did not panic. *)
Definition last_update (servers : list (string * string)) (s : anySelector) (us : list selector_use) : list (string * string) :=
  (fold_left (fun '(cur, s) u =>
     (match u with
      | UseUpdate order => match UpdateServer order s with Ok _ => order | _ => cur end
      | _ => cur
      end, use s u)) us (servers, s)).1.

(** The selector [newSelector] makes for a mode never selects a server
    that is not in the map of its last update, whatever selections and updates
    come in between: a selection gives the empty string or a current server. *)
Theorem selectors_current mode servers us s rnd r s' k :
  newSelector mode servers = Ok (Some s) ->
  Select rnd r (fold_left use us s) = (s', Ok k) ->
  k = "" \/ k ∈ (last_update servers s us).*1.
Proof.
  intros Hnew. apply newSelector_served in Hnew as [Hserved Hwf]. unfold last_update.
  revert servers s Hserved Hwf. induction us as [|u us IH]; intros servers s Hserved Hwf; cbn [fold_left fst].
  - intros Hsel. destruct (any_Select_served rnd r s s' (Ok k) Hwf Hsel) as (_ & _ & Hk).
    destruct (Hk k eq_refl) as [->|Hk']; [by left|]. right. by rewrite <- Hserved.
  - apply IH; destruct u as [rnd1 r1|order]; cbn [use].
    + destruct (Select rnd1 r1 s) as [s1 k1] eqn:E. cbn [fst].
      by destruct (any_Select_served rnd1 r1 s s1 k1 Hwf E) as (-> & _).
    + destruct (UpdateServer order s) as [s1| | | |] eqn:E; try done.
      by destruct (any_Update_served order s s1 Hwf E).
    + destruct (Select rnd1 r1 s) as [s1 k1] eqn:E. cbn [fst].
      by destruct (any_Select_served rnd1 r1 s s1 k1 Hwf E) as (_ & ? & _).
    + destruct (UpdateServer order s) as [s1| | | |] eqn:E; try done.
      by destruct (any_Update_served order s s1 Hwf E).
Qed.
End dispatch.

Lemma selectors_current_witness :
  "tcp@c:1" = "" \/ "tcp@c:1" ∈ [("tcp@c:1", "")].*1.
Proof.
  refine (selectors_current (H := list string) (fun _ => None) RoundRobin [("tcp@a:1", ""); ("tcp@b:1", "")]
    [UseSelect 0 (mk_request "A" "M" ""); UseUpdate [("tcp@c:1", "")]]
    (SelRoundRobin (mk_rr ["tcp@a:1"; "tcp@b:1"] 0)) 0 (mk_request "A" "M" "")
    (SelRoundRobin (mk_rr ["tcp@c:1"] 1)) "tcp@c:1" _ _); vm_compute; reflexivity.
Defined.
