(* ===== verification/Geo.v ===== *)
(** client/selector_geo.go: the selector that chooses the closest server, and
    [ConfigGeoSelector] of client/xclient.go, which installs it.

    A server publishes its location in its metadata; one without a location is
    never selected.  Distances are float64 values, so a location that parses to
    NaN or to an infinity is at a distance that compares with nothing. *)
From S2P Require Import Prelude Go UrlQuery Float64 Selectors.
Open Scope go_scope.

Record geoServer : Type := mk_geoServer { geo_Server : string; geo_lat : float; geo_lon : float }.

Record geoSelector : Type := mk_geoSelector { geo_servers : list geoServer; Latitude : float; Longitude : float }.

(** The body of the loop of [createGeoServer]: the location in the metadata. *)
Definition location (metadata : string) : option (float * float) :=
  let '(v, ok) := ParseQuery (bytes_of metadata) in
  if ok : bool then
    let latStr := UrlQuery.Get v "latitude" in
    let lonStr := UrlQuery.Get v "longitude" in
    if bool_decide (latStr = "") || bool_decide (lonStr = "") then None
    else lat ← ParseFloat latStr; lon ← ParseFloat lonStr; Some (lat, lon)
  else None.

(** [servers] in the order of the map iteration. *)
Definition createGeoServer (servers : list (string * string)) : list geoServer :=
  omap (fun '(s, metadata) => '(lat, lon) ← location metadata; Some (mk_geoServer s lat lon)) servers.

Definition newGeoSelector (servers : list (string * string)) (latitude longitude : float) : geoSelector :=
  mk_geoSelector (createGeoServer servers) latitude longitude.

Definition geo_UpdateServer (servers : list (string * string)) (s : geoSelector) : geoSelector :=
  mk_geoSelector (createGeoServer servers) (Latitude s) (Longitude s).

Section geo.
Context `{GoMath}.

Definition hsin (theta : float) : float := Pow (Sin (fdiv theta (float_of 2))) (float_of 2).

Definition radians (x : float) : float := fdiv (fmul x Pi) (float_of 180).

Definition getDistanceFrom (lat1 lon1 lat2 lon2 : float) : float :=
  let la1 := radians lat1 in
  let lo1 := radians lon1 in
  let la2 := radians lat2 in
  let lo2 := radians lon2 in
  let r := float_of 6378100 in
  let h := fadd (hsin (fsub la2 la1)) (fmul (fmul (Cos la1) (Cos la2)) (hsin (fsub lo2 lo1))) in
  fmul (fmul (float_of 2) r) (Asin (Sqrt h)).

Definition distance (s : geoSelector) (gs : geoServer) : float :=
  getDistanceFrom (Latitude s) (Longitude s) (geo_lat gs) (geo_lon gs).

(** The loop of [Select]: [server] are the names at the distance [min]. *)
Fixpoint closest (d : geoServer -> float) (gss : list geoServer) (server : list string) (min : float)
    : list string * float :=
  match gss with
  | [] => (server, min)
  | gs :: gss =>
      if flt (d gs) min then closest d gss [geo_Server gs] (d gs)
      else if feq (d gs) min then closest d gss (server ++ [geo_Server gs]) min
      else closest d gss server min
  end.

(** [r.Intn(n)] panics when [n] is not positive; [rnd] is the random number. *)
Definition Intn (rnd n : nat) : result nat := if decide (n = 0%nat) then Panic else Ok (rnd `mod` n)%nat.

Definition geo_Select (rnd : nat) (s : geoSelector) : result string :=
  match geo_servers s with
  | [] => Ok ""
  | gss =>
      match (closest (distance s) gss [] MaxFloat64).1 with
      | [x] => Ok x
      | server =>
          i ← Intn rnd (length server);
          match server !! i with Some x => Ok x | None => Panic end
      end
  end.

#[export] Instance geo_Selector : Selector geoSelector := {
  Select rnd _ s := (s, geo_Select rnd s);
  UpdateServer servers s := Ok (geo_UpdateServer servers s);
  served s := geo_Server <$> geo_servers s;
  selector_wf _ := True
}.

(** ** The loop keeps the servers at the smallest distance *)
Definition rank_le (x y : rank) : Prop := ~ rank_lt y x.

Ltac ranks :=
  repeat match goal with r : rank |- _ => destruct r as [[? ?] ?] end;
  unfold rank_le, rank_lt in *; simplify_eq; try lia.

Lemma rank_le_antisym x y : rank_le x y -> rank_le y x -> x = y.
Proof. ranks. intros. f_equal; [f_equal|]; lia. Qed.

Lemma closest_spec d gss server min m : frank min = Some m ->
  exists m', frank (closest d gss server min).2 = Some m' /\ rank_le m' m /\
    (m' = m \/ exists g, g ∈ gss /\ frank (d g) = Some m') /\
    (forall g k, g ∈ gss -> frank (d g) = Some k -> rank_le m' k) /\
    (closest d gss server min).1 =
      (if decide (m' = m) then server else []) ++ (geo_Server <$> filter (fun g => frank (d g) = Some m') gss).
Proof.
  revert server min m. induction gss as [|g gss IH]; intros server min m Hm; cbn [closest].
  - exists m. split_and!; [done|ranks|by left|by intros ? ? ?%elem_of_nil|].
    by rewrite decide_True, app_nil_r.
  - destruct (flt (d g) min) eqn:Hlt; [|destruct (feq (d g) min) eqn:Heq].
    + apply flt_rank in Hlt as (a & b & Ha & Hb & Hab). assert (b = m) as -> by congruence.
      destruct (IH [geo_Server g] (d g) a Ha) as (m' & H1 & H2 & H3 & H4 & H5).
      exists m'. split_and!; [done|clear - H2 Hab; ranks| | |].
      * destruct H3 as [->|(g' & Hg' & Hr)]; right; [exists g|exists g']; (split; [set_solver|done]).
      * intros g' k [->|Hg']%elem_of_cons Hk; [|by eapply H4]. assert (k = a) as -> by congruence. done.
      * rewrite H5, (decide_False (P := m' = m)) by (clear - H2 Hab; intros ->; ranks). rewrite filter_cons.
        destruct (decide (m' = a)) as [->|Hne]; [by rewrite decide_True by done|].
        rewrite decide_False by congruence. done.
    + apply feq_rank in Heq as (a & Ha & Hb). assert (a = m) as -> by congruence.
      destruct (IH (server ++ [geo_Server g]) min m Hm) as (m' & H1 & H2 & H3 & H4 & H5).
      exists m'. split_and!; [done|done| | |].
      * destruct H3 as [->|(g' & Hg' & Hr)]; [by left|right; exists g'; split; [set_solver|done]].
      * intros g' k [->|Hg']%elem_of_cons Hk; [|by eapply H4]. by assert (k = m) as -> by congruence.
      * rewrite H5, filter_cons. destruct (decide (m' = m)) as [->|Hne].
        -- rewrite decide_True by done. cbn. by rewrite <- app_assoc.
        -- by rewrite decide_False by congruence.
    + destruct (IH server min m Hm) as (m' & H1 & H2 & H3 & H4 & H5).
      assert (Hg : forall k, frank (d g) = Some k -> rank_le m' k /\ k <> m').
      { intros k Hk. assert (rank_le m k) as H0.
        { intros Hkm. rewrite (proj2 (flt_rank _ _)) in Hlt; [done|by exists k, m]. }
        assert (k <> m) as H6. { intros ->. rewrite (proj2 (feq_rank _ _)) in Heq; [done|by exists m]. }
        split; [clear - H2 H6 H0; ranks|]. intros ->. by apply H6, rank_le_antisym. }
      exists m'. split_and!; [done|done| | |].
      * destruct H3 as [->|(g' & Hg' & Hr)]; [by left|right; exists g'; split; [set_solver|done]].
      * intros g' k [->|Hg']%elem_of_cons Hk; [by apply Hg|by eapply H4].
      * rewrite H5, filter_cons, (decide_False (P := frank (d g) = Some m')); [done|].
        intros Hk. by apply Hg in Hk as [_ ?].
Qed.

(** A server at a distance that is a number up to the largest, with none
    closer. *)
Definition nearest (s : geoSelector) (gs : geoServer) : Prop :=
  flt MaxFloat64 (distance s gs) = false /\ feq (distance s gs) (distance s gs) = true /\
  Forall (fun gs' => flt (distance s gs') (distance s gs) = false) (geo_servers s).

#[export] Instance nearest_dec s gs : Decision (nearest s gs).
Proof. unfold nearest. apply _. Defined.

Lemma flt_false x y a b : frank x = Some a -> frank y = Some b -> flt x y = false <-> rank_le b a.
Proof.
  intros Ha Hb. unfold rank_le. rewrite <- not_true_iff_false, flt_rank. split.
  - intros H1 H2. apply H1. eauto.
  - intros H1 (a' & b' & Ha' & Hb' & H2). by assert (a' = a) as -> by congruence; assert (b' = b) as -> by congruence.
Qed.

Lemma filter_ext_in {A} (P Q : A -> Prop) `{!forall x, Decision (P x), !forall x, Decision (Q x)} (l : list A) :
  (forall x, x ∈ l -> P x <-> Q x) -> filter P l = filter Q l.
Proof.
  induction l as [|x l IH]; intros Hl; [done|]. rewrite !filter_cons, IH by set_solver.
  assert (P x <-> Q x) as Hx by (apply Hl; left). do 2 case_decide; tauto.
Qed.

Lemma nearest_rank s g m : frank MaxFloat64 = Some m ->
  nearest s g <-> exists k, frank (distance s g) = Some k /\ rank_le k m /\
    forall g' k', g' ∈ geo_servers s -> frank (distance s g') = Some k' -> rank_le k k'.
Proof.
  intros Hm. unfold nearest. rewrite Forall_forall, feq_rank. split.
  - intros (H1 & (k & Hk & _) & H3). exists k. split_and!; [done|by eapply flt_false|].
    intros g' k' Hg' Hk'. eapply flt_false; [| |by apply H3]; done.
  - intros (k & Hk & H1 & H2). split_and!; [by eapply flt_false|by exists k|].
    intros g' Hg'. apply not_true_iff_false. rewrite flt_rank. intros (a & b & Ha & Hb & Hab).
    assert (b = k) as -> by congruence. by apply (H2 g' a Hg' Ha).
Qed.

Lemma closest_nearest s :
  (closest (distance s) (geo_servers s) [] MaxFloat64).1 = geo_Server <$> filter (nearest s) (geo_servers s).
Proof.
  destruct (closest_spec (distance s) (geo_servers s) [] MaxFloat64 _ eq_refl) as (m' & _ & H2 & H3 & H4 & ->).
  case_decide; cbn [app]; f_equal; apply filter_ext_in; intros g Hg; rewrite (nearest_rank s g _ eq_refl).
  all: split; [intros Hk; exists m'; eauto|intros (k & Hk & Hkm & Hmin)].
  all: rewrite Hk; f_equal; apply rank_le_antisym; [|by apply (H4 g k)].
  - by subst m'.
  - destruct H3 as [->|(g' & Hg' & Hr)]; [done|by apply (Hmin g' m')].
Qed.

(** ** What is selected *)

(** C36: the geographic selector selects, by the random number, one of the
    servers at the smallest distance; with servers of which none has a distance
    that is a number it panics, and this happens exactly then. *)
Theorem geo_Select_nearest rnd s :
  geo_Select rnd s =
    match geo_servers s, filter (nearest s) (geo_servers s) with
    | [], _ => Ok ""
    | _, [] => Panic
    | _, near => match near !! (rnd `mod` length near)%nat with Some g => Ok (geo_Server g) | None => Panic end
    end.
Proof.
  unfold geo_Select. pose proof (closest_nearest s) as Hc.
  destruct (geo_servers s) as [|g0 gss] eqn:Hs; [done|]. rewrite Hc. clear Hc.
  destruct (filter (nearest s) (g0 :: gss)) as [|g1 [|g2 near0]]; [done|done|].
  set (near := g1 :: g2 :: near0). transitivity (i ← Intn rnd (length (geo_Server <$> near));
    match (geo_Server <$> near) !! i with Some x => Ok x | None => Panic end); [done|].
  unfold Intn. rewrite length_fmap, decide_False by done. cbn [mbind result_bind].
  rewrite list_lookup_fmap. by destruct (near !! _).
Qed.

(** ** Locations that are not numbers *)
Lemma fadd_NaN x : fadd NaN x = NaN /\ fadd x NaN = NaN.
Proof. by destruct x. Qed.
Lemma fsub_NaN x : fsub NaN x = NaN /\ fsub x NaN = NaN.
Proof. by destruct x. Qed.
Lemma fmul_NaN x : fmul NaN x = NaN /\ fmul x NaN = NaN.
Proof. by destruct x. Qed.

Context `{!GoMathLaws}.

Lemma hsin_NaN : hsin NaN = NaN.
Proof. unfold hsin. change (fdiv NaN _) with NaN. rewrite Sin_NaN. by rewrite Pow_NaN. Qed.

(** A latitude that is NaN or infinite is at no distance. *)
Lemma distance_no_number lat1 lon1 lat2 lon2 :
  lat2 = NaN \/ (exists b, lat2 = Inf b) -> getDistanceFrom lat1 lon1 lat2 lon2 = NaN.
Proof.
  intros Hl. unfold getDistanceFrom.
  assert (Hr : radians lat2 = NaN \/ exists b, radians lat2 = Inf b).
  { destruct Hl as [->|[b ->]]; [by left|right; exists b; by destruct b]. }
  assert (Hc : Cos (radians lat2) = NaN) by (destruct Hr as [->|[b ->]]; auto using Cos_NaN, Cos_Inf).
  rewrite Hc, (proj2 (fmul_NaN _)), (proj1 (fmul_NaN _)), (proj2 (fadd_NaN _)).
  change (Sqrt NaN) with NaN. rewrite Asin_NaN. by apply fmul_NaN.
Qed.

(** One server that publishes a latitude that is not a number is never
    selected, and a client that knows no other panics at every selection. *)
Lemma geo_Select_no_number rnd s : geo_servers s <> [] ->
  Forall (fun g => geo_lat g = NaN \/ exists b, geo_lat g = Inf b) (geo_servers s) -> geo_Select rnd s = Panic.
Proof.
  intros Hne Hall. rewrite geo_Select_nearest. destruct (geo_servers s) as [|g0 gss] eqn:Hs; [done|].
  rewrite <- Hs in Hall |- *. destruct (filter (nearest s) (geo_servers s)) as [|g near] eqn:Hf; [done|].
  assert (Hg : g ∈ filter (nearest s) (geo_servers s)) by (rewrite Hf; left).
  apply list_elem_of_filter in Hg as [(_ & Hd & _) Hin]. rewrite Forall_forall in Hall.
  revert Hd. unfold distance. by rewrite distance_no_number by auto.
Qed.

Lemma geo_nan_panics rnd la lo :
  geo_Select rnd (newGeoSelector [("tcp@a:1", "latitude=nan&longitude=0"); ("tcp@b:1", "")] la lo) = Panic.
Proof.
  apply geo_Select_no_number.
  - unfold newGeoSelector. cbn [geo_servers]. vm_compute. done.
  - constructor; [by left|constructor].
Qed.
End geo.

Lemma createGeoServer_served order k : k ∈ geo_Server <$> createGeoServer order -> k ∈ order.*1.
Proof.
  intros (g & -> & Hg)%list_elem_of_fmap. apply list_elem_of_omap in Hg as ([s v] & Hkv & Hg).
  destruct (location v) as [[la lo]|]; [|done]. injection Hg as <-. apply list_elem_of_fmap. by exists (s, v).
Qed.

(** A selection is one of the servers that were given, so the geographic
    selector can stand behind the interface of a client. *)
#[export] Instance geo_SelectorLaws `{GoMath} : SelectorLaws geoSelector.
Proof.
  split.
  - intros rnd r s s' k _. cbn. intros [= <- <-]. split_and!; [done..|]. intros x Hx.
    rewrite geo_Select_nearest in Hx.
    destruct (geo_servers s) as [|g0 gss] eqn:Hs; [left; congruence|]. right. rewrite <- Hs in *.
    destruct (filter (nearest s) (geo_servers s)) as [|g near] eqn:Hf; [done|].
    cbv zeta in Hx. case_match eqn:Hy; [|done]. injection Hx as <-.
    apply list_elem_of_lookup_2 in Hy. rewrite <- Hf in Hy. apply list_elem_of_filter in Hy as [_ Hy].
    by apply list_elem_of_fmap_2.
  - intros order s s' _. cbn. intros [= <-]. split; [|done]. apply createGeoServer_served.
Qed.

(** The documented special cases can all hold. *)
Definition on_number (x : float) : float :=
  match x with S754_nan | S754_infinity _ => NaN | _ => x end.

#[export] Instance toy_math : GoMath := {
  Sin := on_number; Cos := on_number; Asin := on_number; Pow x _ := fmul x x
}.

#[export] Instance toy_math_laws : GoMathLaws.
Proof. split; try done; by intros []. Qed.
