(* ===== verification/Client.v ===== *)
(** client/client.go and client/client_call.go: one connection to one server.
    The state the goroutines share (the pending map, the sequence number, the
    flags, the calls and their Done channels) is a record; every handler is a
    function on it, cut at the points where the code gives up the mutex. *)
From S2P Require Import Prelude Go Header Message UrlQuery.
Open Scope go_scope.

(** ** Constants of client_const.go *)
Definition XVersion : string := "X-IRPC-Version".
Definition XHeartbeat : string := "X-IRPC-Heartbeat".
Definition XOneway : string := "X-IRPC-Oneway".
Definition XMessageStatusType : string := "X-IRPC-MessageStatusType".
Definition XSerializeType : string := "X-IRPC-SerializeType".
Definition XMessageID : string := "X-IRPC-MessageID".
Definition XServicePath : string := "X-IRPC-ServicePath".
Definition XServiceMethod : string := "X-IRPC-ServiceMethod".
Definition XMeta : string := "X-IRPC-Meta".
Definition XErrorMessage : string := "X-IRPC-ErrorMessage".

(** ** Raw replies *)

(** [convertRes2Raw]; [kvs] is the order in which [urlEncode] meets the
    metadata. *)
Definition convertRes2Raw (kvs : list (string * string)) (res : message)
    : gmap string string * list byte :=
  let h := hdr res in
  let m : gmap string string := {[XVersion := pretty (bz (Version h))]} in
  let m := if IsHeartbeat h then <[XHeartbeat := "true"]> m else m in
  let m := if IsOneway h then <[XOneway := "true"]> m else m in
  let m := <[XMessageStatusType :=
              if decide (MessageStatusType h = StatusError) then "Error" else "Normal"]> m in
  let m := <[XMeta := string_of (urlEncode kvs)]> m in
  let m := <[XSerializeType := pretty (bz (SerializeType h))]> m in
  let m := <[XMessageID := pretty (Seq h)]> m in
  let m := <[XServicePath := ServicePath res]> m in
  let m := <[XServiceMethod := ServiceMethod res]> m in
  (m, Payload res).

(** ** Data *)

(** [codec.Codec]: values to bytes and back; the reply pointer may be nil, and
    decoding into a value that does not fit may panic. *)
Record Codec (A R : Type) : Type := mk_Codec {
  CodecEncode : option A -> result (list byte);
  CodecDecode : list byte -> option R -> result (option R * option error)
}.
Arguments mk_Codec {A R}.
Arguments CodecEncode {A R}.
Arguments CodecDecode {A R}.

(** [Call].  [Reply] of a raw call is a byte slice, here [cRawReply]; [cDone] is
    the channel's address. *)
Record Call (A R : Type) : Type := mk_Call {
  cServicePath : string;
  cServiceMethod : string;
  cMetadata : option (gmap string string);
  cResMetadata : option (gmap string string);
  cArgs : option A;
  cReply : option R;
  cRawReply : option (list byte);
  cError : option error;
  cDone : nat;
  cRaw : bool
}.
Arguments mk_Call {A R}.
Arguments cServicePath {A R}.
Arguments cServiceMethod {A R}.
Arguments cMetadata {A R}.
Arguments cResMetadata {A R}.
Arguments cArgs {A R}.
Arguments cReply {A R}.
Arguments cRawReply {A R}.
Arguments cError {A R}.
Arguments cDone {A R}.
Arguments cRaw {A R}.

(** A channel of calls: its capacity and the calls sent and not received. *)
Record chan : Type := mk_chan { ccap : nat; items : list nat }.

(** The channel registered for the server's own requests. *)
Record srvchan : Type := mk_srvchan { scap : nat; smsgs : list message; sclosed : bool }.

Record Option_ : Type := mk_Option {
  oSerializeType : byte;
  oCompressType : byte;
  oBidirectionalBlock : bool
}.

(** [Client], with the heap its goroutines share: [heap] holds the calls by
    address, [chans] their Done channels, [ServerMessageChan] is nil or the
    registered channel, [written] what was
    written to the connection, [connClosed] whether it was closed, and [dones]
    the calls on which [done] has run, in order. *)
Record Client (A R : Type) : Type := mk_Client {
  option_ : Option_;
  seq : Z;
  pending : gmap Z nat;
  closing : bool;
  shutdown : bool;
  pluginClosed : bool;
  connClosed : bool;
  ServerMessageChan : option srvchan;
  heap : gmap nat (Call A R);
  chans : gmap nat chan;
  written : list (list byte);
  dones : list nat
}.
Arguments mk_Client {A R}.
Arguments option_ {A R}.
Arguments seq {A R}.
Arguments pending {A R}.
Arguments closing {A R}.
Arguments shutdown {A R}.
Arguments pluginClosed {A R}.
Arguments connClosed {A R}.
Arguments ServerMessageChan {A R}.
Arguments heap {A R}.
Arguments chans {A R}.
Arguments written {A R}.
Arguments dones {A R}.

Section client.
Context {A R : Type}.
Implicit Types c : Client A R.
Implicit Types call : Call A R.

Definition NewClient (o : Option_) : Client A R :=
  mk_Client o 0 ∅ false false false false None ∅ ∅ [] [].

Definition set_pending (p : gmap Z nat) c : Client A R :=
  mk_Client (option_ c) (seq c) p (closing c) (shutdown c) (pluginClosed c) (connClosed c)
    (ServerMessageChan c) (heap c) (chans c) (written c) (dones c).
Definition set_seq (n : Z) c : Client A R :=
  mk_Client (option_ c) n (pending c) (closing c) (shutdown c) (pluginClosed c) (connClosed c)
    (ServerMessageChan c) (heap c) (chans c) (written c) (dones c).
Definition set_flags (cl sh pl co : bool) c : Client A R :=
  mk_Client (option_ c) (seq c) (pending c) cl sh pl co
    (ServerMessageChan c) (heap c) (chans c) (written c) (dones c).
Definition set_smc (s : option srvchan) c : Client A R :=
  mk_Client (option_ c) (seq c) (pending c) (closing c) (shutdown c) (pluginClosed c) (connClosed c)
    s (heap c) (chans c) (written c) (dones c).
Definition set_heap (h : gmap nat (Call A R)) c : Client A R :=
  mk_Client (option_ c) (seq c) (pending c) (closing c) (shutdown c) (pluginClosed c) (connClosed c)
    (ServerMessageChan c) h (chans c) (written c) (dones c).
Definition set_chans (h : gmap nat chan) c : Client A R :=
  mk_Client (option_ c) (seq c) (pending c) (closing c) (shutdown c) (pluginClosed c) (connClosed c)
    (ServerMessageChan c) (heap c) h (written c) (dones c).
Definition set_written (w : list (list byte)) c : Client A R :=
  mk_Client (option_ c) (seq c) (pending c) (closing c) (shutdown c) (pluginClosed c) (connClosed c)
    (ServerMessageChan c) (heap c) (chans c) w (dones c).
Definition set_dones (d : list nat) c : Client A R :=
  mk_Client (option_ c) (seq c) (pending c) (closing c) (shutdown c) (pluginClosed c) (connClosed c)
    (ServerMessageChan c) (heap c) (chans c) (written c) d.

Definition upd_call (id : nat) (f : Call A R -> Call A R) c : Client A R :=
  set_heap (alter f id (heap c)) c.

Definition with_Error (e : option error) call : Call A R :=
  mk_Call (cServicePath call) (cServiceMethod call) (cMetadata call) (cResMetadata call)
    (cArgs call) (cReply call) (cRawReply call) e (cDone call) (cRaw call).
Definition with_ResMetadata (m : option (gmap string string)) call : Call A R :=
  mk_Call (cServicePath call) (cServiceMethod call) (cMetadata call) m
    (cArgs call) (cReply call) (cRawReply call) (cError call) (cDone call) (cRaw call).
Definition with_raw (m : gmap string string) (p : list byte) call : Call A R :=
  mk_Call (cServicePath call) (cServiceMethod call) (Some m) (cResMetadata call)
    (cArgs call) (cReply call) (Some p) (cError call) (cDone call) (cRaw call).
Definition with_Reply (r : option R) call : Call A R :=
  mk_Call (cServicePath call) (cServiceMethod call) (cMetadata call) (cResMetadata call)
    (cArgs call) r (cRawReply call) (cError call) (cDone call) (cRaw call).

(** ** Completing a call *)

(** [call.done()]: a send that does not block; a full channel drops it. *)
Definition done_ (id : nat) c : Client A R :=
  let c := set_dones (dones c ++ [id]) c in
  match heap c !! id with
  | None => c
  | Some call =>
      set_chans (alter (fun ch => if decide (length (items ch) < ccap ch)%nat
                                  then mk_chan (ccap ch) (items ch ++ [id]) else ch)
                   (cDone call) (chans c)) c
  end.

(** [call.Error = err; call.done()]. *)
Definition fail_call (e : error) (id : nat) c : Client A R :=
  done_ id (upd_call id (with_Error (Some e)) c).

(** [call = pending[seq]; delete(pending, seq)] under the mutex. *)
Definition take_pending (n : Z) c : Client A R * option nat :=
  (set_pending (delete n (pending c)) c, pending c !! n).

(** Take the call of [n] out of the map and, if there is one, fail it: the
    pattern of a write error and of a cancelled context. *)
Definition abandon (n : Z) (e : error) c : Client A R :=
  match take_pending n c with
  | (c, Some id) => fail_call e id c
  | (c, None) => c
  end.

(** ** send *)
Section send.
Context (codecs : byte -> option (Codec A R)) (cs : compressors) (get : Z -> list byte).
(** [Plugins.DoClientBeforeEncode] may change the message, and what writing
    to the connection returns. *)
Context (DoClientBeforeEncode : message -> message) (ConnWrite : list byte -> option error).

Definition isHeartbeatCall call : bool :=
  bool_decide (cServicePath call = "") && bool_decide (cServiceMethod call = "").

(** The first locked section of [send]: the call is refused, or registered
    under the next sequence number. *)
Definition send_register (id : nat) c : Client A R * option Z :=
  match heap c !! id with
  | None => (c, None)
  | Some call =>
      if shutdown c || closing c then (fail_call ErrShutdown id c, None)
      else
        let st := if isHeartbeatCall call then MsgPack else oSerializeType (option_ c) in
        match codecs st with
        | None => (fail_call ErrUnsupportedCodec id c, None)
        | Some _ =>
            let n := seq c in
            (set_pending (<[n := id]> (pending c)) (set_seq (u64 (n + 1)) c), Some n)
        end
  end.

(** The request message, in the message [req] taken from the pool. *)
Definition send_request (o : Option_) (n : Z) call (data : list byte) (req : message) : message :=
  let hb := isHeartbeatCall call in
  let h := SetMessageType Request (hdr req) in
  let h := SetSeq n h in
  let h := match cReply call with None => SetOneway true h | Some _ => h end in
  let h := if hb then SetSerializeType MsgPack (SetHeartbeat true h)
           else SetSerializeType (oSerializeType o) h in
  let h := if (1024 <? Z.of_nat (length data)) && negb (bool_decide (oCompressType o = None_))
           then SetCompressType (oCompressType o) h else h in
  let meta := match cMetadata call with Some m => Some m | None => Metadata req end in
  mk_message h (cServicePath call) (cServiceMethod call) meta data (Message.data req).

(** The rest of [send] for the call registered as [n].  [m0] is the pooled
    message and [kvs] the order of its metadata.  After a successful write
    the request is freed, and only then asked whether it is one-way. *)
Definition send_finish (id : nat) (n : Z) (m0 : message) (kvs : list (string * string)) c
    : Client A R * result unit :=
  match heap c !! id with
  | None => (c, Ok tt)
  | Some call =>
      let st := if isHeartbeatCall call then MsgPack else oSerializeType (option_ c) in
      match codecs st with
      | None => (c, Panic)
      | Some codec =>
          match CodecEncode codec (cArgs call) with
          | Err err => (fail_call err id (set_pending (delete n (pending c)) c), Ok tt)
          | Ok data =>
              let req := DoClientBeforeEncode (send_request (option_ c) n call data m0) in
              match EncodeSlicePointer cs get kvs req with
              | Ok (allData, h) =>
                  match ConnWrite allData with
                  | Some err => (abandon n err c, Ok tt)
                  | None =>
                      let c := set_written (written c ++ [allData]) c in
                      let '(req, _) := FreeMsg (set_hdr h req) [] in
                      if IsOneway (hdr req) then
                        match take_pending n c with
                        | (c, Some id) => (done_ id c, Ok tt)
                        | (c, None) => (c, Ok tt)
                        end
                      else (c, Ok tt)
                  end
              | Err e => (c, Err e) | Panic => (c, Panic) | Fatal => (c, Fatal) | Blocked => (c, Blocked)
              end
          | Panic => (c, Panic) | Fatal => (c, Fatal) | Blocked => (c, Blocked)
          end
      end
  end.

Definition send (id : nat) (m0 : message) (kvs : list (string * string)) c : Client A R * result unit :=
  match send_register id c with
  | (c, Some n) => send_finish id n m0 kvs c
  | (c, None) => (c, Ok tt)
  end.

(** ** Go *)

(** [Go] with the fresh address [id] for its call; [done] is nil, or the
    address of the caller's channel: an unbuffered one panics. *)
Definition Go (id ch : nat) (sp sm : string) (meta : option (gmap string string))
    (args : option A) (reply : option R) (done : option nat)
    (m0 : message) (kvs : list (string * string)) c : Client A R * result nat :=
  let '(c, d) := match done with
                 | Some d => (c, d)
                 | None => (set_chans (<[ch := mk_chan 10 []]> (chans c)) c, ch)
                 end in
  match chans c !! d with
  | Some chn =>
      if decide (ccap chn = 0%nat) then (c, Panic)
      else
        let call := mk_Call sp sm meta None args reply None None d false in
        let c := set_heap (<[id := call]> (heap c)) c in
        match send id m0 kvs c with
        | (c, Ok _) => (c, Ok id)
        | (c, Err e) => (c, Err e)
        | (c, Panic) => (c, Panic) | (c, Fatal) => (c, Fatal) | (c, Blocked) => (c, Blocked)
        end
  | None => (c, Panic)
  end.

(** ** SendRaw *)

(** Up to the wait: the call is stored under the message's own number,
    whatever is stored there; [rmeta] is the merged metadata. *)
Definition SendRaw_start (id ch : nat) (meta : option (gmap string string)) (r : message)
    (kvs : list (string * string)) c : Client A R * result (option error) :=
  let rmeta := default ∅ (Metadata r) ∪ default ∅ meta in
  let call := mk_Call (ServicePath r) (ServiceMethod r)
                (match meta with Some _ => Some rmeta | None => None end)
                None None None None None ch true in
  let r := set_Metadata (Some rmeta) r in
  let c := set_chans (<[ch := mk_chan 10 []]> (chans c)) c in
  let c := set_heap (<[id := call]> (heap c)) c in
  let n := Seq (hdr r) in
  let c := set_pending (<[n := id]> (pending c)) c in
  match EncodeSlicePointer cs get kvs r with
  | Ok (data, h) =>
      match ConnWrite data with
      | Some err => (abandon n err c, Ok (Some err))
      | None =>
          let c := set_written (written c ++ [data]) c in
          if IsOneway h then
            match take_pending n c with
            | (c, Some id) => (done_ id c, Ok None)
            | (c, None) => (c, Ok None)
            end
          else (c, Ok None)
      end
  | Err e => (c, Err e) | Panic => (c, Panic) | Fatal => (c, Fatal) | Blocked => (c, Blocked)
  end.
End send.

(** ** Messages from the server *)

(** [handleServerRequest]: a send to a closed channel panics; the recover
    removes the channel. *)
Definition handleServerRequest (msg : message) c : Client A R * result unit :=
  match ServerMessageChan c with
  | None => (c, Ok tt)
  | Some ch =>
      if sclosed ch then (set_smc None c, Ok tt)
      else if decide (length (smsgs ch) < scap ch)%nat
      then (set_smc (Some (mk_srvchan (scap ch) (smsgs ch ++ [msg]) false)) c, Ok tt)
      else if oBidirectionalBlock (option_ c) then (c, Blocked)
      else (c, Ok tt)
  end.

Section input.
Context (codecs : byte -> option (Codec A R)) (cs : compressors).
(** [Plugins.DoClientAfterDecode] may change the message; the order in which
    [urlEncode] meets the metadata of a message. *)
Context (DoClientAfterDecode : message -> message)
        (order : option (gmap string string) -> list (string * string)).

Definition isServerMessage (res : message) : bool :=
  bool_decide (MessageType (hdr res) = Request) && negb (IsHeartbeat (hdr res)) && IsOneway (hdr res).

(** What a response does to the call it answers, before [done]; the error is
    the one the loop variable [err] gets. *)
Definition answer_error (res : message) call : result (Call A R) :=
  let call := if negb (bool_decide (default ∅ (Metadata res) = ∅)) then
                with_Error (Some (ServiceError (meta_get ServiceErrorKey (Metadata res))))
                  (with_ResMetadata (Metadata res) call)
              else call in
  if cRaw call then
    let '(m, p) := convertRes2Raw (order (Metadata res)) res in
    match cError call with
    | Some e => Ok (with_raw (<[XErrorMessage := Error e]> m) p call)
    | None => Panic
    end
  else match Payload res with
       | [] => Ok call
       | data =>
           match codecs (SerializeType (hdr res)) with
           | Some codec => '(r, _) ← CodecDecode codec data (cReply call); Ok (with_Reply r call)
           | None => Ok call
           end
       end.

Definition answer_normal (res : message) call : result (Call A R * option error) :=
  if cRaw call then
    let '(m, p) := convertRes2Raw (order (Metadata res)) res in Ok (with_raw m p call, None)
  else
    '(call, err) ←
      match Payload res with
      | [] => Ok (call, None)
      | data =>
          match codecs (SerializeType (hdr res)) with
          | None => Ok (with_Error (Some (ServiceError (Error ErrUnsupportedCodec))) call, None)
          | Some codec =>
              '(r, err) ← CodecDecode codec data (cReply call);
              Ok (match err with
                  | None => (with_Reply r call, None)
                  | Some e => (with_Error (Some (ServiceError (Error e))) (with_Reply r call), Some e)
                  end)
          end
      end;
    Ok (if negb (bool_decide (default ∅ (Metadata res) = ∅)) then with_ResMetadata (Metadata res) call else call,
        err).

(** One turn of the loop of [input] after a message is decoded: the value
    is [err]. *)
Definition input_message (res : message) c : Client A R * result (option error) :=
  let res := DoClientAfterDecode res in
  let '(c, id) := if isServerMessage res then (c, None) else take_pending (Seq (hdr res)) c in
  match id ≫= fun id => pair id <$> heap c !! id with
  | None =>
      if isServerMessage res then
        match handleServerRequest res c with
        | (c, Ok _) => (c, Ok None)
        | (c, Err e) => (c, Err e)
        | (c, Panic) => (c, Panic) | (c, Fatal) => (c, Fatal) | (c, Blocked) => (c, Blocked)
        end
      else (c, Ok None)
  | Some (id, call) =>
      if decide (MessageStatusType (hdr res) = StatusError) then
        match answer_error res call with
        | Ok call => (done_ id (set_heap (<[id := call]> (heap c)) c), Ok None)
        | Err e => (c, Err e) | Panic => (c, Panic) | Fatal => (c, Fatal) | Blocked => (c, Blocked)
        end
      else
        match answer_normal res call with
        | Ok (call, err) => (done_ id (set_heap (<[id := call]> (heap c)) c), Ok err)
        | Err e => (c, Err e) | Panic => (c, Panic) | Fatal => (c, Fatal) | Blocked => (c, Blocked)
        end
  end.

(** After the loop: tell the registered channel, close the connection and
    complete what is pending.  [ids] is the map's values in iteration
    order; the entries stay in the map. *)
Definition input_notice (addr : string) (err : error) : message :=
  let h := SetMessageStatusType StatusError (SetMessageType Request newHeader) in
  set_Metadata (Some (<["server" := addr]> {[ServiceErrorKey := Error err]})) (set_hdr h NewMessage).

Definition end_error (closing : bool) (err : error) : error :=
  match err with
  | EOF => if closing then ErrShutdown else ErrUnexpectedEOF
  | _ => err
  end.

Definition input_end (addr : string) (err : error) (ids : list nat) c : Client A R * result unit :=
  let '(c, r) := match ServerMessageChan c with
                 | Some _ => handleServerRequest (input_notice addr err) c
                 | None => (c, Ok tt)
                 end in
  match r with
  | Ok _ =>
      let err := end_error (closing c) err in
      let c := set_flags (closing c) true true true c in
      (fold_left (fun c id => fail_call err id c) ids c, Ok tt)
  | _ => (c, r)
  end.

(** The whole goroutine on the bytes of the connection.  The fuel bounds
    the messages; each takes at least sixteen bytes.  Nothing recovers a
    panic in it, so a panic ends the process. *)
Fixpoint input (fuel : nat) (addr : string) (r : reader) c : Client A R * result unit :=
  match fuel with
  | O => (c, Blocked)
  | S fuel =>
      match Decode cs 0 (r, NewMessage) with
      | ((r, res), Ok _) =>
          match input_message res c with
          | (c, Ok None) => input fuel addr r c
          | (c, Ok (Some err)) => input_end addr err (map_to_list (pending c)).*2 c
          | (c, Blocked) => (c, Blocked)
          | (c, _) => (c, Fatal)
          end
      | (_, Err err) => input_end addr err (map_to_list (pending c)).*2 c
      | (_, Blocked) => (c, Blocked)
      | (_, _) => (c, Fatal)
      end
  end.
End input.

(** ** Close *)

(** [ids] is the pending calls in iteration order; [connErr] what closing the
    connection returns.  On a client that is closing or shut down the mutex
    is released twice, which ends the process. *)
Definition Close (ids : list (Z * nat)) (connErr : option error) c : Client A R * result (option error) :=
  let c := fold_left (fun c '(n, id) =>
             fail_call ErrShutdown id (set_pending (delete n (pending c)) c)) ids c in
  let '(c, err) := if pluginClosed c then (c, None)
                   else (set_flags (closing c) (shutdown c) true true c, connErr) in
  if closing c || shutdown c then (c, Fatal)
  else (set_flags true (shutdown c) (pluginClosed c) (connClosed c) c, Ok err).

(** ** call: the wait after Go *)

(** The branch of the cancelled context: [n] is the number [send] stored, 0
    when it stored none. *)
Definition call_cancelled (n : option Z) (e : error) c : Client A R * option error :=
  (abandon (default 0 n) e c, Some e).

(** The branch of the Done channel: the error of the call received, and the
    response metadata copied into the caller's map. *)
Definition call_done (id : nat) (addr : string) (meta : option (gmap string string)) c
    : option (option error * option (gmap string string)) :=
  call ← heap c !! id;
  Some (cError call,
        match meta with
        | Some m =>
            if bool_decide (default ∅ (cResMetadata call) = ∅) then meta
            else Some (<["__ServerAddress" := addr]> (default ∅ (cResMetadata call) ∪ m))
        | None => None
        end).

(** The same branches of [SendRaw], which stored the call under the number of its
    message: the metadata and the payload are those of the answer. *)
Definition SendRaw_cancelled (n : Z) (e : error) c : Client A R * option error := (abandon n e c, Some e).

Definition SendRaw_done (id : nat) c : option (option (gmap string string) * list byte * option error) :=
  call ← heap c !! id;
  Some (cMetadata call, default [] (cRawReply call), cError call).

(** ** Small methods *)
Definition IsShutdown c : bool := shutdown c.
Definition IsClosing c : bool := closing c.
Definition RegisterServerMessageChan (ch : srvchan) c : Client A R := set_smc (Some ch) c.
Definition UnregisterServerMessageChan c : Client A R := set_smc None c.

(** The loop of [heartbeat]: at a tick it stops when the client is shut down
    or closing; otherwise it calls, and closes the client when the context or
    the call reports an error.  [ids] and [connErr] are as for [Close], which
    runs on the state [c'] the call left. *)
Definition heartbeat_stops c : bool := shutdown c || closing c.

Definition heartbeat_tick (ctxErr callErr : option error) (ids : list (Z * nat)) (connErr : option error)
    (c' : Client A R) : Client A R * result (option error) :=
  match ctxErr, callErr with
  | None, None => (c', Ok None)
  | _, _ => Close ids connErr c'
  end.
End client.
