(* ===== verification/ClientFacts.v ===== *)
(** Theorems about Client.v: what [send] writes, what an answer does, and the
    end of the connection.  ClientRuns has the goroutines together. *)
From S2P Require Import Prelude Go Header Message MessageFacts UrlQuery Client.
Open Scope go_scope.

(** ** What the handlers do to the calls *)
Section facts.
Context {A R : Type}.
Implicit Types c : Client A R.

Lemma done_view id c :
  pending (done_ id c) = pending c /\ heap (done_ id c) = heap c /\ dones (done_ id c) = dones c ++ [id]
  /\ seq (done_ id c) = seq c /\ closing (done_ id c) = closing c /\ shutdown (done_ id c) = shutdown c
  /\ pluginClosed (done_ id c) = pluginClosed c.
Proof. unfold done_. cbn [heap set_dones]. destruct (heap c !! id); done. Qed.

Lemma fail_call_view e id c :
  pending (fail_call e id c) = pending c /\ dom (heap (fail_call e id c)) = dom (heap c)
  /\ dones (fail_call e id c) = dones c ++ [id]
  /\ seq (fail_call e id c) = seq c /\ closing (fail_call e id c) = closing c
  /\ shutdown (fail_call e id c) = shutdown c /\ pluginClosed (fail_call e id c) = pluginClosed c.
Proof.
  unfold fail_call. destruct (done_view id (upd_call id (with_Error (Some e)) c)) as (-> & -> & -> & -> & -> & -> & ->).
  cbn. split_and!; try done. apply dom_alter_L.
Qed.

Lemma handleServerRequest_view msg c :
  let c' := (handleServerRequest msg c).1 in
  pending c' = pending c /\ heap c' = heap c /\ dones c' = dones c /\ seq c' = seq c /\ closing c' = closing c.
Proof. unfold handleServerRequest. repeat case_match; done. Qed.

End facts.

(** ** The end of the connection *)
Section ended.
Context {A R : Type}.

Lemma input_end_view addr err ids (c c' : Client A R) :
  input_end addr err ids c = (c', Ok tt) ->
  dones c' = dones c ++ ids /\ dom (heap c') = dom (heap c) /\ pending c' = pending c /\
  shutdown c' = true /\ pluginClosed c' = true /\ connClosed c' = true /\ seq c' = seq c.
Proof.
  unfold input_end.
  assert (Hfold : forall e ids (c1 : Client A R), let c2 := fold_left (fun c id => fail_call (A := A) (R := R) e id c) ids c1 in
    dones c2 = dones c1 ++ ids /\ dom (heap c2) = dom (heap c1) /\ pending c2 = pending c1
    /\ shutdown c2 = shutdown c1 /\ pluginClosed c2 = pluginClosed c1 /\ connClosed c2 = connClosed c1 /\ seq c2 = seq c1).
  { intros e. induction ids0 as [|i ids0 IH]; intros c1; cbn [fold_left]; [by rewrite app_nil_r|].
    destruct (IH (fail_call e i c1)) as (-> & -> & -> & -> & -> & -> & ->).
    destruct (fail_call_view e i c1) as (-> & -> & -> & -> & _ & -> & ->).
    rewrite <- app_assoc. split_and!; try done. unfold fail_call, done_. cbn. by case_match. }
  assert (Hsmc : forall c1 c2 x, handleServerRequest (A := A) (R := R) (input_notice addr err) c1 = (c2, Ok x) ->
    dones c2 = dones c1 /\ heap c2 = heap c1 /\ pending c2 = pending c1 /\ seq c2 = seq c1).
  { intros c1 c2 x E. pose proof (handleServerRequest_view (input_notice addr err) c1) as Hv.
    rewrite E in Hv. cbn in Hv. by destruct Hv as (-> & -> & -> & -> & _). }
  intros H. destruct (ServerMessageChan c) as [ch|].
  - destruct (handleServerRequest _ c) as [c1 [[]| | | |]] eqn:E; try done. injection H as <-.
    apply Hsmc in E as (E1 & E2 & E3 & E4).
    destruct (Hfold (end_error (closing c1) err) ids (set_flags (closing c1) true true true c1))
      as (-> & -> & -> & -> & -> & -> & ->). cbn. by rewrite E1, E2, E3, E4.
  - injection H as <-.
    destruct (Hfold (end_error (closing c) err) ids (set_flags (closing c) true true true c))
      as (-> & -> & -> & -> & -> & -> & ->). done.
Qed.

(** Once the connection has ended, [Close] completes every call that was
    pending a second time, with [ErrShutdown], and then releases the mutex
    twice, which ends the process. *)
Theorem Close_after_end addr err ids (c c1 : Client A R) order' connErr :
  input_end addr err ids c = (c1, Ok tt) ->
  ids ≡ₚ (map_to_list (pending c)).*2 ->
  order' ≡ₚ map_to_list (pending c1) ->
  exists c2, Close order' connErr c1 = (c2, Fatal) /\ dones c2 = dones c ++ ids ++ order'.*2 /\ order'.*2 ≡ₚ ids.
Proof.
  intros He Hids Hord. apply input_end_view in He as (Hd & _ & Hp & Hs & Hpl & _).
  assert (Hfold : forall l (c1 : Client A R), let c2 := fold_left (fun c '(n, id) =>
      fail_call (A := A) (R := R) ErrShutdown id (set_pending (delete n (pending c)) c)) l c1 in
    dones c2 = dones c1 ++ l.*2 /\ shutdown c2 = shutdown c1 /\ pluginClosed c2 = pluginClosed c1).
  { induction l as [|[n id] l IH]; intros c3; cbn [fold_left fmap list_fmap]; [by rewrite app_nil_r|].
    destruct (IH (fail_call ErrShutdown id (set_pending (delete n (pending c3)) c3))) as (-> & -> & ->).
    destruct (fail_call_view ErrShutdown id (set_pending (delete n (pending c3)) c3)) as (_ & _ & -> & _ & _ & -> & ->).
    by rewrite <- app_assoc. }
  destruct (Hfold order' c1) as (Hd2 & Hs2 & Hp2). unfold Close.
  set (c2 := fold_left _ order' c1) in *. exists c2. rewrite Hp2, Hpl, Hs2, Hs, orb_true_r.
  split; [done|]. split; [by rewrite Hd2, Hd, app_assoc|]. by rewrite Hord, Hids, Hp.
Qed.
End ended.

(** ** What [send] writes *)
Section request.
Context {A R : Type} (codecs : byte -> option (Codec A R)) (cs : compressors) `{!CompressorLaws cs}
  (get : Z -> list byte) `{!BufferGet get}.
Implicit Types c : Client A R.

Lemma send_request_header o n call data m0 :
  hdr m0 = newHeader ->
  let h := hdr (send_request (A := A) (R := R) o n call data m0) in
  Header_wf h /\ CheckMagicNumber h = true /\ MessageType h = Request /\ Seq h = u64 n
  /\ IsOneway h = bool_decide (cReply call = None) /\ IsHeartbeat h = isHeartbeatCall call
  /\ SerializeType h = (if isHeartbeatCall call then MsgPack else oSerializeType o .& x0f)
  /\ MessageStatusType h = Normal.
Proof.
  intros Hm0 h.
  set (h1 := SetSeq n (SetMessageType Request newHeader)).
  assert (W1 : Header_wf h1 /\ view h1 = with_seq (u64 n) (view newHeader)).
  { unfold h1. split; [auto with header|]. rewrite view_SetSeq by auto with header.
    by rewrite view_SetMessageType by auto with header. }
  set (h2 := match cReply call with None => SetOneway true h1 | Some _ => h1 end).
  assert (W2 : Header_wf h2 /\ view h2 = with_oneway (bool_decide (cReply call = None)) (view h1)).
  { unfold h2. destruct W1 as [W1 V1], (cReply call).
    - split; [done|]. by rewrite V1.
    - split; [auto with header|]. by rewrite view_SetOneway. }
  set (h3 := if isHeartbeatCall call then SetSerializeType MsgPack (SetHeartbeat true h2)
             else SetSerializeType (oSerializeType o) h2).
  assert (W3 : Header_wf h3 /\ view h3 = with_serialize
    (if isHeartbeatCall call then MsgPack else oSerializeType o .& x0f)
    (with_heartbeat (isHeartbeatCall call) (view h2))).
  { unfold h3. destruct W1 as [W1 V1], W2 as [W2 V2]. destruct (isHeartbeatCall call).
    - split; [auto with header|]. rewrite view_SetSerializeType by auto with header.
      by rewrite view_SetHeartbeat.
    - split; [auto with header|]. rewrite view_SetSerializeType by done. by rewrite V2, V1. }
  assert (W4 : Header_wf h /\ exists ct, view h = with_compress ct (view h3)).
  { unfold h, send_request. rewrite Hm0. fold h1 h2 h3. cbn [hdr]. destruct W3 as [W3 _]. case_match.
    - split; [auto with header|]. eexists. by rewrite view_SetCompressType.
    - split; [done|]. by exists (f_compress (view h3)). }
  destruct W1 as [_ V1], W2 as [_ V2], W3 as [_ V3], W4 as [W4 [ct V4]].
  rewrite V3, V2, V1 in V4. split; [done|].
  pose proof (f_equal f_magic V4) as Vm. cbn in Vm.
  split_and!; [by apply bool_decide_eq_true| | | | | |];
    [exact (f_equal f_type V4)|exact (f_equal f_seq V4)|exact (f_equal f_oneway V4)
    |exact (f_equal f_heartbeat V4)|exact (f_equal f_serialize V4)|exact (f_equal f_status V4)].
Qed.

Lemma length_resetHeader_oneway h : IsOneway (resetHeader h) = false.
Proof. unfold resetHeader. by destruct h. Qed.

(** The request of a registered call, when it can be written. *)
Lemma send_written id n m0 kvs call codec data c :
  heap c !! id = Some call -> hdr m0 = newHeader -> cap (Message.data m0) < 1024 ->
  codecs (if isHeartbeatCall call then MsgPack else oSerializeType (option_ c)) = Some codec ->
  CodecEncode codec (cArgs call) = Ok data ->
  exists bs h, EncodeSlicePointer cs get kvs (send_request (option_ c) n call data m0) = Ok (bs, h) /\
    send_finish codecs cs get (fun m => m) (fun _ => None) id n m0 kvs c =
      (set_written (written c ++ [bs]) c, Ok tt).
Proof.
  intros Hid Hm0 Hcap Hcodec Henc.
  destruct (send_request_header (option_ c) n call data m0 Hm0) as [Hw _].
  destruct (compressPayload_ok cs (send_request (option_ c) n call data m0)) as (h & p & Hc).
  pose proof (EncodeSlicePointer_wire cs get kvs _ Hw) as E. rewrite Hc in E. cbn [mbind result_bind] in E.
  eexists _, h. split; [exact E|]. unfold send_finish. rewrite Hid, Hcodec, Henc, E.
  unfold FreeMsg. cbn [Message.data set_hdr send_request]. rewrite (proj2 (Z.ltb_lt _ _)) by done.
  cbn [Reset hdr]. by rewrite length_resetHeader_oneway.
Qed.

(** What [send] writes for a registered call, as the reader of the connection
    sees it. *)
Lemma send_reads max id n m0 m1 kvs call codec data c tail fn :
  heap c !! id = Some call -> hdr m0 = newHeader -> Metadata m0 = None -> cap (Message.data m0) < 1024 ->
  Header_wf (hdr m1) -> Metadata m1 = None ->
  codecs (if isHeartbeatCall call then MsgPack else oSerializeType (option_ c)) = Some codec ->
  CodecEncode codec (cArgs call) = Ok data ->
  kvs ≡ₚ map_to_list (default ∅ (cMetadata call)) ->
  exists bs c',
    send_finish codecs cs get (fun m => m) (fun _ => None) id n m0 kvs c = (c', Ok tt) /\
    written c' = written c ++ [bs] /\
    (Z.of_nat (length bs) < two32 -> (0 < max -> Z.of_nat (length bs) <= max + 16) ->
     exists m', Decode cs max (mk_reader (bs ++ tail) fn, m1) = ((mk_reader tail fn, m'), Ok tt) /\
       ServicePath m' = cServicePath call /\ ServiceMethod m' = cServiceMethod call /\
       Metadata m' = norm_meta (cMetadata call) /\ Payload m' = data /\
       MessageType (hdr m') = Request /\ Seq (hdr m') = u64 n /\
       IsOneway (hdr m') = bool_decide (cReply call = None) /\
       IsHeartbeat (hdr m') = isHeartbeatCall call /\
       Header_wf (hdr m') /\ CheckMagicNumber (hdr m') = true /\ MessageStatusType (hdr m') = Normal /\
       SerializeType (hdr m') = (if isHeartbeatCall call then MsgPack else oSerializeType (option_ c) .& x0f)).
Proof.
  intros Hid Hm0 Hmeta0 Hcap Hw1 Hmeta1 Hcodec Henc Hkvs.
  destruct (send_written id n m0 kvs call codec data c Hid Hm0 Hcap Hcodec Henc) as (bs & h & E & Hs).
  destruct (send_request_header (option_ c) n call data m0 Hm0) as (Hw & Hmagic & Ht & Hseq & Hone & Hhb & Hser & Hst).
  set (req := send_request (option_ c) n call data m0) in *.
  assert (Hreq : Metadata req = cMetadata call).
  { unfold req. cbn. rewrite Hmeta0. by destruct (cMetadata call). }
  exists bs, (set_written (written c ++ [bs]) c). split; [done|]. split; [done|]. intros Hlen Hmax.
  destruct (Decode_EncodeSlicePointer cs get max kvs req m1 bs h tail fn) as (d & p & Hc & Hd); try done.
  { by rewrite Hreq. }
  eexists. split; [exact Hd|]. cbn [hdr ServicePath ServiceMethod Metadata Payload].
  destruct (compressPayload_header cs req h p Hw Hc) as [ct V].
  rewrite Hreq. split_and!; try done;
    [exact (eq_trans (f_equal f_type V) Ht)|exact (eq_trans (f_equal f_seq V) Hseq)
    |exact (eq_trans (f_equal f_oneway V) Hone)|exact (eq_trans (f_equal f_heartbeat V) Hhb)
    |by eapply compressPayload_wf| |exact (eq_trans (f_equal f_status V) Hst)
    |exact (eq_trans (f_equal f_serialize V) Hser)].
  exact (eq_trans (f_equal (fun b => bool_decide (b = magicNumber)) (f_equal f_magic V)) Hmagic).
Qed.

(** C8: the request [send] writes for a call is, for any server that decodes
    the connection, that call: its number, path, method, metadata and encoded
    arguments, marked as a request, as a heartbeat when both names are empty,
    and as one-way when the caller wants no reply. *)
Theorem send_delivers max id n m0 m1 kvs call codec data c tail fn :
  heap c !! id = Some call -> hdr m0 = newHeader -> Metadata m0 = None -> cap (Message.data m0) < 1024 ->
  Header_wf (hdr m1) -> Metadata m1 = None ->
  codecs (if isHeartbeatCall call then MsgPack else oSerializeType (option_ c)) = Some codec ->
  CodecEncode codec (cArgs call) = Ok data ->
  kvs ≡ₚ map_to_list (default ∅ (cMetadata call)) ->
  exists bs c',
    send_finish codecs cs get (fun m => m) (fun _ => None) id n m0 kvs c = (c', Ok tt) /\
    written c' = written c ++ [bs] /\
    (Z.of_nat (length bs) < two32 -> (0 < max -> Z.of_nat (length bs) <= max + 16) ->
     exists m', Decode cs max (mk_reader (bs ++ tail) fn, m1) = ((mk_reader tail fn, m'), Ok tt) /\
       ServicePath m' = cServicePath call /\ ServiceMethod m' = cServiceMethod call /\
       Metadata m' = norm_meta (cMetadata call) /\ Payload m' = data /\
       MessageType (hdr m') = Request /\ Seq (hdr m') = u64 n /\
       IsOneway (hdr m') = bool_decide (cReply call = None) /\
       IsHeartbeat (hdr m') = isHeartbeatCall call).
Proof.
  intros H1 H2 H3 H4 H5 H6 H7 H8 H9.
  destruct (send_reads max id n m0 m1 kvs call codec data c tail fn H1 H2 H3 H4 H5 H6 H7 H8 H9)
    as (bs & c' & Hs & Hwr & Hd).
  exists bs, c'. split; [done|]. split; [done|]. intros Hlen Hmax.
  destruct (Hd Hlen Hmax) as (m' & ?). exists m'. tauto.
Qed.

(** A one-way call, which no reply can complete, is not completed by
    [send] either: the request is asked whether it is one-way after it was
    freed, that is reset.  The call stays in the pending map and its Done
    channel stays silent. *)
Theorem send_oneway_pending id m0 kvs call codec data c :
  heap c !! id = Some call -> cReply call = None ->
  shutdown c = false -> closing c = false ->
  hdr m0 = newHeader -> cap (Message.data m0) < 1024 ->
  codecs (if isHeartbeatCall call then MsgPack else oSerializeType (option_ c)) = Some codec ->
  CodecEncode codec (cArgs call) = Ok data ->
  exists c' bs,
    send codecs cs get (fun m => m) (fun _ => None) id m0 kvs c = (c', Ok tt) /\
    written c' = written c ++ [bs] /\
    pending c' !! seq c = Some id /\ dones c' = dones c /\ chans c' = chans c.
Proof.
  intros Hid Hrep Hsh Hcl Hm0 Hcap Hcodec Henc. unfold send, send_register.
  rewrite Hid, Hsh, Hcl, Hcodec. cbn [orb]. set (c1 := set_pending _ _).
  destruct (send_written id (seq c) m0 kvs call codec data c1) as (bs & h & _ & ->); try done.
  eexists _, bs. split; [done|]. split_and!; try done. cbn. apply lookup_insert_eq.
Qed.
End request.

(** ** Answers *)
Section answers.
Context {A R : Type} (codecs : byte -> option (Codec A R)) (after : message -> message)
  (order : option (gmap string string) -> list (string * string)).
Implicit Types c : Client A R.

Definition meta_empty (m : message) : bool := bool_decide (default ∅ (Metadata m) = ∅).

(** What the caller finds in a call that is not raw after its answer, unless
    decoding the answer panics. *)
Definition answered (res : message) (call : Call A R) : result (Call A R) :=
  if decide (MessageStatusType (hdr res) = StatusError) then
    let call := if meta_empty res then call else
      with_Error (Some (ServiceError (meta_get ServiceErrorKey (Metadata res))))
        (with_ResMetadata (Metadata res) call) in
    match Payload res, codecs (SerializeType (hdr res)) with
    | _ :: _, Some codec => '(r, _) ← CodecDecode codec (Payload res) (cReply call); Ok (with_Reply r call)
    | _, _ => Ok call
    end
  else
    call ← match Payload res, codecs (SerializeType (hdr res)) with
      | [], _ => Ok call
      | _, None => Ok (with_Error (Some (ServiceError "unsupported codec")) call)
      | data, Some codec =>
          '(r, e) ← CodecDecode codec data (cReply call);
          let call := with_Reply r call in
          Ok (match e with None => call | Some e => with_Error (Some (ServiceError (Error e))) call end)
      end;
    Ok (if meta_empty res then call else with_ResMetadata (Metadata res) call).

Lemma answer_error_plain res call :
  MessageStatusType (hdr res) = StatusError -> cRaw call = false ->
  answer_error codecs order res call = answered res call.
Proof.
  intros Hst Hraw. unfold answer_error, answered, meta_empty. rewrite decide_True by done.
  destruct (bool_decide (default ∅ (Metadata res) = ∅)); cbn; rewrite Hraw;
    destruct (Payload res); try done; by destruct (codecs _).
Qed.

Lemma answer_normal_plain res call :
  MessageStatusType (hdr res) <> StatusError -> cRaw call = false ->
  ('(call, _) ← answer_normal codecs order res call; Ok call) = answered res call.
Proof.
  intros Hst Hraw. unfold answer_normal, answered, meta_empty. rewrite decide_False, Hraw by done.
  destruct (Payload res) as [|b p];
    [|destruct (codecs _) as [codec|]; [destruct (CodecDecode _ _ _) as [[r [e|]]| | | |]|]];
    try done; by destruct (bool_decide (default ∅ (Metadata res) = ∅)).
Qed.

Lemma answer_error_raw res call :
  cRaw call = true ->
  if meta_empty res && bool_decide (cError call = None)
  then answer_error codecs order res call = Panic
  else exists call', answer_error codecs order res call = Ok call'.
Proof.
  intros Hraw. unfold answer_error. fold (meta_empty res).
  destruct (meta_empty res); cbn; rewrite Hraw; destruct (convertRes2Raw (order (Metadata res)) res) as [m p]; [|eauto].
  destruct (cError call); cbn; eauto.
Qed.

(** What [input_message] leaves when it completes the call [id] with [call']. *)
Definition completes (res : message) (c : Client A R) (id : nat) (call' : Call A R) : Prop :=
  exists c' err,
    input_message codecs after order res c = (c', Ok err) /\
    pending c' = delete (Seq (hdr (after res))) (pending c) /\ dones c' = dones c ++ [id] /\
    heap c' = <[id := call']> (heap c).

(** C12: an answer completes exactly the call that waits under its number:
    that number leaves the pending map, the call's channel gets the call, and
    the call holds the decoded reply, or the service's error, or the codec's
    error; no other call changes.  An error answer to a raw call that carries
    no metadata dereferences a nil error, and a panic while the answer is
    decoded is one of the goroutine that reads the connection. *)
Theorem answer_completes res c id call :
  let res' := after res in
  pending c !! Seq (hdr res') = Some id -> heap c !! id = Some call ->
  isServerMessage res' = false ->
  if cRaw call then
    if bool_decide (MessageStatusType (hdr res') = StatusError) && meta_empty res' && bool_decide (cError call = None)
    then (input_message codecs after order res c).2 = Panic
    else exists call', completes res c id call'
  else
    match answered res' call with
    | Ok call' => completes res c id call'
    | r => (input_message codecs after order res c).2 = r ≫= fun _ => Ok None
    end.
Proof.
  intros res' Hp Hh Hsm. unfold completes, input_message. fold res'. rewrite Hsm. unfold take_pending.
  rewrite Hp. cbn [mbind option_bind]. cbn [heap set_pending]. rewrite Hh.
  cbn [fmap option_fmap option_map]. set (c1 := set_pending _ c).
  assert (Hdone : forall call', let c' := done_ id (set_heap (<[id := call']> (heap c1)) c1) in
    pending c' = delete (Seq (hdr res')) (pending c) /\ dones c' = dones c ++ [id] /\
    heap c' = <[id := call']> (heap c)).
  { intros call'. cbn zeta. by destruct (done_view id (set_heap (<[id := call']> (heap c1)) c1))
      as (-> & -> & -> & _). }
  destruct (decide (MessageStatusType (hdr res') = StatusError)) as [Hst|Hst].
  - rewrite (bool_decide_eq_true_2 (_ = StatusError)) by done. cbn [andb].
    destruct (cRaw call) eqn:Hraw.
    + pose proof (answer_error_raw res' call Hraw) as Ha.
      destruct (meta_empty res' && bool_decide (cError call = None)); [by rewrite Ha|].
      destruct Ha as [call' ->]. eauto.
    + rewrite answer_error_plain by done. destruct (answered res' call); cbn; eauto.
  - rewrite (bool_decide_eq_false_2 (_ = StatusError)) by done. cbn [andb].
    destruct (cRaw call) eqn:Hraw.
    + unfold answer_normal. rewrite Hraw. destruct (convertRes2Raw _ _). eauto.
    + rewrite <- answer_normal_plain by done. destruct (answer_normal codecs order res' call) as [[call' err]| | | |];
        cbn; eauto.
Qed.

(** ** The input loop comes to an end *)

Lemma done_option id (c : Client A R) : option_ (done_ id c) = option_ c.
Proof. unfold done_. by case_match. Qed.

Lemma handleServerRequest_returns msg (c : Client A R) : oBidirectionalBlock (option_ c) = false ->
  (handleServerRequest msg c).2 <> Blocked /\ option_ (handleServerRequest msg c).1 = option_ c.
Proof. intros Hb. unfold handleServerRequest. rewrite Hb. repeat case_match; done. Qed.

Context (decoders_return : forall st codec d r, codecs st = Some codec -> CodecDecode codec d r <> Blocked).

Lemma answer_error_returns res call : answer_error codecs order res call <> Blocked.
Proof.
  unfold answer_error. destruct (cRaw _); [by repeat case_match|].
  destruct (Payload res); [by repeat case_match|]. destruct (codecs _) as [codec|] eqn:E; [|by repeat case_match].
  match goal with |- context [CodecDecode codec ?d ?r] => pose proof (decoders_return _ codec d r E) as H end.
  by destruct (CodecDecode _ _ _) as [[]| | | |].
Qed.

Lemma answer_normal_returns res call : answer_normal codecs order res call <> Blocked.
Proof.
  unfold answer_normal. destruct (cRaw _); [by repeat case_match|].
  destruct (Payload res) as [|b p]; [done|]. destruct (codecs _) as [codec|] eqn:E; [|done].
  pose proof (decoders_return _ codec (b :: p) (cReply call) E) as H.
  by destruct (CodecDecode _ _ _) as [[? []]| | | |].
Qed.

Lemma input_message_returns res (c : Client A R) : oBidirectionalBlock (option_ c) = false ->
  (input_message codecs after order res c).2 <> Blocked /\
  option_ (input_message codecs after order res c).1 = option_ c.
Proof.
  intros Hb. unfold input_message. set (r := after res). destruct (isServerMessage r).
  - cbn. destruct (handleServerRequest_returns r c Hb) as [Hn Ho].
    destruct (handleServerRequest r c) as [c1 [x| | | |]]; done.
  - unfold take_pending. destruct (pending c !! Seq (hdr r) ≫= _) as [[id call]|]; [|done].
    destruct (decide (MessageStatusType (hdr r) = StatusError)).
    + destruct (answer_error codecs order r call) eqn:E; cbn; rewrite ?done_option; try done.
      by apply answer_error_returns in E.
    + destruct (answer_normal codecs order r call) as [[]| | | |] eqn:E; cbn; rewrite ?done_option; try done.
      by apply answer_normal_returns in E.
Qed.

Lemma input_end_returns addr err ids (c : Client A R) : oBidirectionalBlock (option_ c) = false ->
  (input_end addr err ids c).2 <> Blocked.
Proof.
  intros Hb. unfold input_end. destruct (ServerMessageChan c); [|done].
  destruct (handleServerRequest_returns (input_notice addr err) c Hb) as [Hn _].
  by destruct (handleServerRequest _ c) as [c1 [[]| | | |]].
Qed.

(** The goroutine [input] ends: whatever bytes the server sends, with codecs
    that return and a
    client that does not block on server messages, as many turns as there are
    bytes are enough, so the result does not depend on the fuel and is never a
    wait; what is left is the end of the connection or of the process. *)
Theorem input_ends cs f addr r (c : Client A R) :
  (forall ct z p, cs ct = Some z -> Unzip z p <> Blocked) ->
  oBidirectionalBlock (option_ c) = false -> (length (rest r) < f)%nat ->
  (input codecs cs after order f addr r c).2 <> Blocked /\
  forall f', (f <= f')%nat -> input codecs cs after order f' addr r c = input codecs cs after order f addr r c.
Proof.
  intros Hcs. revert r c. induction f as [|f IH]; intros r c Hb Hl; [lia|]. cbn [input].
  pose proof (Decode_not_blocked cs 0 (r, NewMessage) Hcs) as Hnb.
  destruct (Decode cs 0 (r, NewMessage)) as [[r' m'] dec] eqn:Hdec.
  assert (Hstep : forall f', (S f <= f')%nat -> input codecs cs after order f' addr r c =
    match dec with
    | Ok _ => match input_message codecs after order m' c with
              | (c, Ok None) => input codecs cs after order (pred f') addr r' c
              | (c, Ok (Some err)) => input_end addr err (map_to_list (pending c)).*2 c
              | (c, Blocked) => (c, Blocked)
              | (c, _) => (c, Fatal)
              end
    | Err err => input_end addr err (map_to_list (pending c)).*2 c
    | Blocked => (c, Blocked)
    | _ => (c, Fatal)
    end).
  { intros [|f'] Hf; [lia|]. cbn [input pred]. by rewrite Hdec. }
  destruct dec as [[]|e| | |]; cbn in Hnb; try done; try (split; [done|apply Hstep]).
  - apply Decode_consumes in Hdec; [|reflexivity].
    destruct (input_message_returns m' c Hb) as [Hn Ho].
    destruct (input_message codecs after order m' c) as [c1 [[e|]| | | |]] eqn:Him; cbn in Hn, Ho;
      try (split; [done|apply Hstep]); try done.
    + split; [apply input_end_returns; by rewrite Ho|apply Hstep].
    + destruct (IH r' c1) as [IH1 IH2]; [by rewrite Ho|lia|]. split; [done|].
      intros f' Hf. rewrite Hstep by done. apply IH2. lia.
  - split; [by apply input_end_returns|apply Hstep].
Qed.
End answers.

(** ** Witnesses *)
Definition byte_codec : Codec (list byte) (list byte) :=
  mk_Codec (fun a => Ok (default [] a)) (fun d r => Ok (match r with Some _ => Some d | None => None end, None)).

Definition test_codecs (st : byte) : option (Codec (list byte) (list byte)) := Some byte_codec.
Definition test_option : Option_ := mk_Option MsgPack None_ false.
Definition test_call (reply : option (list byte)) : Call (list byte) (list byte) :=
  mk_Call "Arith" "Mul" None None (Some [x2a]) reply None None 0 false.

(** A client that has made one call. *)
Definition one_call (reply : option (list byte)) : Client (list byte) (list byte) :=
  let c := NewClient test_option in
  (send_register test_codecs 0 (set_heap {[0%nat := test_call reply]}
     (set_chans {[0%nat := mk_chan 1 []]} c))).1.

Lemma Close_after_end_witness :
  exists c1 c2, input_end "srv:1" EOF [0%nat] (one_call (Some [])) = (c1, Ok tt) /\
    Close [(0, 0%nat)] None c1 = (c2, Fatal) /\ dones c2 = [] ++ [0%nat] ++ [0%nat].
Proof.
  eexists. destruct (Close_after_end "srv:1" EOF [0%nat] (one_call (Some []))
    (input_end "srv:1" EOF [0%nat] (one_call (Some []))).1 [(0, 0%nat)] None) as (c2 & H1 & H2 & _);
    [vm_compute; reflexivity|vm_compute; reflexivity|vm_compute; reflexivity|].
  exists c2. split; [vm_compute; reflexivity|]. split; [exact H1|exact H2].
Defined.

Lemma send_oneway_pending_witness :
  exists c' bs,
    send test_codecs raw_compressors dirty_get (fun m => m) (fun _ => None) 0 NewMessage []
      (set_heap {[0%nat := test_call None]} (NewClient test_option)) = (c', Ok tt) /\
    written c' = [] ++ [bs] /\ pending c' !! 0 = Some 0%nat /\ dones c' = [] /\ chans c' = ∅.
Proof.
  apply (send_oneway_pending test_codecs raw_compressors dirty_get 0 NewMessage [] (test_call None) byte_codec [x2a]
    (set_heap {[0%nat := test_call None]} (NewClient test_option))); reflexivity.
Defined.

Lemma send_delivers_witness :
  exists bs c',
    send_finish test_codecs raw_compressors dirty_get (fun m => m) (fun _ => None) 0 0 NewMessage []
      (one_call (Some [])) = (c', Ok tt) /\ written c' = [] ++ [bs] /\
    (Z.of_nat (length bs) < two32 -> (0 < 0 -> Z.of_nat (length bs) <= 0 + 16) ->
     exists m', Decode raw_compressors 0 (mk_reader (bs ++ []) EOF, NewMessage) = ((mk_reader [] EOF, m'), Ok tt) /\
       ServicePath m' = "Arith" /\ ServiceMethod m' = "Mul" /\ Metadata m' = norm_meta None /\
       Payload m' = [x2a] /\ MessageType (hdr m') = Request /\ Seq (hdr m') = u64 0 /\
       IsOneway (hdr m') = bool_decide (cReply (test_call (Some [])) = None) /\
       IsHeartbeat (hdr m') = isHeartbeatCall (test_call (Some []))).
Proof.
  apply (send_delivers test_codecs raw_compressors dirty_get 0 0 0 NewMessage NewMessage [] (test_call (Some []))
    byte_codec [x2a] (one_call (Some [])) [] EOF); reflexivity.
Defined.

(** An answer to call number 0 with payload 0x07. *)
Definition test_answer : message :=
  mk_message (SetMessageType Response newHeader) "Arith" "Mul" None [x07] (mk_slice [] 0).

Lemma answer_completes_witness :
  completes test_codecs id (fun _ => []) test_answer (one_call (Some [])) 0 (with_Reply (Some [x07]) (test_call (Some []))).
Proof.
  apply (answer_completes test_codecs id (fun _ => []) test_answer (one_call (Some [])) 0 (test_call (Some [])));
    reflexivity.
Defined.

Lemma input_ends_witness :
  (input test_codecs raw_compressors id (fun _ => []) 20 "srv:1" (mk_reader [x08; x00] EOF) (one_call (Some []))).2
    <> Blocked.
Proof.
  apply (input_ends test_codecs id (fun _ => [])
    ltac:(by intros st codec d r [= <-]) raw_compressors 20 "srv:1" (mk_reader [x08; x00] EOF) (one_call (Some []))).
  - intros ct c p. unfold raw_compressors, Compressors. repeat case_decide; by intros [= <-].
  - reflexivity.
  - cbn. lia.
Defined.
