(* ===== verification/ClientRuns.v ===== *)
(** The goroutines of a client (client/client.go, client_call.go) that run at the
    same time, and what becomes of the calls.

    A [run] is the client with where its goroutines are: the one of each call, in
    [send] or [SendRaw] and then waiting, and the one of [input].  A step is a
    section that holds the mutex, or what a goroutine does to a call after it
    took it out of the map, where nobody else finds it.  Any step may follow any
    other: a number may be in use when a call is stored under it, arguments may
    fail to encode after the call was completed, calls may be made and cancelled
    after the connection has ended. *)
From S2P Require Import Prelude Go Header Message MessageFacts UrlQuery Client ClientFacts.
Open Scope go_scope.

(** What the goroutine of a call does next, and the number it has stored: encode
    the arguments, write the request, ask whether the call is one-way, wait. *)
Inductive activity : Type := Encoding | Writing | Written | Waiting.

(** [input]: in its loop, past it with an error, at its end. *)
Inductive loop_state : Type := Reading | Stopping (err : error) | Stopped.

Section runs.
Context {A R : Type}.
Implicit Types c : Client A R.

(** The last five fields record what happened: [displaced] are the calls whose
    entry of the map was overwritten or deleted for another call, [late] those
    whose arguments failed to encode after they were completed, [atEnd] those
    that were pending when the connection ended; [registered] counts the calls
    [send] has registered, and [rawed] says whether there was a raw call. *)
Record run : Type := mk_run {
  rclient : Client A R;
  goroutines : gmap nat (activity * Z);
  rloop : loop_state;
  displaced : gset nat;
  late : gset nat;
  atEnd : gset nat;
  registered : nat;
  rawed : bool
}.

Definition start_run (o : Option_) : run := mk_run (NewClient o) ∅ Reading ∅ ∅ ∅ 0 false.

Definition on_client c s : run :=
  mk_run c (goroutines s) (rloop s) (displaced s) (late s) (atEnd s) (registered s) (rawed s).
Definition on_goroutine (id : nat) (a : activity) (n : Z) c s : run :=
  mk_run c (<[id := (a, n)]> (goroutines s)) (rloop s) (displaced s) (late s) (atEnd s) (registered s) (rawed s).
Definition on_loop (l : loop_state) c s : run :=
  mk_run c (goroutines s) l (displaced s) (late s) (atEnd s) (registered s) (rawed s).

(** The call that has the number [n]. *)
Definition owner (n : Z) c : gset nat := match pending c !! n with Some id => {[id]} | None => ∅ end.

(** The first section of [send], for the new call [id]; a refused call waits
    with the number 0, which nothing was stored in. *)
Definition after_register (id : nat) (r : Client A R * option Z) s : run :=
  match r with
  | (c, Some n) =>
      mk_run c (<[id := (Encoding, n)]> (goroutines s)) (rloop s) (displaced s ∪ owner n (rclient s)) (late s) (atEnd s)
        (S (registered s)) (rawed s)
  | (c, None) => on_goroutine id Waiting 0 c s
  end.

(** The error of [Encode]: the entry of the number is deleted, whosever it is,
    and the call is completed, whether or not it was. *)
Definition after_encode_error (id : nat) (n : Z) (e : error) s : run :=
  let c := rclient s in
  mk_run (fail_call e id (set_pending (delete n (pending c)) c)) (<[id := (Waiting, n)]> (goroutines s)) (rloop s)
    (displaced s ∪ owner n c ∖ {[id]}) (if decide (id ∈ dones c) then {[id]} ∪ late s else late s) (atEnd s)
    (registered s) (rawed s).

(** [SendRaw] stores its call under the number of its message. *)
Definition after_raw (id : nat) (call : Call A R) (n : Z) s : run :=
  let c := rclient s in
  mk_run (set_pending (<[n := id]> (pending c)) (set_heap (<[id := call]> (heap c)) c))
    (<[id := (Writing, n)]> (goroutines s)) (rloop s) (displaced s ∪ owner n c) (late s) (atEnd s) (registered s) true.

(** The entry of a one-way call that was written, completed. *)
Definition take_done (n : Z) c : Client A R :=
  match take_pending n c with (c, Some id) => done_ id c | (c, None) => c end.

Context (codecs : byte -> option (Codec A R)) (after : message -> message)
  (order : option (gmap string string) -> list (string * string)).

Inductive rstep (s : run) : run -> Prop :=
| rs_make id call : heap (rclient s) !! id = None ->
    rstep s (after_register id
      (send_register codecs id (set_heap (<[id := call]> (heap (rclient s))) (rclient s))) s)
| rs_encode_error id n e : goroutines s !! id = Some (Encoding, n) -> rstep s (after_encode_error id n e s)
| rs_encoded id n : goroutines s !! id = Some (Encoding, n) -> rstep s (on_goroutine id Writing n (rclient s) s)
| rs_write_error id n e : goroutines s !! id = Some (Writing, n) ->
    rstep s (on_goroutine id Waiting n (abandon n e (rclient s)) s)
| rs_written id n bs : goroutines s !! id = Some (Writing, n) ->
    rstep s (on_goroutine id Written n (set_written (written (rclient s) ++ [bs]) (rclient s)) s)
| rs_oneway id n : goroutines s !! id = Some (Written, n) ->
    rstep s (on_goroutine id Waiting n (take_done n (rclient s)) s)
| rs_sent id n : goroutines s !! id = Some (Written, n) -> rstep s (on_goroutine id Waiting n (rclient s) s)
| rs_cancelled id n e : goroutines s !! id = Some (Waiting, n) -> rstep s (on_client (abandon n e (rclient s)) s)
| rs_raw id call n : heap (rclient s) !! id = None -> rstep s (after_raw id call n s)
| rs_channels chs smc : rstep s (on_client (set_chans chs (set_smc smc (rclient s))) s)
| rs_message res c err : rloop s = Reading -> input_message codecs after order res (rclient s) = (c, Ok err) ->
    rstep s (on_loop (match err with Some e => Stopping e | None => Reading end) c s)
| rs_decode_error e : rloop s = Reading -> rstep s (on_loop (Stopping e) (rclient s) s)
| rs_end e addr ids c : rloop s = Stopping e -> ids ≡ₚ (map_to_list (pending (rclient s))).*2 ->
    input_end addr e ids (rclient s) = (c, Ok tt) ->
    rstep s (mk_run c (goroutines s) Stopped (displaced s) (late s) (list_to_set ids) (registered s) (rawed s))
(** Whatever [Close] returns: after [Fatal] the process has ended. *)
| rs_close ids connErr c r : ids ≡ₚ map_to_list (pending (rclient s)) -> Close ids connErr (rclient s) = (c, r) ->
    rstep s (on_client c s).

Definition runs (o : Option_) (s : run) : Prop := rtc rstep (start_run o) s.

(** ** Counting *)

(** How often a call was completed, and how many numbers it is pending under. *)
Definition times (id : nat) (l : list nat) : nat := length (filter (eq id) l).
Definition entries (id : nat) (p : gmap Z nat) : nat := times id (map_to_list p).*2.
Definition score (id : nat) c : nat := times id (dones c) + entries id (pending c).

Lemma times_app i l k : times i (l ++ k) = (times i l + times i k)%nat.
Proof. unfold times. by rewrite filter_app, length_app. Qed.

Lemma times_one i j : times i [j] = if decide (i = j) then 1%nat else 0%nat.
Proof. unfold times. rewrite filter_cons. by case_decide. Qed.

Lemma times_cons i j l : times i (j :: l) = (times i [j] + times i l)%nat.
Proof. exact (times_app i [j] l). Qed.

Lemma times_elem i l : i ∈ l <-> (0 < times i l)%nat.
Proof.
  induction l as [|j l IH]; [split; [by intros ?%elem_of_nil|cbn; lia]|].
  rewrite elem_of_cons, times_cons, times_one, IH. case_decide; lia || (split; [intros [?|?]; [done|lia]|auto with lia]).
Qed.

#[export] Instance times_perm i : Proper ((≡ₚ) ==> eq) (times i).
Proof. intros l k H. unfold times. by rewrite H. Qed.

Lemma entries_elem i p : (exists n, p !! n = Some i) <-> (0 < entries i p)%nat.
Proof.
  unfold entries. rewrite <- times_elem, list_elem_of_fmap. split.
  - intros [n Hn]. exists (n, i). split; [done|]. by apply elem_of_map_to_list.
  - intros ([n j] & -> & Hn%elem_of_map_to_list). by exists n.
Qed.

Lemma entries_delete i p n j : p !! n = Some j -> entries i p = (times i [j] + entries i (delete n p))%nat.
Proof. intros H. unfold entries. by rewrite <- (map_to_list_delete p n j H), fmap_cons, <- times_cons. Qed.

Lemma entries_insert i p n j : entries i (<[n := j]> p) = (times i [j] + entries i (delete n p))%nat.
Proof.
  rewrite <- insert_delete_eq. unfold entries. by rewrite map_to_list_insert, fmap_cons, <- times_cons by apply lookup_delete_eq.
Qed.

Lemma entries_delete_le i p n : (entries i (delete n p) <= entries i p)%nat.
Proof. destruct (p !! n) as [j|] eqn:E; [rewrite (entries_delete i p n j E); lia|by rewrite delete_id]. Qed.

(** ** Sections that complete calls they took out of the map *)
Record moved c c' : Prop := {
  mv_score : forall i, score i c' = score i c;
  mv_times : forall i, (times i (dones c) <= times i (dones c'))%nat;
  mv_pending : forall n i, pending c' !! n = Some i -> pending c !! n = Some i;
  mv_entries : forall i, (entries i (pending c') <= entries i (pending c))%nat;
  mv_heap : dom (heap c') = dom (heap c);
  mv_seq : seq c' = seq c;
  mv_shutdown : shutdown c = true -> shutdown c' = true
}.

Lemma moved_same c c' : pending c' = pending c -> dones c' = dones c -> dom (heap c') = dom (heap c) ->
  seq c' = seq c -> (shutdown c = true -> shutdown c' = true) -> moved c c'.
Proof. intros Hp Hd Hh Hs Hsh. split; unfold score; rewrite ?Hp, ?Hd; auto. Qed.

Lemma moved_trans c1 c2 c3 : moved c1 c2 -> moved c2 c3 -> moved c1 c3.
Proof.
  intros [A1 A2 A3 A4 A5 A6 A7] [B1 B2 B3 B4 B5 B6 B7]. split; auto; try congruence.
  - intros i. etrans; [apply A2|apply B2].
  - intros i. etrans; [apply B4|apply A4].
Qed.

Lemma moved_take n id c c' : pending c !! n = Some id ->
  pending c' = delete n (pending c) -> dones c' = dones c ++ [id] -> dom (heap c') = dom (heap c) ->
  seq c' = seq c -> shutdown c' = shutdown c -> moved c c'.
Proof.
  intros Hn Hp Hd Hh Hs Hsh. split; auto; try congruence.
  - intros i. unfold score. rewrite Hp, Hd, times_app, (entries_delete i (pending c) n id Hn). lia.
  - intros i. rewrite Hd, times_app. lia.
  - intros m i. rewrite Hp, lookup_delete_Some. tauto.
  - intros i. rewrite Hp. apply entries_delete_le.
Qed.

Lemma moved_fail n id e c : pending c !! n = Some id -> moved c (fail_call e id (set_pending (delete n (pending c)) c)).
Proof.
  intros Hn. destruct (fail_call_view e id (set_pending (delete n (pending c)) c)) as (Vp & Vh & Vd & Vs & _ & Vsh & _).
  by apply (moved_take n id).
Qed.

Lemma moved_abandon n e c : moved c (abandon n e c).
Proof.
  unfold abandon, take_pending. destruct (pending c !! n) as [id|] eqn:E; [by apply moved_fail|].
  apply moved_same; try done. cbn. by apply delete_id.
Qed.

Lemma moved_done n id c : pending c !! n = Some id -> moved c (done_ id (set_pending (delete n (pending c)) c)).
Proof.
  intros Hn. destruct (done_view id (set_pending (delete n (pending c)) c)) as (Vp & Vh & Vd & Vs & _ & Vsh & _).
  apply (moved_take n id); try done. by rewrite Vh.
Qed.

Lemma moved_take_done n c : moved c (take_done n c).
Proof.
  unfold take_done, take_pending. destruct (pending c !! n) as [id|] eqn:E; [by apply moved_done|].
  apply moved_same; try done. cbn. by apply delete_id.
Qed.

Lemma moved_smc msg c : moved c (handleServerRequest msg c).1.
Proof. unfold handleServerRequest. repeat case_match; by apply moved_same. Qed.

(** An answer: the call it completes keeps its address. *)
Lemma moved_answer n id call c : pending c !! n = Some id -> is_Some (heap c !! id) ->
  moved c (done_ id (set_heap (<[id := call]> (heap c)) (set_pending (delete n (pending c)) c))).
Proof.
  intros Hn Hid. set (c1 := set_heap _ _). destruct (done_view id c1) as (Vp & Vh & Vd & Vs & _ & Vsh & _).
  apply (moved_take n id); try done. rewrite Vh. cbn. rewrite dom_insert_L. apply elem_of_dom in Hid. set_solver.
Qed.

Lemma moved_message res c c' err :
  (forall n id, pending c !! n = Some id -> is_Some (heap c !! id)) ->
  input_message codecs after order res c = (c', Ok err) -> moved c c'.
Proof.
  intros Hheap. unfold input_message. set (r := after res). destruct (isServerMessage r).
  - cbn. pose proof (moved_smc r c) as Hm. destruct (handleServerRequest r c) as [c1 [x| | | |]]; try done. by intros [= <- <-].
  - unfold take_pending. destruct (pending c !! Seq (hdr r)) as [id|] eqn:E; cbn.
    + destruct (Hheap _ _ E) as [call Hid]. rewrite Hid. cbn. assert (Hs : is_Some (heap c !! id)) by eauto.
      destruct (decide _).
      * destruct (answer_error codecs order r call) as [call'| | | |]; try done. intros [= <- <-]. by apply moved_answer.
      * destruct (answer_normal codecs order r call) as [[call' e]| | | |]; try done. intros [= <- <-]. by apply moved_answer.
    + intros [= <- <-]. apply moved_same; try done. cbn. by apply delete_id.
Qed.

(** The loop of [Close] empties the map. *)
Lemma moved_closing ids c : NoDup ids.*1 -> (forall n id, (n, id) ∈ ids -> pending c !! n = Some id) ->
  let c' := fold_left (fun c '(n, id) => fail_call ErrShutdown id (set_pending (delete n (pending c)) c)) ids c in
  moved c c' /\ closing c' = closing c /\ shutdown c' = shutdown c /\ pluginClosed c' = pluginClosed c /\
  (forall n, n ∈ ids.*1 -> pending c' !! n = None).
Proof.
  revert c. induction ids as [|[n id] ids IH]; intros c Hnd Hin; cbn [fold_left fmap list_fmap] in *.
  - split_and!; [by apply moved_same|done..|]. intros n Hn. by apply elem_of_nil in Hn.
  - apply NoDup_cons in Hnd as [Hn Hnd].
    assert (Hm : moved c (fail_call ErrShutdown id (set_pending (delete n (pending c)) c)))
      by (apply moved_fail, Hin; left).
    pose proof (fail_call_view ErrShutdown id (set_pending (delete n (pending c)) c)) as
      (Vp & _ & _ & _ & Vc & Vs & Vpl). cbn in Vp, Vc, Vs, Vpl.
    set (c1 := fail_call ErrShutdown id _) in *.
    destruct (IH c1) as (H1 & H2 & H3 & H4 & H5); [done| |].
    + intros n' id' Hin'. rewrite Vp, lookup_delete_ne; [apply Hin; by right|].
      intros ->. apply Hn. apply list_elem_of_fmap. by exists (n', id').
    + cbn zeta. split_and!; [by eapply moved_trans|congruence..|].
      intros n'. rewrite elem_of_cons. intros [->|Hn']; [|by apply H5].
      apply eq_None_not_Some. intros [i E]. apply (mv_pending _ _ H1) in E. by rewrite Vp, lookup_delete_eq in E.
Qed.

Lemma moved_Close ids connErr c : ids ≡ₚ map_to_list (pending c) ->
  moved c (Close ids connErr c).1 /\ pending (Close ids connErr c).1 = ∅.
Proof.
  intros Hids. destruct (moved_closing ids c) as (Hm & _ & _ & _ & He).
  - rewrite Hids. apply NoDup_fst_map_to_list.
  - intros n id Hin. rewrite Hids in Hin. by apply elem_of_map_to_list in Hin.
  - unfold Close. set (c1 := fold_left _ ids c) in *. clearbody c1.
    assert (Hp : pending c1 = ∅).
    { apply map_eq. intros n. rewrite lookup_empty. destruct (pending c1 !! n) as [i|] eqn:E; [|done].
      rewrite He in E; [done|]. apply (mv_pending _ _ Hm) in E. apply list_elem_of_fmap. exists (n, i).
      split; [done|]. rewrite Hids. by apply elem_of_map_to_list. }
    destruct (pluginClosed c1); cbn; destruct (closing c1 || shutdown c1); cbn; (split; [|done]);
      (eapply moved_trans; [exact Hm|by apply moved_same]).
Qed.

(** ** Invariant *)
Definition once (P : Prop) `{Decision P} : nat := if decide P then 1%nat else 0%nat.

Record accounted s : Prop := {
  ac_fresh : forall i, i ∉ dom (heap (rclient s)) -> score i (rclient s) = 0%nat /\ goroutines s !! i = None /\ i ∉ late s;
  ac_entries : forall i, (entries i (pending (rclient s)) <= 1)%nat;
  ac_score : forall i, (score i (rclient s) <= 1 + once (i ∈ late s) + once (i ∈ atEnd s))%nat;
  ac_all : forall i, i ∈ dom (heap (rclient s)) -> (0 < score i (rclient s))%nat \/ i ∈ displaced s;
  ac_late : forall i n, goroutines s !! i = Some (Encoding, n) ->
    i ∉ late s /\ (forall m, pending (rclient s) !! m = Some i -> m = n);
  ac_end : forall i, i ∈ atEnd s -> (0 < times i (dones (rclient s)))%nat;
  ac_loop : rloop s <> Stopped -> atEnd s = ∅;
  ac_stopped : rloop s = Stopped -> shutdown (rclient s) = true;
  (** The numbers of [send], as long as nobody else chooses any. *)
  ac_numbers : rawed s = false -> Z.of_nat (registered s) <= two64 ->
    displaced s = ∅ /\ seq (rclient s) = u64 (Z.of_nat (registered s)) /\
    (forall n i, pending (rclient s) !! n = Some i -> 0 <= n < Z.of_nat (registered s)) /\
    (forall i n, goroutines s !! i = Some (Encoding, n) -> 0 <= n < Z.of_nat (registered s) /\
       forall j, pending (rclient s) !! n = Some j -> j = i)
}.

Lemma accounted_start o : accounted (start_run o).
Proof.
  split; cbn; try done; set_solver.
Qed.

(** Steps that move calls, and change nothing else than where goroutines are. *)
Lemma accounted_moved s c gs l : accounted s -> moved (rclient s) c ->
  (forall i a n, gs !! i = Some (a, n) -> exists a', goroutines s !! i = Some (a', n) /\ (a = Encoding -> a' = Encoding)) ->
  (l = Stopped <-> rloop s = Stopped) ->
  accounted (mk_run c gs l (displaced s) (late s) (atEnd s) (registered s) (rawed s)).
Proof.
  intros [H1 H2 H3 H4 H5 H6 H7 H8 H9] [M1 M2 M3 M4 M5 M6 M7] Hgs Hl. split; cbn.
  - intros i Hi. rewrite M5 in Hi. destruct (H1 i Hi) as (? & Hg & ?). rewrite M1. split_and!; [done| |done].
    destruct (gs !! i) as [[a n]|] eqn:E; [|done]. apply Hgs in E as (a' & E & _). congruence.
  - intros i. etrans; [apply M4|done].
  - intros i. by rewrite M1.
  - intros i. rewrite M5, M1. apply H4.
  - intros i n E. apply Hgs in E as (a' & E & Ha). rewrite Ha in E by done. destruct (H5 i n E) as [? Hm].
    split; [done|]. intros m Hm'. by apply Hm, M3.
  - intros i Hi. specialize (H6 i Hi). specialize (M2 i). lia.
  - intros Hn. apply H7. by rewrite <- Hl.
  - intros ->. apply M7, H8. by apply Hl.
  - intros Hr Hn. destruct (H9 Hr Hn) as (? & ? & Hp & He). split_and!; [done|congruence| |].
    + intros n i E. by eapply Hp, M3.
    + intros i n E. apply Hgs in E as (a' & E & Ha). rewrite Ha in E by done. destruct (He i n E) as [? Hj].
      split; [done|]. intros j E'. by eapply Hj, M3.
Qed.

(** The goroutine of a call goes on. *)
Lemma accounted_goroutine s id a a' n c : accounted s -> goroutines s !! id = Some (a, n) -> a' <> Encoding ->
  moved (rclient s) c -> accounted (on_goroutine id a' n c s).
Proof.
  intros H Hid Ha Hm. apply accounted_moved; [done|done| |done]. intros i b m.
  rewrite lookup_insert_Some. intros [[<- [= <- <-]]|[_ E]]; [by exists a|by exists b].
Qed.

Lemma accounted_client s c : accounted s -> moved (rclient s) c -> accounted (on_client c s).
Proof. intros H Hm. apply accounted_moved; [done|done|by eauto|done]. Qed.

Lemma once_le P `{Decision P} : (once P <= 1)%nat.
Proof. unfold once. case_decide; lia. Qed.

Lemma once_false P `{Decision P} : ~ P -> once P = 0%nat.
Proof. intros. unfold once. by rewrite decide_False. Qed.

Lemma once_mono P Q `{Decision P, Decision Q} : (P -> Q) -> (once P <= once Q)%nat.
Proof. intros. unfold once. repeat case_decide; tauto || lia. Qed.

Lemma once_true P `{Decision P} : P -> once P = 1%nat.
Proof. intros. unfold once. by rewrite decide_True. Qed.

(** Deleting an entry takes its owner's away. *)
Lemma entries_owner c n i :
  entries i (pending c) = (entries i (delete n (pending c)) + once (i ∈ owner n c))%nat.
Proof.
  unfold owner. destruct (pending c !! n) as [j|] eqn:E.
  - rewrite (entries_delete i _ n j E), times_one. unfold once. rewrite (decide_ext (i = j) (i ∈ ({[j]} : gset nat)) 1%nat 0%nat); [lia|].
    by rewrite elem_of_singleton.
  - rewrite delete_id by done. unfold once. rewrite decide_False by set_solver. lia.
Qed.

(** A new call under the number [n]. *)
Lemma placed_entries c n id i : entries id (pending c) = 0%nat ->
  entries id (<[n := id]> (pending c)) = 1%nat /\
  (i <> id -> (entries i (<[n := id]> (pending c)) <= entries i (pending c))%nat /\
     (entries i (pending c) <= entries i (<[n := id]> (pending c)) + once (i ∈ owner n c))%nat).
Proof.
  intros Hid. pose proof (entries_delete_le id (pending c) n). rewrite !entries_insert, !times_one, decide_True by done.
  split; [lia|]. intros Hne. rewrite decide_False by done. split; [apply entries_delete_le|].
  unfold owner. destruct (pending c !! n) as [j|] eqn:E.
  - rewrite (entries_delete i _ _ _ E), times_one. unfold once. repeat case_decide; set_solver || lia.
  - rewrite delete_id by done. lia.
Qed.

Lemma accounted_placed s c id n a raw : accounted s -> heap (rclient s) !! id = None ->
  (rawed s = true -> raw = true) -> (raw = false -> a = Encoding /\ n = seq (rclient s) /\ seq c = u64 (n + 1)) ->
  pending c = <[n := id]> (pending (rclient s)) -> dones c = dones (rclient s) ->
  dom (heap c) = {[id]} ∪ dom (heap (rclient s)) -> shutdown c = shutdown (rclient s) ->
  forall k, (raw = false -> k = S (registered s)) ->
  accounted (mk_run c (<[id := (a, n)]> (goroutines s)) (rloop s) (displaced s ∪ owner n (rclient s)) (late s) (atEnd s) k raw).
Proof.
  intros [H1 H2 H3 H4 H5 H6 H7 H8 H9] Hid Hraw Hsend Hp Hd Hh Hsh k Hk.
  apply not_elem_of_dom in Hid. destruct (H1 id Hid) as (Hs0 & Hg0 & Hl0). unfold score in Hs0.
  assert (Hpl : forall i, entries id (pending c) = 1%nat /\ (i <> id ->
    (entries i (pending c) <= entries i (pending (rclient s)))%nat /\
    (entries i (pending (rclient s)) <= entries i (pending c) + once (i ∈ owner n (rclient s)))%nat)).
  { intros i. rewrite Hp. apply placed_entries. lia. }
  split; cbn; unfold score in *; rewrite ?Hd, ?Hh, ?Hsh; auto.
  - intros i [Hi Hi']%not_elem_of_union. rewrite not_elem_of_singleton in Hi. destruct (H1 i Hi') as (? & ? & ?).
    destruct (Hpl i) as [_ []]; [done|]. split_and!; [lia|by rewrite lookup_insert_ne|done].
  - intros i. destruct (decide (i = id)) as [->|Hne]; [by destruct (Hpl id) as [-> _]|].
    destruct (Hpl i) as [_ [? _]]; [done|]. specialize (H2 i). lia.
  - intros i. destruct (decide (i = id)) as [->|Hne]; [destruct (Hpl id) as [-> _]; lia|].
    destruct (Hpl i) as [_ [? _]]; [done|]. specialize (H3 i). lia.
  - intros i Hi. destruct (decide (i = id)) as [->|Hne]; [left; destruct (Hpl id) as [-> _]; lia|].
    destruct (Hpl i) as [_ [_ Hge]]; [done|]. destruct (H4 i) as [?|?]; [set_solver| |set_solver].
    destruct (decide (i ∈ owner n (rclient s))) as [|Hno]; [set_solver|]. unfold once in Hge. rewrite decide_False in Hge by done.
    left. lia.
  - intros i m. rewrite lookup_insert_Some. intros [[<- [= _ <-]]|[Hne E]].
    + split; [done|]. intros m'. rewrite Hp, lookup_insert_Some. intros [[<- _]|[_ E]]; [done|].
      assert (0 < entries id (pending (rclient s)))%nat by (apply entries_elem; by exists m'). lia.
    + destruct (H5 i m E) as [? Hm]. split; [done|]. intros m'. rewrite Hp, lookup_insert_Some.
      intros [[_ E']|[_ E']]; [congruence|exact (Hm m' E')].
  - intros -> Hn. rewrite (Hk eq_refl) in *. destruct (rawed s) eqn:Er; [by specialize (Hraw eq_refl)|].
    destruct (Hsend eq_refl) as (-> & -> & Hsq). destruct (H9 eq_refl ltac:(lia)) as (Hdis & Hseq & Hpend & Henc).
    assert (Hsmall : seq (rclient s) = Z.of_nat (registered s)) by (rewrite Hseq; apply u64_small; lia).
    assert (Hfree : pending (rclient s) !! seq (rclient s) = None).
    { apply eq_None_not_Some. intros [i Hi]. apply Hpend in Hi. lia. }
    split_and!.
    + unfold owner. rewrite Hfree, Hdis. set_solver.
    + rewrite Hsq, Hsmall. f_equal. lia.
    + intros m i. rewrite Hp, lookup_insert_Some. intros [[<- _]|[_ E]]; [lia|]. apply Hpend in E. lia.
    + intros i m. rewrite lookup_insert_Some, Hp. intros [[<- [= <-]]|[Hne E]].
      * split; [lia|]. intros j. rewrite lookup_insert_eq. by intros [= <-].
      * destruct (Henc i m E) as [? Hj]. split; [lia|]. intros j. rewrite lookup_insert_ne by lia. apply Hj.
Qed.

(** A new call that [send] refuses. *)
Lemma accounted_refused s c id : accounted s -> heap (rclient s) !! id = None ->
  pending c = pending (rclient s) -> dones c = dones (rclient s) ++ [id] -> seq c = seq (rclient s) ->
  dom (heap c) = {[id]} ∪ dom (heap (rclient s)) -> shutdown c = shutdown (rclient s) ->
  accounted (on_goroutine id Waiting 0 c s).
Proof.
  intros [H1 H2 H3 H4 H5 H6 H7 H8 H9] Hid Hp Hd Hq Hh Hsh.
  apply not_elem_of_dom in Hid. destruct (H1 id Hid) as (Hs0 & Hg0 & Hl0).
  split; cbn; unfold score in *; rewrite ?Hp, ?Hd, ?Hh, ?Hsh, ?Hq; auto.
  - intros i [Hi Hi']%not_elem_of_union. rewrite not_elem_of_singleton in Hi. destruct (H1 i Hi') as (? & ? & ?).
    rewrite times_app, times_one, decide_False by done. split_and!; [lia|by rewrite lookup_insert_ne|done].
  - intros i. rewrite times_app, times_one. case_decide as E; [subst; lia|]. specialize (H3 i). lia.
  - intros i Hi. rewrite times_app, times_one. destruct (decide (i = id)) as [|Hne]; [left; lia|].
    destruct (H4 i) as [?|?]; [set_solver|left; lia|by right].
  - intros i m. rewrite lookup_insert_Some. intros [[<- [=]]|[_ E]]. by eapply H5.
  - intros i Hi. rewrite times_app. specialize (H6 i Hi). lia.
  - intros Hr Hn. destruct (H9 Hr Hn) as (? & ? & ? & He). split_and!; [done..|].
    intros i m. rewrite lookup_insert_Some. intros [[<- [=]]|[_ E]]. by apply He.
Qed.

Lemma accounted_make s id call : accounted s -> heap (rclient s) !! id = None ->
  accounted (after_register id (send_register codecs id (set_heap (<[id := call]> (heap (rclient s))) (rclient s))) s).
Proof.
  intros H Hid. unfold send_register. cbn [heap set_heap shutdown closing option_]. rewrite lookup_insert_eq.
  set (c1 := set_heap _ (rclient s)).
  assert (Hrefuse : forall e, accounted (on_goroutine id Waiting 0 (fail_call e id c1) s)).
  { intros e. destruct (fail_call_view e id c1) as (Vp & Vh & Vd & Vs & _ & Vsh & _).
    apply accounted_refused; try done. rewrite Vh. cbn. apply dom_insert_L. }
  case_match; [apply Hrefuse|]. case_match; [|apply Hrefuse].
  apply accounted_placed; try done. cbn. apply dom_insert_L.
Qed.

Lemma accounted_raw s id call n : accounted s -> heap (rclient s) !! id = None -> accounted (after_raw id call n s).
Proof. intros H Hid. apply accounted_placed; try done. cbn. apply dom_insert_L. Qed.

(** The error of [Encode] completes its call in any case. *)
Lemma accounted_encode_error s id n e : accounted s -> goroutines s !! id = Some (Encoding, n) ->
  accounted (after_encode_error id n e s).
Proof.
  intros [H1 H2 H3 H4 H5 H6 H7 H8 H9] Hg. unfold score in *.
  assert (Hid : id ∈ dom (heap (rclient s))).
  { destruct (decide (id ∈ dom (heap (rclient s)))) as [|Hn]; [done|]. destruct (H1 id Hn) as (_ & ? & _). congruence. }
  destruct (fail_call_view e id (set_pending (delete n (pending (rclient s))) (rclient s))) as (Vp & Vh & Vd & Vs & _ & Vsh & _).
  unfold after_encode_error. set (c := fail_call e id _) in *. set (p := pending (rclient s)) in *.
  cbn in Vp, Vh, Vd, Vs, Vsh. fold p in Vp.
  assert (Hp : forall i, (entries i (delete n p) <= entries i p)%nat /\
    (entries i p <= entries i (delete n p) + once (i ∈ owner n (rclient s)))%nat).
  { intros i. unfold p. rewrite (entries_owner (rclient s) n i). lia. }
  assert (Hd : forall i, times i (dones c) = (times i (dones (rclient s)) + once (i = id))%nat).
  { intros i. by rewrite Vd, times_app, times_one. }
  set (late' := if decide (id ∈ dones (rclient s)) then {[id]} ∪ late s else late s).
  assert (Hl : forall i, i ∈ late s -> i ∈ late').
  { intros i Hi. unfold late'. case_decide; [apply elem_of_union; by right|done]. }
  assert (Hl' : forall i, i <> id -> i ∉ late s -> i ∉ late').
  { intros i Hi Hn. unfold late'. case_decide; [|done]. rewrite elem_of_union, elem_of_singleton. tauto. }
  split; cbn; unfold score; fold late'; rewrite ?Vp, ?Vh, ?Vsh, ?Vs; auto.
  - intros i Hi. destruct (H1 i Hi) as (? & ? & ?). assert (i <> id) by (by intros ->). destruct (Hp i) as [? _].
    rewrite Hd. unfold once. rewrite decide_False by done. split_and!; [lia|by rewrite lookup_insert_ne|by apply Hl'].
  - intros i. etrans; [apply Hp|done].
  - intros i. rewrite Hd. specialize (H3 i). destruct (Hp i) as [Hle _]. destruct (decide (i = id)) as [->|Hne].
    + destruct (H5 id n Hg) as [Hnl Hn]. rewrite (once_true (id = id)), (once_false (id ∈ late s)) in * by done.
      destruct (decide (id ∈ dones (rclient s))) as [Hdn|Hdn].
      * rewrite (once_true (id ∈ late')); [lia|]. unfold late'.
        apply elem_of_union. left. by apply elem_of_singleton.
      * rewrite times_elem in Hdn. assert (E0 : ~ (0 < entries id (delete n p))%nat); [|lia].
        rewrite <- entries_elem. intros [m [Hm Hpm]%lookup_delete_Some]. by apply Hm, eq_sym, Hn.
    + pose proof (once_mono (i ∈ late s) (i ∈ late') (Hl i)).
      rewrite (once_false (i = id)) by done. lia.
  - intros i Hi. rewrite Hd. destruct (decide (i = id)) as [->|Hne]; [left; rewrite once_true by done; lia|].
    destruct (H4 i) as [?|?]; [set_solver| |set_solver]. destruct (Hp i) as [_ Hge].
    destruct (decide (i ∈ owner n (rclient s))) as [|Hno]; [set_solver|]. unfold once in Hge at 1.
    rewrite decide_False in Hge by done. left. lia.
  - intros i m. rewrite lookup_insert_Some. intros [[_ [=]]|[Hne E]]. destruct (H5 i m E) as [? Hm]. split.
    + by apply Hl'.
    + intros m' [_ E']%lookup_delete_Some. by apply Hm.
  - intros i Hi. rewrite Hd. specialize (H6 i Hi). lia.
  - intros Hr Hn. destruct (H9 Hr Hn) as (Hdis & ? & Hpend & Henc). split_and!; [|done| |].
    + destruct (Henc id n Hg) as [_ Hj]. unfold owner. fold p. destruct (p !! n) as [j|] eqn:E; [|set_solver].
      rewrite (Hj j eq_refl). set_solver.
    + intros m i [_ E]%lookup_delete_Some. by eapply Hpend.
    + intros i m. rewrite lookup_insert_Some. intros [[_ [=]]|[_ E]]. destruct (Henc i m E) as [? Hj]. split; [done|].
      intros j [_ E']%lookup_delete_Some. by apply Hj.
Qed.

(** The end of the connection completes what is pending, and leaves it there. *)
Lemma accounted_end s e addr ids c : accounted s -> rloop s = Stopping e ->
  ids ≡ₚ (map_to_list (pending (rclient s))).*2 -> input_end addr e ids (rclient s) = (c, Ok tt) ->
  accounted (mk_run c (goroutines s) Stopped (displaced s) (late s) (list_to_set ids) (registered s) (rawed s)).
Proof.
  intros [H1 H2 H3 H4 H5 H6 H7 H8 H9] Hl Hids He.
  assert (Hend : atEnd s = ∅) by (apply H7; by rewrite Hl).
  apply input_end_view in He as (Vd & Vh & Vp & Vs & _ & _ & Vsq).
  assert (Hd : forall i, times i (dones c) = (times i (dones (rclient s)) + entries i (pending (rclient s)))%nat).
  { intros i. rewrite Vd, times_app. by rewrite Hids. }
  assert (Hin : forall i, i ∈ (list_to_set ids : gset nat) <-> (0 < entries i (pending (rclient s)))%nat).
  { intros i. rewrite elem_of_list_to_set, Hids. apply times_elem. }
  unfold score in *. split; cbn; unfold score; rewrite ?Vp, ?Vh, ?Hd; auto.
  - intros i Hi. destruct (H1 i Hi) as (? & ? & ?). rewrite Hd. split_and!; [lia|done..].
  - intros i. rewrite Hd. specialize (H2 i). specialize (H3 i). rewrite (once_false (i ∈ atEnd s)) in H3 by (rewrite Hend; set_solver).
    destruct (decide (i ∈ (list_to_set ids : gset nat))) as [Hi|Hi].
    + rewrite (once_true (i ∈ list_to_set ids)) by done. lia.
    + rewrite Hin in Hi. lia.
  - intros i Hi. rewrite Hd. destruct (H4 i Hi); [left; lia|by right].
  - intros i Hi%Hin. rewrite Hd. lia.
  - done.
  - intros Hr Hn. destruct (H9 Hr Hn) as (? & ? & ? & ?). rewrite Vsq. by split_and!.
Qed.

Lemma pending_made s n i : accounted s -> pending (rclient s) !! n = Some i -> is_Some (heap (rclient s) !! i).
Proof.
  intros H Hp. apply elem_of_dom. destruct (decide (i ∈ dom (heap (rclient s)))) as [|Hn]; [done|].
  destruct (ac_fresh _ H i Hn) as [Hs _].
  assert (0 < entries i (pending (rclient s)))%nat by (apply entries_elem; by exists n). unfold score in Hs. lia.
Qed.

Lemma rstep_accounted s s' : rstep s s' -> accounted s -> accounted s'.
Proof.
  intros Hst H. destruct Hst as [id call Hid|id n e Hg|id n Hg|id n e Hg|id n bs Hg|id n Hg|id n Hg|id n e Hg|id call n Hid
    |chs smc|res c err Hl Hm|e Hl|e addr ids c Hl Hids He|ids ce c r Hids Hc].
  - by apply accounted_make.
  - by apply accounted_encode_error.
  - by eapply accounted_goroutine; [..|apply moved_same].
  - by eapply accounted_goroutine; [..|apply moved_abandon].
  - by eapply accounted_goroutine; [..|apply moved_same].
  - by eapply accounted_goroutine; [..|apply moved_take_done].
  - by eapply accounted_goroutine; [..|apply moved_same].
  - by apply accounted_client, moved_abandon.
  - by apply accounted_raw.
  - by apply accounted_client, moved_same.
  - apply accounted_moved; [done| |by eauto|rewrite Hl; by destruct err].
    eapply moved_message; [|exact Hm]. intros n i. by apply pending_made.
  - apply accounted_moved; [done|by apply moved_same|by eauto|by rewrite Hl].
  - by eapply accounted_end.
  - apply accounted_client; [done|]. pose proof (moved_Close ids ce (rclient s) Hids) as [Hm _]. by rewrite Hc in Hm.
Qed.

Lemma runs_accounted o s : runs o s -> accounted s.
Proof.
  unfold runs. intros Hr. pose proof (accounted_start o) as H0. induction Hr; eauto using rstep_accounted.
Qed.

(** ** The methods of Client.v as steps *)
Lemma goroutine_twice id a n a' n' c c' s :
  on_goroutine id a n c (on_goroutine id a' n' c' s) = on_goroutine id a n c s.
Proof. unfold on_goroutine. cbn. by rewrite insert_insert_eq. Qed.

(** [send_finish] and [SendRaw_start] after the call is stored. *)
Lemma write_runs cs get plug write id n req kvs s c r :
  goroutines s !! id = Some (Writing, n) ->
  match EncodeSlicePointer cs get kvs req with
  | Ok (allData, h) =>
      match write allData with
      | Some err => (abandon n err (rclient s), Ok (@None error))
      | None =>
          let c := set_written (written (rclient s) ++ [allData]) (rclient s) in
          if IsOneway (hdr (plug h)) then (take_done n c, Ok None) else (c, Ok None)
      end
  | Err e => (rclient s, Err e) | Panic => (rclient s, Panic) | Fatal => (rclient s, Fatal) | Blocked => (rclient s, Blocked)
  end = (c, Ok r) ->
  rtc rstep s (on_goroutine id Waiting n c s).
Proof.
  intros Hg. destruct (EncodeSlicePointer cs get kvs req) as [[bs h]|e| | |]; try done.
  destruct (write bs) as [e|].
  - intros [= <- <-]. apply rtc_once. by apply rs_write_error.
  - set (c1 := set_written _ _). pose proof (rs_written s id n bs Hg) as H1. fold c1 in H1.
    assert (Hg1 : goroutines (on_goroutine id Written n c1 s) !! id = Some (Written, n)) by apply lookup_insert_eq.
    pose proof (rs_oneway _ id n Hg1) as H2. pose proof (rs_sent _ id n Hg1) as H3. rewrite goroutine_twice in H2, H3.
    destruct (IsOneway _); intros [= <- <-]; (eapply rtc_l; [exact H1|]); by apply rtc_once.
Qed.

Lemma send_finish_runs cs get plug write id n m0 kvs call s c :
  heap (rclient s) !! id = Some call -> goroutines s !! id = Some (Encoding, n) ->
  send_finish codecs cs get plug write id n m0 kvs (rclient s) = (c, Ok tt) ->
  exists s', rtc rstep s s' /\ rclient s' = c.
Proof.
  intros Hid Hg. unfold send_finish. rewrite Hid.
  destruct (codecs _) as [codec|]; [|done].
  destruct (CodecEncode codec (cArgs call)) as [data|e| | |]; try done.
  - set (req := plug _). intros E. set (s1 := on_goroutine id Writing n (rclient s) s).
    assert (H1 : rstep s s1) by by apply rs_encoded.
    assert (Hg1 : goroutines s1 !! id = Some (Writing, n)) by apply lookup_insert_eq.
    eexists. split; [eapply rtc_l; [exact H1|]|].
    + refine (write_runs cs get (fun h => (FreeMsg (set_hdr h req) []).1) write id n req kvs s1 c None Hg1 _).
      change (rclient s1) with (rclient s).
      destruct (EncodeSlicePointer cs get kvs req) as [[bs h]|e| | |]; try done.
      destruct (write bs); [by injection E as <-|]. destruct (FreeMsg (set_hdr h req) []) as [req' ?]. cbn [fst].
      cbv zeta in E |- *. unfold take_done. destruct (IsOneway (hdr req')); [|by injection E as <-].
      destruct (take_pending n _) as [c2 [id'|]]; by injection E as <-.
    + done.
  - intros [= <-]. eexists. split; [apply rtc_once; by apply (rs_encode_error s id n e)|done].
Qed.

Lemma Go_runs cs get plug write id ch sp sm meta args reply done m0 kvs s c :
  heap (rclient s) !! id = None ->
  Go codecs cs get plug write id ch sp sm meta args reply done m0 kvs (rclient s) = (c, Ok id) ->
  exists s', rtc rstep s s' /\ rclient s' = c.
Proof.
  intros Hid. unfold Go.
  set (c0 := match done with Some _ => rclient s | None => set_chans (<[ch := mk_chan 10 []]> (chans (rclient s))) (rclient s) end).
  assert (H0 : rtc rstep s (on_client c0 s)).
  { unfold c0. destruct done; [by destruct s|]. apply rtc_once.
    pose proof (rs_channels s (<[ch := mk_chan 10 []]> (chans (rclient s))) (ServerMessageChan (rclient s))) as H.
    by destruct s as [[]]. }
  assert (Hid0 : heap c0 !! id = None) by (unfold c0; by destruct done).
  replace (match done with Some d => (rclient s, d) | None => (set_chans (<[ch := mk_chan 10 []]> (chans (rclient s))) (rclient s), ch) end)
    with (c0, default ch done) by (unfold c0; by destruct done).
  destruct (chans c0 !! default ch done) as [chn|]; [|done]. case_decide; [done|].
  set (call := mk_Call sp sm meta None args reply None None (default ch done) false).
  set (s0 := on_client c0 s). pose proof (rs_make s0 id call Hid0) as H1. change (rclient s0) with c0 in H1.
  unfold send. set (c1 := set_heap (<[id := call]> (heap c0)) c0) in *.
  destruct (send_register codecs id c1) as [c2 [n|]] eqn:Er; cbn [after_register] in H1.
  - destruct (send_finish codecs cs get plug write id n m0 kvs c2) as [c3 [[]| | | |]] eqn:Ef; try done. intros [= <-].
    set (s2 := mk_run c2 _ _ _ _ _ _ _) in H1.
    destruct (send_finish_runs cs get plug write id n m0 kvs call s2 c3) as (s3 & H3 & E3).
    + unfold send_register in Er. cbn [c1 heap set_heap] in Er. rewrite lookup_insert_eq in Er.
      case_match; [done|]. case_match; [|done]. injection Er as <- _. cbn. by rewrite lookup_insert_eq.
    + apply lookup_insert_eq.
    + exact Ef.
    + exists s3. split; [|done]. etrans; [exact H0|]. eapply rtc_l; [exact H1|exact H3].
  - intros [= <-]. eexists. split; [etrans; [exact H0|by apply rtc_once]|done].
Qed.

Lemma SendRaw_start_runs cs get write id ch meta r kvs s c err :
  heap (rclient s) !! id = None ->
  SendRaw_start cs get write id ch meta r kvs (rclient s) = (c, Ok err) ->
  exists s', rtc rstep s s' /\ rclient s' = c.
Proof.
  intros Hid. unfold SendRaw_start. set (call := mk_Call _ _ _ _ _ _ _ _ _ _). set (r' := set_Metadata _ r).
  set (c0 := set_chans _ (rclient s)). set (n := Seq (hdr r')).
  assert (H0 : rstep s (on_client c0 s)).
  { pose proof (rs_channels s (<[ch := mk_chan 10 []]> (chans (rclient s))) (ServerMessageChan (rclient s))) as H.
    by destruct s as [[]]. }
  pose proof (rs_raw (on_client c0 s) id call n Hid) as H1. set (s1 := after_raw id call n (on_client c0 s)) in *.
  assert (Hg1 : goroutines s1 !! id = Some (Writing, n)) by apply lookup_insert_eq.
  change (set_pending _ _) with (rclient s1). intros E.
  assert (Hw : exists e, match EncodeSlicePointer cs get kvs r' with
    | Ok (allData, h) =>
        match write allData with
        | Some err => (abandon n err (rclient s1), Ok (@None error))
        | None =>
            let c := set_written (written (rclient s1) ++ [allData]) (rclient s1) in
            if IsOneway (hdr (set_hdr h r')) then (take_done n c, Ok None) else (c, Ok None)
        end
    | Err e => (rclient s1, Err e) | Panic => (rclient s1, Panic) | Fatal => (rclient s1, Fatal) | Blocked => (rclient s1, Blocked)
    end = (c, Ok e)).
  { exists None. destruct (EncodeSlicePointer cs get kvs r') as [[bs h]|e| | |]; try done.
    destruct (write bs); [by injection E as <- _|]. cbv zeta in E |- *. cbn [hdr set_hdr]. unfold take_done.
    destruct (IsOneway h); [|by injection E as <- _].
    destruct (take_pending n _) as [c2 [id'|]]; by injection E as <- _. }
  destruct Hw as [e Hw]. eexists. split.
  - eapply rtc_l; [exact H0|]. eapply rtc_l; [exact H1|].
    exact (write_runs cs get (fun h => set_hdr h r') write id n r' kvs s1 c e Hg1 Hw).
  - done.
Qed.

(** C7: what becomes of calls, in every state the goroutines can reach.  A call
    that was made is completed, or pending, or its number was taken by another
    call.  It is completed at most once and not pending any more then, with two
    exceptions, each good for one time more: arguments that fail to encode when
    the call was already completed, and the end of the connection, which
    completes what is pending but leaves it in the map.  At that end every call
    has been completed but those whose number was taken; and without raw calls,
    which choose their numbers, and within 2^64 calls no number is taken. *)
Theorem calls_accounted o s :
  runs o s ->
  let c := rclient s in
  (forall id, is_Some (heap c !! id) -> id ∈ dones c \/ (exists n, pending c !! n = Some id) \/ id ∈ displaced s) /\
  (forall id, (score id c <= 1 + once (id ∈ late s) + once (id ∈ atEnd s))%nat) /\
  (rloop s <> Stopped -> atEnd s = ∅) /\
  (forall e addr ids c', rloop s = Stopping e -> ids ≡ₚ (map_to_list (pending c)).*2 ->
     input_end addr e ids c = (c', Ok tt) ->
     forall id, is_Some (heap c' !! id) -> id ∈ dones c' \/ id ∈ displaced s) /\
  (rawed s = false -> Z.of_nat (registered s) <= two64 -> displaced s = ∅).
Proof.
  intros Hr c. pose proof (runs_accounted o s Hr) as H.
  assert (Hall : forall id, id ∈ dom (heap c) -> id ∈ dones c \/ (exists n, pending c !! n = Some id) \/ id ∈ displaced s).
  { intros id Hid. rewrite entries_elem, times_elem. destruct (ac_all _ H id Hid) as [Hs|?]; [|auto].
    unfold score in Hs. fold c in Hs. lia. }
  split_and!.
  - intros id Hid. by apply Hall, elem_of_dom.
  - apply (ac_score _ H).
  - apply (ac_loop _ H).
  - intros e addr ids c' _ Hids He id Hid. apply input_end_view in He as (Hd & Hh & _).
    rewrite <- elem_of_dom, Hh in Hid. rewrite Hd, elem_of_app. destruct (Hall id Hid) as [?|[[n Hn]|?]]; auto.
    left. right. rewrite Hids, list_elem_of_fmap. exists (n, id). split; [done|]. by apply elem_of_map_to_list.
  - intros Hraw Hn. by apply (ac_numbers _ H).
Qed.
End runs.

(** ** Witness: a call that is pending when the connection ends *)
Definition ending_run : run (A := list byte) (R := list byte) :=
  on_loop (Stopping EOF) (one_call (Some []))
    (mk_run (one_call (Some [])) {[0%nat := (Encoding, 0)]} Reading ∅ ∅ ∅ 1 false).

Lemma ending_runs : runs test_codecs id (fun _ => []) test_option ending_run.
Proof.
  eapply rtc_l; [apply (rs_channels _ _ _ _ {[0%nat := mk_chan 1 []]} None)|].
  eapply rtc_l; [by apply (rs_make test_codecs id (fun _ => []) _ 0 (test_call (Some [])))|].
  eapply rtc_l; [by apply (rs_decode_error _ _ _ _ EOF)|].
  match goal with |- rtc _ ?x _ => replace x with ending_run; [constructor|] end. reflexivity.
Qed.

Lemma calls_accounted_witness :
  exists c', input_end "srv:1" EOF [0%nat] (one_call (Some [])) = (c', Ok tt) /\
    (forall i, (score i (one_call (Some [])) <= 1 + once (i ∈ late ending_run) + once (i ∈ atEnd ending_run))%nat) /\
    (forall i, is_Some (heap c' !! i) -> i ∈ dones c' \/ i ∈ displaced ending_run) /\ displaced ending_run = ∅.
Proof.
  eexists. split; [vm_compute; reflexivity|].
  destruct (calls_accounted test_codecs id (fun _ => []) test_option ending_run ending_runs) as (_ & H2 & _ & H4 & H5).
  split; [exact H2|]. split; [|by apply H5].
  apply (H4 EOF "srv:1" [0%nat]); [reflexivity|vm_compute; reflexivity|vm_compute; reflexivity].
Defined.
