(* ===== verification/Heartbeat.v ===== *)
(** [heartbeat] of client/client.go: the goroutine that calls the server at every
    tick and closes the client when a call fails.

    A turn of its loop is cut where it waits: [heartbeat_begin] up to the wait of
    its call, [heartbeat_wake] from there on.  In between the other goroutines of
    the client run, which are the steps of ClientRuns. *)
From S2P Require Import Prelude Go Header Message MessageFacts UrlQuery Client ClientFacts ClientRuns.
Open Scope go_scope.

Section heartbeat.
Context {A R : Type} (codecs : byte -> option (Codec A R)) (cs : compressors) (get : Z -> list byte)
  (before : message -> message) (write : list byte -> option error).
Implicit Types c : Client A R.

(** [MaxWaitForHeartbeat], thirty seconds when it is not set. *)
Definition max_wait (d : Z) : Z := if d =? 0 then 30 * 1000000000 else d.

(** Up to the wait in [call]: the time [request] is the argument, [zero] is in
    the reply object, and the channel [ch] has room for one call.  None when the
    goroutine ends, else the number the call was registered under, if any. *)
Definition heartbeat_begin (id ch : nat) (request : A) (zero : R) (m0 : message) (kvs : list (string * string)) c :
    Client A R * result (option (option Z)) :=
  if heartbeat_stops c then (c, Ok None)
  else
    let n := (send_register codecs id (set_heap (<[id := mk_Call "" "" None None (Some request) (Some zero) None None ch false]>
               (heap c)) c)).2 in
    let c := set_chans (<[ch := mk_chan 1 []]> (chans c)) c in
    match Go codecs cs get before write id ch "" "" None (Some request) (Some zero) (Some ch) m0 kvs c with
    | (c, Ok _) => (c, Ok (Some n))
    | (c, Err e) => (c, Err e)
    | (c, Panic) => (c, Panic) | (c, Fatal) => (c, Fatal) | (c, Blocked) => (c, Blocked)
    end.

(** What ends the wait: the channel of the call, or the context. *)
Inductive wake : Type := Answered | Expired (e : error).

(** The rest of the turn: [ctxErr] is what [ctx.Err] says after an answer. *)
Definition heartbeat_wake (w : wake) (n : option Z) (id : nat) (ctxErr : option error) (ids : list (Z * nat))
    (connErr : option error) c : Client A R * result (option error) :=
  match w with
  | Answered =>
      match heap c !! id with
      | Some call => heartbeat_tick ctxErr (cError call) ids connErr c
      | None => (c, Panic)
      end
  | Expired e => let '(c, err) := call_cancelled n e c in heartbeat_tick (Some e) err ids connErr c
  end.
End heartbeat.

(** ** Facts *)
Section facts.
Context {A R : Type} (codecs : byte -> option (Codec A R)) (after : message -> message)
  (order : option (gmap string string) -> list (string * string)).
Implicit Types c : Client A R.

(** The plugins have been told of the end of a connection only when a flag says
    so. *)
Definition flags_ok c : Prop := pluginClosed c = true -> heartbeat_stops c = true.

(** The flags of a client. *)
Definition flags_of c : bool * bool * bool := (closing c, shutdown c, pluginClosed c).

Lemma flags_of_done id c : flags_of (done_ id c) = flags_of c.
Proof. unfold done_. cbn. by destruct (heap c !! id). Qed.

Lemma flags_of_fail e id c : flags_of (fail_call e id c) = flags_of c.
Proof. exact (flags_of_done id (upd_call id (with_Error (Some e)) c)). Qed.

Lemma flags_of_abandon n e c : flags_of (abandon n e c) = flags_of c.
Proof. unfold abandon, take_pending. destruct (pending c !! n); [by rewrite flags_of_fail|done]. Qed.

Lemma flags_of_smc msg c : flags_of (handleServerRequest msg c).1 = flags_of c.
Proof. unfold handleServerRequest. by repeat case_match. Qed.

Lemma flags_of_register id c : flags_of (send_register codecs id c).1 = flags_of c.
Proof. unfold send_register. repeat case_match; cbn; rewrite ?flags_of_fail; done. Qed.

Lemma flags_of_message res c : flags_of (input_message codecs after order res c).1 = flags_of c.
Proof.
  unfold input_message. set (r := after res). destruct (isServerMessage r).
  - cbn. pose proof (flags_of_smc r c). by destruct (handleServerRequest r c) as [? [?| | | |]].
  - unfold take_pending. destruct (pending c !! Seq (hdr r) ≫= _) as [[id call]|]; [|done].
    destruct (decide _); [destruct (answer_error codecs order r call) as [?| | | |]
      |destruct (answer_normal codecs order r call) as [[? ?]| | | |]]; try done; cbn [fst]; by rewrite flags_of_done.
Qed.

Lemma flags_of_closing ids c :
  flags_of (fold_left (fun c '(n, id) => fail_call ErrShutdown id (set_pending (delete n (pending c)) c)) ids c) = flags_of c.
Proof.
  revert c. induction ids as [|[n id] ids IH]; intros c; [done|]. cbn [fold_left]. rewrite IH. by rewrite flags_of_fail.
Qed.

Lemma Close_Ok ids connErr c c' r : Close ids connErr c = (c', Ok r) ->
  heartbeat_stops c = false /\ closing c' = true /\ pluginClosed c' = true /\
  (pluginClosed c = false -> connClosed c' = true /\ r = connErr).
Proof.
  unfold Close. pose proof (flags_of_closing ids c) as Hf. set (c1 := fold_left _ ids c) in *. clearbody c1.
  unfold flags_of in Hf. injection Hf as Hc Hs Hp. unfold heartbeat_stops. rewrite <- Hc, <- Hs, <- Hp.
  destruct (pluginClosed c1) eqn:Ep; cbn; destruct (closing c1) eqn:Ec, (shutdown c1) eqn:Es; cbn; try done;
    intros [= <- <-]; cbn; by rewrite ?Ep.
Qed.

Lemma flags_ok_of c c' : flags_of c' = flags_of c -> flags_ok c -> flags_ok c'.
Proof. unfold flags_of, flags_ok, heartbeat_stops. by intros [= -> -> ->]. Qed.

Lemma flags_of_take n c : flags_of (take_done n c) = flags_of c.
Proof. unfold take_done, take_pending. destruct (pending c !! n); [by rewrite flags_of_done|done]. Qed.

Lemma Close_flags ids connErr c : closing (Close ids connErr c).1 = true \/ heartbeat_stops (Close ids connErr c).1 = true.
Proof.
  unfold Close, heartbeat_stops. set (c1 := fold_left _ ids c). clearbody c1.
  destruct (pluginClosed c1); cbn; destruct (closing c1) eqn:Ec, (shutdown c1) eqn:Es; cbn; rewrite ?Ec, ?Es; auto.
Qed.

Lemma rstep_flags s s' : rstep codecs after order s s' -> flags_ok (rclient s) -> flags_ok (rclient s').
Proof.
  intros Hst H. destruct Hst as [id call Hid|id n e Hg|id n Hg|id n e Hg|id n bs Hg|id n Hg|id n Hg|id n e Hg|id call n Hid
    |chs smc|res c err Hl Hm|e Hl|e addr ids c Hl Hids He|ids ce c r Hids Hc]; try exact H.
  - assert (Hr : forall r, rclient (after_register id r s) = r.1) by (by intros [c [n|]]).
    rewrite Hr. eapply flags_ok_of; [apply flags_of_register|exact H].
  - eapply flags_ok_of; [by apply flags_of_fail|exact H].
  - eapply flags_ok_of; [apply flags_of_abandon|exact H].
  - eapply flags_ok_of; [apply flags_of_take|exact H].
  - eapply flags_ok_of; [apply flags_of_abandon|exact H].
  - pose proof (flags_of_message res (rclient s)) as Hf. rewrite Hm in Hf. by eapply flags_ok_of.
  - intros _. apply input_end_view in He as (_ & _ & _ & Hs & _). unfold heartbeat_stops. cbn. by rewrite Hs.
  - intros _. pose proof (Close_flags ids ce (rclient s)) as Hf. rewrite Hc in Hf. cbn in *.
    destruct Hf as [Hf|Hf]; [unfold heartbeat_stops; by rewrite Hf, orb_true_r|done].
Qed.

Lemma runs_flags o s : runs codecs after order o s -> flags_ok (rclient s).
Proof.
  intros Hr. assert (H0 : flags_ok (rclient (start_run (A := A) (R := R) o))) by done.
  revert H0. unfold runs in Hr. induction Hr; eauto using rstep_flags.
Qed.

Lemma fail_call_heap e id c : heap (fail_call e id c) = alter (with_Error (Some e)) id (heap c).
Proof. unfold fail_call. by destruct (done_view id (upd_call id (with_Error (Some e)) c)) as (_ & -> & _). Qed.

(** Calls that are failed one after the other have an error in the end. *)
Lemma failed_error e ids c id : is_Some (heap c !! id) ->
  exists call, heap (fold_left (fun c id => fail_call e id c) ids c) !! id = Some call /\
    (id ∈ ids \/ (exists call, heap c !! id = Some call /\ is_Some (cError call)) -> is_Some (cError call)).
Proof.
  revert c. induction ids as [|i ids IH]; intros c [call Hc]; cbn [fold_left].
  - exists call. split; [done|]. intros [?%elem_of_nil|(call' & Hc' & He)]; [done|congruence].
  - destruct (IH (fail_call e i c)) as (call' & Hc' & He).
    { rewrite fail_call_heap. destruct (decide (i = id)) as [->|Hne];
        [rewrite lookup_alter_eq, Hc|rewrite lookup_alter_ne by done]; eauto. }
    exists call'. split; [done|]. intros Hin. apply He. destruct (decide (i = id)) as [->|Hne].
    + right. exists (with_Error (Some e) call). by rewrite fail_call_heap, lookup_alter_eq, Hc.
    + destruct Hin as [[->|Hin]%elem_of_cons|(c2 & Hc2 & He2)]; [done|by left|].
      right. exists c2. by rewrite fail_call_heap, lookup_alter_ne.
Qed.

(** The end of the connection fails every call that is pending. *)
Lemma input_end_error addr err ids c c' id : input_end addr err ids c = (c', Ok tt) -> id ∈ ids ->
  is_Some (heap c !! id) -> exists call e, heap c' !! id = Some call /\ cError call = Some e.
Proof.
  assert (H : forall e c1, heap c1 = heap c -> id ∈ ids -> is_Some (heap c !! id) ->
    exists call e', heap (fold_left (fun c id => fail_call e id c) ids c1) !! id = Some call /\ cError call = Some e').
  { intros e c1 Hh Hin Hs. rewrite <- Hh in Hs. destruct (failed_error e ids c1 id Hs) as (call & Hc & He).
    destruct (He (or_introl Hin)) as [e' He']. eauto. }
  unfold input_end. destruct (ServerMessageChan c).
  - pose proof (handleServerRequest_view (input_notice addr err) c) as (_ & Hh & _).
    destruct (handleServerRequest _ c) as [c1 [[]| | | |]]; try done. cbn in Hh. intros [= <-]. by apply H.
  - intros [= <-]. by apply H.
Qed.

Lemma Close_shutdown ids connErr c : shutdown c = true -> (Close ids connErr c).2 = Fatal.
Proof.
  unfold Close. pose proof (flags_of_closing ids c) as Hf. set (c1 := fold_left _ ids c) in *. clearbody c1.
  unfold flags_of in Hf. injection Hf as _ Hs _. intros Hc. rewrite Hc in Hs.
  destruct (pluginClosed c1); cbn; by rewrite Hs, orb_true_r.
Qed.

(** ** A call that was answered stays as it is

    Its goroutine is past [send] and it is in the map no more, so nobody finds
    it. *)
Lemma other_call e j c id : j <> id -> heap (fail_call e j c) !! id = heap c !! id.
Proof. intros Hne. by rewrite fail_call_heap, lookup_alter_ne. Qed.

Lemma done_heap j c : heap (done_ j c) = heap c.
Proof. by destruct (done_view j c) as (_ & -> & _). Qed.

Lemma abandon_other n e c id : (forall m, pending c !! m <> Some id) -> heap (abandon n e c) !! id = heap c !! id.
Proof.
  intros Hno. unfold abandon, take_pending. destruct (pending c !! n) as [j|] eqn:E; [|done].
  rewrite other_call; [done|]. intros ->. by apply Hno in E.
Qed.

Lemma ended_other e ids c id : id ∉ ids -> heap (fold_left (fun c id => fail_call e id c) ids c) !! id = heap c !! id.
Proof.
  revert c. induction ids as [|j ids IH]; intros c Hn; [done|]. apply not_elem_of_cons in Hn as [? ?]. cbn [fold_left].
  rewrite IH by done. by apply other_call.
Qed.

Lemma closing_other ids c id : id ∉ ids.*2 ->
  heap (fold_left (fun c '(n, id) => fail_call ErrShutdown id (set_pending (delete n (pending c)) c)) ids c) !! id = heap c !! id.
Proof.
  revert c. induction ids as [|[n j] ids IH]; intros c Hn; [done|]. apply not_elem_of_cons in Hn as [? ?]. cbn [fold_left].
  rewrite IH by done. by rewrite other_call.
Qed.

Lemma message_other res c c' err id : (forall m, pending c !! m <> Some id) ->
  input_message codecs after order res c = (c', Ok err) -> heap c' !! id = heap c !! id.
Proof.
  intros Hno. unfold input_message. set (r := after res). destruct (isServerMessage r).
  - cbn. pose proof (handleServerRequest_view r c) as (_ & Hh & _).
    destruct (handleServerRequest r c) as [c1 [x| | | |]]; try done. intros [= <- <-]. cbn in Hh. by rewrite Hh.
  - unfold take_pending. destruct (pending c !! Seq (hdr r)) as [j|] eqn:E; cbn; [|by intros [= <- _]].
    assert (j <> id) by (intros ->; by apply Hno in E).
    destruct (heap c !! j) as [call|] eqn:Eh; cbn; [|by intros [= <- _]].
    destruct (decide _); [destruct (answer_error codecs order r call) as [call'| | | |]
      |destruct (answer_normal codecs order r call) as [[call' e]| | | |]]; try done;
      intros [= <- <-]; rewrite done_heap; cbn; by rewrite lookup_insert_ne.
Qed.

Lemma input_end_heap addr err ids c c' id : id ∉ ids -> input_end addr err ids c = (c', Ok tt) ->
  heap c' !! id = heap c !! id.
Proof.
  intros Hid. unfold input_end. destruct (ServerMessageChan c).
  - pose proof (handleServerRequest_view (input_notice addr err) c) as (_ & Hh & _).
    destruct (handleServerRequest _ c) as [c1 [[]| | | |]]; try done. cbn in Hh. intros [= <-].
    rewrite ended_other by done. cbn. by rewrite Hh.
  - intros [= <-]. by rewrite ended_other.
Qed.

Lemma Close_other ids connErr c c' r id : (forall m, pending c !! m <> Some id) -> ids ≡ₚ map_to_list (pending c) ->
  Close ids connErr c = (c', r) -> heap c' !! id = heap c !! id.
Proof.
  intros Hno Hids. assert (Hid : id ∉ ids.*2).
  { rewrite Hids, list_elem_of_fmap. intros ([m i] & -> & Hin%elem_of_map_to_list). by apply Hno in Hin. }
  pose proof (closing_other ids c id Hid) as Hh. unfold Close. set (c1 := fold_left _ ids c) in *. clearbody c1.
  destruct (pluginClosed c1); cbn; destruct (closing c1 || shutdown c1); intros [= <- _]; done.
Qed.

Definition settled (id : nat) (n : Z) (call : Call A R) (s : run) : Prop :=
  heap (rclient s) !! id = Some call /\ goroutines s !! id = Some (Waiting, n) /\
  forall m, pending (rclient s) !! m <> Some id.

Lemma rstep_settled id n call s s' : rstep codecs after order s s' -> accounted s -> settled id n call s -> settled id n call s'.
Proof.
  intros Hst Hac (Hc & Hg & Hno).
  assert (Hmv : forall c gs, moved (rclient s) c -> heap c !! id = heap (rclient s) !! id ->
    gs !! id = Some (Waiting, n) -> forall l d lt ae k rw, settled id n call (mk_run c gs l d lt ae k rw)).
  { intros c gs Hm Hh Hgs l d lt ae k rw. split_and!; cbn; [congruence|done|]. intros m Hm'. by apply (Hno m), (mv_pending _ _ Hm). }
  assert (Hgo : forall j a m a' m', goroutines s !! j = Some (a, m) -> (a = Waiting -> a' = Waiting /\ m' = m) ->
    <[j := (a', m')]> (goroutines s) !! id = Some (Waiting, n)).
  { intros j a m a' m' Hj Ha. destruct (decide (j = id)) as [->|Hne]; [|by rewrite lookup_insert_ne].
    rewrite Hg in Hj. injection Hj as <- <-. destruct (Ha eq_refl) as [-> ->]. apply lookup_insert_eq. }
  destruct Hst as [j new Hid|j m e Hj|j m Hj|j m e Hj|j m bs Hj|j m Hj|j m Hj|j m e Hj|j new m Hid
    |chs smc|res c err Hl Hm|e Hl|e addr ids c Hl Hids He|ids ce c r Hids Hcl].
  - assert (j <> id) by congruence.
    unfold send_register. cbn [heap set_heap shutdown closing option_]. rewrite lookup_insert_eq.
    set (c1 := set_heap _ (rclient s)).
    assert (Href : forall e, settled id n call (on_goroutine j Waiting 0 (fail_call e j c1) s)).
    { intros e. split_and!; cbn; [|by rewrite lookup_insert_ne|].
      - rewrite other_call by done. cbn. by rewrite lookup_insert_ne.
      - destruct (fail_call_view e j c1) as (-> & _). exact Hno. }
    case_match; [apply Href|]. case_match; [|apply Href]. split_and!; cbn; [by rewrite lookup_insert_ne..|].
    intros m'. rewrite lookup_insert_Some. intros [[_ ?]|[_ Hm']]; [done|by apply Hno in Hm'].
  - assert (j <> id) by (intros ->; congruence). split_and!; cbn.
    + by rewrite other_call.
    + by rewrite lookup_insert_ne.
    + destruct (fail_call_view e j (set_pending (delete m (pending (rclient s))) (rclient s))) as (-> & _).
      intros m' Hm'. cbn in Hm'. apply lookup_delete_Some in Hm' as [_ Hm']. by apply Hno in Hm'.
  - apply Hmv; [by apply moved_same|done|by eapply Hgo].
  - apply Hmv; [apply moved_abandon|by apply abandon_other|by eapply Hgo].
  - apply Hmv; [by apply moved_same|done|by eapply Hgo].
  - apply Hmv; [apply moved_take_done| |by eapply Hgo].
    unfold take_done, take_pending. destruct (pending (rclient s) !! m); [by rewrite done_heap|done].
  - apply Hmv; [by apply moved_same|done|by eapply Hgo].
  - apply Hmv; [apply moved_abandon|by apply abandon_other|done].
  - assert (j <> id) by congruence. split_and!; cbn; [by rewrite lookup_insert_ne..|].
    intros m'. rewrite lookup_insert_Some. intros [[_ ?]|[_ Hm']]; [done|by apply Hno in Hm'].
  - apply Hmv; [by apply moved_same|done|done].
  - apply Hmv; [|by eapply message_other|done]. eapply moved_message; [|exact Hm]. intros m i Hp. by eapply pending_made.
  - apply Hmv; [by apply moved_same|done|done].
  - assert (Hids' : id ∉ ids).
    { rewrite Hids, list_elem_of_fmap. intros ([m i] & -> & Hin%elem_of_map_to_list). by apply Hno in Hin. }
    pose proof (input_end_heap _ _ _ _ _ _ Hids' He) as Hh. apply input_end_view in He as (_ & _ & Hp & _).
    split_and!; cbn; [congruence|done|]. by rewrite Hp.
  - apply Hmv; [|by eapply Close_other|done]. pose proof (moved_Close ids ce (rclient s) Hids) as [Hm _]. by rewrite Hcl in Hm.
Qed.

Lemma rtc_settled id n call s s' : rtc (rstep codecs after order) s s' -> accounted s -> settled id n call s ->
  settled id n call s'.
Proof. induction 1 as [|x y z Hst _ IH]; [done|]. intros. apply IH; [by eapply rstep_accounted|by eapply rstep_settled]. Qed.

(** A normal answer that decodes settles its call. *)
Lemma answer_settles s id n call call' res :
  accounted s -> goroutines s !! id = Some (Waiting, n) -> pending (rclient s) !! n = Some id ->
  heap (rclient s) !! id = Some call -> isServerMessage (after res) = false -> Seq (hdr (after res)) = n ->
  MessageStatusType (hdr (after res)) <> StatusError ->
  answer_normal codecs order (after res) call = Ok (call', None) ->
  exists c1, input_message codecs after order res (rclient s) = (c1, Ok None) /\ settled id n call' (on_loop Reading c1 s).
Proof.
  intros Hac Hg Hp Hh Hsm Hsq Hst Han. unfold input_message. rewrite Hsm. unfold take_pending. rewrite Hsq, Hp.
  cbn [mbind option_bind heap set_pending]. rewrite Hh. cbn [fmap option_fmap option_map]. rewrite decide_False by done.
  rewrite Han. eexists. split; [done|]. set (c1 := set_heap _ _). split_and!; cbn.
  - rewrite done_heap. apply lookup_insert_eq.
  - done.
  - destruct (done_view id c1) as (-> & _). intros m Hm. cbn in Hm. assert (Hm' := Hm). apply lookup_delete_Some in Hm' as [Hne Hm'].
    pose proof (ac_entries _ Hac id) as He. rewrite (entries_delete id _ n id Hp), times_one, decide_True in He by done.
    assert (0 < entries id (delete n (pending (rclient s))))%nat by (apply entries_elem; by exists m). lia.
Qed.

(** Closing a client that is in use empties the map. *)
Lemma Close_in_use c ids connErr : flags_ok c -> heartbeat_stops c = false -> ids ≡ₚ map_to_list (pending c) ->
  exists c', Close ids connErr c = (c', Ok connErr) /\ moved c c' /\ pending c' = ∅ /\ connClosed c' = true /\
    heartbeat_stops c' = true.
Proof.
  intros Hfl Hst Hids. destruct (moved_Close ids connErr c Hids) as [Hm Hp].
  pose proof (flags_of_closing ids c) as Hf. unfold Close in *. set (c1 := fold_left _ ids c) in *. clearbody c1.
  assert (Hpl : pluginClosed c = false) by (destruct (pluginClosed c) eqn:E; [by rewrite (Hfl E) in Hst|done]).
  unfold flags_of in Hf. injection Hf as Hc Hs Hpc. unfold heartbeat_stops in Hst. apply orb_false_iff in Hst as [Hs0 Hc0].
  rewrite Hpc, Hpl in *. cbn in *. rewrite Hc, Hs, Hs0, Hc0 in *. cbn in *. eexists. by split_and!.
Qed.

(** C13: what a heartbeat does to its client, in any state the goroutines can
    reach while its call waits.  A normal answer completes the call, and however
    long the others run then, the heartbeat leaves the client alone.  When its
    time is over and the client is in use, the client is closed: its connection
    is, nothing is pending, every call made was completed or had lost its number
    to another one, none more than once unless its arguments failed to encode
    after it was completed, and the goroutine ends at the next tick.  When the
    connection ends instead, the heartbeat's own call is failed with the others,
    and closing the client, which [input] has shut down, ends the process. *)
Theorem heartbeat_turn o s n id ctxErr connErr :
  runs codecs after order o s -> goroutines s !! id = Some (Waiting, n) ->
  let c := rclient s in
  (forall call call' res, rloop s = Reading -> pending c !! n = Some id -> heap c !! id = Some call ->
     isServerMessage (after res) = false -> Seq (hdr (after res)) = n -> MessageStatusType (hdr (after res)) <> StatusError ->
     answer_normal codecs order (after res) call = Ok (call', None) -> cError call' = None ->
     exists c1, input_message codecs after order res c = (c1, Ok None) /\
       rstep codecs after order s (on_loop Reading c1 s) /\
       forall s2 ids, rtc (rstep codecs after order) (on_loop Reading c1 s) s2 ->
         heartbeat_wake Answered (Some n) id None ids connErr (rclient s2) = (rclient s2, Ok None)) /\
  (heartbeat_stops c = false -> forall e ids, ids ≡ₚ map_to_list (delete n (pending c)) ->
     exists c', heartbeat_wake (Expired e) (Some n) id ctxErr ids connErr c = (c', Ok connErr) /\
       connClosed c' = true /\ heartbeat_stops c' = true /\ pending c' = ∅ /\
       (forall i, is_Some (heap c' !! i) -> i ∈ dones c' \/ i ∈ displaced s) /\
       (forall i, (times i (dones c') <= 1 + once (i ∈ late s))%nat)) /\
  (pending c !! n = Some id -> forall addr err ids c1, ids ≡ₚ (map_to_list (pending c)).*2 ->
     input_end addr err ids c = (c1, Ok tt) ->
     forall w ids', (heartbeat_wake w (Some n) id ctxErr ids' connErr c1).2 = Fatal).
Proof.
  intros Hr Hg c. pose proof (runs_accounted _ _ _ o s Hr) as Hac. pose proof (runs_flags o s Hr) as Hfl. split_and!.
  - intros call call' res Hl Hp Hh Hsm Hsq Hst Han He.
    destruct (answer_settles s id n call call' res Hac Hg Hp Hh Hsm Hsq Hst Han) as (c1 & E & Hset).
    assert (H1 : rstep codecs after order s (on_loop Reading c1 s)) by exact (rs_message _ _ _ s res c1 None Hl E).
    exists c1. split_and!; [done|done|]. intros s2 ids Hs2.
    apply rtc_settled with (1 := Hs2) in Hset as (Hh2 & _); [|by eapply rstep_accounted].
    unfold heartbeat_wake. by rewrite Hh2, He.
  - intros Hst e ids Hids. unfold heartbeat_wake, call_cancelled. cbn [default from_option].
    pose proof (moved_abandon n e c) as Hm1. pose proof (flags_of_abandon n e c) as Hf1. set (c1 := abandon n e c) in *.
    assert (Hp1 : pending c1 = delete n (pending c)).
    { unfold c1, abandon, take_pending. destruct (pending c !! n) as [j|] eqn:E; [|done].
      by destruct (fail_call_view e j (set_pending (delete n (pending c)) c)) as (-> & _). }
    destruct (Close_in_use c1 ids connErr) as (c' & Hc & Hm2 & Hp' & Hcc & Hst').
    + by apply (flags_ok_of c).
    + unfold flags_of in Hf1. injection Hf1 as Ha Hb _. unfold heartbeat_stops in *. by rewrite Ha, Hb.
    + by rewrite Hp1.
    + pose proof (moved_trans _ _ _ Hm1 Hm2) as Hm. exists c'. cbn. split; [done|]. split_and!; [done..| |].
      * intros i Hi. apply elem_of_dom in Hi. rewrite (mv_heap _ _ Hm) in Hi.
        destruct (ac_all _ Hac i Hi) as [Hs|?]; [left|by right]. rewrite <- (mv_score _ _ Hm) in Hs.
        unfold score, entries in Hs. rewrite Hp', map_to_list_empty in Hs. apply times_elem. cbn in Hs. lia.
      * intros i. pose proof (ac_score _ Hac i) as Hs. rewrite <- (mv_score _ _ Hm) in Hs.
        rewrite (ac_loop _ Hac), (once_false (i ∈ ∅)) in Hs; [unfold score in Hs; lia|set_solver|].
        intros E%(ac_stopped _ Hac). unfold heartbeat_stops in Hst. unfold c in Hst. by rewrite E in Hst.
  - intros Hn addr err ids c1 Hids He w ids'. pose proof (pending_made _ _ _ Hac Hn) as Hid.
    assert (Hin : id ∈ ids).
    { rewrite Hids, list_elem_of_fmap. exists (n, id). split; [done|]. by apply elem_of_map_to_list. }
    destruct (input_end_error addr err ids c c1 id He Hin Hid) as (call & e & Hc & Hce).
    apply input_end_view in He as (_ & _ & _ & Hs & _).
    destruct w as [|e']; unfold heartbeat_wake, call_cancelled, heartbeat_tick.
    + rewrite Hc, Hce. destruct ctxErr; by apply Close_shutdown.
    + pose proof (flags_of_abandon n e' c1) as Hf. unfold flags_of in Hf. injection Hf as _ Hf _.
      apply Close_shutdown. exact (eq_trans Hf Hs).
Qed.
End facts.

(** ** Witness: a client whose first heartbeat waits *)
Definition beating : Client (list byte) (list byte) :=
  (heartbeat_begin test_codecs raw_compressors dirty_get (fun m => m) (fun _ => None) 0 0 [x2a] [] NewMessage []
    (NewClient test_option)).1.

Example beating_waits : heartbeat_begin test_codecs raw_compressors dirty_get (fun m => m) (fun _ => None) 0 0 [x2a] []
    NewMessage [] (NewClient test_option) = (beating, Ok (Some (Some 0))) /\
  pending beating = {[0 := 0%nat]} /\ length (written beating) = 1%nat.
Proof. vm_compute. done. Qed.

Definition beating_run : run := mk_run beating {[0%nat := (Waiting, 0)]} Reading ∅ ∅ ∅ 1 false.

Lemma beating_runs : runs test_codecs id (fun _ => []) test_option beating_run.
Proof.
  eapply rtc_l; [apply (rs_channels _ _ _ _ {[0%nat := mk_chan 1 []]} None)|].
  eapply rtc_l; [by apply (rs_make test_codecs id (fun _ => []) _ 0
    (mk_Call "" "" None None (Some [x2a]) (Some []) None None 0 false))|].
  eapply rtc_l; [by apply (rs_encoded _ _ _ _ 0 0)|].
  eapply rtc_l; [by apply (rs_written _ _ _ _ 0 0 (default [] (last (written beating))))|].
  eapply rtc_l; [by apply (rs_sent _ _ _ _ 0 0)|].
  match goal with |- rtc _ ?x _ => replace x with beating_run; [constructor|] end. vm_compute. reflexivity.
Qed.

Lemma heartbeat_turn_witness :
  (exists c1, input_message test_codecs id (fun _ => []) test_answer beating = (c1, Ok None) /\
     heartbeat_wake Answered (Some 0) 0 None [] None c1 = (c1, Ok None)) /\
  (exists c', heartbeat_wake (Expired DeadlineExceeded) (Some 0) 0 None [] None beating = (c', Ok None) /\
    connClosed c' = true /\ heartbeat_stops c' = true /\ pending c' = ∅ /\
    (forall i, is_Some (heap c' !! i) -> i ∈ dones c' \/ i ∈ displaced beating_run) /\
    forall i, (times i (dones c') <= 1 + once (i ∈ late beating_run))%nat).
Proof.
  destruct (heartbeat_turn test_codecs id (fun _ => []) test_option beating_run 0 0 None None beating_runs eq_refl)
    as (H1 & H2 & _). split.
  - destruct (H1 (mk_Call "" "" None None (Some [x2a]) (Some []) None None 0 false)
      (mk_Call "" "" None None (Some [x2a]) (Some [x07]) None None 0 false) test_answer) as (c1 & E & _ & Hw);
      [vm_compute; reflexivity..|discriminate|vm_compute; reflexivity|reflexivity|].
    exists c1. split; [exact E|]. exact (Hw _ [] (rtc_refl _ _)).
  - apply H2; [reflexivity|]. vm_compute. constructor.
Defined.
