(* ===== verification/XClient.v ===== *)
(** client/xclient.go, xclient_call.go, xclient_cache_client.go, xclient_mode.go,
    xclient_utils.go: the client that selects servers, caches one connection per
    server and retries by fail mode.

    Connections are used through the interface [RPCClient], servers are chosen
    through the interface [Selector]; what the network does at the [n]-th
    dialling, call or clock reading is given by oracles.  The plugin container
    is the empty one of [NewXClient], and no cache-client builder is registered
    for the networks in use. *)
From S2P Require Import Prelude Go Share UrlQuery Selectors Breaker Message Client.
Open Scope go_scope.

Inductive FailMode : Type := Failover | Failfast | Failtry | Failbackup.

(** ** Errors *)
Definition contextCanceled (e : option error) : bool :=
  match e with Some DeadlineExceeded | Some Canceled => true | _ => false end.

Definition isServiceError (e : option error) : bool :=
  match e with Some (ServiceError _) => true | _ => false end.

(** [uncoverError]: true of nil too. *)
Definition uncoverError (e : option error) : bool :=
  match e with
  | Some (ServiceError _) | Some DeadlineExceeded | Some Canceled => false
  | _ => true
  end.

(** ** The interface of a connection *)
Class RPCClient (C : Type) : Type := {
  IsClosing : C -> bool;
  IsShutdown : C -> bool;
  CloseClient : C -> C * result (option error)
}.

(** The client of Client.v; closing its connection succeeds. *)
#[export] Instance Client_RPCClient {A R} : RPCClient (Client A R) := {
  IsClosing c := closing c;
  IsShutdown c := shutdown c;
  CloseClient c := Client.Close (map_to_list (pending c)) None c
}.

(** ** State

    [objs] is the heap of connections, [log] the calls made so far on
    connections with the error each returned, [tick] the number of oracle
    questions asked. *)
Record xClient (S C : Type) : Type := mk_xClient {
  failMode : FailMode;
  Retries : Z;
  GenBreaker : option ConsecCircuitBreaker;
  isShutdown : bool;
  auth : string;
  servers : gmap string string;
  selector : S;
  cachedClient : gmap string nat;
  objs : gmap nat C;
  breakers : gmap string ConsecCircuitBreaker;
  log : list (nat * option error);
  tick : nat
}.
Arguments mk_xClient {S C}.
Arguments failMode {S C}. Arguments Retries {S C}. Arguments GenBreaker {S C}.
Arguments isShutdown {S C}. Arguments auth {S C}. Arguments servers {S C}.
Arguments selector {S C}. Arguments cachedClient {S C}. Arguments objs {S C}.
Arguments breakers {S C}. Arguments log {S C}. Arguments tick {S C}.

Section xclient.
Context {S C : Type} `{Selector S} `{RPCClient C}.
(** The oracles: connecting to a key, calling on a connection (a unary call,
    and a raw one with its response), the random number and the clock. *)
Context (dial : nat -> string -> C + error)
        (invoke : nat -> C -> C * option error)
        (rnd : nat -> nat) (clock : nat -> Z).

Notation xstate := (xClient S C).

Definition set_selector (s : S) (x : xstate) : xstate :=
  mk_xClient (failMode x) (Retries x) (GenBreaker x) (isShutdown x) (auth x) (servers x) s
    (cachedClient x) (objs x) (breakers x) (log x) (tick x).
Definition set_cached (m : gmap string nat) (x : xstate) : xstate :=
  mk_xClient (failMode x) (Retries x) (GenBreaker x) (isShutdown x) (auth x) (servers x) (selector x)
    m (objs x) (breakers x) (log x) (tick x).
Definition set_objs (m : gmap nat C) (x : xstate) : xstate :=
  mk_xClient (failMode x) (Retries x) (GenBreaker x) (isShutdown x) (auth x) (servers x) (selector x)
    (cachedClient x) m (breakers x) (log x) (tick x).
Definition set_breakers (m : gmap string ConsecCircuitBreaker) (x : xstate) : xstate :=
  mk_xClient (failMode x) (Retries x) (GenBreaker x) (isShutdown x) (auth x) (servers x) (selector x)
    (cachedClient x) (objs x) m (log x) (tick x).
Definition set_log (l : list (nat * option error)) (x : xstate) : xstate :=
  mk_xClient (failMode x) (Retries x) (GenBreaker x) (isShutdown x) (auth x) (servers x) (selector x)
    (cachedClient x) (objs x) (breakers x) l (tick x).
Definition set_servers (m : gmap string string) (x : xstate) : xstate :=
  mk_xClient (failMode x) (Retries x) (GenBreaker x) (isShutdown x) (auth x) m (selector x)
    (cachedClient x) (objs x) (breakers x) (log x) (tick x).
Definition set_isShutdown (b : bool) (x : xstate) : xstate :=
  mk_xClient (failMode x) (Retries x) (GenBreaker x) b (auth x) (servers x) (selector x)
    (cachedClient x) (objs x) (breakers x) (log x) (tick x).

(** Ask an oracle. *)
Definition ask : prog xstate nat := fun x =>
  (mk_xClient (failMode x) (Retries x) (GenBreaker x) (isShutdown x) (auth x) (servers x) (selector x)
     (cachedClient x) (objs x) (breakers x) (log x) (Datatypes.S (tick x)), Ok (tick x)).

(** ** The cache of connections *)

(** [client.Close()] on the connection at an address. *)
Definition close_obj (id : nat) : prog xstate (option error) := fun x =>
  match objs x !! id with
  | None => (x, Ok None)
  | Some c => let '(c, r) := CloseClient c in (set_objs (<[id := c]> (objs x)) x, r)
  end.

Definition findCachedClient (k : string) (x : xstate) : option nat := cachedClient x !! k.

Definition deleteCachedClient (client : option nat) (k : string) : prog xstate unit :=
  modify (fun x => set_cached (delete k (cachedClient x)) x);;
  match client with
  | Some id => _ ← close_obj id; mret tt
  | None => mret tt
  end.

(** [removeClient]: the client is closed by [deleteCachedClient] when it is
    the cached one, and then once more. *)
Definition removeClient (k : string) (client : option nat) : prog xstate unit :=
  x ← get_st;
  (if decide (findCachedClient k x = client) then deleteCachedClient client k else mret tt);;
  match client with
  | Some id => _ ← close_obj id; mret tt
  | None => mret tt
  end.

(** [generateClient]: connect; a failure counts against the breaker, which is
    made on first use when the option asks for breakers. *)
Definition generateClient (k : string) : prog xstate (nat + error) :=
  x ← get_st;
  match GenBreaker x with
  | Some b => modify (fun x => set_breakers (<[k := default b (breakers x !! k)]> (breakers x)) x)
  | None => mret tt
  end;;
  n ← ask;
  match dial n k with
  | inl c =>
      x ← get_st;
      let id := fresh (dom (objs x)) in
      put_st (set_objs (<[id := c]> (objs x)) x);; mret (inl id)
  | inr e =>
      t ← ask;
      x ← get_st;
      match GenBreaker x with
      | Some _ => put_st (set_breakers (alter (Breaker.fail (clock t)) k (breakers x)) x)
      | None => mret tt
      end;;
      mret (inr e)
  end.

(** The breaker of [k], if there is one, refuses. *)
Definition breaker_refuses (k : string) : prog xstate bool :=
  x ← get_st;
  match breakers x !! k with
  | None => mret false
  | Some b =>
      t ← ask;
      let '(b, ok) := ready (clock t) b in
      modify (fun x => set_breakers (<[k := b]> (breakers x)) x);;
      mret (negb ok)
  end.

Definition usable (id : nat) (x : xstate) : bool :=
  match objs x !! id with Some c => negb (IsClosing c) && negb (IsShutdown c) | None => false end.

(** [getCachedClient]: the cached connection if it is usable; a stale one is
    dropped and closed; otherwise a new one, which is cached. *)
Definition getCachedClient (k : string) : prog xstate (option nat * option error) :=
  x ← get_st;
  if isShutdown x then mret (None, Some (ErrorString "this xClient is closed"))
  else
    refused ← breaker_refuses k;
    if refused : bool then mret (None, Some ErrBreakerOpen)
    else
      x ← get_st;
      let connect :=
        g ← generateClient k;
        match g with
        | inl id => modify (fun x => set_cached (<[k := id]> (cachedClient x)) x);; mret (Some id, None)
        | inr e => mret (None, Some e)
        end in
      match findCachedClient k x with
      | Some id =>
          if usable id x then mret (Some id, None)
          else deleteCachedClient (Some id) k;; connect
      | None => connect
      end.

(** [getCachedClientWithoutLock], of [Broadcast], [Fork] and [Inform]: the same
    without the tests of the shutdown flag and of the breaker. *)
Definition getCachedClientWithoutLock (k : string) : prog xstate (option nat * option error) :=
  x ← get_st;
  let connect :=
    g ← generateClient k;
    match g with
    | inl id => modify (fun x => set_cached (<[k := id]> (cachedClient x)) x);; mret (Some id, None)
    | inr e => mret (None, Some e)
    end in
  match findCachedClient k x with
  | Some id =>
      if usable id x then mret (Some id, None)
      else deleteCachedClient (Some id) k;; connect
  | None => connect
  end.

(** The loop over [c.servers] of those methods, [ks] in map order: the servers
    without a connection are left out. *)
Fixpoint collect_clients (ks : list string) : prog xstate (list (string * nat)) :=
  match ks with
  | [] => mret []
  | k :: ks =>
      '(client, err) ← getCachedClientWithoutLock k;
      rest ← collect_clients ks;
      match err, client with
      | None, Some id => mret ((k, id) :: rest)
      | _, _ => mret rest
      end
  end.

(** Those methods up to the start of their goroutines. *)
Definition multi_start (ks : list string) : prog xstate (list (string * nat) + error) :=
  x ← get_st;
  if isShutdown x then mret (inr ErrXClientShutdown)
  else
    clients ← collect_clients ks;
    match clients with
    | [] => mret (inr ErrXClientNoServer)
    | _ => mret (inl clients)
    end.

(** [Fork] begins with the same code. *)
Definition Fork_start : list string -> prog xstate (list (string * nat) + error) := multi_start.

Definition selectClient (r : request) : prog xstate (string * option nat * option error) :=
  n ← ask;
  x ← get_st;
  let '(s, k) := Select (rnd n) r (selector x) in
  put_st (set_selector s x);;
  k ← lift k;
  if decide (k = "") then mret ("", None, Some ErrXClientNoServer)
  else '(client, err) ← getCachedClient k; mret (k, client, err).

(** ** Calls *)
Definition wrapCall (client : option nat) : prog xstate (option error) :=
  match client with
  | None => mret (Some ErrServerUnavailable)
  | Some id =>
      n ← ask;
      x ← get_st;
      match objs x !! id with
      | None => lift Panic
      | Some c =>
          let '(c, e) := invoke n c in
          put_st (set_log (log x ++ [(id, e)]) (set_objs (<[id := c]> (objs x)) x));;
          mret e
      end
  end.

(** How the loop gets the client of the next attempt. *)
Definition next_client (mode : FailMode) (r : request) (k : string)
    : prog xstate (string * option nat * option error) :=
  match mode with
  | Failtry => '(client, e) ← getCachedClient k; mret (k, client, e)
  | _ => selectClient r
  end.

(** The loop of [Failtry] and [Failover] ([n] iterations are left); [err] and
    [e] are the variables of the code. *)
Fixpoint Call_loop (mode : FailMode) (r : request) (n : nat) (k : string) (client : option nat)
    (err e : option error) : prog xstate (option error) :=
  match n with
  | O => mret (match err with None => e | Some _ => err end)
  | Datatypes.S n =>
      let again (err : option error) :=
        (if uncoverError err then removeClient k client else mret tt);;
        '(k, client, e) ← next_client mode r k;
        Call_loop mode r n k client err e in
      match client with
      | Some _ =>
          err ← wrapCall client;
          match err with
          | None => mret None
          | Some _ => if contextCanceled err || isServiceError err then mret err else again err
          end
      | None => again err
      end
  end.

(** The events of [Failbackup]: which channel the two selects received from. *)
Inductive backup_event : Type := CtxDone (e : error) | Call1 (err : option error) | Call2 (err : option error) | Timer.

(** [Failbackup] after [c.Go] returned [err1] for the first request: the
    first event, what [c.Go] returned for the second request, the second
    event. *)
Definition Failbackup_wait (k : string) (client : option nat) (err1 : option error) (ev1 : backup_event)
    (err2 : option error) (ev2 : backup_event) : prog xstate (option error) :=
  match ev1 with
  | CtxDone e => mret (Some e)
  | Call1 err => mret err
  | _ =>
      match err2 with
      | Some _ =>
          (if uncoverError err2 then removeClient k client else mret tt);; mret err1
      | None =>
          match ev2 with
          | CtxDone e => mret (Some e)
          | Call1 err | Call2 err => mret err
          | Timer => lift Blocked
          end
      end
  end.

(** [Call], with what happens in [Failbackup] mode as an argument. *)
Definition Call (backup : option error * backup_event * option error * backup_event) (r : request)
    : prog xstate (option error) :=
  x ← get_st;
  if isShutdown x then mret (Some ErrXClientShutdown)
  else
    '(k, client, err) ← selectClient r;
    if match err with
       | Some _ => match failMode x with Failfast => true | _ => contextCanceled err end
       | None => false
       end
    then mret err
    else
      match failMode x with
      | Failtry | Failover =>
          Call_loop (failMode x) r (Z.to_nat (Retries x + 1)) k client err None
      | Failbackup =>
          let '(err1, ev1, err2, ev2) := backup in Failbackup_wait k client err1 ev1 err2 ev2
      | Failfast =>
          err ← wrapCall client;
          match err with
          | Some _ => (if uncoverError err then removeClient k client else mret tt);; mret err
          | None => mret None
          end
      end.

(** [Go]: the connection the request would go out on, or the error. *)
Definition Go (r : request) : prog xstate (nat + error) :=
  x ← get_st;
  if isShutdown x then mret (inr ErrXClientShutdown)
  else
    '(_, client, err) ← selectClient r;
    match err, client with
    | Some e, _ => mret (inr e)
    | None, Some id => mret (inl id)
    | None, None => lift Panic
    end.

(** [SendRaw].  Its loops declare a second [err] inside the loop body, so the
    outer one, which they return and test, keeps the value of the first
    selection; the last branch returns nil whatever the call returned. *)
Fixpoint SendRaw_loop (mode : FailMode) (r : request) (n : nat) (k : string) (client : option nat)
    (err e : option error) : prog xstate (option error) :=
  match n with
  | O => mret (match err with None => e | Some _ => err end)
  | Datatypes.S n =>
      let again :=
        (if uncoverError err then removeClient k client else mret tt);;
        '(k, client, e) ← next_client mode r k;
        SendRaw_loop mode r n k client err e in
      match client with
      | Some _ =>
          inner ← wrapCall client;
          match inner with
          | None => mret None
          | Some _ => if contextCanceled inner || isServiceError inner then mret inner else again
          end
      | None => again
      end
  end.

Definition SendRaw (r : request) : prog xstate (option error) :=
  x ← get_st;
  if isShutdown x then mret (Some ErrXClientShutdown)
  else
    '(k, client, err) ← selectClient r;
    if match err with
       | Some _ => match failMode x with Failfast => true | _ => contextCanceled err || isServiceError err end
       | None => false
       end
    then mret err
    else
      match failMode x with
      | Failtry | Failover => SendRaw_loop (failMode x) r (Z.to_nat (Retries x + 1)) k client err None
      | _ =>
          inner ← wrapCall client;
          match inner with
          | Some _ => (if uncoverError inner then removeClient k client else mret tt);; mret None
          | None => mret None
          end
      end.

(** ** Servers and shutdown *)

(** [NewXClient] and [watch] make the server map of the pairs and filter it;
    the selector is updated in the order [order] of the map. *)
Definition server_map (group : string) (pairs : list (string * string)) : gmap string string :=
  filterByStateAndGroup group (fold_left (fun m '(k, v) => <[k := v]> m) pairs ∅).

Definition watch_update (group : string) (pairs order : list (string * string)) : prog xstate unit :=
  x ← get_st;
  s ← lift (UpdateServer order (selector x));
  put_st (set_selector s (set_servers (server_map group pairs) x)).

(** [Close]: closes and forgets every cached connection, [ks] in map order;
    the errors are collected. *)
Fixpoint Close_all (ks : list (string * nat)) (errs : list error) : prog xstate (list error) :=
  match ks with
  | [] => mret errs
  | (k, id) :: ks =>
      e ← close_obj id;
      modify (fun x => set_cached (delete k (cachedClient x)) x);;
      Close_all ks (errs ++ match e with Some e => [e] | None => [] end)
  end.

Definition Close : prog xstate (option error) :=
  modify (set_isShutdown true);;
  x ← get_st;
  errs ← Close_all (map_to_list (cachedClient x)) [];
  mret (match errs with [] => None | _ => Some (MultiError errs) end).
End xclient.
Arguments backup_event : clear implicits.

(** ** Metadata of a request: authentication and the server's timeout *)

(** The block of every method that puts [c.auth] into the request metadata,
    and [setServerTimeout]: the milliseconds left, [deadline] and [now] in
    nanoseconds. *)
Definition with_auth (auth : string) (meta : option (gmap string string)) : option (gmap string string) :=
  if decide (auth = "") then meta else Some (<[AuthKey := auth]> (default ∅ meta)).

Definition setServerTimeout (deadline : option Z) (now : Z) (meta : option (gmap string string))
    : option (gmap string string) :=
  match deadline with
  | None => meta
  | Some d => Some (<[ServerTimeout := pretty (Z.quot (d - now) 1000000)]> (default ∅ meta))
  end.
