(* ===== verification/XClientFacts.v ===== *)
(** Theorems about XClient.v: how many attempts a call makes and what its
    result says about them, the cache of connections, and what happens with the
    library's own connection. *)
From S2P Require Import Prelude Go Share UrlQuery Selectors Breaker Message Client XClient.
Open Scope go_scope.

Section facts.
Context {S C : Type} `{Selector S} `{RPCClient C}.
Context (dial : nat -> string -> C + error) (invoke : nat -> C -> C * option error)
        (rnd : nat -> nat) (clock : nat -> Z).
Notation xstate := (xClient S C).

(** ** Programs that make no call *)
Definition keeps {T A} (f : xstate -> T) (p : prog xstate A) : Prop := forall x, f (p x).1 = f x.

Lemma keeps_bind {T A B} (f : xstate -> T) (p : prog xstate A) (q : A -> prog xstate B) :
  keeps f p -> (forall a, keeps f (q a)) -> keeps f (p ≫= q).
Proof.
  intros Hp Hq x. unfold mbind, prog_bind. specialize (Hp x).
  destruct (p x) as [x' [a| | | |]]; cbn in *; try done. by rewrite Hq.
Qed.

Lemma keeps_ret {T A} (f : xstate -> T) (a : A) : keeps f (mret a).
Proof. done. Qed.

Lemma keeps_get {T} (f : xstate -> T) : keeps f get_st.
Proof. done. Qed.

(** A program that starts by reading the state may be given that state. *)
Lemma keeps_get_bind {T A} (f : xstate -> T) (q : xstate -> prog xstate A) :
  (forall x, f (q x x).1 = f x) -> keeps f (get_st ≫= q).
Proof. intros Hq x. apply Hq. Qed.

Ltac keep :=
  repeat first
    [ apply keeps_ret | apply keeps_get
    | apply keeps_get_bind; intros ?
    | apply keeps_bind; [|intros ?]
    | match goal with
      | |- keeps _ (match ?b with _ => _ end) => destruct b
      | |- keeps _ (let '(_, _) := ?b in _) => destruct b
      end
    | progress intros ? ].

(** What of the client the cache of connections does not touch. *)
Definition untouched {T} (f : xstate -> T) : Prop :=
  (forall m x, f (set_cached m x) = f x) /\ (forall m x, f (set_objs m x) = f x) /\
  (forall m x, f (set_breakers m x) = f x) /\ (forall x, f (ask x).1 = f x).

Section cache_keeps.
Context {T : Type} (f : xstate -> T) (Hf : untouched f).

Lemma close_obj_keeps id : keeps f (close_obj id).
Proof.
  destruct Hf as (_ & Ho & _). intros x. unfold close_obj. destruct (objs x !! id); [|done].
  destruct (CloseClient c). apply Ho.
Qed.

Lemma deleteCachedClient_keeps client k : keeps f (deleteCachedClient client k).
Proof.
  destruct Hf as [Hc _]. unfold deleteCachedClient. apply keeps_bind; [intros x; apply Hc|intros _].
  destruct client; keep. apply close_obj_keeps.
Qed.

Lemma removeClient_keeps k client : keeps f (removeClient k client).
Proof.
  unfold removeClient. apply keeps_bind; [done|intros x]. apply keeps_bind.
  - case_decide; [apply deleteCachedClient_keeps|done].
  - intros _. destruct client; keep. apply close_obj_keeps.
Qed.

Lemma ask_keeps : keeps f ask.
Proof. by destruct Hf as (_ & _ & _ & Ha). Qed.

Lemma generateClient_keeps k : keeps f (generateClient dial clock k).
Proof.
  destruct Hf as (H1 & H2 & H3 & _). unfold generateClient. apply keeps_bind; [done|intros x]. apply keeps_bind.
  { destruct (GenBreaker x); [intros y; apply H3|done]. }
  intros _. apply keeps_bind; [apply ask_keeps|intros n]. destruct (dial n k).
  - intros y. apply H2.
  - apply keeps_bind; [apply ask_keeps|intros t]. intros y. unfold mbind, prog_bind, get_st.
    destruct (GenBreaker y); [apply H3|done].
Qed.

Lemma breaker_refuses_keeps k : keeps f (breaker_refuses clock k).
Proof.
  unfold breaker_refuses. apply keeps_bind; [done|intros x]. destruct (breakers x !! k); [|done].
  destruct Hf as (_ & _ & Hb & _).
  apply keeps_bind; [apply ask_keeps|intros t]. destruct (ready (clock t) c). intros y. apply Hb.
Qed.

Lemma getCachedClient_keeps k : keeps f (getCachedClient dial clock k).
Proof.
  unfold getCachedClient. apply keeps_bind; [done|intros x]. destruct (isShutdown x); [done|].
  apply keeps_bind; [apply breaker_refuses_keeps|intros []]; [done|].
  apply keeps_bind; [done|intros y].
  assert (Hc : keeps f (g ← generateClient dial clock k;
    match g with
    | inl id => modify (fun x => set_cached (<[k := id]> (cachedClient x)) x);; mret (Some id, None)
    | inr e => mret (None, Some e)
    end)).
  { apply keeps_bind; [apply generateClient_keeps|intros [id|e]]; [|done]. intros z. destruct Hf as [Hc _]. apply Hc. }
  destruct (findCachedClient k y) as [id|]; [|exact Hc].
  destruct (usable id y); [done|]. apply keeps_bind; [apply deleteCachedClient_keeps|intros _; exact Hc].
Qed.
End cache_keeps.

Lemma log_untouched : untouched log.
Proof. done. Qed.

Lemma removeClient_log k client : keeps log (removeClient (S := S) (C := C) k client).
Proof. apply removeClient_keeps, log_untouched. Qed.

Lemma getCachedClient_log k : keeps log (getCachedClient (S := S) dial clock k).
Proof. apply getCachedClient_keeps, log_untouched. Qed.

(** A state is put back with a part changed that [f] does not look at. *)
Lemma keeps_put {T A} (f : xstate -> T) (y : xstate) (q : prog xstate A) x :
  f y = f x -> keeps f q -> f ((put_st y;; q) x).1 = f x.
Proof. intros Hy Hq. unfold mbind, prog_bind, put_st. by rewrite Hq. Qed.

Lemma keeps_lift {T A} (f : xstate -> T) (r : result A) : keeps f (lift r).
Proof. done. Qed.

Lemma selectClient_log r : keeps log (selectClient dial rnd clock r).
Proof.
  unfold selectClient. apply keeps_bind; [done|intros n]. apply keeps_get_bind. intros x.
  destruct (Select (rnd n) r (selector x)) as [s k]. apply keeps_put; [done|].
  apply keeps_bind; [apply keeps_lift|intros key]. case_decide; [done|].
  apply keeps_bind; [apply getCachedClient_log|by intros [client err]].
Qed.

Lemma next_client_log mode r k : keeps log (next_client dial rnd clock mode r k).
Proof.
  unfold next_client. destruct mode; try apply selectClient_log.
  apply keeps_bind; [apply getCachedClient_log|by intros [client err]].
Qed.

(** A selection without an error gives a connection. *)
Lemma getCachedClient_Some k x x' client :
  getCachedClient (S := S) dial clock k x = (x', Ok (client, None)) -> is_Some client.
Proof.
  unfold getCachedClient. intros E. unfold mbind, prog_bind, get_st, mret, prog_ret in E.
  destruct (isShutdown x); [done|].
  destruct (breaker_refuses clock k x) as [x1 [[]| | | |]]; try done.
  assert (Hc : forall y, (match generateClient dial clock k y with
      | (s', Ok (inl id)) => match modify (fun x => set_cached (<[k:=id]> (cachedClient x)) x) s' with
          | (s'0, Ok _) => (s'0, Ok (Some id, None)) | (s'0, Err e) => (s'0, Err e)
          | (s'0, Panic) => (s'0, Panic) | (s'0, Fatal) => (s'0, Fatal) | (s'0, Blocked) => (s'0, Blocked) end
      | (s', Ok (inr e)) => (s', Ok (None, Some e))
      | (s', Err e) => (s', Err e) | (s', Panic) => (s', Panic) | (s', Fatal) => (s', Fatal)
      | (s', Blocked) => (s', Blocked) end) = (x', Ok (client, None)) -> is_Some client).
  { intros y. destruct (generateClient dial clock k y) as [y' [[id|e]| | | |]]; try done.
    cbn. intros [= _ <-]. by eexists. }
  destruct (findCachedClient k x1) as [id|].
  - destruct (usable id x1); [injection E as _ <-; by eexists|].
    destruct (deleteCachedClient (Some id) k x1) as [x2 [u| | | |]]; try done. apply (Hc x2). rewrite <- E.
    by destruct (generateClient dial clock k x2) as [y' [[i|e]| | | |]].
  - apply (Hc x1). rewrite <- E. by destruct (generateClient dial clock k x1) as [y' [[i|e]| | | |]].
Qed.

Lemma selectClient_Some r x x' k client :
  selectClient dial rnd clock r x = (x', Ok (k, client, None)) -> is_Some client.
Proof.
  unfold selectClient, ask, mbind, prog_bind, get_st, put_st, lift, mret, prog_ret.
  match goal with |- context [Select ?n r ?s] => destruct (Select n r s) as [s' [key| | | |]] end; try done.
  case_decide; [done|].
  match goal with |- context [getCachedClient dial clock key ?y] =>
    destruct (getCachedClient dial clock key y) as [y' [[cl [e|]]| | | |]] eqn:E end; try done.
  intros [= _ _ <-]. by eapply getCachedClient_Some.
Qed.

(** ** The attempts of a call *)

(** Failures after which the loops try again, and those they hand on. *)
Definition retryable (p : nat * option error) : Prop :=
  p.2 <> None /\ contextCanceled p.2 = false /\ isServiceError p.2 = false.

Definition final (e : option error) : Prop := contextCanceled e = true \/ isServiceError e = true.

(** How a result follows from the attempts [l]. *)
Definition explained (l : list (nat * option error)) (res : result (option error)) : Prop :=
  match res with
  | Ok None => exists l0 id, l = l0 ++ [(id, None)] /\ Forall retryable l0
  | Ok (Some e) => Forall retryable l \/
      exists l0 id, l = l0 ++ [(id, Some e)] /\ Forall retryable l0 /\ final (Some e)
  | _ => Forall retryable l
  end.

Lemma explained_cons p l res : retryable p -> explained l res -> explained (p :: l) res.
Proof.
  intros Hp. destruct res as [[e|]| | | |]; cbn; try (by constructor).
  - intros [Hl|(l0 & id & -> & Hl & Hf)]; [left; by constructor|].
    right. exists (p :: l0), id. split_and!; [done|by constructor|done].
  - intros (l0 & id & -> & Hl). exists (p :: l0), id. split; [done|by constructor].
Qed.

Lemma wrapCall_Ok id (x x' : xstate) e :
  wrapCall invoke (Some id) x = (x', Ok e) -> log x' = log x ++ [(id, e)].
Proof.
  unfold wrapCall, ask, mbind, prog_bind, get_st, put_st, lift, mret, prog_ret. cbn.
  destruct (objs x !! id) as [c|]; [|done]. destruct (invoke (tick x) c) as [c' e'] eqn:E.
  cbn. by intros [= <- <-].
Qed.

Lemma wrapCall_fail id (x x' : xstate) res :
  wrapCall invoke (Some id) x = (x', res) -> (forall e, res <> Ok e) ->
  log x' = log x.
Proof.
  unfold wrapCall, ask, mbind, prog_bind, get_st, put_st, lift, mret, prog_ret. cbn.
  destruct (objs x !! id) as [c|]; [|by intros [= <- <-]].
  destruct (invoke (tick x) c) as [c' e']. cbn. intros [= <- <-] Hn. by destruct (Hn e').
Qed.

Lemma Call_loop_explained mode r n k client err e (x x' : xstate) res :
  err <> None \/ (n <> 0%nat /\ client <> None) ->
  Call_loop dial invoke rnd clock mode r n k client err e x = (x', res) ->
  exists l, log x' = log x ++ l /\ (length l <= n)%nat /\ explained l res.
Proof.
  revert k client err e x. induction n as [|n IH]; intros k client err e x Hinv; cbn [Call_loop].
  - destruct Hinv as [Herr|[? _]]; [|done]. destruct err as [err|]; [|done].
    intros [= <- <-]. exists []. split_and!; [by rewrite app_nil_r|done|by left].
  - assert (Hagain : forall err0 x0, err0 <> None ->
      ((if uncoverError err0 then removeClient k client else mret tt);;
        '(k, client, e) ← next_client dial rnd clock mode r k;
        Call_loop dial invoke rnd clock mode r n k client err0 e) x0 = (x', res) ->
      exists l, log x' = log x0 ++ l /\ (length l <= n)%nat /\ explained l res).
    { intros err0 x0 Herr0 E. unfold mbind, prog_bind in E.
      assert (Hr : keeps log (if uncoverError err0 then removeClient (S := S) (C := C) k client else mret tt))
        by (destruct (uncoverError err0); [apply removeClient_log|done]).
      specialize (Hr x0).
      destruct ((if uncoverError err0 then removeClient (S := S) (C := C) k client else mret tt) x0)
        as [x1 [u| | | |]]; cbn in Hr;
        try (injection E as <- <-; exists []; rewrite Hr, app_nil_r; split_and!; [done|cbn; lia|constructor]).
      pose proof (next_client_log mode r k x1) as Hn.
      destruct (next_client dial rnd clock mode r k x1) as [x2 [[[k2 client2] e2]| | | |]]; cbn in Hn;
        try (injection E as <- <-; exists []; rewrite Hn, Hr, app_nil_r; split_and!; [done|cbn; lia|constructor]).
      apply IH in E as (l & Hl & Hlen & Hex); [|by left]. exists l. by rewrite Hl, Hn, Hr. }
    destruct client as [id|].
    + unfold mbind at 1, prog_bind at 1. destruct (wrapCall invoke (Some id) x) as [x1 [e1| | | |]] eqn:Ew;
        try (intros [= <- <-]; apply wrapCall_fail in Ew; [|done]; exists []; rewrite Ew, app_nil_r; split_and!; [done|cbn; lia|constructor]).
      apply wrapCall_Ok in Ew. destruct e1 as [e1|].
      * destruct (contextCanceled (Some e1) || isServiceError (Some e1)) eqn:Ef.
        -- intros [= <- <-]. exists [(id, Some e1)]. split_and!; [done|cbn; lia|].
           right. exists [], id. split_and!; [done|constructor|]. by apply orb_true_iff in Ef.
        -- intros E. apply Hagain in E as (l & Hl & Hlen & Hex); [|done].
           exists ((id, Some e1) :: l). rewrite Hl, Ew, <- app_assoc. split_and!; [done|cbn; lia|].
           apply explained_cons; [|done]. by apply orb_false_iff in Ef.
      * intros [= <- <-]. exists [(id, None)]. split_and!; [done|cbn; lia|]. exists [], id. split; [done|constructor].
    + intros E. destruct Hinv as [Herr|[_ ?]]; [|done].
      apply Hagain in E as (l & Hl & Hlen & Hex); [|done]. exists l. split_and!; [done|lia|done].
Qed.

(** C15: in the retrying modes a call makes at most [Retries + 1] attempts,
    and its result is explained by them: nil exactly when the last attempt
    succeeded, and a success ends the loop; a service error or an error of
    the context is handed to the caller at once, without another attempt; any
    other error is returned only after every attempt made had failed with an
    error worth a retry. *)
Theorem Call_attempts backup r (x x' : xstate) res :
  failMode x = Failtry \/ failMode x = Failover -> 0 <= Retries x -> isShutdown x = false ->
  Call dial invoke rnd clock backup r x = (x', res) ->
  exists l, log x' = log x ++ l /\ Z.of_nat (length l) <= Retries x + 1 /\ explained l res.
Proof.
  intros Hmode Hretry Hsh. unfold Call, mbind, prog_bind, get_st. rewrite Hsh.
  pose proof (selectClient_log r x) as Hs.
  destruct (selectClient dial rnd clock r x) as [x1 [[[k client] err]| | | |]] eqn:Es; cbn in Hs;
    try (intros [= <- <-]; exists []; rewrite Hs, app_nil_r; split_and!; [done|cbn; lia|constructor]).
  assert (Hctx : match err with Some _ => match failMode x with Failfast => true | _ => contextCanceled err end
                 | None => false end = contextCanceled err).
  { destruct err; [|done]. by destruct Hmode as [-> | ->]. }
  rewrite Hctx. destruct (contextCanceled err) eqn:Ec.
  - intros [= <- <-]. exists []. rewrite Hs, app_nil_r. split_and!; [done|cbn; lia|].
    destruct err; [by left|done].
  - intros E. assert (E' : Call_loop dial invoke rnd clock (failMode x) r (Z.to_nat (Retries x + 1)) k client err None x1 = (x', res))
      by (by destruct Hmode as [Hm|Hm]; rewrite Hm in E |- *).
    apply Call_loop_explained in E' as (l & Hl & Hlen & Hex).
    + exists l. rewrite Hl, Hs. split_and!; [done|lia|done].
    + destruct err as [e|]; [by left|right]. split; [lia|].
      apply selectClient_Some in Es as [id ->]. done.
Qed.

(** In [Failfast] and [Failbackup] mode [SendRaw] reports success
    whatever the connection answered: once a connection was selected, the
    error it returns is nil. *)
Theorem SendRaw_hides_error r (x x1 : xstate) k id (x' : xstate) e :
  failMode x = Failfast \/ failMode x = Failbackup -> isShutdown x = false ->
  selectClient dial rnd clock r x = (x1, Ok (k, Some id, None)) ->
  SendRaw dial invoke rnd clock r x = (x', Ok e) -> e = None.
Proof.
  intros Hmode Hsh Hsel. unfold SendRaw, mbind, prog_bind, get_st. rewrite Hsh, Hsel.
  destruct Hmode as [-> | ->];
    (destruct (wrapCall invoke (Some id) x1) as [x2 [[e1|]| | | |]]; try done; [|by intros [= _ <-]];
     destruct (uncoverError (Some e1));
     [destruct (removeClient k (Some id) x2) as [x3 [u| | | |]]; try done|]; by intros [= _ <-]).
Qed.
End facts.

(** ** With the library's own connection *)
Section standard.
Context {S A R : Type} `{Selector S}.
Context (dial : nat -> string -> Client A R + error) (clock : nat -> Z).
Notation xstate := (xClient S (Client A R)).

(** Closing a client twice: the second time, and any time after the
    connection has ended, ends the process. *)
Lemma CloseClient_twice (c : Client A R) :
  (CloseClient c).2 = Fatal \/ closing (CloseClient c).1 = true /\ exists e, (CloseClient c).2 = Ok e.
Proof.
  cbn. unfold Client.Close. set (c1 := fold_left _ _ c).
  destruct (pluginClosed c1); cbn; destruct (closing c1 || shutdown c1); cbn; eauto.
Qed.

Lemma Close_fold_flags ids (c : Client A R) :
  let c' := fold_left (fun c '(n, id) =>
      fail_call ErrShutdown id (set_pending (delete n (pending c)) c)) ids c in
  closing c' = closing c /\ shutdown c' = shutdown c.
Proof.
  revert c. induction ids as [|[n id] ids IH]; intros c; cbn [fold_left]; [done|].
  destruct (IH (fail_call ErrShutdown id (set_pending (delete n (pending c)) c))) as [-> ->].
  unfold fail_call, done_. cbn. by case_match.
Qed.

Lemma CloseClient_stale (c : Client A R) :
  closing c || shutdown c = true -> (CloseClient c).2 = Fatal.
Proof.
  intros Hst. cbn. unfold Client.Close.
  destruct (Close_fold_flags (map_to_list (pending c)) c) as [Hc Hs].
  set (c1 := fold_left _ _ c) in *. destruct (pluginClosed c1); cbn; by rewrite Hc, Hs, Hst.
Qed.

Lemma close_obj_stale id (x : xstate) c :
  objs x !! id = Some c -> closing c || shutdown c = true -> (close_obj id x).2 = Fatal.
Proof.
  intros Hid Hst. unfold close_obj. rewrite Hid. pose proof (CloseClient_stale c Hst) as Hf.
  destruct (CloseClient c) as [c' r]. cbn in Hf. by subst r.
Qed.

(** With the library's own connection the client cannot replace a
    connection: removing the cached one closes it twice, and dropping a cached
    one that is closing or shut down closes it once more than its mutex
    allows; both end the process.  So an error worth a retry ends the process
    instead of trying another server. *)
Theorem standard_client_fatal k id (x : xstate) c :
  cachedClient x !! k = Some id -> objs x !! id = Some c ->
  (removeClient k (Some id) x).2 = Fatal /\
  (closing c || shutdown c = true -> isShutdown x = false -> breakers x !! k = None ->
   (getCachedClient dial clock k x).2 = Fatal).
Proof.
  intros Hk Hid. split.
  - unfold removeClient, deleteCachedClient, findCachedClient, mbind, prog_bind, get_st, modify.
    rewrite Hk, decide_True by done. cbn.
    pose proof (CloseClient_twice c) as Htwice. cbn in Htwice. unfold close_obj. cbn. rewrite Hid.
    destruct (Client.Close (map_to_list (pending c)) None c) as [c1 r] eqn:E. cbn in Htwice.
    destruct Htwice as [->|[Hcl [e ->]]]; [done|]. cbn. rewrite lookup_insert_eq.
    pose proof (CloseClient_stale c1) as Hst. cbn in Hst. rewrite Hcl in Hst. specialize (Hst eq_refl).
    destruct (Client.Close (map_to_list (pending c1)) None c1) as [c2 r2]. cbn in Hst. by subst r2.
  - intros Hst Hsh Hbr. unfold getCachedClient, breaker_refuses, mbind, prog_bind, get_st.
    rewrite Hsh, Hbr. cbn. unfold findCachedClient, usable. rewrite Hk, Hid. cbn.
    rewrite <- negb_orb, Hst. cbn.
    pose proof (close_obj_stale id (set_cached (delete k (cachedClient x)) x) c Hid Hst) as Hf.
    unfold deleteCachedClient, modify, mbind, prog_bind. cbn.
    destruct (close_obj id (set_cached (delete k (cachedClient x)) x)) as [x1 r]. cbn in Hf. by subst r.
Qed.
End standard.

(** ** The cache *)
Section cache.
Context {S C : Type} `{RPCClient C}.
Context (dial : nat -> string -> C + error) (clock : nat -> Z).
Notation xstate := (xClient S C).

(** One connection per server: once [getCachedClient] has given a usable
    connection for a key, it gives the same one again, without dialling, for
    as long as the connection stays usable and cached; and what it gives is
    cached under that key. *)
Theorem getCachedClient_cached k (x x' : xstate) id :
  GenBreaker x = None -> breakers x = ∅ ->
  getCachedClient dial clock k x = (x', Ok (Some id, None)) ->
  cachedClient x' !! k = Some id /\ is_Some (objs x' !! id) /\
  (usable id x' = true -> getCachedClient dial clock k x' = (x', Ok (Some id, None))).
Proof.
  intros Hgen Hbr E.
  assert (Hagain : forall y : xstate, isShutdown y = false -> breakers y = ∅ ->
    cachedClient y !! k = Some id -> usable id y = true ->
    getCachedClient dial clock k y = (y, Ok (Some id, None))).
  { intros y Hsh Hb Hk Hu. unfold getCachedClient, breaker_refuses, mbind, prog_bind, get_st.
    rewrite Hsh, Hb, lookup_empty. cbn. unfold findCachedClient. by rewrite Hk, Hu. }
  unfold getCachedClient, breaker_refuses, mbind, prog_bind, get_st in E.
  destruct (isShutdown x) eqn:Hsh; [done|]. rewrite Hbr, lookup_empty in E. cbn in E. unfold findCachedClient in E.
  assert (Hconnect : forall y : xstate, isShutdown y = false -> GenBreaker y = None -> breakers y = ∅ ->
    (let '(s', r) := generateClient dial clock k y in
     match r with
     | Ok (inl i) => (set_cached (<[k := i]> (cachedClient s')) s', Ok (Some i, @None error))
     | Ok (inr e) => (s', Ok (None, Some e)) | Err e => (s', Err e)
     | Panic => (s', Panic) | Fatal => (s', Fatal) | Blocked => (s', Blocked)
     end) = (x', Ok (Some id, None)) ->
    cachedClient x' !! k = Some id /\ is_Some (objs x' !! id) /\ isShutdown x' = false /\ breakers x' = ∅).
  { intros y Hy Hg Hb. unfold generateClient, ask, mbind, prog_bind, get_st, mret, prog_ret.
    rewrite Hg. cbn. destruct (dial (tick y) k) as [c|e]; cbn; rewrite ?Hg; [|done].
    intros [= <- <-]. cbn. rewrite !lookup_insert_eq. by split_and!. }
  destruct (cachedClient x !! k) as [i|] eqn:Hk.
  - destruct (usable i x) eqn:Hu.
    + injection E as <- ->. split_and!; [done| |by intros _; apply Hagain].
      unfold usable in Hu. by destruct (objs x !! id).
    + destruct (deleteCachedClient (Some i) k x) as [x1 [u| | | |]] eqn:Ed; try done.
      assert (Hx1 : isShutdown x1 = false /\ GenBreaker x1 = None /\ breakers x1 = ∅).
      { unfold deleteCachedClient, modify, mbind, prog_bind, close_obj in Ed. cbn in Ed.
        destruct (objs x !! i) as [c|]; [destruct (CloseClient c) as [c1 [r| | | |]]|]; injection Ed as <-; done. }
      destruct Hx1 as (H1 & H2 & H3). specialize (Hconnect x1 H1 H2 H3). unfold mbind, prog_bind in E.
      destruct (generateClient dial clock k x1) as [s' [[j|e]| | | |]]; try done.
      destruct (Hconnect E) as (G1 & G2 & G3 & G4). split_and!; [done|done|]. intros; by apply Hagain.
  - specialize (Hconnect x Hsh Hgen Hbr). unfold mbind, prog_bind in E.
    destruct (generateClient dial clock k x) as [s' [[j|e]| | | |]]; try done.
    destruct (Hconnect E) as (G1 & G2 & G3 & G4). split_and!; [done|done|]. intros; by apply Hagain.
Qed.
End cache.

(** ** Witnesses: two servers, the first of which fails every call *)

(** A connection of another implementation of the interface, one that may be
    closed any number of times: its server and whether it is closed. *)
#[export] Instance toy_client : RPCClient (string * bool) := {
  IsClosing c := c.2;
  IsShutdown c := false;
  CloseClient c := ((c.1, true), Ok None)
}.

#[export] Instance list_selector : Selector (list string) := {
  Select _ _ ss := match ss with [] => (ss, Ok "") | s :: ss' => (ss' ++ [s], Ok s) end;
  UpdateServer order _ := Ok order.*1;
  served ss := ss;
  selector_wf _ := True
}.

Definition toy_dial (_ : nat) (k : string) : (string * bool) + error := inl (k, false).
Definition toy_invoke (_ : nat) (c : string * bool) : (string * bool) * option error :=
  (c, if decide (c.1 = "tcp@a:1") then Some ErrShutdown else None).

Definition toy_xclient (mode : FailMode) : xClient (list string) (string * bool) :=
  mk_xClient mode 3 None false "" ∅ ["tcp@a:1"; "tcp@b:1"] ∅ ∅ ∅ [] 0.

Definition toy_request : request := mk_request "Arith" "Mul" "".
Definition toy_Call :=
  Call toy_dial toy_invoke (fun _ => 0%nat) (fun _ => 0) (None, Timer, None, Timer) toy_request (toy_xclient Failover).

Lemma Call_attempts_witness :
  toy_Call.2 = Ok None /\ log toy_Call.1 = [(0%nat, Some ErrShutdown); (1%nat, None)] /\
  exists l, log toy_Call.1 = [] ++ l /\ Z.of_nat (length l) <= 3 + 1 /\ explained l toy_Call.2.
Proof.
  split; [vm_compute; reflexivity|]. split; [vm_compute; reflexivity|].
  apply (Call_attempts toy_dial toy_invoke (fun _ => 0%nat) (fun _ => 0) (None, Timer, None, Timer) toy_request
    (toy_xclient Failover)); [by right|cbn; lia|reflexivity|].
  unfold toy_Call. by destruct (Call _ _ _ _ _ _ _).
Defined.

Lemma SendRaw_hides_error_witness :
  exists x', SendRaw toy_dial toy_invoke (fun _ => 0%nat) (fun _ => 0) toy_request (toy_xclient Failfast)
    = (x', Ok None) /\ log x' = [(0%nat, Some ErrShutdown)] /\ @None error = None.
Proof.
  eexists. split; [vm_compute; reflexivity|]. split; [reflexivity|].
  refine (SendRaw_hides_error toy_dial toy_invoke (fun _ => 0%nat) (fun _ => 0) toy_request (toy_xclient Failfast)
    _ "tcp@a:1" 0%nat _ None _ _ _ _); [by left|reflexivity|vm_compute; reflexivity|vm_compute; reflexivity].
Defined.

Definition standard_xclient : xClient (list string) (Client unit unit) :=
  mk_xClient Failover 3 None false "" ∅ ["tcp@a:1"] {["tcp@a:1" := 0%nat]}
    {[0%nat := set_flags false true true true (NewClient (mk_Option x00 x00 false))]} ∅ [] 0.

Lemma standard_client_fatal_witness :
  (removeClient "tcp@a:1" (Some 0%nat) standard_xclient).2 = Fatal /\
  (getCachedClient (fun _ _ => inr EOF) (fun _ => 0) "tcp@a:1" standard_xclient).2 = Fatal.
Proof.
  destruct (standard_client_fatal (fun _ _ => inr EOF) (fun _ => 0) "tcp@a:1" 0 standard_xclient
    (set_flags false true true true (NewClient (mk_Option x00 x00 false)))) as [H1 H2];
    [reflexivity|reflexivity|].
  split; [exact H1|]. apply H2; reflexivity.
Defined.

Lemma getCachedClient_cached_witness :
  let x' := (getCachedClient toy_dial (fun _ => 0) "tcp@a:1" (toy_xclient Failover)).1 in
  cachedClient x' !! "tcp@a:1" = Some 0%nat /\
  getCachedClient toy_dial (fun _ => 0) "tcp@a:1" x' = (x', Ok (Some 0%nat, None)).
Proof.
  destruct (getCachedClient_cached toy_dial (fun _ => 0) "tcp@a:1" (toy_xclient Failover)
    (getCachedClient toy_dial (fun _ => 0) "tcp@a:1" (toy_xclient Failover)).1 0%nat) as (H1 & _ & H3);
    [reflexivity|reflexivity|vm_compute; reflexivity|].
  split; [exact H1|]. apply H3. vm_compute. reflexivity.
Defined.
