(* ===== verification/Failover.v ===== *)
(** A call in [Failover] mode reaches a live server.

    XClientFacts says what the result of a call means; here is when there is
    one.  What the network does is described by three predicates: the servers
    that are up, the connections that answer, and the connections that fail.
    A selector [finds] a server that is up within [m + 1] selections, whatever
    random numbers it is given; then a client with [m <= Retries] returns
    nil.  Round robin over a list finds one within the length of the list. *)
From S2P Require Import Prelude Go Share UrlQuery Selectors Breaker Message Client XClient XClientFacts.
Open Scope go_scope.

(** ** Programs that return, with a postcondition *)
Section yields.
Context {St : Type}.

Definition yields {A} (p : prog St A) (Q : St -> A -> Prop) (x : St) : Prop :=
  exists x' a, p x = (x', Ok a) /\ Q x' a.

Lemma yields_ret {A} (a : A) (Q : St -> A -> Prop) x : Q x a -> yields (mret a) Q x.
Proof. intros HQ. by exists x, a. Qed.

Lemma yields_bind {A B} (p : prog St A) (f : A -> prog St B) (P : St -> A -> Prop) Q x :
  yields p P x -> (forall x' a, P x' a -> yields (f a) Q x') -> yields (p ≫= f) Q x.
Proof.
  intros (x' & a & E & HP) Hf. destruct (Hf _ _ HP) as (x'' & b & E' & HQ).
  exists x'', b. split; [|done]. unfold mbind, prog_bind. by rewrite E.
Qed.

Lemma yields_weaken {A} (p : prog St A) (P Q : St -> A -> Prop) x :
  yields p P x -> (forall x' a, P x' a -> Q x' a) -> yields p Q x.
Proof. intros (x' & a & E & HP) HPQ. exists x', a. auto. Qed.

(** What a program keeps may be added to its postcondition. *)
Lemma yields_same {A T} (f : St -> T) (p : prog St A) (Q : St -> A -> Prop) x :
  (forall y, f (p y).1 = f y) -> yields p Q x -> yields p (fun x' a => Q x' a /\ f x' = f x) x.
Proof. intros Hf (x' & a & E & HQ). exists x', a. split_and!; [done|done|]. by rewrite <- (Hf x), E. Qed.
End yields.

Section failover.
Context {S C : Type} `{Selector S} `{RPCClient C}.
Context (dial : nat -> string -> C + error) (invoke : nat -> C -> C * option error)
        (rnd : nat -> nat) (clock : nat -> Z).
Notation xstate := (xClient S C).

(** ** The network

    [up]: the servers that answer now.  [live]: the connections whose calls
    succeed, which then are [answered].  [bad]: those whose calls fail with an error worth a retry, and
    which can be closed more than once; with the library's own connection,
    which cannot, there are none, and a server that is not up refuses to be
    dialled. *)
Record network (up : string -> Prop) (live answered bad : C -> Prop) : Prop := {
  net_up n k : up k -> exists c, dial n k = inl c /\ live c;
  net_dial n k : match dial n k with inl c => live c \/ bad c | inr e => contextCanceled (Some e) = false end;
  net_usable c : live c -> IsClosing c = false /\ IsShutdown c = false;
  net_live n c : live c -> exists c', invoke n c = (c', None) /\ live c' /\ answered c';
  net_bad n c : bad c -> exists c' e, invoke n c = (c', Some e) /\ bad c' /\ retryable (0%nat, Some e);
  net_close c : bad c -> exists c' e, CloseClient c = (c', Ok e) /\ bad c'
}.

Context {up : string -> Prop} {live answered bad : C -> Prop} (Hnet : network up live answered bad).

(** Within [m + 1] selections a server that is up is chosen. *)
Fixpoint finds (r : request) (m : nat) (s : S) : Prop :=
  forall n, exists s' k, Select n r s = (s', Ok k) /\
    (k <> "" /\ up k \/ match m with O => False | Datatypes.S m => finds r m s' end).

(** The state between two attempts: no breaker, and no cached connection to
    a server that is up fails. *)
Definition conn_ok (x : xstate) (id : nat) : Prop :=
  exists c, objs x !! id = Some c /\ (live c \/ bad c).

Definition conn_live (x : xstate) (id : nat) : Prop :=
  exists c, objs x !! id = Some c /\ live c.

Definition conn_answered (x : xstate) (id : nat) : Prop :=
  exists c, objs x !! id = Some c /\ live c /\ answered c.

Record reaching (x : xstate) : Prop := {
  r_open : isShutdown x = false;
  r_gen : GenBreaker x = None;
  r_breakers : breakers x = ∅;
  r_cached k id : cachedClient x !! k = Some id -> conn_ok x id /\ (up k -> conn_live x id)
}.

(** What a selection gives. *)
Definition selected (x : xstate) (client : option nat) (e : option error) : Prop :=
  match client with
  | Some id => e = None /\ conn_ok x id
  | None => e <> None /\ contextCanceled e = false
  end.

Lemma bad_not_live c : bad c -> ~ live c.
Proof.
  intros Hb Hl. destruct (net_bad _ _ _ _ Hnet 0 c Hb) as (c' & e & E & _).
  destruct (net_live _ _ _ _ Hnet 0 c Hl) as (c2 & E2 & _). congruence.
Qed.

Lemma conn_ok_insert (x : xstate) m id c i :
  m = <[id := c]> (objs x) -> live c \/ bad c -> conn_ok x i -> conn_ok (set_objs m x) i.
Proof.
  intros -> Hc (ci & Hi & ?). unfold conn_ok. cbn. destruct (decide (i = id)) as [->|].
  - exists c. by rewrite lookup_insert_eq.
  - exists ci. by rewrite lookup_insert_ne.
Qed.

(** An insertion that does not turn a live connection into a failing one. *)
Lemma reaching_insert (x : xstate) id c :
  reaching x -> live c \/ bad c -> (conn_live x id -> live c) -> reaching (set_objs (<[id := c]> (objs x)) x).
Proof.
  intros [H1 H2 H3 H4] Hc Hl. split; [done..|]. cbn. intros k i Hk. destruct (H4 k i Hk) as [Hok Hup].
  split; [by eapply conn_ok_insert|]. intros (ci & Hi & Hlive)%Hup. unfold conn_live. cbn.
  destruct (decide (i = id)) as [->|].
  - exists c. rewrite lookup_insert_eq. split; [done|]. apply Hl. by exists ci.
  - exists ci. by rewrite lookup_insert_ne.
Qed.

Lemma reaching_cached (x : xstate) m :
  reaching x -> (forall k id, m !! k = Some id -> conn_ok x id /\ (up k -> conn_live x id)) ->
  reaching (set_cached m x).
Proof. intros [H1 H2 H3 _] Hm. by split. Qed.

Lemma reaching_selector (x : xstate) s : reaching x -> reaching (set_selector s x).
Proof. by intros [H1 H2 H3 H4]. Qed.

Lemma reaching_ask (x : xstate) : reaching x -> reaching (ask x).1.
Proof. by intros [H1 H2 H3 H4]. Qed.

Lemma reaching_log (x : xstate) l : reaching x -> reaching (set_log l x).
Proof. by intros [H1 H2 H3 H4]. Qed.

(** ** Selecting *)
Lemma generateClient_yields k (x : xstate) :
  reaching x -> cachedClient x !! k = None ->
  yields (generateClient dial clock k) (fun x' g =>
    reaching x' /\ cachedClient x' = cachedClient x /\
    match g with
    | inl id => conn_ok x' id /\ (up k -> conn_live x' id)
    | inr e => contextCanceled (Some e) = false /\ ~ up k
    end) x.
Proof.
  intros Hx Hk. unfold generateClient.
  assert (Hg := r_gen _ Hx). unfold yields, mbind, prog_bind, get_st, ask, put_st, mret, prog_ret. rewrite Hg. cbn.
  pose proof (net_dial _ _ _ _ Hnet (tick x) k) as Hd. pose proof (net_up _ _ _ _ Hnet (tick x) k) as Hu.
  destruct (dial (tick x) k) as [c|e]; cbn.
  - eexists _, _. split; [reflexivity|]. set (id := fresh _).
    assert (Hid : objs x !! id = None) by apply not_elem_of_dom, is_fresh.
    assert (Hlu : up k -> live c) by (intros (c' & [= <-] & ?)%Hu; done).
    split_and!; [|done| |].
    + apply (reaching_insert (ask x).1); [by apply reaching_ask|done|]. intros (c0 & Hc0 & _). cbn in Hc0. by rewrite Hid in Hc0.
    + exists c. cbn. by rewrite lookup_insert_eq.
    + intros ?. exists c. cbn. rewrite lookup_insert_eq. auto.
  - rewrite Hg. eexists _, _. split; [reflexivity|]. split_and!; [|done|done|].
    + by destruct Hx.
    + by intros (c' & ? & _)%Hu.
Qed.

(** Closing a failing connection and forgetting it. *)
Lemma close_bad_yields id (x : xstate) c :
  reaching x -> objs x !! id = Some c -> bad c ->
  yields (close_obj id) (fun x' _ => reaching x' /\ cachedClient x' = cachedClient x /\
    exists c', objs x' !! id = Some c' /\ bad c') x.
Proof.
  intros Hx Hid Hb. unfold yields, close_obj. rewrite Hid.
  destruct (net_close _ _ _ _ Hnet c Hb) as (c' & e & -> & Hb'). eexists _, _. split; [reflexivity|]. split_and!; [|done|].
  - apply reaching_insert; [done|by right|]. intros (c0 & Hc0 & Hl). rewrite Hid in Hc0. injection Hc0 as <-.
    by destruct (bad_not_live c).
  - exists c'. cbn. by rewrite lookup_insert_eq.
Qed.

Lemma deleteCachedClient_yields id k (x : xstate) c :
  reaching x -> objs x !! id = Some c -> bad c ->
  yields (deleteCachedClient (Some id) k) (fun x' _ => reaching x' /\ cachedClient x' !! k = None /\
    exists c', objs x' !! id = Some c' /\ bad c') x.
Proof.
  intros Hx Hid Hb. unfold deleteCachedClient.
  apply (yields_bind _ _ (fun x' _ => x' = set_cached (delete k (cachedClient x)) x)).
  { by eexists _, _. }
  intros x' _ ->. eapply yields_bind.
  - apply (close_bad_yields id _ c); [|done..]. apply reaching_cached; [done|].
    intros k' i Hk'. apply lookup_delete_Some in Hk' as [_ Hk']. by apply (r_cached _ Hx).
  - intros x2 e (Hx2 & Hc2 & Hb2). apply yields_ret. rewrite Hc2. cbn. by rewrite lookup_delete_eq.
Qed.
Definition connect k : prog xstate (option nat * option error) :=
  g ← generateClient dial clock k;
  match g with
  | inl id => modify (fun x => set_cached (<[k := id]> (cachedClient x)) x);; mret (Some id, None)
  | inr e => mret (None, Some e)
  end.

(** What the client of a key is, up to errors. *)
Definition got (k : string) (x' : xstate) (a : option nat * option error) : Prop :=
  reaching x' /\ selected x' a.1 a.2 /\ (up k -> exists id, a.1 = Some id /\ conn_live x' id).

Lemma connect_yields k (x : xstate) :
  reaching x -> cachedClient x !! k = None -> yields (connect k) (got k) x.
Proof.
  intros Hx Hk. eapply yields_bind; [by apply generateClient_yields|].
  intros x1 [id|e] (Hx1 & Hc1 & Hg); cbn in Hg.
  - destruct Hg as [Hok Hl]. eexists _, _. split; [reflexivity|].
    split_and!; [|done|by intros ?; exists id; split; [|apply Hl]].
    apply reaching_cached; [done|]. intros k' i Hk'.
    apply lookup_insert_Some in Hk' as [[<- <-]|[_ Hk']]; [done|]. by apply (r_cached _ Hx1).
  - destruct Hg as [He Hnu]. apply yields_ret. by split_and!.
Qed.

Lemma getCachedClient_yields k (x : xstate) :
  reaching x -> yields (getCachedClient dial clock k) (got k) x.
Proof.
  intros Hx. assert (E : getCachedClient dial clock k x =
    match findCachedClient k x with
    | Some id => if usable id x then mret (Some id, None) else deleteCachedClient (Some id) k;; connect k
    | None => connect k
    end x).
  { unfold getCachedClient, breaker_refuses, mbind, prog_bind, get_st.
    by rewrite (r_open _ Hx), (r_breakers _ Hx), lookup_empty. }
  unfold yields. rewrite E. clear E. unfold findCachedClient.
  destruct (cachedClient x !! k) as [id|] eqn:Hk; [|by apply connect_yields].
  destruct (r_cached _ Hx _ _ Hk) as [(c & Hid & Hc) Hl].
  assert (Hu : usable id x = negb (IsClosing c) && negb (IsShutdown c)) by (unfold usable; by rewrite Hid).
  destruct (usable id x).
  - apply yields_ret. split_and!; [done|by split; [|exists c]|]. intros ?. exists id. auto.
  - destruct Hc as [Hc|Hc]; [by destruct (net_usable _ _ _ _ Hnet c Hc) as [-> ->] in Hu|].
    eapply yields_bind; [by eapply deleteCachedClient_yields|].
    intros x1 [] (Hx1 & Hk1 & _). by apply connect_yields.
Qed.

(** A selection: the connection of the key that was selected. *)
Lemma selectClient_yields r (x : xstate) s' k :
  reaching x -> Select (rnd (tick x)) r (selector x) = (s', Ok k) ->
  yields (selectClient dial rnd clock r) (fun x' a =>
    reaching x' /\ selector x' = s' /\ selected x' a.1.2 a.2 /\
    (k <> "" -> up k -> exists id, a.1.2 = Some id /\ conn_live x' id)) x.
Proof.
  intros Hx Hsel. unfold selectClient.
  apply (yields_bind _ _ (fun y n => y = (ask x).1 /\ n = tick x)); [by eexists _, _|]. intros ? ? [-> ->].
  apply (yields_bind _ _ (fun y z => y = (ask x).1 /\ z = (ask x).1)); [by eexists _, _|]. intros ? ? [-> ->].
  change (selector (ask x).1) with (selector x). rewrite Hsel.
  apply (yields_bind _ _ (fun y _ => y = set_selector s' (ask x).1)); [by eexists _, _|]. intros ? _ ->.
  apply (yields_bind _ _ (fun y a => y = set_selector s' (ask x).1 /\ a = k)); [by eexists _, _|]. intros ? ? [-> ->].
  assert (Hx1 : reaching (set_selector s' (ask x).1)) by by apply reaching_selector, reaching_ask.
  case_decide; [by apply yields_ret|]. eapply yields_bind.
  - apply (yields_same selector), getCachedClient_yields; [by apply getCachedClient_keeps|done].
  - intros x2 [client e] ((Hx2 & Hs2 & Hl2) & Hsel2). apply yields_ret. by split_and!.
Qed.

(** ** Calling *)
Lemma wrapCall_live id (x : xstate) :
  reaching x -> conn_live x id ->
  exists x', wrapCall invoke (Some id) x = (x', Ok None) /\
    log x' = log x ++ [(id, None)] /\ reaching x' /\ conn_answered x' id /\ selector x' = selector x.
Proof.
  intros Hx (c & Hid & Hc). unfold wrapCall, ask, mbind, prog_bind, get_st, put_st, lift, mret, prog_ret. cbn.
  rewrite Hid. destruct (net_live _ _ _ _ Hnet (tick x) c Hc) as (c' & -> & Hc' & Ha).
  eexists. split; [reflexivity|]. split_and!; [done| | |done].
  - apply (reaching_log (set_objs _ _)), (reaching_insert (ask x).1); [by apply reaching_ask|by left|done].
  - exists c'. cbn. by rewrite lookup_insert_eq.
Qed.

Lemma wrapCall_bad id (x : xstate) c :
  reaching x -> objs x !! id = Some c -> bad c ->
  exists x' e, wrapCall invoke (Some id) x = (x', Ok (Some e)) /\ retryable (id, Some e) /\
    log x' = log x ++ [(id, Some e)] /\ reaching x' /\ selector x' = selector x /\
    exists c', objs x' !! id = Some c' /\ bad c'.
Proof.
  intros Hx Hid Hb. unfold wrapCall, ask, mbind, prog_bind, get_st, put_st, lift, mret, prog_ret. cbn.
  rewrite Hid. destruct (net_bad _ _ _ _ Hnet (tick x) c Hb) as (c' & e & -> & Hb' & Hr).
  eexists _, e. split; [reflexivity|]. split_and!; [apply Hr..|done| |done|].
  - apply (reaching_log (set_objs _ _)), (reaching_insert (ask x).1); [by apply reaching_ask|by right|].
    intros (c0 & Hc0 & Hl). cbn in Hc0. rewrite Hid in Hc0. injection Hc0 as <-. by destruct (bad_not_live c).
  - exists c'. cbn. by rewrite lookup_insert_eq.
Qed.

(** Dropping the connection of an attempt that failed. *)
Definition dropped (x : xstate) (client : option nat) : Prop :=
  match client with
  | Some id => exists c, objs x !! id = Some c /\ bad c
  | None => True
  end.

Lemma removeClient_yields k client (x : xstate) :
  reaching x -> dropped x client -> yields (removeClient k client) (fun x' _ => reaching x') x.
Proof.
  intros Hx Hd. unfold removeClient. apply (yields_bind _ _ (fun y z => y = x /\ z = x)); [by exists x, x|].
  intros ? y [-> ->]. destruct client as [id|]; cbn in Hd.
  - destruct Hd as (c & Hid & Hb).
    apply (yields_bind _ _ (fun x' _ => reaching x' /\ exists c', objs x' !! id = Some c' /\ bad c')).
    + case_decide; [|apply yields_ret; eauto].
      eapply yields_weaken; [by eapply deleteCachedClient_yields|]. intros ? ? (? & _ & ?). done.
    + intros x1 _ (Hx1 & c1 & Hid1 & Hb1). eapply yields_bind; [by apply (close_bad_yields id x1 c1)|].
      intros x2 e (? & _). by apply yields_ret.
  - apply (yields_bind _ _ (fun x' _ => reaching x')).
    + case_decide; [|by apply yields_ret]. eexists _, _. split; [reflexivity|].
      apply reaching_cached; [done|]. intros k' i Hk'.
      apply lookup_delete_Some in Hk' as [_ Hk']. by apply (r_cached _ Hx).
    + intros x1 _ ?. by apply yields_ret.
Qed.

(** An attempt whose turn it is: its connection, if it is a good one, or a
    server that is up within the next [m] selections. *)
Definition found (r : request) (m : nat) (x : xstate) (client : option nat) : Prop :=
  (exists id, client = Some id /\ conn_live x id) \/
  match m with O => False | Datatypes.S m => finds r m (selector x) end.

(** An attempt that failed, which takes a failing connection. *)
Definition failed (a : nat * option error) : Prop := retryable a /\ exists c, bad c.

(** The call succeeds, with a last attempt on a live connection after
    attempts that failed. *)
Definition reaches (p : prog xstate (option error)) (x : xstate) : Prop :=
  yields p (fun x' res => res = None /\ reaching x' /\ exists l id,
    log x' = log x ++ l ++ [(id, None)] /\ Forall failed l /\ conn_answered x' id) x.

(** The attempts made before are added in front. *)
Lemma reaches_after {A} (p : prog xstate A) (f : A -> prog xstate (option error)) x l (P : xstate -> A -> Prop) :
  yields p (fun x' a => log x' = log x ++ l /\ P x' a) x -> Forall failed l ->
  (forall x' a, P x' a -> reaches (f a) x') -> reaches (p ≫= f) x.
Proof.
  intros Hp Hl Hf. eapply yields_bind; [exact Hp|]. intros x1 a [Hlog HP].
  eapply yields_weaken; [by apply Hf|]. intros x2 res (-> & ? & l2 & id & Hlog2 & ? & ?).
  split_and!; [done|done|]. exists (l ++ l2), id. split_and!; [|by apply Forall_app|done].
  by rewrite Hlog2, Hlog, <- !app_assoc.
Qed.

Lemma reaches_quiet {A} (p : prog xstate A) (f : A -> prog xstate (option error)) x (P : xstate -> A -> Prop) :
  keeps log p -> yields p P x -> (forall x' a, P x' a -> reaches (f a) x') -> reaches (p ≫= f) x.
Proof.
  intros Hk Hp. apply (reaches_after _ _ _ []); [|done].
  eapply yields_weaken; [by apply (yields_same log)|]. intros x' a [? ->]. by rewrite app_nil_r.
Qed.

Lemma finds_selects r m s n :
  finds r m s -> exists s' k, Select n r s = (s', Ok k) /\
    (k <> "" /\ up k \/ match m with O => False | Datatypes.S m => finds r m s' end).
Proof. destruct m; intros Hf; apply Hf. Qed.

(** The next selection. *)
Lemma selectClient_found r m (x : xstate) :
  reaching x -> finds r m (selector x) ->
  yields (selectClient dial rnd clock r) (fun x' a =>
    reaching x' /\ selected x' a.1.2 a.2 /\ found r m x' a.1.2) x.
Proof.
  intros Hx Hf. destruct (finds_selects _ _ _ (rnd (tick x)) Hf) as (s' & k & Hsel & Hor).
  eapply yields_weaken; [by eapply selectClient_yields|]. intros x' a (? & Hs & ? & Hup).
  split_and!; [done|done|]. destruct Hor as [[Hne Hk]|Hm]; [left; auto|right]. by rewrite Hs.
Qed.

(** What a failed attempt does before the next one. *)
Lemma again_reaches r m k client err (x : xstate) (loop : string -> option nat -> option error -> prog xstate (option error)) :
  reaching x -> dropped x client -> finds r m (selector x) ->
  (forall k client e x1, reaching x1 -> selected x1 client e -> found r m x1 client -> reaches (loop k client e) x1) ->
  reaches ((if uncoverError err then removeClient k client else mret tt);;
    '(k, client, e) ← next_client dial rnd clock Failover r k; loop k client e) x.
Proof.
  intros Hx Hd Hf Hloop. eapply (reaches_quiet _ _ _ (fun x' _ => reaching x' /\ selector x' = selector x)).
  - destruct (uncoverError err); [apply removeClient_log|apply keeps_ret].
  - apply (yields_same selector).
    + destruct (uncoverError err); [by apply removeClient_keeps|apply keeps_ret].
    + destruct (uncoverError err); [by apply removeClient_yields|by apply yields_ret].
  - intros x1 _ [Hx1 Hs1]. eapply reaches_quiet; [apply next_client_log| |].
    + apply (selectClient_found r m); [done|by rewrite Hs1].
    + intros x2 [[k2 client2] e2] (Hx2 & Hsel & Hfound). by apply Hloop.
Qed.

Lemma live_attempt id n r k err e (x : xstate) :
  reaching x -> conn_live x id ->
  reaches (Call_loop dial invoke rnd clock Failover r (Datatypes.S n) k (Some id) err e) x.
Proof.
  intros Hx Hl. destruct (wrapCall_live id x Hx Hl) as (x' & E & Hlog & Hx' & Hl' & _). cbn [Call_loop].
  exists x', None. split; [unfold mbind, prog_bind; by rewrite E|]. split_and!; [done|done|].
  by exists [], id.
Qed.

(** [m + 1] iterations are enough when a server is found by then. *)
Lemma Call_loop_reaches r n m k client err e (x : xstate) :
  (m <= n)%nat -> reaching x -> match client with Some id => conn_ok x id | None => True end ->
  found r m x client ->
  reaches (Call_loop dial invoke rnd clock Failover r (Datatypes.S n) k client err e) x.
Proof.
  revert m k client err e x. induction n as [|n IH]; intros m k client err e x Hm Hx Hok Hf.
  all: destruct Hf as [(id & -> & Hl)|Hf]; [by apply live_attempt|].
  all: destruct m as [|m]; [done|]; try lia.
  assert (Hloop : forall err k client e x1, reaching x1 -> selected x1 client e -> found r m x1 client ->
    reaches (Call_loop dial invoke rnd clock Failover r (Datatypes.S n) k client err e) x1).
  { intros err1 k1 client1 e1 x1 Hx1 Hsel Hf1. apply (IH m); [lia|done| |done].
    destruct client1; [apply Hsel|done]. }
  pose (loop err k client e := Call_loop dial invoke rnd clock Failover r (Datatypes.S n) k client err e).
  destruct client as [id|]; [|apply (again_reaches r m k None err x (loop err)); [done|done|done|apply Hloop]].
  destruct Hok as (c & Hid & [Hc|Hc]); [apply live_attempt; [done|by exists c]|].
  destruct (wrapCall_bad id x c Hx Hid Hc) as (x1 & e1 & E & Hr & Hlog & Hx1 & Hs1 & Hb1).
  apply (reaches_after _ _ _ [(id, Some e1)] (fun x' a => x' = x1 /\ a = Some e1)).
  - by exists x1, (Some e1).
  - constructor; [split; [done|by exists c]|done].
  - intros ? ? [-> ->]. destruct Hr as (_ & Hr1 & Hr2). cbn [snd] in Hr1, Hr2.
    rewrite Hr1, Hr2. cbn [orb].
    apply (again_reaches r m k (Some id) (Some e1) x1 (loop (Some e1))); [done|done|by rewrite Hs1|apply Hloop].
Qed.

(** In [Failover] mode a call reaches a server that is up, if the selector
    finds one within [Retries + 1] selections. *)
Lemma Call_reaches backup r m (x : xstate) :
  failMode x = Failover -> reaching x -> finds r m (selector x) -> Z.of_nat m <= Retries x ->
  reaches (Call dial invoke rnd clock backup r) x.
Proof.
  intros Hmode Hx Hf Hm. eapply (reaches_quiet _ _ _ (fun y z => y = x /\ z = x)); [apply keeps_get|by exists x, x|].
  intros ? ? [-> ->]. rewrite (r_open _ Hx).
  eapply reaches_quiet; [apply selectClient_log|by apply (selectClient_found r m)|].
  intros x1 [[k client] e] (Hx1 & Hsel & Hfound). cbn in Hsel, Hfound. rewrite Hmode.
  assert (Hgo : match e with Some _ => contextCanceled e | None => false end = false).
  { destruct client; [by destruct Hsel as [-> _]|]. destruct Hsel as [_ ->]. by destruct e. }
  rewrite Hgo. replace (Z.to_nat (Retries x + 1)) with (Datatypes.S (Z.to_nat (Retries x))) by lia.
  apply (Call_loop_reaches r _ m); [lia|done| |done]. destruct client; [apply Hsel|done].
Qed.
End failover.
Arguments finds {S _} up.

(** ** The selectors that find one

    Round robin and weighted round robin choose every server within a bounded
    number of selections, wherever they stand; so does any selector whose list
    has no other server. *)
Section selectors.
Context {D : Type} `{DoubleJump D} (AvgRtt : string -> option Z) (up : string -> Prop).
#[local] Instance made_Selector : Selector (anySelector (H := D)) := any_Selector AvgRtt.

Lemma finds_intro r m (s s' : anySelector) k :
  (forall n, Select n r s = (s', Ok k)) ->
  (k <> "" /\ up k \/ match m with O => False | Datatypes.S m => finds up r m s' end) -> finds up r m s.
Proof. intros Hs Hm. destruct m; intros n; exists s', k; auto. Qed.

Lemma round_robin_finds_at r ss m i k :
  Z.of_nat (length ss) < two63 - 1 -> 0 <= i < two63 ->
  ss !! Z.to_nat ((i + Z.of_nat m) mod Z.of_nat (length ss)) = Some k -> k <> "" -> up k ->
  finds up r m (SelRoundRobin (mk_rr ss i)).
Proof.
  intros Hb Hi Hk Hne Hup. assert (Hl : (0 < length ss)%nat) by (destruct ss; [done|cbn; lia]).
  revert i Hi Hk. induction m as [|m IH]; intros i Hi Hk.
  all: destruct (rr_Select_at ss i Hl) as (x & Hx & E); [unfold two63 in *; lia|done|].
  all: eapply (finds_intro _ _ _ (SelRoundRobin (mk_rr ss (i mod Z.of_nat (length ss) + 1))) x);
    [intros n; cbn; by rewrite E|].
  - rewrite Z.add_0_r, Hx in Hk. injection Hk as ->. by left.
  - right. pose proof (Z.mod_pos_bound i (Z.of_nat (length ss)) ltac:(lia)). apply IH; [unfold two63 in *; lia|].
    rewrite <- Hk. do 2 f_equal.
    replace (i mod Z.of_nat (length ss) + 1 + Z.of_nat m) with (i mod Z.of_nat (length ss) + Z.of_nat (Datatypes.S m)) by lia.
    by rewrite Z.add_mod_idemp_l by lia.
Qed.

(** Round robin over servers of which one is up. *)
Lemma round_robin_finds r ss i k :
  Z.of_nat (length ss) < two63 - 1 -> 0 <= i < two63 -> k ∈ ss -> k <> "" -> up k ->
  exists m, (m < length ss)%nat /\ finds up r m (SelRoundRobin (mk_rr ss i)).
Proof.
  intros Hb Hi Hk Hne Hup. apply list_elem_of_lookup in Hk as [p Hp].
  pose proof (lookup_lt_Some _ _ _ Hp) as Hlt. set (L := Z.of_nat (length ss)) in *.
  assert (Hm := Z.mod_pos_bound (Z.of_nat p - i) L ltac:(lia)).
  exists (Z.to_nat ((Z.of_nat p - i) mod L)). split; [lia|].
  apply round_robin_finds_at with k; [done..| |done|done]. fold L.
  rewrite Z2Nat.id, Z.add_mod_idemp_r by lia. replace (i + (Z.of_nat p - i)) with (Z.of_nat p) by lia.
  by rewrite Z.mod_small, Nat2Z.id by lia.
Qed.

(** Weighted round robin, wherever it stands: within the sum of the weights. *)
Lemma weighted_finds_at r W ws0 i w0 m c k ws :
  fresh_weights W ws0 -> ws0 !! i = Some w0 -> Server w0 <> "" -> up (Server w0) ->
  balanced W k c ws0 ws -> total_CW ws = 0 -> i ∈ (weighted_run (Datatypes.S m) ws).2 ->
  finds up r m (SelWeighted ws).
Proof.
  intros Hfw Hi Hne Hup. revert c k ws. induction m as [|m IH]; intros c k ws Hbal Hsum Hin; cbn [weighted_run] in Hin.
  all: destruct (nextWeighted_balanced W k c ws0 ws Hfw Hbal Hsum) as (ws1 & b & E & Hb & Hbal1 & Hsum1).
  all: rewrite E in Hin.
  all: assert (Hws : ws <> []) by (intros ->; destruct Hbal as [Hl _]; cbn in Hl; apply lookup_lt_Some in Hi; lia).
  all: apply (finds_intro _ _ _ (SelWeighted ws1) (default "" (Server <$> ws1 !! b)));
    [intros n; cbn; unfold weighted_Select; rewrite E; by destruct ws|].
  all: destruct (decide (i = b)) as [<-|Hib];
    [left; destruct Hbal1 as [_ Hbal1]; destruct (Hbal1 i w0 Hi) as (w & -> & Hs & _); cbn; by rewrite Hs|].
  - cbn in Hin. apply list_elem_of_singleton in Hin. done.
  - right. eapply IH; [done..|]. cbn [weighted_run].
    change (i ∈ (let '(a, bs) := weighted_run (Datatypes.S m) ws1 in (a, b :: bs)).2) in Hin.
    destruct (weighted_run (Datatypes.S m) ws1) as [a bs] eqn:Er. cbn [snd] in Hin.
    apply elem_of_cons in Hin as [?|Hin]; [done|]. cbn [weighted_run] in Er. by rewrite Er.
Qed.

Lemma weighted_finds r W ws j i w :
  fresh_weights W ws -> ws !! i = Some w -> 0 < Weight w -> Server w <> "" -> up (Server w) ->
  finds up r (Z.to_nat W - 1) (SelWeighted (weighted_run j ws).1).
Proof.
  intros Hfw Hi Hw Hne Hup. pose proof (weighted_window W ws j i w Hfw Hi) as Hwin.
  destruct (fresh_balanced W ws Hfw) as [Hbal Hsum].
  pose proof (weighted_run_balanced j W 0 _ ws ws Hfw Hbal Hsum) as Hj.
  destruct (weighted_run j ws) as [wsj bsj]. destruct Hj as (_ & _ & Hbalj & Hsumj). cbn [fst] in *.
  eapply weighted_finds_at; [done..|]. pose proof (fw_pos W ws Hfw).
  replace (Datatypes.S (Z.to_nat W - 1)) with (Z.to_nat W) by lia.
  destruct (decide (i ∈ (weighted_run (Z.to_nat W) wsj).2)) as [|Hn]; [done|]. exfalso.
  rewrite count_zero in Hwin by done. lia.
Qed.

(** A selector that chooses a server that is up within [n] selections. *)
Inductive covers : anySelector (H := D) -> Z -> Prop :=
| covers_round_robin ss i k : Z.of_nat (length ss) < two63 - 1 -> 0 <= i < two63 ->
    k ∈ ss -> k <> "" -> up k -> covers (SelRoundRobin (mk_rr ss i)) (Z.of_nat (length ss))
| covers_weighted W ws j i w : fresh_weights W ws -> ws !! i = Some w -> 0 < Weight w ->
    Server w <> "" -> up (Server w) -> covers (SelWeighted (weighted_run j ws).1) W.

Lemma covers_finds r s n : covers s n -> exists m, Z.of_nat m + 1 <= n /\ finds up r m s.
Proof.
  intros [ss i k ? ? ? ? ?|W ws j i w Hfw ? ? ? ?].
  - destruct (round_robin_finds r ss i k) as (m & ? & ?); [done..|]. exists m. split; [lia|done].
  - exists (Z.to_nat W - 1)%nat. pose proof (fw_pos W ws Hfw). split; [lia|by eapply weighted_finds].
Qed.

(** In [Failover] mode a call reaches a server that is up.  With round
    robin over at most [Retries + 1] servers of which one is up, or weighted
    round robin whose weights sum to at most that and give such a server a
    positive one, wherever the selector stands, [Call] returns nil; its last
    attempt was on a live connection, which answered it, the attempts before it
    failed with an error worth a retry, and the next call finds the client in the
    same condition.  The cached connections to servers that are up must be live,
    and those to servers that are down must fail when called and let themselves
    be closed more than once, which the library's own [Client] does not
    ([standard_client_fatal]): with it a server that is down must be so when it is
    dialled, and FullStack applies the loop to it in that case. *)
Theorem failover_reaches {C} `{RPCClient C} dial invoke rnd clock live answered bad backup r (x : xClient anySelector C) n :
  network dial invoke up live answered bad -> failMode x = Failover -> reaching (up := up) (live := live) (bad := bad) x ->
  covers (selector x) n -> n <= Retries x + 1 ->
  exists x' l id, Call dial invoke rnd clock backup r x = (x', Ok None) /\
    log x' = log x ++ l ++ [(id, None)] /\ Forall retryable l /\
    conn_answered (live := live) (answered := answered) x' id /\ reaching (up := up) (live := live) (bad := bad) x'.
Proof.
  intros Hnet Hmode Hx (m & Hm & Hf)%(covers_finds r) Hn.
  destruct (Call_reaches dial invoke rnd clock Hnet backup r m x) as (x' & res & E & -> & Hx' & l & id & ? & ? & ?);
    [done|done|done|lia|]. exists x', l, id. split_and!; [done|done| |done|done].
  eapply Forall_impl; [done|]. by intros a [? _].
Qed.
End selectors.

(** ** Witness: the first server refuses to be dialled, the second fails every
    call, the third answers *)
Definition fo_up (k : string) : Prop := k = "tcp@c:1".
Definition fo_live (c : string * bool) : Prop := c = ("tcp@c:1", false).
Definition fo_bad (c : string * bool) : Prop := c.1 = "tcp@b:1".

Definition fo_dial (_ : nat) (k : string) : (string * bool) + error :=
  if decide (k = "tcp@b:1" \/ k = "tcp@c:1") then inl (k, false) else inr EOF.
Definition fo_invoke (_ : nat) (c : string * bool) : (string * bool) * option error :=
  (c, if decide (c.1 = "tcp@c:1") then None else Some ErrShutdown).

Lemma fo_network : network fo_dial fo_invoke fo_up fo_live (fun _ => True) fo_bad.
Proof.
  split.
  - intros n k ->. by eexists.
  - intros n k. unfold fo_dial. case_decide as Hk; [|done]. destruct Hk as [-> | ->]; [by right|by left].
  - by intros c ->.
  - intros n c ->. by eexists.
  - intros n [c b] Hc. unfold fo_bad in Hc. cbn in Hc. subst c. eexists _, _. split; [reflexivity|]. by split_and!.
  - intros [c b] Hc. unfold fo_bad in Hc. cbn in Hc. subst c. by eexists _, _.
Qed.

Definition fo_xclient : xClient (anySelector (H := list string)) (string * bool) :=
  mk_xClient Failover 3 None false "" ∅ (SelRoundRobin (mk_rr ["tcp@a:1"; "tcp@b:1"; "tcp@c:1"] 0))
    {["tcp@b:1" := 0%nat]} {[0%nat := ("tcp@b:1", false)]} ∅ [] 0.

Lemma failover_reaches_witness :
  exists x' l id, Call (S := anySelector (H := list string)) (H := any_Selector (fun _ => None)) fo_dial fo_invoke
      (fun _ => 0%nat) (fun _ => 0) (None, Timer, None, Timer) toy_request fo_xclient = (x', Ok None) /\
    log x' = [] ++ l ++ [(id, None)] /\ Forall retryable l /\ length l = 1%nat.
Proof.
  assert (Hx : reaching (up := fo_up) (live := fo_live) (bad := fo_bad) fo_xclient).
  { split; [reflexivity..|]. intros k id Hk. cbn [cachedClient fo_xclient] in Hk.
    apply lookup_singleton_Some in Hk as [<- <-].
    split; [|discriminate]. exists ("tcp@b:1", false). split; [reflexivity|]. right. reflexivity. }
  destruct (failover_reaches (D := list string) (fun _ => None) fo_up fo_dial fo_invoke (fun _ => 0%nat) (fun _ => 0)
    fo_live (fun _ => True) fo_bad (None, Timer, None, Timer) toy_request fo_xclient 3 fo_network eq_refl Hx) as (x' & l & id & E & Hl & Hr & _).
  - refine (covers_round_robin fo_up ["tcp@a:1"; "tcp@b:1"; "tcp@c:1"] 0 "tcp@c:1" _ _ _ _ _);
      [cbn; unfold two63; lia|unfold two63; lia|set_solver|discriminate|reflexivity].
  - cbn. lia.
  - exists x', l, id. split; [exact E|]. split; [exact Hl|]. split; [exact Hr|].
    vm_compute in E. injection E as <-. cbn in Hl.
    destruct l as [|? [|? l]]; [discriminate|reflexivity|]. injection Hl. destruct l; discriminate.
Defined.
