(* ===== verification/XConcurrent.v ===== *)
(** client/xclient_cache_client.go under concurrent calls: the cache of
    connections is locked and unlocked several times in a call, and other calls,
    the end of connections and [Close] come in between.

    [gstep] cuts [getCachedClient] of XClient.v where the lock is released;
    without interference its steps are that function ([getCachedClient_steps]).
    The theorem accounts for the connections: which call, cache entry or slip
    owns each one. *)
From S2P Require Import Prelude Go Share UrlQuery Selectors Breaker Message Client XClient XClientFacts.
Open Scope go_scope.

(** Where a goroutine in [getCachedClient] is. *)
Inductive pc : Type :=
| GStart (k : string)
| GBreaker (k : string)
| GFind (k : string)
| GGenerate (k : string)
| GSet (k : string) (id : nat)
| GReturn (k : string) (client : option nat) (err : option error).

(** A closed connection is not usable. *)
Class RPCClientLaws (C : Type) `{RPCClient C} : Prop :=
  CloseClient_ends c : IsClosing (CloseClient c).1 || IsShutdown (CloseClient c).1 = true.

Section concurrent.
Context {S C : Type} `{RPCClient C}.
Context (dial : nat -> string -> C + error) (clock : nat -> Z).
Notation xstate := (xClient S C).

(** One locked section of [getCachedClient], or one test outside of a lock. *)
Definition gstep (p : pc) : prog xstate pc :=
  match p with
  | GStart k =>
      x ← get_st;
      mret (if isShutdown x then GReturn k None (Some (ErrorString "this xClient is closed")) else GBreaker k)
  | GBreaker k =>
      refused ← breaker_refuses clock k;
      mret (if refused : bool then GReturn k None (Some ErrBreakerOpen) else GFind k)
  | GFind k =>
      x ← get_st;
      match findCachedClient k x with
      | Some id =>
          if usable id x then mret (GReturn k (Some id) None)
          else deleteCachedClient (Some id) k;; mret (GGenerate k)
      | None => mret (GGenerate k)
      end
  | GGenerate k =>
      g ← generateClient dial clock k;
      mret (match g with inl id => GSet k id | inr e => GReturn k None (Some e) end)
  | GSet k id =>
      modify (fun x => set_cached (<[k := id]> (cachedClient x)) x);; mret (GReturn k (Some id) None)
  | GReturn _ _ _ => mret p
  end.

(** The steps one after the other, [n] of them. *)
Fixpoint gsteps (n : nat) (p : pc) : prog xstate pc :=
  match n with
  | O => mret p
  | Datatypes.S n => p ← gstep p; gsteps n p
  end.

Lemma gsteps_return n k client err (x : xstate) : gsteps n (GReturn k client err) x = (x, Ok (GReturn k client err)).
Proof. induction n as [|n IH]; [done|]. exact IH. Qed.

Ltac next := cbn [gsteps gstep]; unfold mbind, prog_bind, get_st, mret, prog_ret in *.

(** Without interference the steps are [getCachedClient]. *)
Lemma getCachedClient_steps k (x : xstate) :
  gsteps 5 (GStart k) x =
  ('(client, err) ← getCachedClient dial clock k; mret (GReturn k client err)) x.
Proof.
  unfold getCachedClient. next. destruct (isShutdown x); [done|].
  next. destruct (breaker_refuses clock k x) as [x1 [[]| | | |]]; try done.
  next. destruct (findCachedClient k x1) as [id|].
  - destruct (usable id x1); [done|].
    destruct (deleteCachedClient (Some id) k x1) as [x2 [u| | | |]]; try done.
    next. by destruct (generateClient dial clock k x2) as [x3 [[id'|e]| | | |]].
  - next. by destruct (generateClient dial clock k x1) as [x3 [[id'|e]| | | |]].
Qed.

(** ** The goroutines together *)

(** The client and its goroutines; [lost] are the connections whose cache entry
    was overwritten, [dialled] says which server a connection was made to. *)
Record cstate : Type := mk_cstate {
  xc : xstate;
  procs : gmap nat pc;
  lost : gset nat;
  dialled : gmap nat string
}.

Definition overwritten (p : pc) (x : xstate) : gset nat :=
  match p with
  | GSet k _ => match cachedClient x !! k with Some id => {[id]} | None => ∅ end
  | _ => ∅
  end.

(** The connection a goroutine has made and not cached yet. *)
Definition flying (p : pc) : option (string * nat) := match p with GSet k id => Some (k, id) | _ => None end.

Definition made (p p' : pc) (d : gmap nat string) : gmap nat string :=
  match p, flying p' with GGenerate _, Some (k, id) => <[id := k]> d | _, _ => d end.

Definition live (x : xstate) (id : nat) : Prop := usable id x = true.

(** A new call, a step of one, [removeClient] cut in its two parts, [Close],
    and anything that happens to a connection without reviving it. *)
Inductive cstep : cstate -> cstate -> Prop :=
| cs_call g k s : procs s !! g = None ->
    cstep s (mk_cstate (xc s) (<[g := GStart k]> (procs s)) (lost s) (dialled s))
| cs_run g p p' x' s : procs s !! g = Some p -> gstep p (xc s) = (x', Ok p') ->
    cstep s (mk_cstate x' (<[g := p']> (procs s)) (lost s ∪ overwritten p (xc s)) (made p p' (dialled s)))
| cs_uncache k id x' s : cachedClient (xc s) !! k = Some id -> deleteCachedClient (Some id) k (xc s) = (x', Ok tt) ->
    cstep s (mk_cstate x' (procs s) (lost s) (dialled s))
| cs_close_conn id x' r s : close_obj id (xc s) = (x', Ok r) -> cstep s (mk_cstate x' (procs s) (lost s) (dialled s))
| cs_Close x' r s : Close (xc s) = (x', Ok r) -> cstep s (mk_cstate x' (procs s) (lost s) (dialled s))
| cs_conn id c c' s : objs (xc s) !! id = Some c ->
    (IsClosing c || IsShutdown c = true -> IsClosing c' || IsShutdown c' = true) ->
    cstep s (mk_cstate (set_objs (<[id := c']> (objs (xc s))) (xc s)) (procs s) (lost s) (dialled s)).

(** What a connection is held by, and the server that holder has it for. *)
Inductive holder : Type := InCache (k : string) | InFlight (g : nat) (k : string) | Lost.

Definition holds (s : cstate) (h : holder) (id : nat) : Prop :=
  match h with
  | InCache k => cachedClient (xc s) !! k = Some id
  | InFlight g k => exists p, procs s !! g = Some p /\ flying p = Some (k, id)
  | Lost => id ∈ lost s
  end.

Definition server_of (h : holder) : option string :=
  match h with InCache k | InFlight _ k => Some k | Lost => None end.

(** ** What the locked sections do to the connections *)
Record changes (x x' : xstate) : Prop := {
  ch_dom : dom (objs x') = dom (objs x);
  ch_live id : live x' id -> live x id
}.

#[local] Instance changes_refl : Reflexive changes.
Proof. by split. Qed.

#[local] Instance changes_trans : Transitive changes.
Proof. intros x y z [H1 H2] [H3 H4]. split; [congruence|auto]. Qed.

Lemma same_objs_changes x x' : objs x' = objs x -> changes x x'.
Proof. intros Ho. split; [by rewrite Ho|]. intros id. unfold live, usable. by rewrite Ho. Qed.

Context `{!RPCClientLaws C}.

(** A connection that is put back not revived. *)
Lemma put_conn_changes id c c' (x : xstate) : objs x !! id = Some c ->
  (IsClosing c || IsShutdown c = true -> IsClosing c' || IsShutdown c' = true) ->
  changes x (set_objs (<[id := c']> (objs x)) x).
Proof.
  intros Hid Hc. split; cbn.
  - rewrite dom_insert_L. apply elem_of_dom_2 in Hid. set_solver.
  - intros id'. unfold live, usable. cbn. destruct (decide (id' = id)) as [->|Hne].
    + rewrite lookup_insert_eq, Hid. destruct (IsClosing c), (IsShutdown c); cbn in *; try done;
        destruct (IsClosing c'), (IsShutdown c'); cbn in *; try done; by specialize (Hc eq_refl).
    + by rewrite lookup_insert_ne.
Qed.

Lemma close_obj_changes id (x x' : xstate) r : close_obj id x = (x', r) ->
  changes x x' /\ cachedClient x' = cachedClient x /\ ~ live x' id.
Proof.
  unfold close_obj. destruct (objs x !! id) as [c|] eqn:Hid.
  - pose proof (CloseClient_ends c) as He. destruct (CloseClient c) as [c' r']. intros [= <- <-]. cbn in He.
    split_and!; [by eapply put_conn_changes|done|]. unfold live, usable. cbn. rewrite lookup_insert_eq.
    by destruct (IsClosing c'), (IsShutdown c').
  - intros [= <- <-]. split_and!; [reflexivity|done|]. unfold live, usable. by rewrite Hid.
Qed.

Lemma deleteCachedClient_changes k id (x x' : xstate) u : deleteCachedClient (Some id) k x = (x', Ok u) ->
  changes x x' /\ cachedClient x' = delete k (cachedClient x) /\ ~ live x' id.
Proof.
  unfold deleteCachedClient, modify. next.
  destruct (close_obj id _) as [x1 [r| | | |]] eqn:E; try done. intros [= <- _].
  apply close_obj_changes in E as (H1 & H2 & H3). split_and!; [|done|done].
  etrans; [|exact H1]. by apply same_objs_changes.
Qed.

Lemma Close_all_changes ks errs (x x' : xstate) es : Close_all ks errs x = (x', Ok es) ->
  changes x x' /\ (forall k id, cachedClient x' !! k = Some id -> cachedClient x !! k = Some id /\ k ∉ ks.*1) /\
  Forall (fun '(_, id) => ~ live x' id) ks.
Proof.
  revert errs x. induction ks as [|[k id] ks IH]; intros errs x; cbn [Close_all].
  - intros [= <- _]. split_and!; [reflexivity|by set_solver|done].
  - unfold modify. next. destruct (close_obj id x) as [x1 [r| | | |]] eqn:E; try done.
    intros Hrest. apply close_obj_changes in E as (H1 & H2 & H3). apply IH in Hrest as (H4 & H5 & H6).
    split_and!.
    + etrans; [exact H1|]. etrans; [|exact H4]. by apply same_objs_changes.
    + intros k' id' Hk. apply H5 in Hk as [Hk Hn]. cbn in Hk. rewrite H2 in Hk.
      apply lookup_delete_Some in Hk as [Hne Hk]. split; [done|]. set_solver.
    + constructor; [|done]. intros Hl. by apply H3, (ch_live _ _ H4).
Qed.

Lemma Close_changes (x x' : xstate) r : Close x = (x', Ok r) ->
  changes x x' /\ cachedClient x' = ∅ /\ forall k id, cachedClient x !! k = Some id -> ~ live x' id.
Proof.
  unfold Close, modify. next. cbn.
  destruct (Close_all _ [] (set_isShutdown true x)) as [x1 [es| | | |]] eqn:E; try done. intros [= <- _].
  apply Close_all_changes in E as (H1 & H2 & H3). cbn in *.
  split_and!; [etrans; [|exact H1]; by apply same_objs_changes| |].
  - apply map_empty. intros k. apply eq_None_not_Some. intros [id Hk]. apply H2 in Hk as [Hk Hn]. apply Hn.
    apply list_elem_of_fmap. exists (k, id). split; [done|]. by apply elem_of_map_to_list.
  - intros k id Hk. rewrite Forall_forall in H3. by apply (H3 (k, id)), elem_of_map_to_list.
Qed.

Lemma breaker_refuses_changes k (x x' : xstate) b : breaker_refuses clock k x = (x', Ok b) ->
  objs x' = objs x /\ cachedClient x' = cachedClient x.
Proof.
  unfold breaker_refuses, ask, modify. next. destruct (breakers x !! k); [|by intros [= <- _]].
  cbn. destruct (ready _ _). by intros [= <- _].
Qed.

Lemma generateClient_changes k (x x' : xstate) g : generateClient dial clock k x = (x', Ok g) ->
  cachedClient x' = cachedClient x /\
  match g with
  | inl id => id ∉ dom (objs x) /\ exists c, objs x' = <[id := c]> (objs x)
  | inr _ => objs x' = objs x
  end.
Proof.
  unfold generateClient, ask, modify, put_st. next.
  destruct (GenBreaker x) as [b|]; cbn; (destruct (dial (tick x) k) as [c|e]; cbn;
    [intros [= <- <-]; cbn; split; [done|split; [apply is_fresh|by eexists]]|]).
  all: destruct (GenBreaker x); cbn; by intros [= <- <-].
Qed.

(** What one step does, by where the goroutine is. *)
Definition effect (p p' : pc) (x x' : xstate) : Prop :=
  match p with
  | GStart k | GBreaker k =>
      objs x' = objs x /\ cachedClient x' = cachedClient x /\ flying p' = None /\ (forall k id e, p' <> GReturn k (Some id) e)
  | GFind k =>
      flying p' = None /\ changes x x' /\
      ((exists id, p' = GReturn k (Some id) None /\ cachedClient x !! k = Some id /\ cachedClient x' = cachedClient x) \/
       (p' = GGenerate k /\ cachedClient x' = delete k (cachedClient x) /\
        forall id, cachedClient x !! k = Some id -> ~ live x' id))
  | GGenerate k =>
      cachedClient x' = cachedClient x /\
      ((exists e, p' = GReturn k None e /\ objs x' = objs x) \/
       (exists id c, p' = GSet k id /\ id ∉ dom (objs x) /\ objs x' = <[id := c]> (objs x)))
  | GSet k id => p' = GReturn k (Some id) None /\ objs x' = objs x /\ cachedClient x' = <[k := id]> (cachedClient x)
  | GReturn _ _ _ => p' = p /\ x' = x
  end.

Lemma gstep_effect p p' x x' : gstep p x = (x', Ok p') -> effect p p' x x'.
Proof.
  destruct p as [k|k|k|k|k id|k client err]; unfold effect; next.
  - intros [= <- <-]. by destruct (isShutdown x).
  - destruct (breaker_refuses clock k x) as [x1 [b| | | |]] eqn:E; try done.
    apply breaker_refuses_changes in E as [H1 H2]. intros [= <- <-]. by destruct b.
  - unfold findCachedClient. destruct (cachedClient x !! k) as [id|] eqn:Hk.
    + destruct (usable id x).
      * intros [= <- <-]. split_and!; [done|reflexivity|]. left. by exists id.
      * destruct (deleteCachedClient (Some id) k x) as [x1 [[]| | | |]] eqn:E; try done.
        apply deleteCachedClient_changes in E as (H1 & H2 & H3). intros [= <- <-].
        split_and!; [done|done|]. right. split_and!; [done|done|]. by intros id' [= <-].
    + intros [= <- <-]. split_and!; [done|reflexivity|]. right. split_and!; [done|by rewrite delete_id|done].
  - destruct (generateClient dial clock k x) as [x1 [[id|e]| | | |]] eqn:E; try done;
      apply generateClient_changes in E as [H1 H2]; intros [= <- <-]; (split; [done|]).
    + right. destruct H2 as [H2 [c Hc]]. by exists id, c.
    + left. by exists (Some e).
  - unfold modify. cbn. by intros [= <- <-].
  - by intros [= <- <-].
Qed.

(** ** The accounts *)
Record cinv (s : cstate) : Prop := {
  ci_unique h1 h2 id : holds s h1 id -> holds s h2 id -> h1 = h2;
  ci_known h id : holds s h id -> id ∈ dom (objs (xc s));
  ci_owned id : live (xc s) id -> exists h, holds s h id;
  ci_server h id k : holds s h id -> server_of h = Some k -> dialled s !! id = Some k;
  ci_returned g k id e : procs s !! g = Some (GReturn k (Some id) e) -> dialled s !! id = Some k;
  ci_dialled id : id ∈ dom (dialled s) -> id ∈ dom (objs (xc s))
}.

(** A step after which no holder has more than before, and everything usable is
    still held. *)
Lemma cinv_shrink s x' ps : cinv s -> changes (xc s) x' ->
  let s' := mk_cstate x' ps (lost s) (dialled s) in
  (forall h id, holds s' h id -> holds s h id) ->
  (forall h id, holds s h id -> live x' id -> holds s' h id) ->
  (forall g k id e, ps !! g = Some (GReturn k (Some id) e) -> dialled s !! id = Some k) ->
  cinv s'.
Proof.
  intros [H1 H2 H3 H4 H5 H6] Hc s' Hless Hkeep Hret. split; cbn.
  - eauto.
  - intros h id Hh. rewrite (ch_dom _ _ Hc). eauto.
  - intros id Hl. destruct (H3 id (ch_live _ _ Hc id Hl)) as [h Hh]. exists h. by apply Hkeep.
  - eauto.
  - exact Hret.
  - intros id. rewrite (ch_dom _ _ Hc). eauto.
Qed.

(** A goroutine that moves between points where it carries no connection
    changes nobody's holdings. *)
Lemma flying_insert (ps : gmap nat pc) g p p' g' kid :
  ps !! g = p -> (p ≫= flying) = None -> flying p' = None ->
  (exists q, <[g := p']> ps !! g' = Some q /\ flying q = Some kid) <-> (exists q, ps !! g' = Some q /\ flying q = Some kid).
Proof.
  intros Hg Hp Hp'. destruct (decide (g' = g)) as [->|Hne]; [|by rewrite lookup_insert_ne].
  rewrite lookup_insert_eq. split; intros (q & Hq & Hf).
  - injection Hq as <-. congruence.
  - rewrite <- Hg, Hq in Hp. cbn in Hp. congruence.
Qed.

Lemma returned_insert s g p' : cinv s ->
  (forall k id e, p' = GReturn k (Some id) e -> dialled s !! id = Some k) ->
  forall g' k id e, <[g := p']> (procs s) !! g' = Some (GReturn k (Some id) e) -> dialled s !! id = Some k.
Proof.
  intros Hi Hp' g' k id e [[<- ->]|[_ Hg]]%lookup_insert_Some; [by eapply Hp'|by eapply ci_returned].
Qed.

(** A step of a goroutine that neither makes nor caches a connection. *)
Lemma cinv_step s g p p' x' : cinv s -> procs s !! g = p -> (p ≫= flying) = None -> flying p' = None ->
  changes (xc s) x' ->
  (forall k id, cachedClient x' !! k = Some id -> cachedClient (xc s) !! k = Some id) ->
  (forall k id, cachedClient (xc s) !! k = Some id -> live x' id -> cachedClient x' !! k = Some id) ->
  (forall k id e, p' = GReturn k (Some id) e -> dialled s !! id = Some k) ->
  cinv (mk_cstate x' (<[g := p']> (procs s)) (lost s) (dialled s)).
Proof.
  intros Hi Hg Hp Hp' Hc Hless Hkeep Hret. apply cinv_shrink; [done|done| | |by apply returned_insert].
  - intros [k|g' k|] id; cbn; [auto|by apply (flying_insert _ _ p)|done].
  - intros [k|g' k|] id; cbn; [auto|by intros Hh _; apply (flying_insert _ _ p)|done].
Qed.

(** The new connection of a goroutine. *)
Lemma cinv_made s g k id c x' : cinv s -> procs s !! g = Some (GGenerate k) ->
  cachedClient x' = cachedClient (xc s) -> id ∉ dom (objs (xc s)) -> objs x' = <[id := c]> (objs (xc s)) ->
  cinv (mk_cstate x' (<[g := GSet k id]> (procs s)) (lost s) (<[id := k]> (dialled s))).
Proof.
  intros Hi Hg Hcache Hid Ho.
  assert (Hold : forall h id', holds (mk_cstate x' (<[g := GSet k id]> (procs s)) (lost s) (<[id := k]> (dialled s))) h id' ->
    h = InFlight g k /\ id' = id \/ holds s h id').
  { intros [k'|g' k'|] id'; cbn; [rewrite Hcache; by right| |by right].
    intros (q & [[<- <-]|[Hne Hq]]%lookup_insert_Some & Hf); [left; by injection Hf as <- <-|right; by exists q]. }
  assert (Hnew : forall h, ~ holds s h id) by (intros h Hh; by apply Hid, (ci_known s Hi h)).
  split; cbn.
  - intros h1 h2 id' Hh1%Hold Hh2%Hold.
    destruct Hh1 as [[-> ->]|Hh1], Hh2 as [[-> H2]|Hh2]; [done|by apply Hnew in Hh2|subst; by apply Hnew in Hh1|].
    by eapply ci_unique.
  - intros h id' [[_ ->]|Hh]%Hold; rewrite Ho, dom_insert_L; [set_solver|].
    apply (ci_known s Hi) in Hh. set_solver.
  - intros id' Hl. destruct (decide (id' = id)) as [->|Hne].
    + exists (InFlight g k), (GSet k id). cbn. by rewrite lookup_insert_eq.
    + assert (Hl' : live (xc s) id') by (revert Hl; unfold live, usable; by rewrite Ho, lookup_insert_ne).
      destruct (ci_owned s Hi id' Hl') as [[k'|g' k'|] Hh].
      * exists (InCache k'). cbn. by rewrite Hcache.
      * exists (InFlight g' k'). destruct Hh as (q & Hq & Hf). exists q. cbn. split; [|done].
        rewrite lookup_insert_ne; [done|]. intros <-. rewrite Hg in Hq. by injection Hq as <-.
      * by exists Lost.
  - intros h id' k' [[-> ->]|Hh]%Hold Hs; [injection Hs as <-; by rewrite lookup_insert_eq|].
    rewrite lookup_insert_ne by (intros ->; by apply Hnew in Hh). by eapply ci_server.
  - intros g' k' id' e [[_ ?]|[_ Hq]]%lookup_insert_Some; [done|].
    pose proof (ci_returned s Hi _ _ _ _ Hq) as Hd. rewrite lookup_insert_ne; [done|]. intros ->.
    by apply Hid, (ci_dialled s Hi), elem_of_dom_2 with k'.
  - intros id'. rewrite Ho, !dom_insert_L. pose proof (ci_dialled s Hi id'). set_solver.
Qed.

(** The connection moves from the goroutine to the cache, and what the entry
    held before is lost. *)
Lemma cinv_cached s g k id x' : cinv s -> procs s !! g = Some (GSet k id) ->
  objs x' = objs (xc s) -> cachedClient x' = <[k := id]> (cachedClient (xc s)) ->
  cinv (mk_cstate x' (<[g := GReturn k (Some id) None]> (procs s)) (lost s ∪ overwritten (GSet k id) (xc s)) (dialled s)).
Proof.
  intros Hi Hg Ho Hcache. set (s' := mk_cstate _ _ _ _).
  assert (Hfly : holds s (InFlight g k) id) by (by exists (GSet k id)).
  (** The holder after the step was one before, perhaps another one. *)
  set (before := fun (h : holder) (id' : nat) =>
    match h with
    | InCache k' => if decide (k' = k) then InFlight g k else h
    | InFlight _ _ => h
    | Lost => if decide (id' ∈ lost s) then Lost else InCache k
    end).
  assert (Hold : forall h id', holds s' h id' -> holds s (before h id') id' /\ (h <> InFlight g k)).
  { intros [k'|g' k'|] id'; cbn.
    - rewrite Hcache. case_decide as Hk; [subst k'; rewrite lookup_insert_eq; by intros [= <-]|].
      by rewrite lookup_insert_ne.
    - intros (q & [[<- <-]|[Hne Hq]]%lookup_insert_Some & Hf); [done|]. split; [by exists q|congruence].
    - case_decide; [done|]. destruct (cachedClient (xc s) !! k) as [id0|] eqn:Hk; set_solver. }
  split; cbn.
  - intros h1 h2 id' [H1 N1]%Hold [H2 N2]%Hold. pose proof (ci_unique s Hi _ _ _ H1 H2) as He.
    destruct h1, h2; cbn in *; repeat case_decide; simplify_eq; try done; congruence.
  - intros h id' [Hh _]%Hold. rewrite Ho. by eapply ci_known.
  - intros id' Hl. assert (Hl' : live (xc s) id') by (revert Hl; unfold live, usable; by rewrite Ho).
    destruct (ci_owned s Hi id' Hl') as [[k'|g' k'|] Hh].
    + destruct (decide (k' = k)) as [->|Hne].
      * exists Lost. cbn in *. rewrite Hh. set_solver.
      * exists (InCache k'). cbn. by rewrite Hcache, lookup_insert_ne.
    + destruct Hh as (q & Hq & Hf). destruct (decide (g' = g)) as [->|Hne].
      * rewrite Hg in Hq. injection Hq as <-. injection Hf as <- <-. exists (InCache k). cbn.
        by rewrite Hcache, lookup_insert_eq.
      * exists (InFlight g' k'), q. cbn. by rewrite lookup_insert_ne.
    + exists Lost. cbn in *. set_solver.
  - intros h id' k' [Hh Hn]%Hold Hs. apply (ci_server s Hi _ _ k' Hh).
    destruct h; cbn in *; repeat case_decide; simplify_eq; done.
  - apply returned_insert; [done|]. intros k' id' e [= <- <- <-]. by apply (ci_server s Hi _ _ k Hfly).
  - intros id' Hd. rewrite Ho. by apply (ci_dialled s Hi).
Qed.

Lemma cinv_run s g p p' x' : cinv s -> procs s !! g = Some p -> gstep p (xc s) = (x', Ok p') ->
  cinv (mk_cstate x' (<[g := p']> (procs s)) (lost s ∪ overwritten p (xc s)) (made p p' (dialled s))).
Proof.
  intros Hi Hg He%gstep_effect. destruct p as [k|k|k|k|k id|k client err]; cbn [effect] in He.
  4: destruct He as [Hc [(e & -> & Ho)|(id & c & -> & Hid & Ho)]];
       [|cbn; rewrite union_empty_r_L; by eapply cinv_made].
  5: destruct He as (-> & Ho & Hc); by apply cinv_cached.
  all: cbn; rewrite ?union_empty_r_L.
  1, 2: destruct He as (Ho & Hc & Hf & Hr);
    apply (cinv_step s g _ _ _ Hi Hg); [done|done|by apply same_objs_changes|by rewrite Hc|by rewrite Hc|].
  1, 2: intros k' id e ->; by destruct (Hr k' id e).
  - destruct He as (Hf & Hch & [(id & -> & Hk & Hc)|(-> & Hc & Hdead)]);
      apply (cinv_step s g _ _ _ Hi Hg); try done.
    + by rewrite Hc.
    + by rewrite Hc.
    + intros k' id' e [= <- <- <-]. by apply (ci_server s Hi (InCache k) id).
    + intros k' id'. rewrite Hc. by intros [? ?]%lookup_delete_Some.
    + intros k' id' Hk Hl. rewrite Hc. destruct (decide (k = k')) as [->|Hne]; [by apply Hdead in Hl|].
      by rewrite lookup_delete_ne.
  - apply (cinv_step s g _ _ _ Hi Hg); [done|done|by apply same_objs_changes|by rewrite Hc|by rewrite Hc|done].
  - destruct He as [-> ->]. apply (cinv_step s g _ _ _ Hi Hg); try done.
    intros k' id e Heq. eapply ci_returned; [done|]. by rewrite <- Heq.
Qed.

Lemma cinv_cstep s s' : cstep s s' -> cinv s -> cinv s'.
Proof.
  intros Hs Hi. destruct Hs as [g k s Hg|g p p' x' s Hg He|k id x' s Hk He|id x' r s He|x' r s He|id c c' s Hc Hl].
  - by apply (cinv_step s g _ _ _ Hi Hg).
  - by apply cinv_run.
  - apply deleteCachedClient_changes in He as (H1 & H2 & H3).
    apply cinv_shrink; [done|done| | |by apply ci_returned].
    + intros [k'|g' k'|] id'; cbn; [|done|done]. rewrite H2. by intros [? ?]%lookup_delete_Some.
    + intros [k'|g' k'|] id' Hh Hl; [|done|done]. cbn in *. rewrite H2.
      destruct (decide (k = k')) as [->|Hne]; [|by rewrite lookup_delete_ne].
      rewrite Hk in Hh. injection Hh as ->. done.
  - apply close_obj_changes in He as (H1 & H2 & H3).
    apply cinv_shrink; [done|done| | |by apply ci_returned];
      intros [k'|g' k'|] id'; cbn; rewrite ?H2; auto.
  - apply Close_changes in He as (H1 & H2 & H3).
    apply cinv_shrink; [done|done| | |by apply ci_returned];
      intros [k'|g' k'|] id'; cbn; rewrite ?H2, ?lookup_empty; try done.
    intros Hk Hl. by apply H3 in Hk.
  - apply cinv_shrink; [done|by eapply put_conn_changes| | |by apply ci_returned];
      intros [k'|g' k'|] id'; cbn; auto.
Qed.

(** A client without connections yet, and what it can become. *)
Definition fresh_client (x : xstate) : cstate := mk_cstate x ∅ ∅ ∅.

Inductive creach (x : xstate) : cstate -> Prop :=
| cr_init : creach x (fresh_client x)
| cr_step s s' : creach x s -> cstep s s' -> creach x s'.

Lemma creach_cinv x s : cachedClient x = ∅ -> objs x = ∅ -> creach x s -> cinv s.
Proof.
  intros Hc Ho. induction 1 as [|s s' _ IH Hs]; [|by eapply cinv_cstep].
  split; cbn.
  - intros [k|g k|] h2 id; cbn; rewrite ?Hc; [by rewrite lookup_empty|intros (q & Hq & _)|set_solver].
    by rewrite lookup_empty in Hq.
  - intros [k|g k|] id; cbn; rewrite ?Hc; [by rewrite lookup_empty|intros (q & Hq & _)|set_solver].
    by rewrite lookup_empty in Hq.
  - intros id. unfold live, usable. by rewrite Ho, lookup_empty.
  - intros [k|g k|] id k'; cbn; rewrite ?Hc; [by rewrite lookup_empty|intros (q & Hq & _)|done].
    by rewrite lookup_empty in Hq.
  - intros g k id e. by rewrite lookup_empty.
  - intros id. rewrite dom_empty_L. set_solver.
Qed.

(** C16: under every interleaving of calls, failed calls, ends of connections
    and [Close], every usable connection has exactly one holder: the cache entry
    of its server, the call that has just made it, or nobody, when another call
    overwrote its cache entry.  A call only gets a connection to the server it
    asked for, and the cache has only connections to the server of the entry. *)
Theorem connections_accounted x s : cachedClient x = ∅ -> objs x = ∅ -> creach x s ->
  (forall id, live (xc s) id -> exists h, holds s h id /\ forall h', holds s h' id -> h' = h) /\
  (forall g k id e, procs s !! g = Some (GReturn k (Some id) e) -> dialled s !! id = Some k) /\
  (forall k id, cachedClient (xc s) !! k = Some id -> dialled s !! id = Some k).
Proof.
  intros Hc Ho Hi%creach_cinv; [|done|done]. split_and!.
  - intros id (h & Hh)%(ci_owned s Hi). exists h. split; [done|]. intros h' Hh'. by eapply ci_unique.
  - apply (ci_returned s Hi).
  - intros k id Hk. by apply (ci_server s Hi (InCache k) id).
Qed.
End concurrent.

(** ** The library's own connection *)
#[export] Instance Client_RPCClientLaws {A R} : RPCClientLaws (Client A R).
Proof.
  intros c. cbn. unfold Client.Close. set (c1 := fold_left _ _ c).
  destruct (pluginClosed c1); cbn; destruct (closing c1 || shutdown c1) eqn:E; cbn; rewrite ?E; done.
Qed.

(** Two calls for one server, neither cached yet: both connect, the second
    overwrites the entry of the first, and [Close] of the client leaves the
    first connection open. *)
Definition one_client : xClient (list string) (Client unit unit) :=
  mk_xClient Failover 3 None false "" ∅ ["tcp@a:1"] ∅ ∅ ∅ [] 0.

Definition connect_all (_ : nat) (_ : string) : Client unit unit + error :=
  inl (NewClient (mk_Option x00 x00 false)).

(** The schedule: two calls in step, then [Close]. *)
Definition run_proc (g : nat) (s : cstate (S := list string) (C := Client unit unit)) : cstate :=
  match procs s !! g with
  | Some p =>
      match gstep connect_all (fun _ => 0) p (xc s) with
      | (x', Ok p') => mk_cstate x' (<[g := p']> (procs s)) (lost s ∪ overwritten p (xc s)) (made p p' (dialled s))
      | _ => s
      end
  | None => s
  end.

Definition spawn (g : nat) (k : string) (s : cstate (S := list string) (C := Client unit unit)) : cstate :=
  mk_cstate (xc s) (<[g := GStart k]> (procs s)) (lost s) (dialled s).

Lemma run_proc_reach x g s : creach connect_all (fun _ => 0) x s -> creach connect_all (fun _ => 0) x (run_proc g s).
Proof.
  intros Hr. unfold run_proc. destruct (procs s !! g) as [p|] eqn:Hg; [|done].
  destruct (gstep _ _ p (xc s)) as [x' [p'| | | |]] eqn:Hp; try done.
  eapply cr_step; [exact Hr|]. by eapply cs_run.
Qed.

Definition two_calls : cstate :=
  foldr run_proc (spawn 1 "tcp@a:1" (spawn 0 "tcp@a:1" (fresh_client one_client))) [1; 0; 1; 0; 1; 0; 1; 0; 1; 0]%nat.

Lemma two_calls_reach : creach connect_all (fun _ => 0) one_client two_calls.
Proof.
  unfold two_calls. cbn [foldr]. do 10 apply run_proc_reach.
  eapply cr_step; [eapply cr_step; [apply cr_init|by apply (cs_call _ _ 0)]|by apply (cs_call _ _ 1)].
Qed.

Lemma overlapping_calls_leak : exists x',
  Close (xc two_calls) = (x', Ok None) /\ lost two_calls = {[0%nat]} /\ live x' 0 /\ ~ live x' 1 /\ cachedClient x' = ∅ /\
  procs two_calls !! 0%nat = Some (GReturn "tcp@a:1" (Some 0%nat) None) /\
  procs two_calls !! 1%nat = Some (GReturn "tcp@a:1" (Some 1%nat) None).
Proof. eexists. split_and!; [vm_compute; reflexivity|..]; vm_compute; done. Qed.

Lemma connections_accounted_witness :
  holds two_calls Lost 0 /\ holds two_calls (InCache "tcp@a:1") 1 /\
  (forall id, live (xc two_calls) id -> exists h, holds two_calls h id /\ forall h', holds two_calls h' id -> h' = h).
Proof.
  split; [vm_compute; done|]. split; [vm_compute; done|].
  apply (connections_accounted connect_all (fun _ => 0) one_client two_calls); [done|done|exact two_calls_reach].
Defined.
