(* ===== verification/MultiCall.v ===== *)
(** client/xclient_broadcast.go, xclient_fork.go and [Inform] of xclient.go: one
    goroutine per server and a loop that collects their outcomes.

    A goroutine is the list of its statements, in the order each method has
    them; one step is one statement of one goroutine, one turn of the loop or
    the timer, and the steps interleave in any order.  A call may never end,
    and then its goroutine does not move.  The caller's reply is written word by
    word, since nothing protects it: the words of several replies may mix. *)
From S2P Require Import Prelude Go Share UrlQuery XClient.
Open Scope go_scope.

Inductive method : Type := Broadcast | Fork | Inform.

#[export] Instance method_eq_dec : EqDecision method.
Proof. solve_decision. Defined.

(** The statements: [wrapCall]; the [k]-th word of
    [reflect.ValueOf(reply).Elem().Set]; [done <- e == nil]; [removeClient];
    [err.Append(e)]; the receipt. *)
Inductive stmt : Type := SCall | SSet (k : nat) | SSend | SRemove | SAppend | SReceipt.

(** [pcs] are the goroutines' next statements; [queue] is the channel [done],
    each value with the goroutine that sent it; [received] the goroutines whose
    value the loop has taken; [errs] the shared [MultiError]; [reply] the words
    of [*reply], each with the goroutine that wrote it, if one did; [removed] the
    goroutines that removed their connection; [receipts] those that appended a
    receipt; [timedOut] whether the timer fired; [returned] the method's result:
    whether its error is nil, and the receipts at that moment. *)
Record mstate : Type := mk_mstate {
  pcs : list nat;
  queue : list (nat * bool);
  received : list nat;
  errs : list error;
  reply : list (option nat);
  removed : list nat;
  receipts : list nat;
  timedOut : bool;
  returned : option (bool * list nat)
}.

(** [n] goroutines, a reply of [w] words (none for a nil reply). *)
Definition start (n w : nat) : mstate := mk_mstate (replicate n 0%nat) [] [] [] (replicate w None) [] [] false None.

Definition set_pc (i pc : nat) (s : mstate) : mstate :=
  mk_mstate (<[i := pc]> (pcs s)) (queue s) (received s) (errs s) (reply s) (removed s) (receipts s) (timedOut s) (returned s).
Definition set_queue (q : list (nat * bool)) (s : mstate) : mstate :=
  mk_mstate (pcs s) q (received s) (errs s) (reply s) (removed s) (receipts s) (timedOut s) (returned s).
Definition set_errs (es : list error) (s : mstate) : mstate :=
  mk_mstate (pcs s) (queue s) (received s) es (reply s) (removed s) (receipts s) (timedOut s) (returned s).
Definition set_reply (r : list (option nat)) (s : mstate) : mstate :=
  mk_mstate (pcs s) (queue s) (received s) (errs s) r (removed s) (receipts s) (timedOut s) (returned s).
Definition set_removed (r : list nat) (s : mstate) : mstate :=
  mk_mstate (pcs s) (queue s) (received s) (errs s) (reply s) r (receipts s) (timedOut s) (returned s).
Definition set_receipts (r : list nat) (s : mstate) : mstate :=
  mk_mstate (pcs s) (queue s) (received s) (errs s) (reply s) (removed s) r (timedOut s) (returned s).
Definition set_returned (r : bool * list nat) (s : mstate) : mstate :=
  mk_mstate (pcs s) (queue s) (received s) (errs s) (reply s) (removed s) (receipts s) (timedOut s) (Some r).

(** [err.Error() == "[]"]. *)
Definition no_errors (es : list error) : bool := bool_decide (Error (MultiError es) = "[]").

(** The loop breaks after a value [result] that leaves [left] to come:
    [Broadcast] at a failure, [Fork] at a success (where it returns nil at
    once), all of them when nothing is left. *)
Definition loop_ends (m : method) (left : nat) (result : bool) : bool :=
  match m with
  | Broadcast => bool_decide (left = 0%nat) || negb result
  | Fork => result || bool_decide (left = 0%nat)
  | Inform => bool_decide (left = 0%nat)
  end.

(** The return after it: [success] is the [return nil] of [Fork]. *)
Definition finish (m : method) (success : bool) (s : mstate) : mstate :=
  set_returned (match m with Fork => success || no_errors (errs s) | _ => no_errors (errs s) end, receipts s) s.

Section steps.
(** Each server's outcome: none if its call never ends, else the error it
    returns; and the words of the reply. *)
Context (m : method) (outs : list (option (option error))) (width : nat).

Definition out_ok (i : nat) : bool := match outs !! i with Some (Some None) => true | _ => false end.

(** The goroutine of each method. *)
Definition set_words : list stmt := SSet <$> seq 0 width.
Definition goroutine : list stmt :=
  match m with
  | Broadcast => [SCall; SSend; SRemove; SAppend] ++ set_words
  | Fork => SCall :: set_words ++ [SSend; SRemove; SAppend]
  | Inform => [SCall; SSend; SRemove; SAppend] ++ set_words ++ [SReceipt]
  end.

(** A statement of goroutine [i], whose call ended with [e]. *)
Definition exec (i : nat) (e : option error) (st : stmt) (s : mstate) : mstate :=
  match st, e with
  | SSend, None => set_queue (queue s ++ [(i, true)]) s
  | SSend, Some _ => set_queue (queue s ++ [(i, false)]) s
  | SSet k, None => set_reply (<[k := Some i]> (reply s)) s
  | SRemove, Some e => if uncoverError (Some e) then set_removed (removed s ++ [i]) s else s
  | SAppend, Some e => set_errs (errs s ++ [e]) s
  | SReceipt, _ => set_receipts (receipts s ++ [i]) s
  | _, _ => s
  end.

(** The loop takes a value from [done]. *)
Definition take_value (i : nat) (r : bool) (q : list (nat * bool)) (s : mstate) : mstate :=
  let s1 := mk_mstate (pcs s) q (received s ++ [i]) (errs s) (reply s) (removed s) (receipts s) (timedOut s) (returned s) in
  if loop_ends m (length outs - length (received s1)) r then finish m r s1 else s1.

(** The timer fires. *)
Definition fire (s : mstate) : mstate :=
  finish m false (mk_mstate (pcs s) (queue s) (received s) (errs s ++ [ErrorString "timeout"])
    (reply s) (removed s) (receipts s) true (returned s)).

Inductive mstep : mstate -> mstate -> Prop :=
| ms_go i pc st e s : pcs s !! i = Some pc -> goroutine !! pc = Some st -> outs !! i = Some (Some e) ->
    mstep s (set_pc i (S pc) (exec i e st s))
| ms_receive i r q s : returned s = None -> queue s = (i, r) :: q -> mstep s (take_value i r q s)
| ms_timeout s : returned s = None -> mstep s (fire s).

Definition mreachable (s : mstate) : Prop := rtc mstep (start (length outs) width) s.

(** ** The statements of a goroutine *)

(** Where a goroutine sends. *)
Definition send_at : nat := match m with Fork => S width | _ => 1 end.

Lemma set_words_lookup k st : set_words !! k = Some st -> st = SSet k /\ (k < width)%nat.
Proof. unfold set_words. rewrite list_lookup_fmap_Some. intros (x & -> & Hx). by apply lookup_seq in Hx as [-> ?]. Qed.

Lemma length_set_words : length set_words = width.
Proof. unfold set_words. by rewrite length_fmap, length_seq. Qed.

(** A statement after the first ones. *)
Lemma set_words_app l pc st : (set_words ++ l) !! pc = Some st ->
  (st = SSet pc /\ (pc < width)%nat) \/ ((width <= pc)%nat /\ l !! (pc - width)%nat = Some st).
Proof.
  rewrite lookup_app_Some, length_set_words.
  intros [H|[? H]]; [left; by apply set_words_lookup|by right].
Qed.

Lemma set_words_eq k : (k < width)%nat -> set_words !! k = Some (SSet k).
Proof. intros Hk. unfold set_words. rewrite list_lookup_fmap. by rewrite lookup_seq_lt. Qed.

Lemma goroutine_send pc : goroutine !! pc = Some SSend <-> pc = send_at.
Proof.
  unfold goroutine, send_at. split.
  - destruct m; destruct pc as [|[|[|[|pc]]]]; cbn; try done; intros H;
      try (apply set_words_lookup in H as [[=] _]);
      try (apply set_words_app in H as [[[=] _]|[Hl H]]); try (by destruct (_ - width)%nat in H).
    all: destruct (_ - width)%nat as [|[|[|?]]] eqn:E in H; cbn in H; try done; lia.
  - intros ->. destruct m; [done| |done].
    change ((set_words ++ [SSend; SRemove; SAppend]) !! width = Some SSend). rewrite lookup_app_r, length_set_words by (by rewrite length_set_words).
    by rewrite Nat.sub_diag.
Qed.

Lemma goroutine_start pc : (pc <= send_at)%nat -> is_Some (goroutine !! pc).
Proof.
  intros H. apply lookup_lt_is_Some.
  assert (Hs : (send_at < length goroutine)%nat) by (eapply lookup_lt_Some; by apply goroutine_send). lia.
Qed.

Lemma goroutine_set pc k : goroutine !! pc = Some (SSet k) -> (k < width)%nat /\ (m = Fork -> pc = S k).
Proof.
  unfold goroutine. destruct m; destruct pc as [|[|[|[|pc]]]]; cbn; try done; intros H;
    try (apply set_words_lookup in H as [[= ->] ?]; split; [done|done]);
    try (apply set_words_app in H as [[[= <-] ?]|[Hl H]]; [by split|]);
    by repeat (apply lookup_cons_Some in H as [[_ [=]]|[_ H]]).
Qed.

Lemma Fork_set pc k : m = Fork -> (k < width)%nat -> pc = S k -> goroutine !! pc = Some (SSet k).
Proof.
  intros Hm Hk ->. unfold goroutine. rewrite Hm.
  change ((set_words ++ [SSend; SRemove; SAppend]) !! k = Some (SSet k)). rewrite lookup_app_l by (by rewrite length_set_words).
  by apply set_words_eq.
Qed.

(** ** Invariant *)

(** The values sent, received or not. *)
Definition sent (s : mstate) : list nat := received s ++ (queue s).*1.

Record minv (s : mstate) : Prop := {
  inv_len : length (pcs s) = length outs;
  inv_width : length (reply s) = width;
  (** The values sent are from different goroutines, those past the send. *)
  inv_sent : NoDup (sent s);
  inv_past : forall i, i ∈ sent s <-> exists pc, pcs s !! i = Some pc /\ (send_at < pc)%nat;
  inv_queue : forall i r, (i, r) ∈ queue s -> r = out_ok i;
  (** A goroutine has moved only if its call ended. *)
  inv_ended : forall i pc, pcs s !! i = Some pc -> (0 < pc)%nat -> exists e, outs !! i = Some (Some e);
  inv_errs : forall e, e ∈ errs s -> (exists i, outs !! i = Some (Some (Some e))) \/ timedOut s = true;
  inv_reply : forall k i, reply s !! k = Some (Some i) -> out_ok i = true;
  inv_removed : forall i, i ∈ removed s -> exists e, outs !! i = Some (Some (Some e)) /\ uncoverError (Some e) = true;
  (** A goroutine of [Fork] whose call succeeded has written the words of the
      reply its statement is past. *)
  inv_fork : m = Fork -> forall i pc k, pcs s !! i = Some pc -> out_ok i = true -> (S k < pc)%nat -> (k < width)%nat ->
    exists j, reply s !! k = Some (Some j);
  (** What the loop has gone past without ending. *)
  inv_loop : returned s = None -> forall i, i ∈ received s ->
    match m with Fork => out_ok i = false | Broadcast => out_ok i = true | Inform => True end;
  inv_left : returned s = None -> (length (received s) < length outs)%nat \/ length outs = 0%nat
}.

Lemma minv_start : minv (start (length outs) width).
Proof.
  split; cbn; try done.
  - apply length_replicate.
  - apply length_replicate.
  - constructor.
  - intros i. split; [by intros ?%elem_of_nil|].
    intros (p & Hp & Hc). apply lookup_replicate in Hp as [-> _]. lia.
  - intros i r ?%elem_of_nil. done.
  - intros i pc Hp ?. apply lookup_replicate in Hp as [-> _]. lia.
  - intros e ?%elem_of_nil. done.
  - intros k i Hk. apply lookup_replicate in Hk as [? _]. done.
  - intros i ?%elem_of_nil. done.
  - intros _ i pc k Hp _ ? _. apply lookup_replicate in Hp as [-> _]. lia.
  - intros _ i ?%elem_of_nil. done.
  - lia.
Qed.

Lemma out_ok_eq i e : outs !! i = Some (Some e) -> out_ok i = match e with None => true | Some _ => false end.
Proof. unfold out_ok. intros ->. done. Qed.

Lemma set_pc_lookup i pc q s : pcs s !! i = Some q ->
  forall j x, pcs (set_pc i pc s) !! j = Some x <-> (j = i /\ x = pc) \/ (j <> i /\ pcs s !! j = Some x).
Proof.
  intros Hi j x. cbn. rewrite list_lookup_insert_Some. apply lookup_lt_Some in Hi.
  split; [intros [(-> & <- & _)|[? ?]]|intros [[-> ->]|[? ?]]]; auto.
Qed.

(** What a statement other than the send leaves alone. *)
Lemma exec_same i e st s : st <> SSend ->
  pcs (exec i e st s) = pcs s /\ queue (exec i e st s) = queue s /\ received (exec i e st s) = received s /\
  timedOut (exec i e st s) = timedOut s /\ returned (exec i e st s) = returned s /\
  length (reply (exec i e st s)) = length (reply s).
Proof. destruct st, e; cbn; try case_match; cbn; rewrite ?length_insert; done. Qed.

(** A goroutine's statement changes no word of the reply but its own. *)
Lemma exec_reply i e st s k j : reply (exec i e st s) !! k = Some (Some j) ->
  reply s !! k = Some (Some j) \/ (j = i /\ e = None /\ st = SSet k).
Proof.
  destruct st as [|k'| | | |], e as [e|]; cbn; try case_match; cbn; try (by left).
  rewrite list_lookup_insert_Some. intros [(-> & [= ->] & _)|[_ ?]]; [by right|by left].
Qed.

Lemma exec_errs i e st s e' : e' ∈ errs (exec i e st s) -> e' ∈ errs s \/ e = Some e'.
Proof.
  unfold exec. destruct st, e as [e|]; try (by left); [destruct (uncoverError (Some e)); by left|].
  cbn. rewrite elem_of_app, list_elem_of_singleton. intros [?| ->]; [by left|by right].
Qed.

Lemma exec_removed i e st s j : j ∈ removed (exec i e st s) ->
  j ∈ removed s \/ (j = i /\ exists e', e = Some e' /\ uncoverError (Some e') = true).
Proof.
  unfold exec. destruct st, e as [e|]; try (by left). destruct (uncoverError (Some e)) eqn:Hu; [|by left].
  cbn. rewrite elem_of_app, list_elem_of_singleton. intros [?| ->]; [by left|right; split; [done|by exists e]].
Qed.

Lemma exec_reply_keep i e st s k : is_Some (reply s !! k) -> (exists j, reply s !! k = Some (Some j)) \/ st = SSet k /\ e = None ->
  exists j, reply (exec i e st s) !! k = Some (Some j).
Proof.
  intros Hs H. destruct st as [|k'| | | |], e as [e|]; cbn; try case_match; cbn; try (destruct H as [H|[? ?]]; [exact H|congruence]).
  destruct (decide (k = k')) as [->|Hne].
  - exists i. apply list_lookup_insert_eq. by apply lookup_lt_is_Some.
  - rewrite list_lookup_insert_ne by done. destruct H as [H|[[=] _]]; [exact H|congruence].
Qed.

Lemma minv_move i pc st e s :
  minv s -> pcs s !! i = Some pc -> goroutine !! pc = Some st -> outs !! i = Some (Some e) -> st <> SSend ->
  minv (set_pc i (S pc) (exec i e st s)).
Proof.
  intros Hinv Hi Hst Ho Hns. destruct (exec_same i e st s Hns) as (Ep & Eq & Er & Et & Ere & Ew).
  assert (Hne : pc <> send_at) by (intros ->; rewrite (proj2 (goroutine_send _) eq_refl) in Hst; congruence).
  pose proof (set_pc_lookup i (S pc) pc (exec i e st s)) as Hset. rewrite Ep in Hset. specialize (Hset Hi).
  assert (Hsent : sent (set_pc i (S pc) (exec i e st s)) = sent s) by (unfold sent; cbn; by rewrite Eq, Er).
  destruct Hinv as [Hlen Hwd Hnd Hpast Hq Hend Herrs Hrep Hrem Hfork Hloop Hleft].
  split; rewrite ?Hsent; cbn [set_pc queue received errs reply removed returned timedOut]; rewrite ?Eq, ?Er, ?Ere, ?Ew; auto.
  - cbn. by rewrite length_insert, Ep.
  - intros j. rewrite Hpast. setoid_rewrite Hset. split.
    + intros (x & Hx & Hlt). destruct (decide (j = i)) as [->|Hji]; [|exists x; auto].
      exists (S pc). split; [by left|]. rewrite Hi in Hx. injection Hx as ->. lia.
    + intros (x & [[-> ->]|[? ?]] & Hlt); [exists pc; split; [done|lia]|by exists x].
  - intros j x Hx Hlt. apply Hset in Hx as [[-> ->]|[_ Hx]]; [by exists e|by eapply Hend].
  - intros e' [Hin| ->]%exec_errs; [rewrite Et; by apply Herrs|]. left. by exists i.
  - intros k j Hj. apply exec_reply in Hj as [Hj|(-> & -> & _)]; [by eapply Hrep|]. by rewrite (out_ok_eq _ _ Ho).
  - intros j [Hin|(-> & e' & -> & Hu)]%exec_removed; [by apply Hrem|]. by exists e'.
  - intros Hm j x k Hx Hok Hlt Hk. apply exec_reply_keep; [by apply lookup_lt_is_Some; lia|].
    apply Hset in Hx as [[-> ->]|[_ Hx]]; [|left; by eapply Hfork].
    destruct (decide (S k < pc)%nat) as [?|Hge]; [left; by eapply Hfork|right].
    assert (pc = S k) as -> by lia. rewrite (Fork_set _ k Hm Hk eq_refl) in Hst. injection Hst as <-.
    split; [done|]. rewrite (out_ok_eq _ _ Ho) in Hok. by destruct e.
Qed.

Lemma minv_send i e s :
  minv s -> pcs s !! i = Some send_at -> outs !! i = Some (Some e) -> minv (set_pc i (S send_at) (exec i e SSend s)).
Proof.
  intros Hinv Hi Ho.
  assert (Hex : exec i e SSend s = set_queue (queue s ++ [(i, out_ok i)]) s)
    by (rewrite (out_ok_eq _ _ Ho); by destruct e).
  rewrite Hex. pose proof (set_pc_lookup i (S send_at) send_at (set_queue (queue s ++ [(i, out_ok i)]) s) Hi) as Hset.
  assert (Hsent : sent (set_pc i (S send_at) (set_queue (queue s ++ [(i, out_ok i)]) s)) = sent s ++ [i])
    by (unfold sent; cbn; by rewrite fmap_app, app_assoc).
  destruct Hinv as [Hlen Hwd Hnd Hpast Hq Hend Herrs Hrep Hrem Hfork Hloop Hleft].
  assert (Hnew : i ∉ sent s).
  { rewrite Hpast. intros (p & Hp & Hl). rewrite Hi in Hp. injection Hp as <-. lia. }
  split; rewrite ?Hsent; cbn [set_pc set_queue queue received errs reply removed returned timedOut]; auto.
  - cbn. by rewrite length_insert.
  - apply NoDup_app. split; [done|]. split; [|apply NoDup_singleton]. by intros j Hj ->%list_elem_of_singleton.
  - intros j. rewrite elem_of_app, list_elem_of_singleton, Hpast. setoid_rewrite Hset. split.
    + intros [(x & Hx & Hlt)| ->]; [|exists (S send_at); split; [by left|lia]].
      exists x. split; [|done]. right. split; [|done]. intros ->. rewrite Hi in Hx. injection Hx as <-. lia.
    + intros (x & [[-> ->]|[? ?]] & Hl); [by right|]. left. by exists x.
  - intros j r. rewrite elem_of_app, list_elem_of_singleton. intros [Hin|[= -> ->]]; [by apply Hq|done].
  - intros j x Hx Hlt. apply Hset in Hx as [[-> ->]|[_ Hx]]; [by exists e|by eapply Hend].
  - intros Hm j x k Hx Hok Hlt Hk. apply Hset in Hx as [[-> ->]|[_ Hx]]; [|by eapply Hfork].
    eapply Hfork; [done|exact Hi|done| |done]. unfold send_at. rewrite Hm. lia.
Qed.

Lemma take_value_shape i r q s : exists s1, take_value i r q s = s1 /\
  pcs s1 = pcs s /\ queue s1 = q /\ received s1 = received s ++ [i] /\ errs s1 = errs s /\ reply s1 = reply s /\
  removed s1 = removed s /\ timedOut s1 = timedOut s /\
  (returned s1 = returned s /\ loop_ends m (length outs - S (length (received s))) r = false \/
   returned s1 = Some (match m with Fork => r || no_errors (errs s) | _ => no_errors (errs s) end, receipts s) /\
   loop_ends m (length outs - S (length (received s))) r = true).
Proof.
  eexists. split; [reflexivity|]. unfold take_value. cbn [received]. rewrite length_app, Nat.add_1_r.
  destruct (loop_ends _ _ _) eqn:E; cbn; split_and!; try done; [by right|by left].
Qed.

Lemma minv_receive i r q s :
  minv s -> returned s = None -> queue s = (i, r) :: q -> minv (take_value i r q s).
Proof.
  intros [Hlen Hwd Hnd Hpast Hq Hend Herrs Hrep Hrem Hfork Hloop Hleft] Hret Hqs.
  destruct (take_value_shape i r q s) as (s1 & -> & Ep & Eq & Er & Ee & Erp & Erm & Et & Hret1).
  assert (Hs : sent s1 = sent s) by (unfold sent; rewrite Er, Eq, Hqs, <- app_assoc; done).
  assert (Hr : r = out_ok i) by (apply Hq; rewrite Hqs; left).
  split; rewrite ?Hs, ?Ep, ?Ee, ?Erp, ?Erm, ?Et; auto.
  - intros j r'. rewrite Eq. intros Hin. apply Hq. rewrite Hqs. by right.
  - intros Hn. destruct Hret1 as [[_ Hl]|[? _]]; [|congruence].
    intros j. rewrite Er, elem_of_app, list_elem_of_singleton. intros [Hin| ->]; [by apply Hloop|].
    unfold loop_ends in Hl. destruct m; rewrite <- ?Hr; [|by apply orb_false_iff in Hl as [-> _]|done].
    apply orb_false_iff in Hl as [_ Hl]. by apply negb_false_iff in Hl.
  - intros Hn. destruct Hret1 as [[_ Hl]|[? _]]; [|congruence]. rewrite Er, length_app. cbn.
    assert (Hl0 : bool_decide (length outs - S (length (received s)) = 0)%nat = false)
      by (unfold loop_ends in Hl; destruct m; [by apply orb_false_iff in Hl as []|by apply orb_false_iff in Hl as []|done]).
    apply bool_decide_eq_false in Hl0. lia.
Qed.

Lemma mstep_inv s s' : mstep s s' -> minv s -> minv s'.
Proof.
  intros Hst Hinv. destruct Hst as [i pc st e s Hi Hg Ho|i r q s Hret Hq|s Hret].
  - destruct (decide (pc = send_at)) as [->|Hne].
    + rewrite (proj2 (goroutine_send _) eq_refl) in Hg. injection Hg as <-. by apply minv_send.
    + apply (minv_move i pc st e s); try done. intros ->. by apply goroutine_send in Hg.
  - by apply minv_receive.
  - destruct Hinv as [Hlen Hwd Hnd Hpast Hq Hend Herrs Hrep Hrem Hfork Hloop Hleft]. split; try done; cbn; auto.
Qed.

Lemma mreachable_inv s : mreachable s -> minv s.
Proof.
  intros Hr. unfold mreachable in Hr. remember (start (length outs) width) as s0 eqn:E.
  assert (H0 : minv s0) by (subst; apply minv_start). clear E.
  induction Hr; eauto using mstep_inv.
Qed.

(** ** What a returned result means *)
Definition all_sent (s : mstate) : Prop := forall i, (i < length outs)%nat -> i ∈ sent s.
Definition all_failed : Prop := forall i, (i < length outs)%nat -> out_ok i = false.
Definition all_succeeded : Prop := forall i, (i < length outs)%nat -> out_ok i = true.
Definition some_failed : Prop := exists i e, outs !! i = Some (Some (Some e)).
Definition received_one (ok : bool) (s : mstate) : Prop := exists i, i ∈ received s /\ out_ok i = ok.
Definition reply_written (s : mstate) : Prop :=
  forall k, (k < width)%nat -> exists j, reply s !! k = Some (Some j).

(** What a method's result [ok] says, while the goroutines run on. *)
Definition result_means (ok : bool) (s : mstate) : Prop :=
  match m with
  | Broadcast =>
      (timedOut s = true \/ received_one false s \/ (all_sent s /\ all_succeeded)) /\
      (if ok then timedOut s = false else timedOut s = true \/ some_failed)
  | Fork =>
      if ok then timedOut s = false /\ ((received_one true s /\ reply_written s) \/ (all_sent s /\ all_failed))
      else timedOut s = true \/ (all_sent s /\ all_failed)
  | Inform => (ok = true -> timedOut s = false) /\ (timedOut s = true \/ all_sent s)
  end.

Definition returned_ok (s : mstate) : Prop :=
  (returned s = None -> timedOut s = false) /\
  forall ok rc, returned s = Some (ok, rc) -> result_means ok s.

Lemma all_received s :
  minv s -> (length outs <= length (received s))%nat -> forall i, (i < length outs)%nat -> i ∈ received s.
Proof.
  intros Hinv Hl i Hi.
  assert (Hsub : received s ⊆+ seq 0 (length outs)).
  { apply NoDup_submseteq.
    - pose proof (inv_sent _ Hinv) as Hs. by apply NoDup_app in Hs as [? _].
    - intros j Hj. apply elem_of_seq. split; [lia|].
      assert (Hin : j ∈ sent s) by (unfold sent; rewrite elem_of_app; by left).
      apply (inv_past _ Hinv) in Hin as (p & Hp & _). apply lookup_lt_Some in Hp. rewrite (inv_len _ Hinv) in Hp. lia. }
  rewrite (submseteq_length_Permutation _ _ Hsub) by (by rewrite length_seq).
  apply elem_of_seq. lia.
Qed.

Lemma no_errors_nil : no_errors [] = true.
Proof. reflexivity. Qed.

Lemma length_append (s t : string) : String.length (s +:+ t) = (String.length s + String.length t)%nat.
Proof. induction s as [|c s IH]; [done|]. change (String c s +:+ t) with (String c (s +:+ t)). cbn. by rewrite IH. Qed.

Lemma length_join_sp_snoc l e : (String.length e <= String.length (join_sp (l ++ [e])))%nat.
Proof.
  induction l as [|a l IH]; [done|]. etrans; [exact IH|].
  change ((a :: l) ++ [e]) with (a :: (l ++ [e])).
  destruct (l ++ [e]) as [|b l'] eqn:E; [cbn; lia|].
  change (join_sp (a :: b :: l')) with (a +:+ " " +:+ join_sp (b :: l')).
  rewrite !length_append. lia.
Qed.

(** The text of the collected errors shows the timeout. *)
Lemma no_errors_timeout es : no_errors (es ++ [ErrorString "timeout"]) = false.
Proof.
  unfold no_errors. apply bool_decide_eq_false. intros H.
  apply (f_equal String.length) in H. cbn [Error] in H. rewrite map_app in H.
  pose proof (length_join_sp_snoc (map Error es) "timeout") as Hl.
  rewrite !length_append in H. change (String.length "timeout") with 7%nat in Hl.
  cbn [map Error] in H. change (String.length "[]") with 2%nat in H. lia.
Qed.

(** A statement of a goroutine keeps what a result says. *)
Lemma go_received i pc st e s : received (set_pc i pc (exec i e st s)) = received s.
Proof. unfold exec. destruct st, e as [e|]; try done. by destruct (uncoverError (Some e)). Qed.

Lemma go_timedOut i pc st e s :
  timedOut (set_pc i pc (exec i e st s)) = timedOut s /\ returned (set_pc i pc (exec i e st s)) = returned s.
Proof. unfold exec. destruct st, e as [e|]; try done. by destruct (uncoverError (Some e)). Qed.

Lemma go_sent i pc st e s j : j ∈ sent s -> j ∈ sent (set_pc i pc (exec i e st s)).
Proof.
  unfold exec, sent. destruct st, e as [e|]; try done; [| |by destruct (uncoverError (Some e))];
    cbn; rewrite fmap_app, !elem_of_app; intros [?|?]; auto.
Qed.

Lemma returned_ok_go i pc st e s : minv s -> returned_ok s -> returned_ok (set_pc i pc (exec i e st s)).
Proof.
  intros Hinv [Hn Hok]. pose proof (go_received i pc st e s) as Er. destruct (go_timedOut i pc st e s) as [Et Ere].
  assert (Hs : all_sent s -> all_sent (set_pc i pc (exec i e st s))) by (intros Hs j Hj; by apply go_sent, Hs).
  assert (Hw : reply_written s -> reply_written (set_pc i pc (exec i e st s))).
  { intros Hw k Hk. apply exec_reply_keep; [|left; by apply Hw]. apply lookup_lt_is_Some. by rewrite (inv_width _ Hinv). }
  split; rewrite Ere, ?Et; [done|]. intros ok rc Heq. specialize (Hok _ _ Heq). revert Hok.
  unfold result_means, received_one. rewrite Er, Et. destruct m, ok; intuition.
Qed.

Lemma errs_failed s : minv s -> no_errors (errs s) = false -> timedOut s = true \/ some_failed.
Proof.
  intros Hinv Hne. destruct (errs s) as [|e es] eqn:E; [by rewrite no_errors_nil in Hne|].
  destruct (inv_errs _ Hinv e) as [(i & Hi)|]; [rewrite E; left| |by left]. right. by exists i, e.
Qed.

(** A received success of [Fork] has its words written. *)
Lemma Fork_written s i : minv s -> m = Fork -> i ∈ sent s -> out_ok i = true -> reply_written s.
Proof.
  intros Hinv Hm Hi Hok k Hk. apply (inv_past _ Hinv) in Hi as (pc & Hpc & Hlt).
  eapply (inv_fork _ Hinv Hm); [exact Hpc|done| |done]. unfold send_at in Hlt. rewrite Hm in Hlt. lia.
Qed.

Lemma returned_ok_receive i r q s :
  minv s -> returned_ok s -> returned s = None -> queue s = (i, r) :: q -> returned_ok (take_value i r q s).
Proof.
  intros Hinv [Hn _] Hret Hq. specialize (Hn Hret).
  pose proof (minv_receive i r q s Hinv Hret Hq) as Hinv'.
  destruct (take_value_shape i r q s) as (s1 & E1 & Ep & Eq & Er & Ee & Erp & Erm & Et & Hret1). rewrite E1 in *.
  split; [by rewrite Et|]. intros ok rc Heq. rewrite Hret in Hret1.
  destruct Hret1 as [[? _]|[E Hl]]; [congruence|]. rewrite E in Heq. injection Heq as <- _.
  assert (Hi : i ∈ received s1) by (rewrite Er, elem_of_app, list_elem_of_singleton; by right).
  assert (Hr : out_ok i = r) by (symmetry; apply (inv_queue _ Hinv); rewrite Hq; left).
  assert (Hone : received_one r s1) by (by exists i).
  assert (Hall : bool_decide (length outs - S (length (received s)) = 0)%nat = true ->
    forall j, (j < length outs)%nat -> j ∈ received s \/ j = i).
  { intros Hz%bool_decide_eq_true j Hj. apply (all_received _ Hinv') in Hj; [|rewrite Er, length_app; cbn; lia].
    rewrite Er, elem_of_app, list_elem_of_singleton in Hj. done. }
  assert (Hsent : bool_decide (length outs - S (length (received s)) = 0)%nat = true -> all_sent s1).
  { intros Hz j Hj. unfold sent. rewrite elem_of_app, Er, elem_of_app, list_elem_of_singleton. left. by apply Hall. }
  pose proof (inv_loop _ Hinv Hret) as Hloop. rewrite <- Ee. pose proof (errs_failed _ Hinv') as Hfail.
  pose proof (fun Hm => Fork_written s1 i Hinv' Hm) as Hwr.
  unfold result_means, loop_ends in *. rewrite Et, Hn in *. destruct m.
  - split; [|destruct (no_errors (errs s1)) eqn:Ene; [done|by apply Hfail]].
    destruct r; cbn in Hl; [|by right; left]. rewrite orb_false_r in Hl. right; right. split; [by apply Hsent|].
    intros j Hj. destruct (Hall Hl j Hj) as [?| ->]; [by apply Hloop|done].
  - destruct r; cbn in Hl |- *.
    + split; [done|]. left. split; [done|]. apply Hwr; [done| |done]. unfold sent. rewrite elem_of_app. by left.
    + assert (Haf : all_sent s1 /\ all_failed).
      { split; [by apply Hsent|]. intros j Hj. destruct (Hall Hl j Hj) as [?| ->]; [by apply Hloop|done]. }
      destruct (no_errors (errs s1)); [split; [done|]|]; by right.
  - split; [done|]. right. by apply Hsent.
Qed.

Lemma mstep_returned_ok s s' : mstep s s' -> minv s -> returned_ok s -> returned_ok s'.
Proof.
  intros Hst Hinv Hok. destruct Hst as [i pc st e s Hi Hg Ho|i r q s Hret Hq|s Hret].
  - by apply returned_ok_go.
  - by apply returned_ok_receive.
  - split; [done|]. intros ok rc [= <- _]. unfold result_means. cbn [fire finish set_returned errs timedOut].
    rewrite no_errors_timeout. destruct m; cbn; auto.
Qed.

Lemma mreachable_all s : mreachable s -> minv s /\ returned_ok s.
Proof.
  unfold mreachable. intros Hr.
  assert (H0 : minv (start (length outs) width) /\ returned_ok (start (length outs) width))
    by (split; [apply minv_start|done]).
  induction Hr as [|s s' t Hst _ IH]; [done|]. apply IH. destruct H0. split;
    [by eapply mstep_inv|by eapply mstep_returned_ok].
Qed.

(** ** Termination *)
Definition steps_left (s : mstate) : nat :=
  2 * sum_list ((fun pc => length goroutine - pc)%nat <$> pcs s) + length (queue s) +
  (match returned s with Some _ => 0 | None => 1 end).

Lemma sum_set (f : nat -> nat) (l : list nat) i p q : l !! i = Some q ->
  (sum_list (f <$> <[i := p]> l) + f q = sum_list (f <$> l) + f p)%nat.
Proof.
  intros H. rewrite (insert_take_drop l i p) by (by eapply lookup_lt_Some).
  rewrite <- (take_drop_middle l i q H) at 3. rewrite !fmap_app, !fmap_cons, !sum_list_with_app.
  unfold sum_list. cbn. rewrite ?sum_list_with_app. cbn. lia.
Qed.

Lemma go_queue i pc st e s : pcs (set_pc i pc (exec i e st s)) = <[i := pc]> (pcs s) /\
  (length (queue (set_pc i pc (exec i e st s))) <= S (length (queue s)))%nat.
Proof.
  unfold exec. destruct st, e as [e|]; try destruct (uncoverError (Some e)); split; try done; cbn; rewrite ?length_app; cbn; lia.
Qed.

Lemma mstep_decreases s s' : mstep s s' -> (steps_left s' < steps_left s)%nat.
Proof.
  unfold steps_left. destruct 1 as [i pc st e s Hi Hg Ho|i r q s Hret Hq|s Hret].
  - destruct (go_queue i (S pc) st e s) as [-> Hq]. destruct (go_timedOut i (S pc) st e s) as [_ ->].
    apply lookup_lt_Some in Hg.
    pose proof (sum_set (fun pc => length goroutine - pc)%nat _ i (S pc) _ Hi) as Hs. cbn beta in Hs. lia.
  - destruct (take_value_shape i r q s) as (s1 & -> & -> & -> & _ & _ & _ & _ & _ & H).
    rewrite Hq, Hret in *. destruct H as [[-> _]|[-> _]]; cbn; lia.
  - rewrite Hret. cbn. lia.
Qed.

Lemma steps_left_run k s s' : nsteps mstep k s s' -> (k + steps_left s' <= steps_left s)%nat.
Proof. induction 1 as [|k s s1 s2 Hst _ IH]; [lia|]. apply mstep_decreases in Hst. lia. Qed.

Lemma length_goroutine : (length goroutine <= width + 5)%nat.
Proof. unfold goroutine. destruct m; cbn; rewrite ?length_app, ?length_set_words; cbn; lia. Qed.

Lemma steps_left_start : (steps_left (start (length outs) width) <= 2 * (width + 5) * length outs + 1)%nat.
Proof.
  unfold steps_left. cbn. rewrite fmap_replicate, Nat.sub_0_r.
  assert (H : forall n, (sum_list (replicate n (length goroutine)) <= (width + 5) * n)%nat).
  { pose proof length_goroutine. induction n as [|n IH]; [cbn; lia|].
    change (sum_list (replicate (S n) (length goroutine)))
      with (length goroutine + sum_list (replicate n (length goroutine)))%nat. lia. }
  specialize (H (length outs)). lia.
Qed.

(** Only the timer can end the method: a call never ends, and no outcome of the
    others breaks the loop. *)
Definition needs_timer : bool :=
  existsb (fun o => match o with None => true | _ => false end) outs &&
  match m with
  | Broadcast => forallb (fun o => match o with Some (Some _) => false | _ => true end) outs
  | Fork => forallb (fun o => match o with Some None => false | _ => true end) outs
  | Inform => true
  end.

Lemma needs_timer_true : needs_timer = true ->
  (exists i, outs !! i = Some None) /\
  match m with
  | Broadcast => forall i e, outs !! i = Some (Some e) -> e = None
  | Fork => forall i e, outs !! i = Some (Some e) -> e <> None
  | Inform => True
  end.
Proof.
  unfold needs_timer. intros [H1 H2]%andb_true_iff. split.
  - apply existsb_exists in H1 as (o & Ho%list_elem_of_In & H). apply list_elem_of_lookup_1 in Ho as [i Hi].
    exists i. by destruct o.
  - destruct m; [| |done]; intros i e Hi; rewrite forallb_forall in H2;
      (specialize (H2 (Some e)); destruct e as [e|]; [|try done]); (try discriminate H2); try done.
    all: exfalso; eapply diff_false_true, H2, list_elem_of_In, list_elem_of_lookup_2, Hi.
Qed.

Lemma needs_timer_false : needs_timer = false ->
  (forall i, outs !! i <> Some None) \/
  (exists i e, outs !! i = Some (Some e) /\
     match m with Broadcast => e <> None | Fork => e = None | Inform => False end).
Proof.
  unfold needs_timer. intros [H|H]%andb_false_iff.
  - left. intros i Hi. assert (Ht : existsb (fun o : option (option error) => match o with None => true | _ => false end) outs = true); [|congruence].
    apply existsb_exists. exists None. split; [|done]. by eapply list_elem_of_In, list_elem_of_lookup_2.
  - right. destruct m; [| |done]; clear -H; induction outs as [|o l IH]; try done; cbn in H;
      (destruct o as [[e|]|]; [..|destruct (IH H) as (i & e & Hi & He); by exists (S i), e]).
    + by exists 0%nat, (Some e).
    + destruct (IH H) as (i & e & Hi & He). by exists (S i), e.
    + destruct (IH H) as (i & e' & Hi & He). by exists (S i), e'.
    + by exists 0%nat, None.
Qed.

(** Without that, a goroutine or the loop can go on until the method returns. *)
Lemma progress s : minv s -> returned s = None -> outs <> [] -> needs_timer = false ->
  exists s', mstep s s' /\ timedOut s' = timedOut s.
Proof.
  intros Hinv Hret Hne Hnt. destruct (queue s) as [|[i r] q] eqn:Hq.
  2: { eexists. split; [by apply ms_receive|].
       by destruct (take_value_shape i r q s) as (s1 & -> & _ & _ & _ & _ & _ & _ & -> & _). }
  assert (Hrec : forall i, (exists pc, pcs s !! i = Some pc /\ (send_at < pc)%nat) -> i ∈ received s).
  { intros i Hi. apply (inv_past _ Hinv) in Hi. unfold sent in Hi. by rewrite Hq, app_nil_r in Hi. }
  assert (Hgo : forall i e, outs !! i = Some (Some e) -> i ∉ received s -> exists s', mstep s s' /\ timedOut s' = timedOut s).
  { intros i e Ho Hi. destruct (lookup_lt_is_Some_2 (pcs s) i) as [pc Hpc].
    { rewrite (inv_len _ Hinv). by eapply lookup_lt_Some. }
    destruct (goroutine_start pc) as [st Hst].
    { apply Nat.nlt_ge. intros Hlt. apply Hi, Hrec. by exists pc. }
    eexists. split; [by eapply ms_go|]. apply go_timedOut. }
  destruct (decide (Forall (fun i => i ∈ received s) (seq 0 (length outs)))) as [Hall|Hex].
  - exfalso. destruct (inv_left _ Hinv Hret) as [Hl|H0]; [|by apply length_zero_iff_nil in H0].
    assert (Hsub : seq 0 (length outs) ⊆+ received s).
    { apply NoDup_submseteq; [apply NoDup_seq|]. by apply Forall_forall. }
    apply submseteq_length in Hsub. rewrite length_seq in Hsub. lia.
  - apply not_Forall_Exists in Hex; [|apply _]. apply Exists_exists in Hex as (i & [_ Hi]%elem_of_seq & Hnr).
    destruct (lookup_lt_is_Some_2 outs i) as [[e|] Ho]; [lia|by eapply Hgo|].
    destruct (needs_timer_false Hnt) as [Hh|(j & e & Hj & He)]; [by destruct (Hh i)|].
    apply (Hgo j e Hj). intros Hr. pose proof (inv_loop _ Hinv Hret j Hr) as Hl. unfold out_ok in Hl. rewrite Hj in Hl.
    destruct m, e; try done; by destruct He.
Qed.

Lemma returns_from n s : (steps_left s <= n)%nat -> minv s -> outs <> [] -> needs_timer = false ->
  timedOut s = false -> exists s', rtc mstep s s' /\ timedOut s' = false /\ is_Some (returned s').
Proof.
  revert s. induction n as [|n IH]; intros s Hn Hinv Hne Hnt Ht.
  all: destruct (returned s) as [x|] eqn:Hret; [exists s; split; [constructor|by rewrite Hret]|].
  - unfold steps_left in Hn. rewrite Hret in Hn. lia.
  - destruct (progress s Hinv Hret Hne Hnt) as (s' & Hst & Ht'). rewrite Ht in Ht'.
    pose proof (mstep_decreases _ _ Hst).
    destruct (IH s') as (s2 & H2 & Ht2 & Hr2); [lia|by eapply mstep_inv|done..|].
    exists s2. split; [by econstructor|done].
Qed.

Lemma needs_timer_fires s : minv s -> returned_ok s -> needs_timer = true -> is_Some (returned s) -> timedOut s = true.
Proof.
  intros Hinv [_ Hok] Hnt [[ok rc] Hret]. specialize (Hok _ _ Hret).
  destruct (needs_timer_true Hnt) as [(h & Hh) Hm].
  assert (Hended : forall i, i ∈ sent s -> exists e, outs !! i = Some (Some e)).
  { intros i (pc & Hpc & Hlt)%(inv_past _ Hinv). eapply (inv_ended _ Hinv); [done|lia]. }
  assert (Hns : ~ all_sent s).
  { intros Hs. destruct (Hended h) as [e He]; [apply Hs; by eapply lookup_lt_Some|congruence]. }
  assert (Hone : forall b, received_one b s -> exists i e, outs !! i = Some (Some e) /\ out_ok i = b).
  { intros b (i & Hi & Hb). destruct (Hended i) as [e He]; [unfold sent; rewrite elem_of_app; by left|]. by exists i, e. }
  unfold result_means in Hok. destruct m.
  - destruct Hok as [[?|[Hr|[? _]]] _]; [done| |done]. destruct (Hone _ Hr) as (i & e & He & Hb).
    rewrite (Hm _ _ He) in He. by rewrite (out_ok_eq _ _ He) in Hb.
  - destruct ok; [|by destruct Hok as [?|[? _]]]. destruct Hok as [_ [[Hr _]|[? _]]]; [|done].
    destruct (Hone _ Hr) as (i & e & He & Hb). pose proof (Hm _ _ He) as Hn. rewrite (out_ok_eq _ _ He) in Hb. by destruct e.
  - by destruct Hok as [_ [?|?]].
Qed.

(** ** Properties *)

(** C19: a call on all servers never invents an answer, whatever the
    interleaving: each word of the caller's reply is what the caller had there
    or that word of the reply of a call that succeeded, though words of several
    of them may mix; only connections whose call failed with an error that is
    not covered are removed.  And what a result says: [Broadcast] returns only
    when the timer fired, a failure was received, or every call succeeded, so
    that one success does not end it; its error means that a call failed or the
    timer fired.  [Fork] returns nil in time only after a success was received,
    and then every word of the reply is written, or when all calls failed; and
    an error only after every call failed or the timer fired.  [Inform] returns
    only after every call ended, or the timer fired, and with an error in the
    latter case. *)
Theorem multi_result_sound s ok rc :
  mreachable s -> returned s = Some (ok, rc) ->
  (forall k i, reply s !! k = Some (Some i) -> out_ok i = true) /\
  (forall i, i ∈ removed s -> exists e, outs !! i = Some (Some (Some e)) /\ uncoverError (Some e) = true) /\
  match m with
  | Broadcast =>
      (timedOut s = true \/ received_one false s \/ (all_sent s /\ all_succeeded)) /\
      (if ok then timedOut s = false else timedOut s = true \/ some_failed)
  | Fork =>
      if ok then timedOut s = false /\ ((received_one true s /\ reply_written s) \/ (all_sent s /\ all_failed))
      else timedOut s = true \/ (all_sent s /\ all_failed)
  | Inform => (ok = true -> timedOut s = false) /\ (timedOut s = true \/ all_sent s)
  end.
Proof.
  intros Hr Hret. apply mreachable_all in Hr as [Hinv [_ Hok]]. split; [apply (inv_reply _ Hinv)|].
  split; [apply (inv_removed _ Hinv)|]. by apply (Hok ok rc).
Qed.

(** C31: when the three methods return, with at least one connection.  A run
    has at most [2 * (width + 5)] steps per server and one more.  Unless a call
    never ends while no other outcome breaks the loop, from every state of a run
    the goroutines and the loop reach a return without the timer; otherwise the
    method hangs until the timer fires, and the timer does end it. *)
Theorem multi_returns :
  outs <> [] ->
  (forall k s, nsteps mstep k (start (length outs) width) s -> (k <= 2 * (width + 5) * length outs + 1)%nat) /\
  (needs_timer = false -> forall s, mreachable s -> returned s = None ->
     exists s', rtc mstep s s' /\ timedOut s' = false /\ is_Some (returned s')) /\
  (needs_timer = true -> forall s, mreachable s ->
     (is_Some (returned s) -> timedOut s = true) /\
     (returned s = None -> exists s', mstep s s' /\ is_Some (returned s'))).
Proof.
  intros Hne. split; [|split].
  - intros k s Hk. apply steps_left_run in Hk. pose proof steps_left_start. lia.
  - intros Hnt s Hr Hret. apply mreachable_all in Hr as [Hinv Hok]. eapply returns_from; [reflexivity|done..|by apply Hok].
  - intros Hnt s Hr. apply mreachable_all in Hr as [Hinv Hok]. split; [by apply needs_timer_fires|].
    intros Hret. eexists. split; [by apply ms_timeout|by eexists].
Qed.
End steps.

(** [Broadcast] can return nil although a server failed: the goroutine
    sends its outcome on [done] before it appends the error, and the loop that
    receives it prints an empty [MultiError]. *)
Theorem Broadcast_hides_failure outs width i e :
  outs !! i = Some (Some (Some e)) ->
  exists s, mreachable Broadcast outs width s /\ returned s = Some (true, []) /\ timedOut s = false.
Proof.
  intros Hi. pose proof (lookup_lt_Some _ _ _ Hi) as Hlt.
  pose (s1 := set_pc i 1 (start (length outs) width)).
  pose (s2 := set_pc i 2 (set_queue [(i, false)] s1)).
  assert (Hp : pcs s1 !! i = Some 1%nat) by (cbn; apply list_lookup_insert_eq; by rewrite length_replicate).
  eexists. split; [|].
  - unfold mreachable. eapply (rtc_l _ _ s1).
    { apply (ms_go Broadcast outs width i 0 SCall (Some e) (start (length outs) width)); [|done|done].
      cbn. by apply lookup_replicate. }
    eapply (rtc_l _ _ s2).
    { by apply (ms_go Broadcast outs width i 1 SSend (Some e) s1). }
    apply rtc_once. by apply (ms_receive Broadcast outs width i false [] s2).
  - unfold take_value, loop_ends. rewrite orb_true_r. done.
Qed.

(** A server that fails with an empty message is never seen: the [MultiError] of
    its error prints as an empty one. *)
Example empty_error_hidden : no_errors [ServiceError ""] = true.
Proof. reflexivity. Qed.

(** ** Witnesses *)
Ltac go i := eapply rtc_l; [eapply (ms_go _ _ _ i); reflexivity|cbn].

(** Two calls succeed, and the reply has a word of each. *)
Example reply_mixed :
  exists s, mreachable Broadcast [Some None; Some None] 2 s /\ reply s = [Some 1%nat; Some 0%nat].
Proof.
  eexists. split.
  - do 4 go 0%nat. do 4 go 1%nat. go 0%nat. go 1%nat. go 0%nat. apply rtc_refl.
  - reflexivity.
Qed.

Definition fork_outs : list (option (option error)) := [Some (Some ErrShutdown); Some None; None].

Lemma multi_result_sound_witness :
  exists s, mreachable Fork fork_outs 1 s /\ returned s = Some (true, []) /\
    reply s = [Some 1%nat] /\ reply_written 1 s.
Proof.
  eexists. assert (H : mreachable Fork fork_outs 1
    (take_value Fork fork_outs 1 true [] (mk_mstate [1%nat; 3%nat; 0%nat] [(1%nat, true)] [] [] [Some 1%nat] [] [] false None))).
  { unfold mreachable. do 3 go 1%nat. go 0%nat.
    apply rtc_once. exact (ms_receive Fork fork_outs 1 1 true []
      (mk_mstate [1%nat; 3%nat; 0%nat] [(1%nat, true)] [] [] [Some 1%nat] [] [] false None) eq_refl eq_refl). }
  split; [exact H|]. split; [reflexivity|]. split; [reflexivity|].
  destruct (multi_result_sound Fork _ _ _ true [] H eq_refl) as (_ & _ & Hf).
  destruct Hf as [_ [[_ Hw]|[_ Hall]]]; [exact Hw|].
  specialize (Hall 1%nat ltac:(cbn; lia)). discriminate Hall.
Defined.

(** One call never ends: [Fork] returns with the success of another, [Inform]
    only with the timer. *)
Lemma multi_returns_witness :
  (exists s', rtc (mstep Fork fork_outs 1) (start 3 1) s' /\ timedOut s' = false /\ is_Some (returned s')) /\
  (forall s, mreachable Inform fork_outs 1 s -> is_Some (returned s) -> timedOut s = true).
Proof.
  destruct (multi_returns Fork fork_outs 1 ltac:(done)) as (_ & Hf & _).
  destruct (multi_returns Inform fork_outs 1 ltac:(done)) as (_ & _ & Hi).
  split; [apply (Hf eq_refl); [constructor|reflexivity]|].
  intros s Hs. apply (Hi eq_refl s Hs).
Defined.

Lemma Broadcast_hides_failure_witness :
  exists s, mreachable Broadcast [Some (Some (ServiceError "no")); Some None] 0 s /\ returned s = Some (true, []) /\
    timedOut s = false.
Proof. apply (Broadcast_hides_failure _ 0 0 (ServiceError "no")). reflexivity. Defined.
