(* ===== verification/Plugins.v ===== *)
(** The plugin containers, server/plugin_container.go and
    client/plugin_container.go: which plugins a hook reaches, in which order,
    and what an error does.

    A plugin is the set of the interfaces it implements, one optional hook per
    interface; a hook is a program on a world [W] shared by all plugins, and the
    error it returns is a value.  [V] are the Go values of arguments and
    replies; a connection is a number.  [pid] is the plugin's identity, which
    [Remove] compares. *)
From S2P Require Import Prelude Go Message.
Open Scope go_scope.

(** ** What the methods of both containers do *)
Section container.
Context {P W : Type}.

(** Call the hook of each plugin that has it and stop at the first error; what
    a hook changes or returns is given to the next. *)
Fixpoint until_error {H A} (hook : P -> option H) (run : H -> A -> prog W (A * option error))
    (ps : list P) (a : A) : prog W (A * option error) :=
  match ps with
  | [] => mret (a, None)
  | p :: ps =>
      match hook p with
      | None => until_error hook run ps a
      | Some h =>
          '(a, err) ← run h a;
          match err with
          | Some e => mret (a, Some e)
          | None => until_error hook run ps a
          end
      end
  end.

(** Call every hook and collect the errors. *)
Fixpoint collect_errors {H} (hook : P -> option H) (run : H -> prog W (option error))
    (ps : list P) : prog W (list error) :=
  match ps with
  | [] => mret []
  | p :: ps =>
      match hook p with
      | None => collect_errors hook run ps
      | Some h =>
          err ← run h;
          es ← collect_errors hook run ps;
          mret (match err with Some e => e :: es | None => es end)
      end
  end.

(** [if len(es) > 0 { return errors.NewMultiError(es) }]. *)
Definition NewMultiError (es : list error) : option error :=
  match es with [] => None | _ => Some (MultiError es) end.

Definition collected {H} (hook : P -> option H) (run : H -> prog W (option error)) (ps : list P) :
    prog W (option error) :=
  es ← collect_errors hook run ps; mret (NewMultiError es).

(** A hook with no result to pass on. *)
Definition no_arg {H} (run : H -> prog W (option error)) : H -> unit -> prog W (unit * option error) :=
  fun h _ => err ← run h; mret (tt, err).

(** *** Programs up to equal behaviour *)
Definition prog_eq {A} (p q : prog W A) : Prop := forall w, p w = q w.

#[global] Instance prog_eq_equiv {A} : Equivalence (@prog_eq A).
Proof.
  split; [done|by intros p q H w|intros p q r H1 H2 w; by rewrite (H1 w), (H2 w)].
Qed.

#[global] Instance prog_bind_proper {A B} :
  Proper (pointwise_relation A (@prog_eq B) ==> @prog_eq A ==> @prog_eq B) (@mbind (prog W) _ A B).
Proof.
  intros f g Hfg p q Hpq w. unfold mbind, prog_bind. rewrite (Hpq w).
  destruct (q w) as [w' [a| | | |]]; try done. apply Hfg.
Qed.

Lemma prog_bind_assoc {A B C} (p : prog W A) (f : A -> prog W B) (g : B -> prog W C) :
  prog_eq ((p ≫= f) ≫= g) (p ≫= fun a => f a ≫= g).
Proof. intros w. unfold mbind, prog_bind. by destruct (p w) as [w' [a| | | |]]. Qed.

Lemma prog_ret_bind {A B} (a : A) (f : A -> prog W B) : prog_eq (mret a ≫= f) (f a).
Proof. done. Qed.

Lemma prog_bind_ret {A} (p : prog W A) : prog_eq (p ≫= mret) p.
Proof. intros w. unfold mbind, prog_bind, mret, prog_ret. by destruct (p w) as [w' [a| | | |]]. Qed.

(** *** Composition *)
Lemma until_error_app {H A} (hook : P -> option H) run (ps qs : list P) (a : A) :
  prog_eq (until_error hook run (ps ++ qs) a)
    ('(a, err) ← until_error hook run ps a;
     match err with Some e => mret (a, Some e) | None => until_error hook run qs a end).
Proof.
  revert a. induction ps as [|p ps IH]; intros a; cbn; [by rewrite prog_ret_bind|].
  destruct (hook p) as [h|]; [|apply IH]. rewrite prog_bind_assoc.
  apply prog_bind_proper; [|reflexivity]. intros [a' [e|]]; [|apply IH]. by rewrite prog_ret_bind.
Qed.

Lemma collect_errors_app {H} (hook : P -> option H) run (ps qs : list P) :
  prog_eq (collect_errors hook run (ps ++ qs))
    (es ← collect_errors hook run ps; fs ← collect_errors hook run qs; mret (es ++ fs)).
Proof.
  induction ps as [|p ps IH]; cbn.
  - rewrite prog_ret_bind. symmetry. apply prog_bind_ret.
  - destruct (hook p) as [h|]; [|done]. rewrite prog_bind_assoc.
    apply prog_bind_proper; [|reflexivity]. intros err. rewrite IH, !prog_bind_assoc.
    apply prog_bind_proper; [|reflexivity]. intros es. rewrite !prog_bind_assoc, prog_ret_bind.
    apply prog_bind_proper; [|reflexivity]. intros fs. rewrite prog_ret_bind. by destruct err.
Qed.

(** Every hook of [ps] runs, in order, and none fails. *)
Inductive all_run {H A} (hook : P -> option H) (run : H -> A -> prog W (A * option error)) :
    list P -> A -> W -> A -> W -> Prop :=
| all_run_nil a w : all_run hook run [] a w a w
| all_run_skip p ps a w a' w' : hook p = None ->
    all_run hook run ps a w a' w' -> all_run hook run (p :: ps) a w a' w'
| all_run_cons p h ps a w a1 w1 a' w' : hook p = Some h ->
    run h a w = (w1, Ok (a1, None)) ->
    all_run hook run ps a1 w1 a' w' -> all_run hook run (p :: ps) a w a' w'.

(** The hooks of [ps] run up to the first that fails, with [e]. *)
Definition fails_at {H A} (hook : P -> option H) (run : H -> A -> prog W (A * option error))
    (ps : list P) (a : A) (w : W) (a' : A) (w' : W) (e : error) : Prop :=
  exists ps1 p ps2 h a1 w1, ps = ps1 ++ p :: ps2 /\ all_run hook run ps1 a w a1 w1 /\
    hook p = Some h /\ run h a1 w1 = (w', Ok (a', Some e)).

Lemma until_error_runs {H A} (hook : P -> option H) run ps (a : A) w a' w' :
  all_run hook run ps a w a' w' -> until_error hook run ps a w = (w', Ok (a', None)).
Proof.
  induction 1 as [|p ps a w a' w' Hp _ IH|p h ps a w a1 w1 a' w' Hp Hr _ IH]; cbn; [done|by rewrite Hp|].
  rewrite Hp. unfold mbind, prog_bind. by rewrite Hr.
Qed.

Lemma until_error_spec {H A} (hook : P -> option H) run ps (a : A) w a' w' err :
  until_error hook run ps a w = (w', Ok (a', err)) <->
  match err with
  | None => all_run hook run ps a w a' w'
  | Some e => fails_at hook run ps a w a' w' e
  end.
Proof.
  split.
  - revert a w. induction ps as [|p ps IH]; intros a w; cbn.
    + intros [= <- <- <-]. constructor.
    + destruct (hook p) as [h|] eqn:Hp.
      * unfold mbind, prog_bind. destruct (run h a w) as [w1 [[a1 [e|]]| | | |]] eqn:Hr; try done.
        -- intros [= <- <- <-]. exists [], p, ps, h, a, w. split_and!; [done|constructor|done|done].
        -- intros Hu. apply IH in Hu. destruct err as [e|].
           ++ destruct Hu as (ps1 & q & ps2 & h' & a2 & w2 & -> & Hrun & Hq & He).
              exists (p :: ps1), q, ps2, h', a2, w2. split_and!; [done|by econstructor|done|done].
           ++ by econstructor.
      * intros Hu. apply IH in Hu. destruct err as [e|]; [|by constructor].
        destruct Hu as (ps1 & q & ps2 & h' & a2 & w2 & -> & Hrun & Hq & He).
        exists (p :: ps1), q, ps2, h', a2, w2. split_and!; [done|by constructor|done|done].
  - destruct err as [e|]; [|apply until_error_runs].
    intros (ps1 & p & ps2 & h & a1 & w1 & -> & Hrun & Hp & Hr).
    rewrite until_error_app. unfold mbind at 1, prog_bind at 1.
    rewrite (until_error_runs _ _ _ _ _ _ _ Hrun). cbn. rewrite Hp.
    unfold mbind, prog_bind. by rewrite Hr.
Qed.

(** Plugins without the hook change nothing. *)
Lemma until_error_none {H A} (hook : P -> option H) run ps (a : A) w :
  Forall (fun p => hook p = None) ps -> until_error hook run ps a w = (w, Ok (a, None)).
Proof. induction 1 as [|p ps Hp _ IH]; cbn; [done|by rewrite Hp]. Qed.

(** The outcomes of the hooks of [ps], all of them run. *)
Inductive outcomes {H} (hook : P -> option H) (run : H -> prog W (option error)) :
    list P -> W -> list (option error) -> W -> Prop :=
| outcomes_nil w : outcomes hook run [] w [] w
| outcomes_skip p ps w rs w' : hook p = None ->
    outcomes hook run ps w rs w' -> outcomes hook run (p :: ps) w rs w'
| outcomes_cons p h ps w r w1 rs w' : hook p = Some h -> run h w = (w1, Ok r) ->
    outcomes hook run ps w1 rs w' -> outcomes hook run (p :: ps) w (r :: rs) w'.

Lemma collect_errors_spec {H} (hook : P -> option H) run ps w es w' :
  collect_errors hook run ps w = (w', Ok es) <->
  exists rs, outcomes hook run ps w rs w' /\ es = omap id rs.
Proof.
  revert w es. induction ps as [|p ps IH]; intros w es; cbn.
  - split; [intros [= <- <-]; exists []; split; [constructor|done]|].
    intros (rs & Ho & ->). by inversion Ho.
  - destruct (hook p) as [h|] eqn:Hp.
    + unfold mbind, prog_bind. split.
      * destruct (run h w) as [w1 [r| | | |]] eqn:Hr; try done.
        destruct (collect_errors hook run ps w1) as [w2 [es2| | | |]] eqn:Hc; try done.
        intros [= <- <-]. apply IH in Hc as (rs & Ho & ->). exists (r :: rs).
        split; [by econstructor|by destruct r].
      * intros (rs & Ho & ->). inversion Ho as [|? ? ? ? ? Hn|? h' ? ? r w1 rs' ? Hh Hr Hrest]; subst; [congruence|].
        rewrite Hp in Hh. injection Hh as <-. rewrite Hr.
        rewrite (proj2 (IH w1 (omap id rs'))) by (by exists rs'). by destruct r.
    + rewrite IH. split; intros (rs & Ho & ->); exists rs; (split; [|done]); [by constructor|].
      by inversion Ho; subst; [|congruence].
Qed.

Lemma collected_spec {H} (hook : P -> option H) run ps w err w' :
  collected hook run ps w = (w', Ok err) <->
  exists rs, outcomes hook run ps w rs w' /\ err = NewMultiError (omap id rs).
Proof.
  unfold collected. unfold mbind, prog_bind. split.
  - destruct (collect_errors hook run ps w) as [w1 [es| | | |]] eqn:Hc; try done.
    intros [= <- <-]. apply collect_errors_spec in Hc as (rs & Ho & ->). by exists rs.
  - intros (rs & Ho & ->). by rewrite (proj2 (collect_errors_spec hook run ps w _ w') (ex_intro _ rs (conj Ho eq_refl))).
Qed.

(** *** The list of plugins *)
Context (pid : P -> nat).

Definition Add (ps plugins : list P) : list P := plugins ++ ps.

Definition Remove (p : P) (plugins : list P) : list P := filter (fun q => pid q <> pid p) plugins.

Lemma Remove_notin p ps : Forall (fun q => pid q <> pid p) ps -> Remove p ps = ps.
Proof. unfold Remove. induction 1 as [|q ps Hq _ IH]; [done|]. by rewrite filter_cons_True, IH. Qed.

Lemma Remove_self p ps qs : Remove p (ps ++ p :: qs) = Remove p ps ++ Remove p qs.
Proof. unfold Remove. rewrite filter_app, filter_cons_False; [done|]. intros Hne. by apply Hne. Qed.
End container.
