(* ===== verification/ServerPlugins.v ===== *)
(** server/plugin.go and server/plugin_container.go: the hooks of a server
    plugin and the container that runs them. *)
From S2P Require Import Prelude Go Message Plugins.
Open Scope go_scope.

Section server_plugins.
Context {W V : Type}.

Notation conn := nat.

(** One field per interface of server/plugin.go. *)
Record Plugin : Type := mk_Plugin {
  pid : nat;
  Register : option (string -> V -> string -> prog W (option error));
  Unregister : option (string -> prog W (option error));
  RegisterFunction : option (string -> string -> V -> string -> prog W (option error));
  HandleConnAccept : option (conn -> prog W (conn * bool));
  HandleConnClose : option (conn -> prog W bool);
  PreReadRequest : option (prog W (option error));
  PostReadRequest : option (message -> option error -> prog W (message * option error));
  PreHandleRequest : option (message -> prog W (message * option error));
  PreCall : option (string -> string -> V -> prog W (V * option error));
  PostCall : option (string -> string -> V -> option V -> prog W (option V * option error));
  PreWriteResponse : option (message -> option message -> option error -> prog W (message * option message * option error));
  PostWriteResponse : option (message -> option message -> option error -> prog W (message * option message * option error));
  PreWriteRequest : option (prog W (option error));
  PostWriteRequest : option (message -> option error -> prog W (message * option error));
  HeartbeatRequest : option (message -> prog W (message * option error))
}.

Definition pluginContainer : Type := list Plugin.

Definition All (p : pluginContainer) : list Plugin := p.

(** A plugin that is both [Register] and [Unregister] is a [RegisterPlugin]. *)
Definition RegisterPlugin (p : Plugin) :
    option ((string -> V -> string -> prog W (option error)) * (string -> prog W (option error))) :=
  r ← Register p; u ← Unregister p; Some (r, u).

Definition DoRegister (name : string) (rcvr : V) (metadata : string) (p : pluginContainer) : prog W (option error) :=
  collected RegisterPlugin (fun h => h.1 name rcvr metadata) p.

Definition DoRegisterFunction (serviceName fname : string) (fn : V) (metadata : string) (p : pluginContainer) :
    prog W (option error) :=
  collected RegisterFunction (fun h => h serviceName fname fn metadata) p.

Definition DoUnregister (name : string) (p : pluginContainer) : prog W (option error) :=
  collected RegisterPlugin (fun h => h.2 name) p.

(** [close] is the connection's [Close]. *)
Fixpoint DoPostConnAccept (close : conn -> prog W unit) (p : pluginContainer) (c : conn) : prog W (conn * bool) :=
  match p with
  | [] => mret (c, true)
  | plugin :: p =>
      match HandleConnAccept plugin with
      | None => DoPostConnAccept close p c
      | Some h =>
          '(c, flag) ← h c;
          if (flag : bool) then DoPostConnAccept close p c else close c;; mret (c, false)
      end
  end.

Fixpoint DoPostConnClose (c : conn) (p : pluginContainer) : prog W bool :=
  match p with
  | [] => mret true
  | plugin :: p =>
      match HandleConnClose plugin with
      | None => DoPostConnClose c p
      | Some h => flag ← h c; if (flag : bool) then DoPostConnClose c p else mret false
      end
  end.

Definition DoPreReadRequest (p : pluginContainer) : prog W (option error) :=
  '(_, err) ← until_error PreReadRequest (no_arg id) p tt; mret err.

Definition DoPostReadRequest (e : option error) (p : pluginContainer) (r : message) : prog W (message * option error) :=
  until_error PostReadRequest (fun h r => h r e) p r.

Definition DoPreHandleRequest (p : pluginContainer) (r : message) : prog W (message * option error) :=
  until_error PreHandleRequest id p r.

Definition DoPreCall (serviceName methodName : string) (p : pluginContainer) (args : V) : prog W (V * option error) :=
  until_error PreCall (fun h => h serviceName methodName) p args.

Definition DoPostCall (serviceName methodName : string) (args : V) (p : pluginContainer) (reply : option V) :
    prog W (option V * option error) :=
  until_error PostCall (fun h => h serviceName methodName args) p reply.

Definition DoPreWriteResponse (err : option error) (p : pluginContainer) (m : message * option message) :
    prog W (message * option message * option error) :=
  until_error PreWriteResponse (fun h '(req, res) => h req res err) p m.

Definition DoPostWriteResponse (e : option error) (p : pluginContainer) (m : message * option message) :
    prog W (message * option message * option error) :=
  until_error PostWriteResponse (fun h '(req, res) => h req res e) p m.

Definition DoPreWriteRequest (p : pluginContainer) : prog W (option error) :=
  '(_, err) ← until_error PreWriteRequest (no_arg id) p tt; mret err.

Definition DoPostWriteRequest (e : option error) (p : pluginContainer) (r : message) : prog W (message * option error) :=
  until_error PostWriteRequest (fun h r => h r e) p r.

Definition DoHeartbeatRequest (p : pluginContainer) (r : message) : prog W (message * option error) :=
  until_error HeartbeatRequest id p r.

(** ** Accepting a connection *)

(** The connection [HandleConnAccept] hands on, as long as no plugin refuses. *)
Fixpoint accepted (p : pluginContainer) (c : conn) (w : W) : option (conn * W) :=
  match p with
  | [] => Some (c, w)
  | plugin :: p =>
      match HandleConnAccept plugin with
      | None => accepted p c w
      | Some h => match h c w with
                  | (w, Ok (c, true)) => accepted p c w
                  | _ => None
                  end
      end
  end.

Lemma DoPostConnAccept_true close p c w w' c' :
  DoPostConnAccept close p c w = (w', Ok (c', true)) <-> accepted p c w = Some (c', w').
Proof.
  revert c w. induction p as [|x p IH]; intros c w; cbn.
  - split; intros [= <- <-]; done.
  - destruct (HandleConnAccept x) as [h|]; [|apply IH]. unfold mbind, prog_bind.
    destruct (h c w) as [w1 [[c1 []]| | | |]]; try (by split); [apply IH|].
    split; [|done]. by destruct (close c1 w1) as [? [| | | |]].
Qed.

(** ** Properties *)

(** What the plugins of a server decide, hook by hook: reading a request
    succeeds exactly when every hook of every plugin ran in the order of their
    addition without an error, each seeing the message the one before left; an
    error is that of the first hook that fails, and no later hook runs.
    Registering runs every hook whatever fails and collects all errors, in
    order.  A connection is accepted exactly when no plugin refuses it. *)
Theorem server_hooks (p : pluginContainer) (w w' : W) :
  (forall e r r' err, DoPostReadRequest e p r w = (w', Ok (r', err)) <->
     match err with
     | None => all_run PostReadRequest (fun h r => h r e) p r w r' w'
     | Some x => fails_at PostReadRequest (fun h r => h r e) p r w r' w' x
     end) /\
  (forall s m v v' err, DoPreCall s m p v w = (w', Ok (v', err)) <->
     match err with
     | None => all_run PreCall (fun h => h s m) p v w v' w'
     | Some x => fails_at PreCall (fun h => h s m) p v w v' w' x
     end) /\
  (forall name rcvr meta err, DoRegister name rcvr meta p w = (w', Ok err) <->
     exists rs, outcomes RegisterPlugin (fun h => h.1 name rcvr meta) p w rs w' /\
       err = NewMultiError (omap id rs)) /\
  (forall close c c', DoPostConnAccept close p c w = (w', Ok (c', true)) <-> accepted p c w = Some (c', w')).
Proof.
  split_and!; intros; [apply until_error_spec|apply until_error_spec|apply collected_spec|apply DoPostConnAccept_true].
Qed.

(** Removing a plugin takes away exactly its hooks: what the container
    does afterwards is what the plugins before and after it do, and removing a
    plugin just added gives the container back. *)
Theorem Remove_hooks (x : Plugin) (p q : pluginContainer) (r : message) (e : option error) :
  Forall (fun y => pid y <> pid x) p -> Forall (fun y => pid y <> pid x) q ->
  Remove pid x (p ++ x :: q) = p ++ q /\
  Remove pid x (Add [x] p) = p /\
  prog_eq (DoPostReadRequest e (Remove pid x (p ++ x :: q)) r)
    ('(r, err) ← DoPostReadRequest e p r;
     match err with Some err => mret (r, Some err) | None => DoPostReadRequest e q r end).
Proof.
  intros Hp Hq. assert (Hr : Remove pid x (p ++ x :: q) = p ++ q) by (by rewrite Remove_self, !Remove_notin).
  split_and!; [done| |rewrite Hr; apply until_error_app].
  unfold Add. rewrite Remove_self, Remove_notin by done. apply app_nil_r.
Qed.
End server_plugins.
Arguments Plugin : clear implicits.
Arguments pluginContainer : clear implicits.

(** A plugin with no hook. *)
Definition blank (n : nat) : Plugin unit unit :=
  mk_Plugin n None None None None None None None None None None None None None None None.

Lemma Remove_hooks_example :
  Remove pid (blank 1) [blank 0; blank 1; blank 2] = [blank 0; blank 2] /\
  Remove pid (blank 1) (Add [blank 1] [blank 0]) = [blank 0].
Proof.
  pose proof (Remove_hooks (blank 1) [blank 0] [blank 2] NewMessage None) as H.
  split; apply H; repeat constructor; vm_compute; discriminate.
Qed.
