(* ===== verification/ClientPlugins.v ===== *)
(** client/plugin.go and client/plugin_container.go: the hooks of a client
    plugin and the container that runs them. *)
From S2P Require Import Prelude Go Message Plugins.
Open Scope go_scope.

Section client_plugins.
(** [F] are the select functions. *)
Context {W V F : Type}.

Notation conn := nat.

(** One field per interface of client/plugin.go. *)
Record Plugin : Type := mk_Plugin {
  pid : nat;
  PreCall : option (string -> string -> V -> prog W (option error));
  PostCall : option (string -> string -> V -> option error -> prog W (option error));
  ConnCreated : option (conn -> prog W (conn * option error));
  ConnCreateFailed : option (string -> string -> prog W unit);
  ClientConnected : option (conn -> prog W (conn * option error));
  ClientConnectionClose : option (conn -> prog W (option error));
  ClientBeforeEncode : option (message -> prog W (message * option error));
  ClientAfterDecode : option (message -> prog W (message * option error));
  WrapSelect : option (F -> F)
}.

Definition pluginContainer : Type := list Plugin.

Definition NewPluginContainer : pluginContainer := [].

(** [Add], [Remove] and [All], which are those of the server's container. *)
Definition client_Add : list Plugin -> pluginContainer -> pluginContainer := Add.
Definition client_Remove : Plugin -> pluginContainer -> pluginContainer := Remove pid.
Definition client_All (p : pluginContainer) : list Plugin := p.

Definition DoPreCall (servicePath serviceMethod : string) (args : V) (p : pluginContainer) : prog W (option error) :=
  '(_, err) ← until_error PreCall (no_arg (fun h => h servicePath serviceMethod args)) p tt; mret err.

(** The variable [err] is the argument of the first hook; it is overwritten
    by each hook's result, which is nil when the loop goes on. *)
Fixpoint DoPostCall (servicePath serviceMethod : string) (args : V) (err : option error) (p : pluginContainer) :
    prog W (option error) :=
  match p with
  | [] => mret None
  | plugin :: p =>
      match PostCall plugin with
      | None => DoPostCall servicePath serviceMethod args err p
      | Some h =>
          err ← h servicePath serviceMethod args err;
          match err with
          | Some e => mret (Some e)
          | None => DoPostCall servicePath serviceMethod args None p
          end
      end
  end.

Definition DoConnCreated (p : pluginContainer) (c : conn) : prog W (conn * option error) :=
  until_error ConnCreated id p c.

Fixpoint DoConnCreateFailed (network address : string) (p : pluginContainer) : prog W unit :=
  match p with
  | [] => mret tt
  | plugin :: p =>
      match ConnCreateFailed plugin with
      | None => DoConnCreateFailed network address p
      | Some h => h network address;; DoConnCreateFailed network address p
      end
  end.

Definition DoClientConnected (p : pluginContainer) (c : conn) : prog W (conn * option error) :=
  until_error ClientConnected id p c.

Definition DoClientConnectionClose (c : conn) (p : pluginContainer) : prog W (option error) :=
  '(_, err) ← until_error ClientConnectionClose (no_arg (fun h => h c)) p tt; mret err.

Definition DoClientBeforeEncode (p : pluginContainer) (req : message) : prog W (message * option error) :=
  until_error ClientBeforeEncode id p req.

Definition DoClientAfterDecode (p : pluginContainer) (req : message) : prog W (message * option error) :=
  until_error ClientAfterDecode id p req.

(** Each plugin wraps what the ones before it made. *)
Fixpoint DoWrapSelect (fn : F) (p : pluginContainer) : F :=
  match p with
  | [] => fn
  | plugin :: p => DoWrapSelect (match WrapSelect plugin with Some g => g fn | None => fn end) p
  end.

(** ** Properties *)

(** Once the error has been forgotten, the hooks of [q] follow those of [p]. *)
Lemma DoPostCall_None_app sp sm v p q w w1 :
  DoPostCall sp sm v None p w = (w1, Ok None) ->
  DoPostCall sp sm v None (p ++ q) w = DoPostCall sp sm v None q w1.
Proof.
  revert w. induction p as [|x p IH]; intros w; cbn; [by intros [= ->]|].
  destruct (PostCall x) as [g|]; [|apply IH]. unfold mbind, prog_bind.
  destruct (g sp sm v None w) as [w2 [[e2|]| | | |]]; try done. apply IH.
Qed.

Lemma DoPostCall_app sp sm v e p q w w1 :
  DoPostCall sp sm v e p w = (w1, Ok None) ->
  (exists x h, x ∈ p /\ PostCall x = Some h) ->
  DoPostCall sp sm v e (p ++ q) w = DoPostCall sp sm v None q w1.
Proof.
  revert w. induction p as [|x p IH]; intros w Hp (y & h & Hy & Hh); [by apply elem_of_nil in Hy|].
  cbn in *. destruct (PostCall x) as [g|] eqn:Hx.
  - revert Hp. unfold mbind, prog_bind.
    destruct (g sp sm v e w) as [w2 [[e2|]| | | |]]; try done. apply DoPostCall_None_app.
  - apply IH; [done|]. apply elem_of_cons in Hy as [->|Hy]; [congruence|]. by exists y, h.
Qed.

(** The hooks after a call: the first one is told how the call ended, and
    once it has run without an error of its own, every later one is told that
    the call succeeded, whatever the call's error was. *)
Theorem DoPostCall_forgets_error sp sm v e (p q : pluginContainer) (w w1 : W) :
  DoPostCall sp sm v (Some e) p w = (w1, Ok None) ->
  (exists x h, x ∈ p /\ PostCall x = Some h) ->
  DoPostCall sp sm v (Some e) (p ++ q) w = DoPostCall sp sm v None q w1.
Proof. apply DoPostCall_app. Qed.

Lemma DoWrapSelect_app fn p q : DoWrapSelect fn (p ++ q) = DoWrapSelect (DoWrapSelect fn p) q.
Proof. revert fn. induction p as [|x p IH]; intros fn; [done|apply IH]. Qed.

Lemma DoConnCreated_app p q c :
  prog_eq (DoConnCreated (p ++ q) c)
    ('(c, err) ← DoConnCreated p c;
     match err with Some e => mret (c, Some e) | None => DoConnCreated q c end).
Proof. apply until_error_app. Qed.

(** What the plugins of a client decide: a call, a connection or a message
    goes through every hook in the order of addition, each given what the one
    before returned, unless one fails: then the error is that one's and no
    later hook runs. *)
Theorem client_hooks (p : pluginContainer) (w w' : W) :
  (forall sp sm v err, DoPreCall sp sm v p w = (w', Ok err) <->
     match err with
     | None => all_run PreCall (no_arg (fun h => h sp sm v)) p tt w tt w'
     | Some e => fails_at PreCall (no_arg (fun h => h sp sm v)) p tt w tt w' e
     end) /\
  (forall c c' err, DoConnCreated p c w = (w', Ok (c', err)) <->
     match err with
     | None => all_run ConnCreated id p c w c' w'
     | Some e => fails_at ConnCreated id p c w c' w' e
     end) /\
  (forall m m' err, DoClientBeforeEncode p m w = (w', Ok (m', err)) <->
     match err with
     | None => all_run ClientBeforeEncode id p m w m' w'
     | Some e => fails_at ClientBeforeEncode id p m w m' w' e
     end) /\
  (forall m m' err, DoClientAfterDecode p m w = (w', Ok (m', err)) <->
     match err with
     | None => all_run ClientAfterDecode id p m w m' w'
     | Some e => fails_at ClientAfterDecode id p m w m' w' e
     end).
Proof.
  split_and!; intros; try apply until_error_spec.
  unfold DoPreCall, mbind, prog_bind.
  pose proof (until_error_spec PreCall (no_arg (fun h => h sp sm v)) p tt w tt w' err) as Hs.
  rewrite <- Hs. destruct (until_error _ _ p tt w) as [w1 [[[] e]| | | |]]; cbn; try (by split).
  split; by intros [= -> ->].
Qed.
End client_plugins.
Arguments Plugin : clear implicits.
Arguments pluginContainer : clear implicits.

(** A plugin that records in the world the error it is told. *)
Definition recorder : Plugin (list (option error)) unit unit :=
  mk_Plugin 0 None (Some (fun _ _ _ e w => (w ++ [e], Ok None))) None None None None None None None.

Lemma DoPostCall_forgets_error_witness :
  DoPostCall "Arith" "Mul" tt (Some ErrShutdown) [recorder; recorder] [] = ([Some ErrShutdown; None], Ok None).
Proof.
  change [recorder; recorder] with ([recorder] ++ [recorder]).
  rewrite (DoPostCall_forgets_error "Arith" "Mul" tt ErrShutdown [recorder] [recorder] [] [Some ErrShutdown]).
  - reflexivity.
  - reflexivity.
  - exists recorder, (fun _ _ _ e w => (w ++ [e], Ok None)). split; [left|reflexivity].
Defined.
