(* ===== verification/XFull.v ===== *)
(** client/cache_client_builder.go, and the parts of client/xclient.go and
    xclient_cache_client.go that involve plugins and builders of connections.

    XClient.v has the client without plugins and with its own cache.  Here are
    the same operations with a plugin container and with the registry of
    builders, over a memory [W] that they share with the connections: the
    contexts, the arguments and replies of calls, and the network.  A hook gets
    handles into it and may change what the call it runs around reads.  The
    theorem says when plugins make no difference. *)
From S2P Require Import Prelude Go Share UrlQuery Selectors Breaker Message Client XClient XClientFacts Plugins ClientPlugins.
Open Scope go_scope.

Section full.
Context {S C V W : Type} `{Selector S} `{RPCClient C}.
Context (dial : nat -> string -> C + error) (rnd : nat -> nat) (clock : nat -> Z).
(** [Call] and [SendRaw] of a connection, on the memory: the arguments and the
    message are handles into it. *)
Context (call_on : nat -> C -> V -> prog W (C * option error))
        (send_on : nat -> C -> V -> prog W (C * (option (gmap string string) * list byte * option error))).
Notation xstate := (xClient S C).

(** The client and the memory. *)
Notation full := (xstate * W)%type.

Definition lift_x {A} (p : prog xstate A) : prog full A := fun '(x, w) => let '(x, r) := p x in ((x, w), r).
Definition lift_w {A} (p : prog W A) : prog full A := fun '(x, w) => let '(w, r) := p w in ((x, w), r).

(** ** Builders of connections *)
Record CacheClientBuilder : Type := mk_builder {
  SetCachedClient : nat -> string -> string -> string -> prog W unit;
  FindCachedClient : string -> string -> string -> prog W (option nat);
  DeleteCachedClient : nat -> string -> string -> string -> prog W unit;
  GenerateClient : string -> string -> string -> prog W (C + error)
}.

(** The registry, by network. *)
Definition builders : Type := gmap string CacheClientBuilder.

Definition RegisterCacheClientBuilder (network : string) (b : CacheClientBuilder) (m : builders) : builders :=
  <[network := b]> m.
Definition getCacheClientBuilder (network : string) (m : builders) : option CacheClientBuilder := m !! network.

(** A selection function, [SelectFunc], with the selector it is a method of. *)
Notation SelectFunc := (nat -> request -> S -> S * result string)%type.

Context (bs : builders) (plugins : pluginContainer W V SelectFunc).
(** [c.servicePath] and the method that is called. *)
Context (servicePath serviceMethod : string).

Definition network_of (k : string) : string := (splitNetworkAndAddress k).1.

Definition find_full (k : string) : prog full (option nat) :=
  match getCacheClientBuilder (network_of k) bs with
  | Some b => lift_w (FindCachedClient b k servicePath serviceMethod)
  | None => lift_x (x ← get_st; mret (findCachedClient k x))
  end.

Definition delete_full (client : option nat) (k : string) : prog full unit :=
  match getCacheClientBuilder (network_of k) bs, client with
  | Some b, Some id =>
      lift_w (DeleteCachedClient b id k servicePath serviceMethod);;
      _ ← lift_x (close_obj id); mret tt
  | _, _ => lift_x (deleteCachedClient client k)
  end.

(** A new connection at a fresh address of the heap. *)
Definition add_obj (c : C) : prog xstate nat :=
  x ← get_st;
  let id := fresh (dom (objs x)) in
  put_st (set_objs (<[id := c]> (objs x)) x);; mret id.

Definition generate_full (k : string) : prog full (nat + error) :=
  match getCacheClientBuilder (network_of k) bs with
  | Some b =>
      g ← lift_w (GenerateClient b k servicePath serviceMethod);
      match g with
      | inl c => id ← lift_x (add_obj c); mret (inl id)
      | inr e => mret (inr e)
      end
  | None => lift_x (generateClient dial clock k)
  end.

Definition set_full (id : nat) (k : string) : prog full unit :=
  match getCacheClientBuilder (network_of k) bs with
  | Some b => lift_w (SetCachedClient b id k servicePath serviceMethod)
  | None => lift_x (modify (fun x => set_cached (<[k := id]> (cachedClient x)) x))
  end.

Definition ended (client : option nat) (x : xstate) : bool :=
  match client with
  | None => true
  | Some id => match objs x !! id with Some c => IsShutdown c | None => true end
  end.

(** [getCachedClient]: the result of the hook after a connection, which a
    deferred function calls, is dropped. *)
Definition getCachedClient_full (k : string) : prog full (option nat * option error) :=
  x ← lift_x get_st;
  if isShutdown x then mret (None, Some (ErrorString "this xClient is closed"))
  else
    refused ← lift_x (breaker_refuses clock k);
    if refused : bool then mret (None, Some ErrBreakerOpen)
    else
      client ← find_full k;
      x ← lift_x get_st;
      if match client with Some id => usable id x | None => false end then mret (client, None)
      else
        match client with Some _ => delete_full client k | None => mret tt end;;
        client ← find_full k;
        x ← lift_x get_st;
        if ended client x then
          g ← generate_full k;
          match g with
          | inr e => mret (None, Some e)
          | inl id =>
              set_full id k;;
              _ ← lift_w (DoClientConnected plugins id);
              mret (Some id, None)
          end
        else mret (client, None).

(** [selectClient] with the selection function wrapped by the plugins. *)
Definition selectClient_full (r : request) : prog full (string * option nat * option error) :=
  n ← lift_x ask;
  x ← lift_x get_st;
  let '(s, k) := DoWrapSelect Select plugins (rnd n) r (selector x) in
  lift_x (put_st (set_selector s x));;
  k ← lift_x (lift k);
  if decide (k = "") then mret ("", None, Some ErrXClientNoServer)
  else '(client, err) ← getCachedClient_full k; mret (k, client, err).

(** What a connection does for a call, with the memory as it is. *)
Definition on_obj {A} (id : nat) (p : nat -> C -> prog W (C * A)) (err : A -> option error) : prog full A :=
  n ← lift_x ask;
  x ← lift_x get_st;
  match objs x !! id with
  | None => lift Panic
  | Some c =>
      '(c, a) ← lift_w (p n c);
      lift_x (put_st (set_log (log x ++ [(id, err a)]) (set_objs (<[id := c]> (objs x)) x)));;
      mret a
  end.

(** [wrapCall] with the hooks, whose errors are dropped. *)
Definition wrapCall_full (args : V) (client : option nat) : prog full (option error) :=
  match client with
  | None => mret (Some ErrServerUnavailable)
  | Some id =>
      _ ← lift_w (DoPreCall servicePath serviceMethod args plugins);
      err ← on_obj id (fun n c => call_on n c args) (fun e => e);
      _ ← lift_w (DoPostCall servicePath serviceMethod args err plugins);
      mret err
  end.

(** [wrapSendRaw]: the hooks get the payload, under the method of the message;
    [r] is the message. *)
Definition wrapSendRaw_full (payload r : V) (client : option nat) :
    prog full (option (gmap string string) * list byte * option error) :=
  match client with
  | None => mret (None, [], Some ErrServerUnavailable)
  | Some id =>
      _ ← lift_w (DoPreCall servicePath serviceMethod payload plugins);
      a ← on_obj id (fun n c => send_on n c r) snd;
      _ ← lift_w (DoPostCall servicePath serviceMethod payload a.2 plugins);
      mret a
  end.

(** ** Hooks that only look on

    [obs] is what a connection reads of the memory for a call, [o] its value. *)
Context {O : Type} (obs : W -> O) (o : O).

(** [p] does to the client what [q] does, and gives the same result, and leaves
    what calls read. *)
Definition does {A} (p : prog full A) (q : prog xstate A) : Prop :=
  forall x w, obs w = o -> exists w', p (x, w) = (((q x).1, w'), (q x).2) /\ obs w' = o.

Lemma does_bind {A B} (p : prog full A) q (f : A -> prog full B) g :
  does p q -> (forall a, does (f a) (g a)) -> does (p ≫= f) (q ≫= g).
Proof.
  intros Hp Hf x w Hw. destruct (Hp x w Hw) as (w1 & H1 & Hw1). unfold mbind, prog_bind. rewrite H1.
  destruct (q x) as [x1 [a| | | |]]; cbn; [by apply Hf|by exists w1..].
Qed.

Lemma does_ret {A} (a : A) : does (mret a) (mret a).
Proof. intros x w. by exists w. Qed.

Lemma does_lift {A} (q : prog xstate A) : does (lift_x q) q.
Proof. intros x w. exists w. unfold lift_x. by destruct (q x). Qed.

(** A hook that returns and leaves what calls read. *)
Definition returns {A} (h : prog W A) : Prop := forall w, exists w' a, h w = (w', Ok a) /\ obs w' = obs w.

Lemma does_drop {A B} (h : prog W A) (p : prog full B) q : returns h -> does p q -> does (_ ← lift_w h; p) q.
Proof.
  intros Hh Hp x w Hw. destruct (Hh w) as (w1 & a & H1 & Hw1). unfold mbind, prog_bind, lift_w. rewrite H1.
  apply Hp. congruence.
Qed.

(** A plugin whose hooks around calls and connections look on, and which does
    not wrap the selection. *)
Definition quiet (p : Plugin W V SelectFunc) : Prop :=
  (forall h sp sm v, PreCall p = Some h -> returns (h sp sm v)) /\
  (forall h sp sm v e, PostCall p = Some h -> returns (h sp sm v e)) /\
  (forall h c, ClientConnected p = Some h -> returns (h c)) /\
  WrapSelect p = None.

Lemma returns_bind {A B} (p : prog W A) (f : A -> prog W B) :
  returns p -> (forall a, returns (f a)) -> returns (p ≫= f).
Proof.
  intros Hp Hf w. destruct (Hp w) as (w1 & a & H1 & Hw1). destruct (Hf a w1) as (w2 & b & H2 & Hw2).
  exists w2, b. unfold mbind, prog_bind. rewrite H1. split; [done|congruence].
Qed.

Lemma returns_ret {A} (a : A) : returns (mret a : prog W A).
Proof. intros w. by exists w, a. Qed.

Lemma until_error_returns {P Hk A} (hook : P -> option Hk) (run : Hk -> A -> prog W (A * option error)) ps a :
  Forall (fun p => forall h a, hook p = Some h -> returns (run h a)) ps -> returns (until_error hook run ps a).
Proof.
  intros Hps. revert a. induction Hps as [|p ps Hp _ IH]; intros a; cbn; [apply returns_ret|].
  destruct (hook p) as [h|]; [|apply IH]. apply returns_bind; [by apply Hp|].
  intros [a' [e|]]; [apply returns_ret|apply IH].
Qed.

Lemma quiet_hooks ps : Forall quiet ps ->
  (forall sp sm v, returns (DoPreCall sp sm v ps)) /\ (forall sp sm v e, returns (DoPostCall sp sm v e ps)) /\
  (forall c, returns (DoClientConnected ps c)) /\ (forall f, DoWrapSelect f ps = f).
Proof.
  intros Hq. split_and!.
  - intros sp sm v. unfold DoPreCall. apply returns_bind; [|intros [[] e]; apply returns_ret].
    apply until_error_returns. eapply Forall_impl; [exact Hq|]. intros p (Hp & _) h [] Hh. unfold no_arg.
    apply returns_bind; [by apply Hp|intros e; apply returns_ret].
  - intros sp sm v e. revert e. induction Hq as [|p ps (_ & Hp & _) _ IH]; intros e; cbn; [apply returns_ret|].
    destruct (PostCall p) as [h|]; [|apply IH]. apply returns_bind; [by apply Hp|].
    intros [e'|]; [apply returns_ret|apply IH].
  - intros c. apply until_error_returns. eapply Forall_impl; [exact Hq|]. intros p (_ & _ & Hp & _) h c'. apply Hp.
  - induction Hq as [|p ps (_ & _ & _ & Hp) _ IH]; intros f; [done|]. cbn. by rewrite Hp.
Qed.

Lemma find_full_does k : bs !! network_of k = None -> does (find_full k) (x ← get_st; mret (findCachedClient k x)).
Proof. intros Hb. unfold find_full, getCacheClientBuilder. rewrite Hb. apply does_lift. Qed.

(** The connection of a key is made, cached and handed to the plugins. *)
Lemma connect_does k : bs !! network_of k = None -> Forall quiet plugins ->
  does (g ← generate_full k;
        match g with
        | inr e => mret (None, Some e)
        | inl id => set_full id k;; _ ← lift_w (DoClientConnected plugins id); mret (Some id, @None error)
        end)
       (g ← generateClient dial clock k;
        match g with
        | inl id => modify (fun x => set_cached (<[k := id]> (cachedClient x)) x);; mret (Some id, None)
        | inr e => mret (None, Some e)
        end).
Proof.
  intros Hb Hq. apply quiet_hooks in Hq as (_ & _ & Hq & _).
  unfold generate_full, set_full, getCacheClientBuilder. rewrite Hb.
  apply does_bind; [apply does_lift|]. intros [id|e]; [|apply does_ret].
  apply does_bind; [apply does_lift|]. intros _. apply does_drop; [apply Hq|apply does_ret].
Qed.

Lemma deleteCachedClient_none client k (x x' : xstate) u :
  deleteCachedClient client k x = (x', Ok u) -> cachedClient x' !! k = None.
Proof.
  unfold deleteCachedClient, close_obj, modify, mbind, prog_bind, mret, prog_ret. destruct client as [id|]; cbn.
  - destruct (objs x !! id) as [c|]; [destruct (CloseClient c) as [c' [r| | | |]]; try done|];
      intros [= <- _]; cbn; apply lookup_delete_eq.
  - intros [= <- _]. cbn. apply lookup_delete_eq.
Qed.

Lemma getCachedClient_full_does k : bs !! network_of k = None -> Forall quiet plugins ->
  does (getCachedClient_full k) (getCachedClient dial clock k).
Proof.
  intros Hb Hq. pose proof (connect_does k Hb Hq) as Hc. unfold getCachedClient_full, getCachedClient.
  apply does_bind; [apply does_lift|]. intros x0. destruct (isShutdown x0); [apply does_ret|].
  apply does_bind; [apply does_lift|]. intros [|]; [apply does_ret|].
  intros x w Hw. unfold find_full, delete_full, getCacheClientBuilder. rewrite Hb.
  match type of Hc with does ?p ?q => set (connect_w := p) in *; set (connect := q) in * end.
  clearbody connect_w connect. unfold lift_x, mbind, prog_bind, get_st, mret, prog_ret.
  destruct (findCachedClient k x) as [id|] eqn:Hk.
  - destruct (usable id x); [by exists w|].
    destruct (deleteCachedClient (Some id) k x) as [x1 [[]| | | |]] eqn:Hd; try (by exists w).
    unfold findCachedClient. rewrite (deleteCachedClient_none _ _ _ _ _ Hd). by apply Hc.
  - cbn. rewrite Hk. by apply Hc.
Qed.

(** A connection whose calls read nothing of the memory but [obs]. *)
Definition reads_only {A} (p : nat -> C -> prog W (C * A)) (invoke : nat -> C -> C * option error) (err : A -> option error) : Prop :=
  forall n c w, obs w = o -> exists w' a,
    p n c w = (w', Ok ((invoke n c).1, a)) /\ err a = (invoke n c).2 /\ obs w' = o.

(** A call between its hooks. *)
Lemma hooked_does {A} (pre : prog W (option error)) (post : A -> prog W (option error)) p invoke (err : A -> option error) id :
  reads_only p invoke err -> returns pre -> (forall a, returns (post a)) ->
  does (_ ← lift_w pre; a ← on_obj id p err; _ ← lift_w (post a); mret (err a)) (wrapCall invoke (Some id)).
Proof.
  intros Hp Hpre Hpost. apply does_drop; [done|]. intros x w Hw.
  unfold on_obj, wrapCall, lift_x, ask, get_st, put_st, mbind, prog_bind, mret, prog_ret. cbn.
  destruct (objs x !! id) as [c|]; [|by exists w].
  destruct (Hp (tick x) c w Hw) as (w1 & a & E & Ha & Hw1). unfold lift_w at 1. rewrite E.
  destruct (invoke (tick x) c) as [c' e] eqn:Ei. cbn in *. subst e. destruct (Hpost a w1) as (w2 & b & Ep & Hw2).
  exists w2. unfold lift_w. rewrite Ep. split; [done|congruence].
Qed.

(** C17: plugins that look on make no difference.  If the hooks around calls and
    connections return and leave alone what a connection reads of the memory,
    and no plugin wraps the selection, then getting a connection, selecting, calling
    and sending a raw message have the effect on the client and the result they have
    without plugins, whatever errors the hooks return, and builders of other
    networks make no difference either. *)
Theorem client_plugins_transparent args payload r invoke invoke_raw :
  Forall quiet plugins -> (forall k, bs !! network_of k = None) ->
  reads_only (fun n c => call_on n c args) invoke (fun e => e) -> reads_only (fun n c => send_on n c r) invoke_raw snd ->
  (forall k, does (getCachedClient_full k) (getCachedClient dial clock k)) /\
  (forall r, does (selectClient_full r) (selectClient dial rnd clock r)) /\
  (forall client, does (wrapCall_full args client) (wrapCall invoke client)) /\
  (forall client, does (a ← wrapSendRaw_full payload r client; mret a.2) (wrapCall invoke_raw client)).
Proof.
  intros Hq Hb Hcall Hsend. destruct (quiet_hooks _ Hq) as (H1 & H2 & _ & H4). split_and!.
  - intros k. by apply getCachedClient_full_does.
  - intros q. unfold selectClient_full, selectClient. apply does_bind; [apply does_lift|]. intros n.
    apply does_bind; [apply does_lift|]. intros x. rewrite H4. destruct (Select (rnd n) q (selector x)) as [s k].
    apply does_bind; [apply does_lift|]. intros _. apply does_bind; [apply does_lift|]. intros key.
    case_decide; [apply does_ret|]. apply does_bind; [by apply getCachedClient_full_does|].
    intros [client err]. apply does_ret.
  - intros [id|]; [|apply does_ret].
    exact (hooked_does _ (fun e => DoPostCall servicePath serviceMethod args e plugins) _ invoke (fun e => e) id Hcall
      (H1 _ _ _) (fun e => H2 _ _ _ e)).
  - intros [id|]; [|apply does_ret].
    pose proof (hooked_does _ (fun a => DoPostCall servicePath serviceMethod payload a.2 plugins) _ invoke_raw snd id Hsend
      (H1 servicePath serviceMethod payload) (fun a => H2 _ _ _ a.2)) as Hdo. intros x w Hw.
    destruct (Hdo x w Hw) as (w' & E & Hw'). exists w'. split; [|done]. rewrite <- E. cbn [wrapSendRaw_full].
    unfold mbind, prog_bind. destruct (lift_w _ (x, w)) as [y [?| | | |]]; [|done..].
    destruct (on_obj id _ snd y) as [z [ra| | | |]]; [|done..]. by destruct (lift_w _ z) as [z' [?| | | |]].
Qed.
End full.

(** ** The container of a client

    [SetPlugins] changes it while the client is in use: the calls from then on
    run with the new one. *)
Section container.
Context {S C V W : Type} `{Selector S} `{RPCClient C}.
Notation container := (pluginContainer W V (nat -> request -> S -> S * result string)).

Record pluggedClient : Type := mk_plugged { plain : xClient S C; xPlugins : container }.

Definition SetPlugins (plugins : container) (c : pluggedClient) : pluggedClient := mk_plugged (plain c) plugins.
Definition GetPlugins (c : pluggedClient) : container := xPlugins c.

(** A method of the client, with the container of the moment. *)
Definition with_plugins {A} (p : container -> prog (xClient S C * W) A) : prog (pluggedClient * W) A := fun '(c, w) =>
  let '((x, w), r) := p (xPlugins c) (plain c, w) in ((mk_plugged x (xPlugins c), w), r).

Lemma SetPlugins_next {A} (p : container -> prog (xClient S C * W) A) plugins c w :
  GetPlugins (SetPlugins plugins c) = plugins /\
  GetPlugins (with_plugins p (c, w)).1.1 = GetPlugins c /\
  (with_plugins p (SetPlugins plugins c, w)).2 = (p plugins (plain c, w)).2.
Proof.
  unfold GetPlugins, with_plugins. cbn. split_and!; [done| |].
  - by destruct (p (xPlugins c) (plain c, w)) as [[? ?] ?].
  - by destruct (p plugins (plain c, w)) as [[? ?] ?].
Qed.
End container.

(** ** Witness

    The memory is a diary and the argument of the call, which succeeds when that is
    even.  One plugin writes down what happens and returns errors; another one
    changes the argument. *)
Notation toy_W := (list string * nat)%type.
Notation toy_F := (nat -> request -> list string -> list string * result string)%type.

Definition toy_call (_ : nat) (c : string * bool) (_ : unit) : prog toy_W ((string * bool) * option error) := fun w =>
  (w, Ok (c, if Nat.even w.2 then None else Some ErrShutdown)).
Definition toy_send (_ : nat) (c : string * bool) (_ : unit) :
    prog toy_W ((string * bool) * (option (gmap string string) * list byte * option error)) := fun w =>
  (w, Ok (c, (None, [x2a], if Nat.even w.2 then None else Some ErrShutdown))).

Definition note (line : string) : prog toy_W unit := fun '(d, n) => ((d ++ [line], n), Ok tt).

Definition diarist : Plugin toy_W unit toy_F :=
  mk_Plugin 0 (Some (fun _ sm _ => note sm;; mret (Some (ErrorString "refused")))) None None None
    (Some (fun c => note "connected";; mret (c, Some (ErrorString "refused")))) None None None None.

Definition meddler : Plugin toy_W unit toy_F :=
  mk_Plugin 1 (Some (fun _ _ _ '(d, n) => ((d, S n), Ok None))) None None None None None None None None.

Definition toy_wrapCall (ps : pluginContainer toy_W unit toy_F) :=
  wrapCall_full toy_call ps "Arith" "Mul" tt (Some 0%nat).
Definition toy_connected : xClient (list string) (string * bool) :=
  set_objs {[0%nat := ("tcp@b:1", false)]} (toy_xclient Failover).

(** A hook that changes the argument changes the call. *)
Example meddler_matters :
  (toy_wrapCall [diarist] (toy_connected, ([], 2%nat))).2 = Ok None /\
  (toy_wrapCall [diarist] (toy_connected, ([], 2%nat))).1.2 = (["Mul"], 2%nat) /\
  (toy_wrapCall [meddler] (toy_connected, ([], 2%nat))).2 = Ok (Some ErrShutdown).
Proof. vm_compute. done. Qed.

Lemma client_plugins_transparent_witness :
  does snd 2%nat (selectClient_full toy_dial (fun _ => 0%nat) (fun _ => 0) ∅ [diarist] "Arith" "Mul" toy_request)
    (selectClient toy_dial (fun _ => 0%nat) (fun _ => 0) toy_request) /\
  does snd 2%nat (toy_wrapCall [diarist]) (wrapCall (S := list string) (fun _ c => (c, None)) (Some 0%nat)).
Proof.
  destruct (client_plugins_transparent toy_dial (fun _ => 0%nat) (fun _ => 0) toy_call toy_send ∅ [diarist] "Arith" "Mul"
    snd 2%nat tt tt tt (fun _ c => (c, None)) (fun _ c => (c, None))) as (_ & H2 & H3 & _).
  - repeat constructor; intros; simplify_eq/=; intros [d n]; by eexists _, _.
  - reflexivity.
  - intros n c [d m] Hm. cbn in Hm. subst m. by eexists _, _.
  - intros n c [d m] Hm. cbn in Hm. subst m. by eexists _, _.
  - split; [apply H2|apply (H3 (Some 0%nat))].
Defined.
