(* ===== verification/Service.v ===== *)
(** server/service.go, server/server_register.go and the type pools of
    server/pool.go: what a server can be asked to call and how it comes to be
    registered.

    What reflection tells of the user's types and functions is data: a [gtype]
    is a type's name and package or a pointer to a type, a [gmethod] and a
    [gfunc] a signature with the value that runs it. *)
From Stdlib Require Import Strings.Ascii.
From S2P Require Import Prelude Go.
Open Scope go_scope.

(** ** Reflection *)

(** [TUnnamed] are the composite types, slices and the like. *)
Inductive gtype : Type :=
| TNamed (pkg name : string)
| TPtr (t : gtype)
| TUnnamed (n : nat).

#[export] Instance gtype_eq_dec : EqDecision gtype.
Proof. solve_decision. Defined.

Fixpoint encode_gtype (t : gtype) : gen_tree string :=
  match t with
  | TNamed pkg name => GenNode 0 [GenLeaf pkg; GenLeaf name]
  | TPtr t => GenNode 1 [encode_gtype t]
  | TUnnamed n => GenNode (2 + n) []
  end.

Fixpoint decode_gtype (t : gen_tree string) : gtype :=
  match t with
  | GenNode 0 [GenLeaf pkg; GenLeaf name] => TNamed pkg name
  | GenNode 1 [t] => TPtr (decode_gtype t)
  | GenNode (S (S n)) _ => TUnnamed n
  | _ => TUnnamed 0
  end.

#[export] Instance gtype_countable : Countable gtype.
Proof.
  refine (inj_countable' encode_gtype decode_gtype _).
  fix IH 1. intros [pkg name|t|n]; cbn; [done|by rewrite IH|done].
Qed.

Definition Name (t : gtype) : string := match t with TNamed _ n => n | _ => "" end.
Definition PkgPath (t : gtype) : string := match t with TNamed p _ => p | _ => "" end.
Definition Indirect (t : gtype) : gtype := match t with TPtr t => t | _ => t end.
Definition is_ptr (t : gtype) : bool := match t with TPtr _ => true | _ => false end.

Definition typeOfError : gtype := TNamed "" "error".

(** [ins] of a method starts with its receiver. *)
Record gmethod (V : Type) : Type := mk_gmethod {
  mName : string; mPkgPath : string; ins : list gtype; outs : list gtype; Func : V
}.
Arguments mk_gmethod {V}. Arguments mName {V}. Arguments mPkgPath {V}.
Arguments ins {V}. Arguments outs {V}. Arguments Func {V}.

(** [fIsFunc] is whether the value is a function at all, [fFullName] what
    [runtime.FuncForPC] calls it. *)
Record gfunc (V : Type) : Type := mk_gfunc {
  fIsFunc : bool; fFullName : string; fIns : list gtype; fOuts : list gtype; fn : V
}.
Arguments mk_gfunc {V}. Arguments fIsFunc {V}. Arguments fFullName {V}.
Arguments fIns {V}. Arguments fOuts {V}. Arguments fn {V}.

(** ** Services *)
Record methodType (V : Type) : Type := mk_methodType { method_ : V; ArgType : gtype; ReplyType : gtype }.
Arguments mk_methodType {V}. Arguments method_ {V}. Arguments ArgType {V}. Arguments ReplyType {V}.

(** The map [function] is nil ([None]) in a service made by [register]. *)
Record service (V : Type) : Type := mk_service {
  name : string;
  method : gmap string (methodType V);
  function : option (gmap string (methodType V))
}.
Arguments mk_service {V}. Arguments name {V}. Arguments method {V}. Arguments function {V}.

(** [serviceMap] and the types with a pool. *)
Record registry (V : Type) : Type := mk_registry {
  serviceMap : gmap string (service V);
  pools : gset gtype
}.
Arguments mk_registry {V}. Arguments serviceMap {V}. Arguments pools {V}.

(** The last dot of a string: what is before and after it. *)
Fixpoint split_last_dot (s : string) : option (string * string) :=
  match s with
  | "" => None
  | String c s =>
      match split_last_dot s with
      | Some (a, b) => Some (String c a, b)
      | None => if decide (c = "."%char) then Some ("", s) else None
      end
  end.

Section service.
Context {V : Type}.
(** [unicode.IsUpper] of a first rune outside ASCII, and which types implement
    [context.Context]. *)
Context (upper_rune : string -> bool) (ImplementsContext : gtype -> bool).

Definition isExported (name : string) : bool :=
  match name with
  | "" => false
  | String c _ =>
      let n := Ascii.N_of_ascii c in
      if (n <? 128)%N then (65 <=? n)%N && (n <=? 90)%N else upper_rune name
  end.

Fixpoint isExportedOrBuiltinType (t : gtype) : bool :=
  match t with
  | TPtr t => isExportedOrBuiltinType t
  | _ => isExported (Name t) || bool_decide (PkgPath t = "")
  end.

(** One turn of the loop of [suitableMethods]: the method type, unless one of
    the tests continues. *)
Definition suitableMethod (m : gmethod V) : option (methodType V) :=
  if negb (bool_decide (mPkgPath m = "")) then None else
  match ins m with
  | [_; ctxType; argType; replyType] =>
      if negb (ImplementsContext ctxType) then None else
      if negb (isExportedOrBuiltinType argType) then None else
      if negb (is_ptr replyType) then None else
      if negb (isExportedOrBuiltinType replyType) then None else
      match outs m with
      | [returnType] =>
          if negb (bool_decide (returnType = typeOfError)) then None
          else Some (mk_methodType (Func m) argType replyType)
      | _ => None
      end
  | _ => None
  end.

(** The methods and the pools made for their types. *)
Definition suitableMethods (ms : list (gmethod V)) (ps : gset gtype) : gmap string (methodType V) * gset gtype :=
  fold_left (fun '(methods, ps) m =>
    match suitableMethod m with
    | None => (methods, ps)
    | Some mt => (<[mName m := mt]> methods, {[ReplyType mt]} ∪ ({[ArgType mt]} ∪ ps))
    end) ms (∅, ps).

Definition checkServiceName (serviceName : string) (useName : bool) : option error :=
  if decide (serviceName = "") then Some (ErrorString "irpc.checkServiceName: serviceName should be set")
  else if negb useName && negb (isExported serviceName)
  then Some (ErrorString ("irpc.checkServiceName: type " +:+ serviceName +:+ " is not exported."))
  else None.

(** A receiver: its type, its methods and those of a pointer to it. *)
Record receiver : Type := mk_receiver { rtyp : gtype; rmethods : list (gmethod V); rptrmethods : list (gmethod V) }.

Definition register (rcvr : receiver) (nm : string) (useName : bool) :
    prog (registry V) (string * option error) := fun s =>
  let serviceName := if useName then nm else Name (Indirect (rtyp rcvr)) in
  match checkServiceName serviceName useName with
  | Some e => (s, Ok (serviceName, Some e))
  | None =>
      let '(methods, ps) := suitableMethods (rmethods rcvr) (pools s) in
      let s := mk_registry (serviceMap s) ps in
      if decide (methods = ∅) then
        let '(ptrmethods, ps) := suitableMethods (rptrmethods rcvr) ps in
        let s := mk_registry (serviceMap s) ps in
        let errStr := "irpc.Register: type " +:+ serviceName +:+ " has no exported methods of suitable type" in
        let errStr := if decide (ptrmethods = ∅) then errStr
                      else errStr +:+ " (hint: pass a pointer to value of that type)" in
        (s, Ok (serviceName, Some (ErrorString errStr)))
      else
        (mk_registry (<[serviceName := mk_service serviceName methods None]> (serviceMap s)) ps,
         Ok (serviceName, None))
  end.

(** The name a function is registered under. *)
Definition function_name (f : gfunc V) (nm : string) (useName : bool) : string :=
  if useName then nm
  else match split_last_dot (fFullName f) with Some (_, b) => b | None => fFullName f end.

(** [registerFunction]; the texts of the errors are without the type they print.
    Writing to the nil map of a service made by [register] panics. *)
Definition registerFunction (servicePath : string) (f : gfunc V) (nm : string) (useName : bool) :
    prog (registry V) (string * option error) := fun s =>
  let ss := default (mk_service servicePath ∅ (Some ∅)) (serviceMap s !! servicePath) in
  if negb (fIsFunc f) then (s, Ok ("", Some (ErrorString "function must be func or bound method"))) else
  let fName := function_name f nm useName in
  let fail e := (s, Ok (fName, Some (ErrorString e))) in
  if decide (fName = "") then fail "irpc.registerFunction: no func name for type" else
  match fIns f with
  | [ctxType; argType; replyType] =>
      match fOuts f with
      | [returnType] =>
          if negb (ImplementsContext ctxType) then fail "function must use context as the first parameter" else
          if negb (isExportedOrBuiltinType argType) then fail "function parameter type not exported" else
          if negb (is_ptr replyType) then fail "function reply type not a pointer" else
          if negb (isExportedOrBuiltinType replyType) then fail "function reply type not exported" else
          if negb (bool_decide (returnType = typeOfError)) then fail "function does not return error" else
          match function ss with
          | None => (s, Panic)
          | Some fs =>
              let ss := mk_service (name ss) (method ss) (Some (<[fName := mk_methodType (fn f) argType replyType]> fs)) in
              (mk_registry (<[servicePath := ss]> (serviceMap s)) ({[replyType]} ∪ ({[argType]} ∪ pools s)),
               Ok (fName, None))
          end
      | _ => fail "irpc.registerFunction: has wrong number of outs"
      end
  | _ => fail "irpc.registerFunction: has wrong number of ins"
  end.

Definition getService (serviceName : string) (s : registry V) : option (service V) := serviceMap s !! serviceName.

(** ** What may be called *)

(** The conditions in the comment of [Register]: an exported method of three
    arguments, the first a context, the others of exported or built-in types,
    the last a pointer, and one result, an error. *)
Definition suitable (m : gmethod V) (argType replyType : gtype) : Prop :=
  mPkgPath m = "" /\ outs m = [typeOfError] /\
  exists recv ctxType, ins m = [recv; ctxType; argType; replyType] /\
    ImplementsContext ctxType = true /\ isExportedOrBuiltinType argType = true /\
    is_ptr replyType = true /\ isExportedOrBuiltinType replyType = true.

Definition callable (mt : methodType V) : Prop :=
  isExportedOrBuiltinType (ArgType mt) = true /\ is_ptr (ReplyType mt) = true /\
  isExportedOrBuiltinType (ReplyType mt) = true.

Lemma suitableMethod_spec m mt :
  suitableMethod m = Some mt <-> suitable m (ArgType mt) (ReplyType mt) /\ method_ mt = Func m.
Proof.
  unfold suitableMethod, suitable. split.
  - destruct (bool_decide (mPkgPath m = "")) eqn:Hp; [|done]. apply bool_decide_eq_true in Hp. cbn.
    destruct (ins m) as [|r [|c [|a [|p []]]]]; try done.
    destruct (ImplementsContext c) eqn:Hc; [|done]. destruct (isExportedOrBuiltinType a) eqn:Ha; [|done].
    destruct (is_ptr p) eqn:Hptr; [|done]. destruct (isExportedOrBuiltinType p) eqn:He; [|done]. cbn.
    destruct (outs m) as [|o []]; try done. destruct (bool_decide (o = typeOfError)) eqn:Ho; [|done].
    apply bool_decide_eq_true in Ho. intros [= <-]. cbn. subst. split; [|done].
    split_and!; [done|done|]. by exists r, c.
  - intros ((Hp & Ho & r & c & Hi & Hc & Ha & Hptr & He) & Hf).
    rewrite Hi, Ho, Hc, Ha, Hptr, He. cbn. rewrite (bool_decide_eq_true_2 (mPkgPath m = "")) by done.
    cbn. rewrite <- Hf. by destruct mt.
Qed.

Lemma suitable_callable m mt : suitableMethod m = Some mt -> callable mt.
Proof. intros ((_ & _ & r & c & _ & _ & ? & ? & ?) & _)%suitableMethod_spec. done. Qed.

(** The fold, from any map and pools. *)
Notation step := (fun '(methods, ps) m =>
  match suitableMethod m with
  | None => (methods, ps)
  | Some mt => (<[mName m := mt]> methods, {[ReplyType mt]} ∪ ({[ArgType mt]} ∪ ps))
  end).

Lemma suitableMethods_snoc ms m ps :
  suitableMethods (ms ++ [m]) ps = step (suitableMethods ms ps) m.
Proof. unfold suitableMethods. by rewrite fold_left_app. Qed.

Lemma suitableMethods_lookup ms ps n mt :
  NoDup (mName <$> ms) ->
  (suitableMethods ms ps).1 !! n = Some mt <->
  exists m, m ∈ ms /\ mName m = n /\ suitableMethod m = Some mt.
Proof.
  induction ms as [|m ms IH] using rev_ind; intros Hnd.
  - cbn. rewrite lookup_empty. split; [done|]. by intros (m & ?%elem_of_nil & _).
  - rewrite fmap_app in Hnd. apply NoDup_app in Hnd as (Hnd & Hnot & _).
    specialize (IH Hnd). rewrite suitableMethods_snoc. destruct (suitableMethods ms ps) as [methods ps'].
    cbn [fst] in *. setoid_rewrite elem_of_app. setoid_rewrite list_elem_of_singleton.
    destruct (suitableMethod m) as [mt'|] eqn:Hm; cbn [fst].
    + rewrite lookup_insert_Some, IH. split.
      * intros [[<- <-]|[Hne (m' & ? & ? & ?)]]; [exists m|exists m']; auto.
      * intros (m' & [Hin| ->] & Hn & Hs); [|left; split; congruence].
        right. split; [|by exists m']. intros <-. apply (Hnot (mName m')); [by apply list_elem_of_fmap_2|].
        rewrite Hn. left.
    + rewrite IH. split; intros (m' & Hin & Hn & Hs); exists m'; [by auto|].
      destruct Hin as [Hin| ->]; [done|congruence].
Qed.

Definition pooled (ps : gset gtype) (mt : methodType V) : Prop := ArgType mt ∈ ps /\ ReplyType mt ∈ ps.

Lemma pooled_mono ps ps' mt : ps ⊆ ps' -> pooled ps mt -> pooled ps' mt.
Proof. unfold pooled. set_solver. Qed.

Lemma suitableMethods_ok ms ps :
  map_Forall (fun _ mt => callable mt /\ pooled (suitableMethods ms ps).2 mt) (suitableMethods ms ps).1 /\
  ps ⊆ (suitableMethods ms ps).2.
Proof.
  induction ms as [|m ms [IH Hsub]] using rev_ind; [split; [apply map_Forall_empty|done]|].
  rewrite suitableMethods_snoc. destruct (suitableMethods ms ps) as [methods ps']. cbn [fst snd] in *.
  destruct (suitableMethod m) as [mt|] eqn:Hm; [|done]. cbn [fst snd]. split; [|set_solver].
  apply map_Forall_insert_2.
  - split; [by eapply suitable_callable|]. unfold pooled. set_solver.
  - eapply map_Forall_impl; [exact IH|]. cbn. intros _ mt' [Hc Hp]. split; [done|].
    eapply pooled_mono; [|exact Hp]. set_solver.
Qed.

(** ** The registry *)

(** A service under its own name, whose entries can be called and have pools;
    it has methods and no function map, or functions only. *)
Definition service_ok (ps : gset gtype) (k : string) (sv : service V) : Prop :=
  name sv = k /\
  map_Forall (fun _ mt => callable mt /\ pooled ps mt) (method sv) /\
  match function sv with
  | None => method sv <> ∅
  | Some fs => method sv = ∅ /\ fs <> ∅ /\ map_Forall (fun _ ft => callable ft /\ pooled ps ft) fs
  end.

Definition registry_ok (s : registry V) : Prop := map_Forall (service_ok (pools s)) (serviceMap s).

Lemma entries_mono ps ps' (m : gmap string (methodType V)) :
  ps ⊆ ps' -> map_Forall (fun _ mt => callable mt /\ pooled ps mt) m ->
  map_Forall (fun _ mt => callable mt /\ pooled ps' mt) m.
Proof.
  intros Hs Hm. eapply map_Forall_impl; [exact Hm|]. intros _ mt [? ?]. split; [done|by eapply pooled_mono].
Qed.

Lemma service_ok_mono ps ps' k sv : ps ⊆ ps' -> service_ok ps k sv -> service_ok ps' k sv.
Proof.
  intros Hs (Hn & Hm & Hf). split; [done|]. split; [by eapply entries_mono|].
  destruct (function sv) as [fs|]; [|done]. destruct Hf as (? & ? & ?). split_and!; [done..|by eapply entries_mono].
Qed.

Lemma registry_ok_mono sm ps ps' : ps ⊆ ps' -> registry_ok (mk_registry sm ps) -> registry_ok (mk_registry sm ps').
Proof. intros Hs H. eapply map_Forall_impl; [exact H|]. intros k sv. by apply service_ok_mono. Qed.

Lemma registry_ok_insert sm ps ps' k sv :
  registry_ok (mk_registry sm ps) -> ps ⊆ ps' -> service_ok ps' k sv ->
  registry_ok (mk_registry (<[k := sv]> sm) ps').
Proof.
  intros H Hs Hsv. unfold registry_ok. cbn. apply map_Forall_insert_2; [done|].
  exact (registry_ok_mono sm ps ps' Hs H).
Qed.

Lemma register_keeps rcvr nm useName s : registry_ok s -> registry_ok (register rcvr nm useName s).1.
Proof.
  intros Hok. unfold register. destruct (checkServiceName _ _); [done|].
  pose proof (suitableMethods_ok (rmethods rcvr) (pools s)) as [Hall Hsub].
  destruct (suitableMethods (rmethods rcvr) (pools s)) as [methods ps]. cbn [fst snd] in *.
  destruct s as [sm ps0]. cbn [serviceMap pools] in *. case_decide as Hm.
  - pose proof (suitableMethods_ok (rptrmethods rcvr) ps) as [_ Hsub'].
    destruct (suitableMethods (rptrmethods rcvr) ps) as [pm ps']. cbn [fst snd] in *.
    eapply registry_ok_mono; [|exact Hok]. set_solver.
  - by eapply registry_ok_insert.
Qed.

(** What [registerFunction] does: an error or a panic and no change, or the
    function added to the service. *)
Lemma registerFunction_cases path f nm useName s :
  let fName := function_name f nm useName in
  let ss := default (mk_service path ∅ (Some ∅)) (serviceMap s !! path) in
  (exists n e, registerFunction path f nm useName s = (s, Ok (n, Some e))) \/
  (registerFunction path f nm useName s = (s, Panic) /\ function ss = None) \/
  (exists fs ft, function ss = Some fs /\ callable ft /\ fName <> "" /\ method_ ft = fn f /\
     registerFunction path f nm useName s =
       (mk_registry (<[path := mk_service (name ss) (method ss) (Some (<[fName := ft]> fs))]> (serviceMap s))
          ({[ReplyType ft]} ∪ ({[ArgType ft]} ∪ pools s)), Ok (fName, None))).
Proof.
  intros fName ss. unfold registerFunction. fold fName ss.
  destruct (fIsFunc f); cbn; [|by left; eauto]. case_decide as Hn; [by left; eauto|].
  destruct (fIns f) as [|c [|a [|p []]]]; try (by left; eauto).
  destruct (fOuts f) as [|o []]; try (by left; eauto).
  destruct (ImplementsContext c); [|by left; eauto].
  destruct (isExportedOrBuiltinType a) eqn:Ha; [|by left; eauto].
  destruct (is_ptr p) eqn:Hptr; [|by left; eauto].
  destruct (isExportedOrBuiltinType p) eqn:He; [|by left; eauto].
  destruct (bool_decide (o = typeOfError)); [|by left; eauto]. cbn.
  destruct (function ss) as [fs|] eqn:Hf; [|by right; left]. right. right.
  exists fs, (mk_methodType (fn f) a p). by split_and!.
Qed.

Lemma registerFunction_keeps path f nm useName s :
  registry_ok s -> registry_ok (registerFunction path f nm useName s).1.
Proof.
  intros Hok. destruct (registerFunction_cases path f nm useName s) as [(n & e & ->)|[[-> _]|H]]; [done..|].
  destruct H as (fs & ft & Hf & Hc & Hn & Hm & ->). cbn [fst]. destruct s as [sm ps]. cbn [serviceMap pools] in *.
  assert (Hsub : ps ⊆ {[ReplyType ft]} ∪ ({[ArgType ft]} ∪ ps)) by set_solver.
  apply (registry_ok_insert sm ps); [done|done|].
  assert (Hft : pooled ({[ReplyType ft]} ∪ ({[ArgType ft]} ∪ ps)) ft) by (unfold pooled; set_solver).
  destruct (sm !! path) as [sv|] eqn:Hsv; cbn in *.
  - apply (Hok path sv) in Hsv. apply (service_ok_mono _ _ _ _ Hsub) in Hsv as (Hk & Hms & Hfs).
    rewrite Hf in Hfs. destruct Hfs as (He & Hne & Hfs).
    split; [done|]. split; [by cbn; rewrite He|]. cbn. split; [done|]. split; [apply insert_non_empty|].
    by apply map_Forall_insert_2.
  - injection Hf as <-. split; [done|]. split; [apply map_Forall_empty|]. cbn. split; [done|].
    split; [apply insert_non_empty|]. apply map_Forall_insert_2; [done|apply map_Forall_empty].
Qed.

(** A registration: the two forms of [Register] and of [RegisterFunction]. *)
Inductive registration : Type :=
| RegisterOp (rcvr : receiver) (nm : string) (useName : bool)
| RegisterFunctionOp (path : string) (f : gfunc V) (nm : string) (useName : bool).

Definition run_registration (o : registration) : prog (registry V) (string * option error) :=
  match o with
  | RegisterOp rcvr nm useName => register rcvr nm useName
  | RegisterFunctionOp path f nm useName => registerFunction path f nm useName
  end.

Definition empty_registry : registry V := mk_registry ∅ ∅.

(** Whatever a program registers, and whatever fails on the way, the
    registry stays well formed: every service stands under its own name, is
    made of methods or of functions, and everything a request can name has an
    exported argument type, a pointer to an exported reply type and a pool for
    both types, so that [reflectTypePools.Get] never finds a nil pool. *)
Theorem registry_invariant (os : list registration) :
  registry_ok (fold_left (fun s o => (run_registration o s).1) os empty_registry).
Proof.
  assert (H : forall s, registry_ok s -> registry_ok (fold_left (fun s o => (run_registration o s).1) os s)).
  { induction os as [|o os IH]; intros s Hs; [done|]. cbn. apply IH.
    destruct o; [by apply register_keeps|by apply registerFunction_keeps]. }
  apply H. apply map_Forall_empty.
Qed.

(** What [Register] does: the receiver is refused, and no service changes,
    exactly when its name is empty, is not exported (when it is the type's own)
    or no method is suitable; otherwise its service replaces whatever stood
    under the name and offers exactly the suitable methods. *)
Theorem register_spec (rcvr : receiver) (nm : string) (useName : bool) (s : registry V) :
  NoDup (mName <$> rmethods rcvr) ->
  let serviceName := if useName then nm else Name (Indirect (rtyp rcvr)) in
  exists s' err, register rcvr nm useName s = (s', Ok (serviceName, err)) /\
  match err with
  | Some _ => serviceMap s' = serviceMap s /\
      (serviceName = "" \/ (useName = false /\ isExported serviceName = false) \/
       forall m a r, m ∈ rmethods rcvr -> ~ suitable m a r)
  | None => serviceName <> "" /\ (useName = false -> isExported serviceName = true) /\
      (forall k, k <> serviceName -> serviceMap s' !! k = serviceMap s !! k) /\
      exists sv, serviceMap s' !! serviceName = Some sv /\ function sv = None /\ method sv <> ∅ /\
        forall n mt, method sv !! n = Some mt <->
          exists m, m ∈ rmethods rcvr /\ mName m = n /\
            suitable m (ArgType mt) (ReplyType mt) /\ method_ mt = Func m
  end.
Proof.
  intros Hnd serviceName. unfold register. fold serviceName. unfold checkServiceName.
  case_decide as Hs; [by eexists _, _; split; [done|]; cbn; auto|].
  destruct (negb useName && negb (isExported serviceName)) eqn:Hx.
  { apply andb_true_iff in Hx as [? ?]. eexists _, _. split; [done|]. cbn. split; [done|].
    right. left. by destruct useName, (isExported serviceName). }
  pose proof (fun n mt => suitableMethods_lookup (rmethods rcvr) (pools s) n mt Hnd) as Hlk.
  destruct (suitableMethods (rmethods rcvr) (pools s)) as [methods ps]. cbn [fst] in Hlk.
  case_decide as Hm.
  - destruct (suitableMethods (rptrmethods rcvr) ps) as [pm ps'].
    eexists _, _. split; [done|]. cbn. split; [done|]. right. right. intros m a r Hin Hsuit.
    assert (Hn : methods !! mName m = Some (mk_methodType (Func m) a r)).
    { apply Hlk. exists m. split_and!; [done|done|]. by apply suitableMethod_spec. }
    by rewrite Hm, lookup_empty in Hn.
  - eexists _, _. split; [done|]. cbn. split_and!; [done| |by intros; apply lookup_insert_ne|].
    + intros ->. by destruct (isExported serviceName).
    + eexists. split; [apply lookup_insert_eq|]. split; [done|]. split; [done|]. cbn. intros n mt. rewrite Hlk.
      by setoid_rewrite suitableMethod_spec.
Qed.

(** Functions and methods do not mix under one name: a good function
    registered on a path that [Register] made ends in a panic (its function map
    is nil), and [Register] on a path of functions drops them all. *)
Theorem register_mixed (rcvr : receiver) path f nm (s s1 : registry V) n :
  register rcvr path true s = (s1, Ok (n, None)) ->
  (forall s', registerFunction path f nm true (mk_registry ∅ ∅) = (s', Ok (nm, None)) ->
     registerFunction path f nm true s1 = (s1, Panic)) /\
  (forall sv, serviceMap s1 !! path = Some sv -> function sv = None).
Proof.
  intros Hr. assert (Hsv : exists sv, serviceMap s1 !! path = Some sv /\ function sv = None).
  { revert Hr. unfold register. destruct (checkServiceName path true); [done|].
    destruct (suitableMethods (rmethods rcvr) (pools s)) as [methods ps]. case_decide.
    - destruct (suitableMethods (rptrmethods rcvr) ps). done.
    - intros [= <- _]. cbn. eexists. split; [apply lookup_insert_eq|done]. }
  destruct Hsv as (sv & Hsv & Hf). split; [|intros sv' ?; congruence].
  intros s'. unfold registerFunction. rewrite Hsv. cbn [default]. cbn. rewrite Hf.
  repeat case_match; try done.
Qed.
End service.
Arguments receiver : clear implicits.

(** ** Witnesses: the [Arith] service of the examples *)
Definition ctx_type (t : gtype) : bool := bool_decide (t = TNamed "context" "Context").
Definition Arith : gtype := TNamed "main" "Arith".
Definition Mul : gmethod Z :=
  mk_gmethod "Mul" "" [TPtr Arith; TNamed "context" "Context"; TPtr (TNamed "main" "Args"); TPtr (TNamed "main" "Reply")]
    [typeOfError] 7.
Definition helper_method : gmethod Z := mk_gmethod "Help" "" [TPtr Arith] [] 8.
Definition arith : receiver Z := mk_receiver (TPtr Arith) [helper_method; Mul] [].
Definition mul : gfunc Z :=
  mk_gfunc true "main.mul" [TNamed "context" "Context"; TPtr (TNamed "main" "Args"); TPtr (TNamed "main" "Reply")]
    [typeOfError] 9.

Lemma register_spec_witness :
  NoDup (mName <$> rmethods arith) /\
  exists s' err, register (fun _ => false) ctx_type arith "" false empty_registry = (s', Ok ("Arith", err)) /\
    err = None.
Proof.
  assert (Hnd : NoDup (mName <$> rmethods arith)) by (apply (bool_decide_unpack _); vm_compute; exact I).
  split; [exact Hnd|].
  destruct (register_spec (fun _ => false) ctx_type arith "" false empty_registry Hnd) as (s' & err & Hr & _).
  exists s', err. split; [exact Hr|].
  apply (f_equal (fun x => match x.2 with Ok (_, e) => e | _ => None end)) in Hr.
  vm_compute in Hr. symmetry. exact Hr.
Defined.

Lemma register_mixed_witness :
  let s1 := (register (fun _ => false) ctx_type arith "Arith" true empty_registry).1 in
  registerFunction (fun _ => false) ctx_type "Arith" mul "mul" true s1 = (s1, Panic).
Proof.
  intros s1. eapply (register_mixed (fun _ => false) ctx_type arith "Arith" mul "mul" empty_registry s1 "Arith").
  - unfold s1. vm_compute. reflexivity.
  - vm_compute. reflexivity.
Defined.

Example function_name_last : function_name mul "" false = "mul".
Proof. reflexivity. Qed.
