(* ===== verification/Server.v ===== *)
(** server/server.go, server_serve.go, server_util.go, context.go: what a server
    does with one request, from the message to the bytes of the answer.

    Everything user code can touch is the world [W]; Go values are [V].  A
    service method is a program that also changes its reply object and the
    metadata of the response.  The map [share.Codecs] is the argument [codecs],
    [zero] makes the zero value of a type ([reflectTypePools.Get] with
    [UsePool] false, its default), [order] is the order in which an iteration
    visits a map.  The server's logger is not modelled. *)
From S2P Require Import Prelude Go Share Header Message Plugins ServerPlugins Service.
Open Scope go_scope.


(** [codec.Codec] on the server: both return what they stored and an error. *)
Record ServerCodec (V : Type) : Type := mk_ServerCodec {
  Encode_ : option V -> result (list byte * option error);
  Decode_ : list byte -> V -> result (V * option error)
}.
Arguments mk_ServerCodec {V}. Arguments Encode_ {V}. Arguments Decode_ {V}.

Section server.
Context {W V : Type}.

(** A registered method or function: given the request's metadata and the
    argument, it runs on the world, its reply object and the metadata of the
    response in the context. *)
Definition body : Type :=
  option (gmap string string) -> V -> prog (W * V * gmap string string) (option error).

Context (codecs : byte -> option (ServerCodec V)) (zero : gtype -> V)
        (cs : compressors) (get : Z -> list byte)
        (order : gmap string string -> list (string * string)).

(** The state of a handler: the world and the metadata for the response. *)
Definition hstate : Type := W * gmap string string.

(** What a goroutine has besides: the answers it has written, in order. *)
Definition gstate : Type := hstate * list (list byte).

(** A handler of the router: it gets a [Context] for the request. *)
Notation Handler := (message -> prog gstate (option error)).

(** The fields of [Server] that a request reads. *)
Record config : Type := mk_config {
  services : registry body;
  router : gmap string Handler;
  Plugins : pluginContainer W V;
  AuthFunc : option (message -> string -> prog W (message * option error))
}.

(** ** Calling a method *)

Definition on_world {A} (p : prog W A) : prog hstate A := fun '(w, rm) =>
  let '(w, r) := p w in ((w, rm), r).

(** [service.call]: a panic of the method is recovered and becomes an error. *)
Definition call (f : body) (md : option (gmap string string)) (argv reply : V) : prog hstate (V * option error) :=
  fun '(w, rm) =>
  let '((w, reply, rm), r) := f md argv (w, reply, rm) in
  ((w, rm), match r with
            | Ok err => Ok (reply, err)
            | Err e => Ok (reply, Some e)
            | Panic => Ok (reply, Some (ErrorString "[service internal error]"))
            | Fatal => Fatal
            | Blocked => Blocked
            end).

(** [res.Payload, err = coder.Encode(reply)]. *)
Definition encode_reply (coder : ServerCodec V) (reply : option V) (res : message) :
    prog hstate (message * option error) :=
  '(p, err) ← lift (Encode_ coder reply); mret (set_Payload p res, err).

(** [service.callForFunction] does the same for a function, without a receiver. *)
Definition callForFunction : body -> option (gmap string string) -> V -> V -> prog hstate (V * option error) := call.

(** [handleRequestForFunction]. *)
Definition handleRequestForFunction (f : methodType body) (coder : ServerCodec V) (req res : message) :
    prog hstate (message * option error) :=
  '(argv, err) ← lift (Decode_ coder (Payload req) (zero (ArgType f)));
  match err with
  | Some e => mret (res, Some e)
  | None =>
      '(reply, err) ← callForFunction (method_ f) (Metadata req) argv (zero (ReplyType f));
      match err with
      | Some e => mret (res, Some e)
      | None => if IsOneway (hdr req) then mret (res, None) else encode_reply coder (Some reply) res
      end
  end.

(** [handleRequest]: [c] is the message [Clone] takes from the pool.  The
    arguments of the deferred [res.HandleError(err)] are evaluated where it is
    deferred, both nil, so the deferred call does nothing. *)
Definition handleRequest (s : config) (c req : message) : prog hstate (message * option error) :=
  let serviceName := ServicePath req in
  let methodName := ServiceMethod req in
  let res := Clone req c in
  let res := set_hdr (SetMessageType Response (hdr res)) res in
  match getService serviceName (services s) with
  | None =>
      mret (HandleError (Some (ErrorString ("irpc: can't find service " +:+ serviceName))) res, None)
  | Some service =>
  match codecs (SerializeType (hdr req)) with
  | None =>
      let err := Some (ErrorString ("can't find codec for " +:+ pretty (bz (SerializeType (hdr req))))) in
      mret (HandleError err res, err)
  | Some coder =>
  match method service !! methodName with
  | None =>
      match function service ≫= (fun fs => fs !! methodName) with
      | Some f => handleRequestForFunction f coder req res
      | None =>
          mret (HandleError (Some (ErrorString ("irpc: can't find method " +:+ methodName))) res, None)
      end
  | Some mType =>
      '(argv, err) ← lift (Decode_ coder (Payload req) (zero (ArgType mType)));
      match err with
      | Some e => mret (res, Some e)
      | None =>
      '(argv, err) ← on_world (DoPreCall serviceName methodName (Plugins s) argv);
      match err with
      | Some e => mret (res, Some e)
      | None =>
      '(reply, err) ← call (method_ mType) (Metadata req) argv (zero (ReplyType mType));
      '(reply, err) ← match err with
                      | None => on_world (DoPostCall serviceName methodName argv (Plugins s) (Some reply))
                      | Some e => mret (Some reply, Some e)
                      end;
      match err with
      | Some e => match reply with
                  | Some _ => encode_reply coder reply res
                  | None => mret (res, Some e)
                  end
      | None => if IsOneway (hdr req) then mret (res, None) else encode_reply coder reply res
      end
      end
      end
  end
  end
  end.

(** ** Writing *)

(** [meta[k] = v] for the metadata of the response that the message does not
    have already, over the iteration's order. *)
Definition copy_metadata (rm : gmap string string) (res : message) : message :=
  if decide (rm = ∅) then res
  else match Metadata res with
       | None => set_Metadata (Some rm) res
       | Some meta =>
           set_Metadata (Some (fold_left (fun meta '(k, v) =>
             if decide (default "" (meta !! k) = "") then <[k := v]> meta else meta) (order rm) meta)) res
       end.

(** [writeResponse] without [AsyncWrite]: the bytes given to the connection,
    whose error is ignored, and the message as the encoder leaves it. *)
Definition writeResponse (res : message) : result (list byte * message) :=
  '(d, h) ← EncodeSlicePointer cs get (order (default ∅ (Metadata res))) res; Ok (d, set_hdr h res).

(** A large answer is compressed the way the request was. *)
Definition compress_like (req res : message) : message :=
  if (1024 <? Z.of_nat (length (Payload res))) && bool_decide (CompressType (hdr req) <> None_)
  then set_hdr (SetCompressType (CompressType (hdr req)) (hdr res)) res else res.

Definition on_handler {A} (p : prog hstate A) : prog gstate A := fun '(h, out) =>
  let '(h, r) := p h in ((h, out), r).

Definition emit (data : list byte) : prog gstate unit := modify (fun '(h, out) => (h, out ++ [data])).

(** [sendResponse]. *)
Definition sendResponse (s : config) (err : option error) (req res : message) : prog gstate unit :=
  let res := compress_like req res in
  '((req, res'), _) ← on_handler (on_world (DoPreWriteResponse err (Plugins s) (req, Some res)));
  let res := default res res' in
  '(data, res) ← lift (writeResponse res);
  emit data;;
  _ ← on_handler (on_world (DoPostWriteResponse err (Plugins s) (req, Some res)));
  mret tt.

(** [handleError]: an answer with the error, unless the request is one-way. *)
Definition handleError (s : config) (c req : message) (err : error) : prog gstate unit :=
  if IsOneway (hdr req) then
    _ ← on_handler (on_world (DoPreWriteResponse (Some err) (Plugins s) (req, None))); mret tt
  else
    let res := Clone req c in
    let res := set_hdr (SetMessageType Response (hdr res)) res in
    sendResponse s (Some err) req (HandleError (Some err) res).

(** ** [Context] of context.go: what a handler of the router can do *)

(** [Bind]. *)
Definition Bind (req : message) (v : option V) : result (option V * option error) :=
  match v with
  | None => Ok (None, None)
  | Some v =>
      match codecs (SerializeType (hdr req)) with
      | None => Ok (Some v, Some (ErrorString "can not find codec"))
      | Some codec => '(v, err) ← Decode_ codec (Payload req) v; Ok (Some v, err)
      end
  end.

(** [Context.Write]: the metadata set in the context is always there. *)
Definition ctx_Write (c req : message) (v : option V) : prog gstate (option error) :=
  if IsOneway (hdr req) then mret None else
  match codecs (SerializeType (hdr req)) with
  | None => mret (Some (ErrorString "can not find codec"))
  | Some codec =>
      let res := Clone req c in
      let res := set_hdr (SetMessageType Response (hdr res)) res in
      '(res, err) ← match v with
                    | None => mret (res, None)
                    | Some _ =>
                        '(data, err) ← lift (Encode_ codec v);
                        mret (match err with None => set_Payload data res | Some _ => res end, err)
                    end;
      match err with
      | Some e => mret (Some e)
      | None =>
          '((_, rm), _) ← get_st;
          let res := match Metadata res with
                     | None => set_Metadata (Some rm) res
                     | Some _ => copy_metadata rm res
                     end in
          '(data, _) ← lift (writeResponse (compress_like req res));
          emit data;; mret None
      end
  end.

(** [Context.WriteError]: when the answer has no metadata of its own it takes
    the map of the context, in which the error is then stored. *)
Definition ctx_WriteError (c req : message) (err : error) : prog gstate (option error) :=
  if IsOneway (hdr req) then mret None else
  match codecs (SerializeType (hdr req)) with
  | None => mret (Some (ErrorString "can not find codec"))
  | Some _ =>
      let res := Clone req c in
      let res := set_hdr (SetMessageType Response (hdr res)) res in
      '((w, rm), out) ← get_st;
      let rm' := <[ServiceErrorKey := Error err]> rm in
      res ← match Metadata res with
            | None => put_st ((w, rm'), out);; mret (set_Metadata (Some rm') res)
            | Some _ =>
                let res := copy_metadata rm res in
                mret (set_Metadata (Some (<[ServiceErrorKey := Error err]> (default ∅ (Metadata res)))) res)
            end;
      let res := set_hdr (SetMessageStatusType StatusError (hdr res)) res in
      '(data, _) ← lift (writeResponse res);
      emit data;; mret None
  end.

(** [auth]. *)
Definition auth (s : config) (req : message) : prog W (message * option error) :=
  match AuthFunc s with
  | None => mret (req, None)
  | Some f => f req (default "" (Metadata req ≫= (fun m => m !! AuthKey)))
  end.

(** ** The goroutine of a request *)

(** Its body after the heartbeat case: the router first, then the services. *)
Definition serve_call (s : config) (c req : message) : prog gstate unit :=
  '(req, _) ← on_handler (on_world (DoPreHandleRequest (Plugins s) req));
  match router s !! (ServicePath req +:+ "." +:+ ServiceMethod req) with
  | Some handler => _ ← handler req; mret tt
  | None =>
      '(res, err) ← on_handler (handleRequest s c req);
      if IsOneway (hdr req) then mret tt
      else '((_, rm), _) ← get_st; sendResponse s err req (copy_metadata rm res)
  end.

(** A heartbeat is its own answer. *)
Definition serve_heartbeat (s : config) (req : message) : prog gstate unit :=
  '(req, _) ← on_handler (on_world (DoHeartbeatRequest (Plugins s) req));
  '(data, _) ← lift (writeResponse (set_hdr (SetMessageType Response (hdr req)) req));
  emit data.

(** The goroutine: what it writes, and the world after it.  A panic is
    recovered, and nothing more is written. *)
Definition serve_request (s : config) (c req : message) : prog W (list (list byte)) := fun w =>
  let '((w, _, out), r) :=
    (if IsHeartbeat (hdr req) then serve_heartbeat s req else serve_call s c req) (w, ∅, []) in
  (w, match r with
      | Ok _ | Err _ | Panic => Ok out
      | Fatal => Fatal
      | Blocked => Blocked
      end).

End server.
Arguments body : clear implicits.
Arguments config : clear implicits.
