(* ===== verification/ServerFacts.v ===== *)
(** Theorems about Server.v: what the answer to a request is, on the wire, and
    what becomes of errors. *)
From S2P Require Import Prelude Go Share Header Message MessageFacts Plugins ServerPlugins Service Server.
Open Scope go_scope.

(** ** The message a request is answered with *)

(** [c] is as [GetPooledMsg] gives it: new or reset. *)
Definition blank_msg (c : message) : Prop := Metadata c = None /\ Payload c = [].

(** [res] starts as this message. *)
Definition response (c req : message) : message :=
  set_hdr (SetMessageType Response (hdr (Clone req c))) (Clone req c).

Lemma response_type_bit h : MessageType h .| (Response .& x01) = Response.
Proof. unfold MessageType. generalize (h !!! 2%nat). intros b. byte_compute1 b. Qed.

Lemma view_response c req : Header_wf (hdr req) ->
  Header_wf (hdr (response c req)) /\
  view (hdr (response c req)) = with_type Response (with_compress None_ (view (hdr req))).
Proof.
  intros H. unfold response, Clone. cbn [hdr set_hdr set_ServicePath set_ServiceMethod].
  pose proof (SetCompressType_wf None_ _ H) as H1. split; [by apply SetMessageType_wf|].
  rewrite view_SetMessageType, view_SetCompressType by done. by rewrite response_type_bit.
Qed.

(** [res] answers [req]: same call, marked as a response. *)
Record answers (req res : message) : Prop := {
  ans_wf : Header_wf (hdr res);
  ans_magic : hdr res !!! 0%nat = hdr req !!! 0%nat;
  ans_type : MessageType (hdr res) = Response;
  ans_seq : Seq (hdr res) = Seq (hdr req);
  ans_serialize : SerializeType (hdr res) = SerializeType (hdr req);
  ans_oneway : IsOneway (hdr res) = IsOneway (hdr req);
  ans_heartbeat : IsHeartbeat (hdr res) = IsHeartbeat (hdr req);
  ans_path : ServicePath res = ServicePath req;
  ans_method : ServiceMethod res = ServiceMethod req
}.

(** The status and compress type may differ, nothing else of the header. *)
Lemma answers_view req res ct st :
  Header_wf (hdr res) ->
  view (hdr res) = with_status st (with_compress ct (with_type Response (view (hdr req)))) ->
  ServicePath res = ServicePath req -> ServiceMethod res = ServiceMethod req -> answers req res.
Proof.
  intros Hw V Hp Hm. split; try done; [exact (f_equal f_magic V)|exact (f_equal f_type V)|exact (f_equal f_seq V)
    |exact (f_equal f_serialize V)|exact (f_equal f_oneway V)|exact (f_equal f_heartbeat V)].
Qed.

Lemma response_answers c req : Header_wf (hdr req) -> answers req (response c req).
Proof.
  intros H. destruct (view_response c req H) as [Hw V].
  apply (answers_view req _ None_ (f_status (view (hdr req)))); [done| |done|done].
  rewrite V. by destruct (view (hdr req)).
Qed.

Lemma response_status c req : Header_wf (hdr req) ->
  MessageStatusType (hdr (response c req)) = MessageStatusType (hdr req).
Proof. intros H. destruct (view_response c req H) as [_ V]. exact (f_equal f_status V). Qed.

Lemma response_blank c req : blank_msg c -> Metadata (response c req) = None /\ Payload (response c req) = [].
Proof. done. Qed.

Lemma HandleError_answers e c req : Header_wf (hdr req) ->
  answers req (HandleError (Some e) (response c req)) /\
  MessageStatusType (hdr (HandleError (Some e) (response c req))) = StatusError.
Proof.
  intros H. destruct (view_response c req H) as [Hw V].
  assert (V' : view (hdr (HandleError (Some e) (response c req))) =
    with_status StatusError (with_compress None_ (with_type Response (view (hdr req))))).
  { cbn [hdr HandleError set_Metadata set_hdr]. rewrite view_SetMessageStatusType by done. by rewrite V. }
  split; [|exact (f_equal f_status V')].
  eapply answers_view; [|exact V'|done|done]. cbn. by apply SetMessageStatusType_wf.
Qed.

Section facts.
Context {W V : Type}.
Context (codecs : byte -> option (ServerCodec V)) (zero : gtype -> V).
Implicit Types s : config W V.

(** ** Requests that are refused *)
Definition refusal s (req : message) : option error :=
  match getService (ServicePath req) (services s) with
  | None => Some (ErrorString ("irpc: can't find service " +:+ ServicePath req))
  | Some sv =>
      match codecs (SerializeType (hdr req)) with
      | None => Some (ErrorString ("can't find codec for " +:+ pretty (bz (SerializeType (hdr req)))))
      | Some _ =>
          match method sv !! ServiceMethod req, function sv ≫= (fun fs => fs !! ServiceMethod req) with
          | None, None => Some (ErrorString ("irpc: can't find method " +:+ ServiceMethod req))
          | _, _ => None
          end
      end
  end.

(** The two shapes the message has when nothing refuses the request. *)
Definition plain (c req res : message) : Prop := exists p, res = set_Payload p (response c req).

Lemma plain_response c req : plain c req (response c req).
Proof. by exists (Payload c). Qed.

Lemma encode_reply_plain (coder : ServerCodec V) reply c req (h h' : W * gmap string string) res err :
  encode_reply coder reply (response c req) h = (h', Ok (res, err)) -> plain c req res.
Proof.
  unfold encode_reply. prog_step. destruct (Encode_ coder reply) as [[p e]| | | |]; try done.
  intros [= _ <- _]. by exists p.
Qed.

Lemma function_plain (f : methodType (body W V)) coder c req h h' res err :
  handleRequestForFunction zero f coder req (response c req) h = (h', Ok (res, err)) -> plain c req res.
Proof.
  unfold handleRequestForFunction, callForFunction. unfold mbind, prog_bind, lift.
  destruct (Decode_ coder (Payload req) (zero (ArgType f))) as [[argv [e|]]| | | |]; try done.
  { intros [= _ <- _]. apply plain_response. }
  destruct (call _ _ _ _ h) as [h1 [[reply [e|]]| | | |]]; try done.
  { intros [= _ <- _]. apply plain_response. }
  destruct (IsOneway (hdr req)); [intros [= _ <- _]; apply plain_response|].
  apply encode_reply_plain.
Qed.

Lemma handleRequest_cases s c req h h' res err :
  handleRequest codecs zero s c req h = (h', Ok (res, err)) ->
  match refusal s req with
  | Some e => h' = h /\ res = HandleError (Some e) (response c req)
  | None => plain c req res
  end.
Proof.
  unfold handleRequest, refusal. fold (response c req).
  destruct (getService (ServicePath req) (services s)) as [sv|]; [|by intros [= <- <- _]].
  destruct (codecs (SerializeType (hdr req))) as [coder|]; [|by intros [= <- <- _]].
  destruct (method sv !! ServiceMethod req) as [mt|].
  - unfold mbind, prog_bind, lift.
    destruct (Decode_ coder (Payload req) (zero (ArgType mt))) as [[argv [e|]]| | | |]; try done.
    { intros [= _ <- _]. apply plain_response. }
    destruct (on_world _ h) as [h1 [[argv1 [e|]]| | | |]]; try done.
    { intros [= _ <- _]. apply plain_response. }
    destruct (call _ _ _ _ h1) as [h2 [[reply err2]| | | |]]; try done.
    destruct err2 as [e2|]; [apply encode_reply_plain|].
    destruct (on_world _ h2) as [h3 [[reply2 [e|]]| | | |]]; try done.
    + destruct reply2; [apply encode_reply_plain|]. intros [= _ <- _]. apply plain_response.
    + destruct (IsOneway (hdr req)); [intros [= _ <- _]; apply plain_response|]. apply encode_reply_plain.
  - destruct (function sv ≫= _) as [f|]; [apply function_plain|]. by intros [= <- <- _].
Qed.

(** C10: the answer [handleRequest] makes, on every branch that returns.  It is
    always a response to that very call.  A request is refused, with an error
    status and the reason in the metadata and with nothing run, exactly when its
    service, its codec or its method is missing.  Otherwise the answer has the
    status of the request and no metadata, whatever happened: an argument that
    does not decode, a plugin that refuses, a method that fails or panics and a
    reply that does not encode leave no trace in it. *)
Theorem handleRequest_spec s c req h h' res err :
  Header_wf (hdr req) -> blank_msg c ->
  handleRequest codecs zero s c req h = (h', Ok (res, err)) ->
  answers req res /\
  match refusal s req with
  | Some e => h' = h /\ MessageStatusType (hdr res) = StatusError /\
      Metadata res = Some {[ServiceErrorKey := Error e]} /\ Payload res = []
  | None => MessageStatusType (hdr res) = MessageStatusType (hdr req) /\ Metadata res = None
  end.
Proof.
  intros Hw [Hm Hp] Hr. apply handleRequest_cases in Hr. destruct (refusal s req) as [e|].
  - destruct Hr as [-> ->]. destruct (HandleError_answers e c req Hw) as [Ha Hs].
    split_and!; [done..| |done]. cbn. rewrite Hm. done.
  - destruct Hr as [p ->]. destruct (response_answers c req Hw). split; [by split|].
    split; [by apply response_status|done].
Qed.

(** ** On the wire *)
Context (cs : compressors) (get : Z -> list byte) (order : gmap string string -> list (string * string)).
Context `{!CompressorLaws cs, !BufferGet get} (order_perm : forall m, order m ≡ₚ map_to_list m).

(** What a client reads from the bytes of an answer. *)
Definition reads_as (bs : list byte) (req m : message) : Prop :=
  forall max m0 tail fn, Header_wf (hdr m0) -> Metadata m0 = None ->
    Z.of_nat (length bs) < two32 -> (0 < max -> Z.of_nat (length bs) <= max + 16) ->
    exists m', Decode cs max (mk_reader (bs ++ tail) fn, m0) = ((mk_reader tail fn, m'), Ok tt) /\
      answers req m' /\ MessageStatusType (hdr m') = MessageStatusType (hdr m) /\
      Payload m' = Payload m /\ Metadata m' = norm_meta (Metadata m).

(** The header an answer is sent with differs from a response's in the
    compress type only. *)
Lemma answers_compress req res h ct :
  answers req res -> Header_wf h -> view h = with_compress ct (view (hdr res)) ->
  forall d p, answers req (mk_message h (ServicePath res) (ServiceMethod res) d p (data res)) /\
    MessageStatusType h = MessageStatusType (hdr res).
Proof.
  intros [Hw Hmg Ht Hs Hse Ho Hh Hp Hm] Hwh Hv d p. split; [|exact (f_equal f_status Hv)]. split; cbn; try done.
  - exact (eq_trans (f_equal f_magic Hv) Hmg).
  - exact (eq_trans (f_equal f_type Hv) Ht).
  - exact (eq_trans (f_equal f_seq Hv) Hs).
  - exact (eq_trans (f_equal f_serialize Hv) Hse).
  - exact (eq_trans (f_equal f_oneway Hv) Ho).
  - exact (eq_trans (f_equal f_heartbeat Hv) Hh).
Qed.

Lemma compress_like_ok req res : answers req res ->
  answers req (compress_like req res) /\
  MessageStatusType (hdr (compress_like req res)) = MessageStatusType (hdr res) /\
  Payload (compress_like req res) = Payload res /\ Metadata (compress_like req res) = Metadata res.
Proof.
  intros Ha. unfold compress_like. destruct (_ && _); [|done].
  pose proof (ans_wf _ _ Ha) as Hw.
  destruct (answers_compress req res _ _ Ha (SetCompressType_wf (CompressType (hdr req)) _ Hw)
    (view_SetCompressType (CompressType (hdr req)) _ Hw) (Metadata res) (Payload res)) as [? ?].
  by split_and!.
Qed.

Lemma writeResponse_reads req res : answers req res -> CheckMagicNumber (hdr req) = true ->
  exists bs m, writeResponse cs get order res = Ok (bs, m) /\ reads_as bs req res.
Proof.
  intros Ha Hmagic. pose proof (ans_wf _ _ Ha) as Hw.
  destruct (compressPayload_ok cs res) as (h & p & Hc).
  pose proof (EncodeSlicePointer_wire cs get (order (default ∅ (Metadata res))) res Hw) as E.
  rewrite Hc in E. cbn [mbind result_bind] in E.
  eexists _, _. unfold writeResponse. rewrite E. split; [reflexivity|].
  intros max m0 tail fn Hw0 Hm0 Hlen Hmax.
  assert (Hmg : CheckMagicNumber (hdr res) = true).
  { unfold CheckMagicNumber. rewrite (ans_magic _ _ Ha). exact Hmagic. }
  destruct (Decode_EncodeSlicePointer cs get max _ res m0 _ h tail fn _ _ Hw Hmg Hw0 Hm0
    (order_perm _) E Hlen Hmax) as (d & p' & _ & Hd).
  eexists. split; [exact Hd|]. cbn [hdr Payload Metadata].
  destruct (compressPayload_header cs res h p Hw Hc) as [ct Hv].
  destruct (answers_compress req res h ct Ha (compressPayload_wf cs res h p Hw Hc) Hv
    (norm_meta (Metadata res)) (Payload res)) as [Ha' Hst].
  split_and!; try done. destruct Ha'. by split.
Qed.

(** No plugin looks at the handling or the writing of a request. *)
Definition quiet s : Prop :=
  Forall (fun p => PreHandleRequest p = None /\ PreWriteResponse p = None /\ PostWriteResponse p = None) (Plugins s).

Lemma quiet_hook {H} (hook : Plugin W V -> option H) s : quiet s ->
  (forall p, PreHandleRequest p = None /\ PreWriteResponse p = None /\ PostWriteResponse p = None -> hook p = None) ->
  Forall (fun p => hook p = None) (Plugins s).
Proof. intros Hq Hh. eapply Forall_impl; [exact Hq|]. apply Hh. Qed.

Lemma sendResponse_reads s err req res :
  quiet s -> answers req res -> CheckMagicNumber (hdr req) = true ->
  exists bs, (forall (h : W * gmap string string) out,
      sendResponse cs get order s err req res (h, out) = ((h, out ++ [bs]), Ok tt)) /\ reads_as bs req res.
Proof.
  intros Hq Ha Hmagic. destruct (compress_like_ok req res Ha) as (Ha' & Hst & Hp & Hmd).
  destruct (writeResponse_reads req _ Ha' Hmagic) as (bs & m & Hwr & Hreads).
  exists bs. split.
  - intros [w rm] out. unfold sendResponse, on_handler, on_world. unfold DoPreWriteResponse, DoPostWriteResponse.
    unfold mbind, prog_bind, lift, emit, modify.
    rewrite (until_error_none PreWriteResponse) by (apply quiet_hook; [done|tauto]).
    cbn [from_option]. unfold id. rewrite Hwr.
    rewrite (until_error_none PostWriteResponse) by (apply quiet_hook; [done|tauto]). done.
  - intros max m0 tail fn H0 H1 H2 H3. destruct (Hreads max m0 tail fn H0 H1 H2 H3) as (m' & Hd & ? & Hst' & Hp' & Hmd').
    exists m'. by rewrite <- Hst, <- Hp, <- Hmd.
Qed.

Lemma copy_metadata_answers rm req res : answers req res -> answers req (copy_metadata order rm res) /\
  hdr (copy_metadata order rm res) = hdr res /\ Payload (copy_metadata order rm res) = Payload res.
Proof. intros []. unfold copy_metadata. repeat case_match; by repeat split. Qed.

Lemma copy_metadata_empty res : copy_metadata order ∅ res = res.
Proof. unfold copy_metadata. by rewrite decide_True. Qed.

(** A request that is neither a heartbeat nor routed to a handler. *)
Record plain_request s (req : message) : Prop := {
  pr_wf : Header_wf (hdr req);
  pr_magic : CheckMagicNumber (hdr req) = true;
  pr_call : IsHeartbeat (hdr req) = false;
  pr_route : router s !! (ServicePath req +:+ "." +:+ ServiceMethod req) = None
}.

Lemma handleRequest_answers s c req h h' res err :
  Header_wf (hdr req) -> handleRequest codecs zero s c req h = (h', Ok (res, err)) -> answers req res.
Proof.
  intros Hw Hr. apply handleRequest_cases in Hr. destruct (refusal s req) as [e|].
  - destruct Hr as [_ ->]. by apply HandleError_answers.
  - destruct Hr as [p ->]. by destruct (response_answers c req Hw).
Qed.

Lemma serve_call_run s c req w w' rm res err :
  quiet s -> router s !! (ServicePath req +:+ "." +:+ ServiceMethod req) = None ->
  handleRequest codecs zero s c req (w, ∅) = ((w', rm), Ok (res, err)) ->
  serve_call codecs zero cs get order s c req (w, ∅, []) =
    if IsOneway (hdr req) then ((w', rm, []), Ok tt)
    else sendResponse cs get order s err req (copy_metadata order rm res) ((w', rm), []).
Proof.
  intros Hq Hrt Hr. unfold serve_call, on_handler, on_world, DoPreHandleRequest, mbind, prog_bind, get_st.
  rewrite (until_error_none PreHandleRequest) by (apply quiet_hook; [done|tauto]).
  cbn beta iota. rewrite Hrt. cbn beta iota. rewrite Hr. cbn beta iota. by destruct (IsOneway (hdr req)).
Qed.

Lemma serve_request_reads s c req w w' rm res err :
  quiet s -> plain_request s req -> handleRequest codecs zero s c req (w, ∅) = ((w', rm), Ok (res, err)) ->
  if IsOneway (hdr req) then serve_request codecs zero cs get order s c req w = (w', Ok [])
  else exists bs, serve_request codecs zero cs get order s c req w = (w', Ok [bs]) /\
         reads_as bs req (copy_metadata order rm res).
Proof.
  intros Hq [Hw Hmagic Hhb Hrt] Hr. pose proof (handleRequest_answers _ _ _ _ _ _ _ Hw Hr) as Ha.
  destruct (copy_metadata_answers rm req res Ha) as (Ha' & _ & _).
  destruct (sendResponse_reads s err req _ Hq Ha' Hmagic) as (bs & Hs & Hreads).
  pose proof (serve_call_run s c req w w' rm res err Hq Hrt Hr) as Hrun.
  unfold serve_request. rewrite Hhb, Hrun. destruct (IsOneway (hdr req)); [done|].
  exists bs. split; [|done]. by rewrite Hs.
Qed.

(** C9: the goroutine of a request answers it: with no plugin in the way, what
    [handleRequest] returned is on the wire.  A one-way request writes nothing;
    any other writes one frame, and whoever decodes it, whatever follows on the
    stream, gets a response to that call with the answer's status and payload
    and its metadata completed by what the method put into the context. *)
Theorem serve_request_delivers s c req w w' rm res err :
  quiet s -> plain_request s req ->
  handleRequest codecs zero s c req (w, ∅) = ((w', rm), Ok (res, err)) ->
  if IsOneway (hdr req) then serve_request codecs zero cs get order s c req w = (w', Ok [])
  else exists bs, serve_request codecs zero cs get order s c req w = (w', Ok [bs]) /\
         reads_as bs req (copy_metadata order rm res).
Proof. apply serve_request_reads. Qed.

(** An error of a service method never reaches the caller: the method ran,
    returned an error or panicked, and the frame the client reads is a response
    with the status of the request, no error in its metadata and the encoding
    of whatever the method left in its reply. *)
Theorem service_error_lost s c req w w' (sv : service (body W V)) (mt : methodType (body W V))
    (coder : ServerCodec V) argv reply r p :
  Plugins s = [] -> plain_request s req -> blank_msg c -> IsOneway (hdr req) = false ->
  getService (ServicePath req) (services s) = Some sv ->
  method sv !! ServiceMethod req = Some mt ->
  codecs (SerializeType (hdr req)) = Some coder ->
  Decode_ coder (Payload req) (zero (ArgType mt)) = Ok (argv, None) ->
  method_ mt (Metadata req) argv (w, zero (ReplyType mt), ∅) = ((w', reply, ∅), r) ->
  r = Panic \/ (exists e, r = Ok (Some e)) ->
  Encode_ coder (Some reply) = Ok (p, None) ->
  exists bs, serve_request codecs zero cs get order s c req w = (w', Ok [bs]) /\
    forall max m0 tail fn, Header_wf (hdr m0) -> Metadata m0 = None ->
      Z.of_nat (length bs) < two32 -> (0 < max -> Z.of_nat (length bs) <= max + 16) ->
      exists m', Decode cs max (mk_reader (bs ++ tail) fn, m0) = ((mk_reader tail fn, m'), Ok tt) /\
        Seq (hdr m') = Seq (hdr req) /\ MessageType (hdr m') = Response /\
        MessageStatusType (hdr m') = MessageStatusType (hdr req) /\ Metadata m' = None /\ Payload m' = p.
Proof.
  intros Hpl Hpr [Hcm Hcp] Hone Hsv Hmt Hco Hdec Hrun Hfail Henc.
  assert (Hr : handleRequest codecs zero s c req (w, ∅) = ((w', ∅), Ok (set_Payload p (response c req), None))).
  { unfold handleRequest. rewrite Hsv, Hco. rewrite Hmt. unfold mbind, prog_bind, lift. rewrite Hdec, Hpl.
    cbn [on_world DoPreCall until_error mret prog_ret]. unfold call at 1. rewrite Hrun.
    assert (Hc : exists e, match r with
                    | Ok err => Ok (reply, err) | Err e => Ok (reply, Some e)
                    | Panic => Ok (reply, Some (ErrorString "[service internal error]"))
                    | Fatal => Fatal | Blocked => Blocked end = Ok (reply, Some e)).
    { destruct Hfail as [->|[e ->]]; by eexists. }
    destruct Hc as [e ->]. unfold mret, prog_ret, encode_reply, mbind, prog_bind, lift. by rewrite Henc. }
  assert (Hq : quiet s) by (unfold quiet; rewrite Hpl; constructor).
  pose proof (serve_request_reads s c req w w' ∅ _ None Hq Hpr Hr) as Hserve. rewrite Hone in Hserve.
  rewrite copy_metadata_empty in Hserve. destruct Hserve as (bs & Hs & Hreads). exists bs. split; [done|]. intros max m0 tail fn H0 H1 H2 H3.
  destruct (Hreads max m0 tail fn H0 H1 H2 H3) as (m' & Hd & Ha & Hst & Hp & Hmd).
  exists m'. split; [done|]. split_and!; try apply Ha.
  - rewrite Hst. cbn. apply (response_status c), Hpr.
  - rewrite Hmd. cbn. by rewrite Hcm.
  - by rewrite Hp.
Qed.
End facts.

(** ** Witnesses: a service [Arith] whose [Mul] answers and whose [Fail] fails *)
Definition raw_codec : ServerCodec (list byte) :=
  mk_ServerCodec (fun v => Ok (default [] v, None)) (fun b _ => Ok (b, None)).
Definition raw_codecs (st : byte) : option (ServerCodec (list byte)) :=
  if decide (st = SerializeNone) then Some raw_codec else None.
Definition mul_body (err : option error) : body unit (list byte) :=
  fun _ argv '(w, _, rm) => ((w, argv ++ argv, rm), Ok err).
Definition bytes_ptr : gtype := TPtr (TUnnamed 0).
Definition arith_service : service (body unit (list byte)) :=
  mk_service "Arith" {["Mul" := mk_methodType (mul_body None) bytes_ptr bytes_ptr;
                      "Fail" := mk_methodType (mul_body (Some (ErrorString "overflow"))) bytes_ptr bytes_ptr]} None.
Definition test_server : config unit (list byte) :=
  mk_config (mk_registry {["Arith" := arith_service]} {[bytes_ptr]}) ∅ [] None.
Definition test_request (m : string) : message :=
  mk_message (SetSeq 7 newHeader) "Arith" m None [x2a] (mk_slice [] 0).

Lemma test_plain m : plain_request test_server (test_request m).
Proof. split; [reflexivity|reflexivity|reflexivity|apply lookup_empty]. Qed.

Lemma handleRequest_spec_witness :
  answers (test_request "Div") (HandleError (Some (ErrorString "irpc: can't find method Div")) (response NewMessage (test_request "Div"))).
Proof.
  apply (handleRequest_spec raw_codecs (fun _ => []) test_server NewMessage (test_request "Div") (tt, ∅) (tt, ∅) _ None);
    [reflexivity|split; reflexivity|vm_compute; reflexivity].
Defined.

Lemma serve_request_delivers_witness :
  exists bs, serve_request raw_codecs (fun _ => []) raw_compressors dirty_get map_to_list test_server NewMessage
      (test_request "Mul") tt = (tt, Ok [bs]) /\
    reads_as raw_compressors bs (test_request "Mul")
      (copy_metadata map_to_list ∅ (set_Payload [x2a; x2a] (response NewMessage (test_request "Mul")))).
Proof.
  apply (serve_request_delivers raw_codecs (fun _ => []) raw_compressors dirty_get map_to_list (fun _ => reflexivity _)
    test_server NewMessage (test_request "Mul") tt tt ∅ (set_Payload [x2a; x2a] (response NewMessage (test_request "Mul"))) None);
    [constructor|apply test_plain|reflexivity].
Defined.

Lemma service_error_lost_witness :
  exists bs, serve_request raw_codecs (fun _ => []) raw_compressors dirty_get map_to_list test_server NewMessage
      (test_request "Fail") tt = (tt, Ok [bs]) /\
    forall max m0 tail fn, Header_wf (hdr m0) -> Metadata m0 = None ->
      Z.of_nat (length bs) < two32 -> (0 < max -> Z.of_nat (length bs) <= max + 16) ->
      exists m', Decode raw_compressors max (mk_reader (bs ++ tail) fn, m0) = ((mk_reader tail fn, m'), Ok tt) /\
        Seq (hdr m') = 7 /\ MessageType (hdr m') = Response /\
        MessageStatusType (hdr m') = Normal /\ Metadata m' = None /\ Payload m' = [x2a; x2a].
Proof.
  apply (service_error_lost raw_codecs (fun _ => []) raw_compressors dirty_get map_to_list (fun _ => reflexivity _)
    test_server NewMessage (test_request "Fail") tt tt arith_service
    (mk_methodType (mul_body (Some (ErrorString "overflow"))) bytes_ptr bytes_ptr) raw_codec [x2a] [x2a; x2a]
    (Ok (Some (ErrorString "overflow"))) [x2a; x2a]);
    try reflexivity; [apply test_plain|split; reflexivity|right; eexists; reflexivity].
Defined.
