(* ===== verification/ServerConn.v ===== *)
(** server/server_serve.go, server.go and server_base.go: a connection of a
    server, from the start of [serveConn] to its end, while the goroutines of
    its requests run and [Shutdown] or [Close] may be called.

    One step is a phase of [serveConn] (a test of [isShutdown], the reading of a
    request, the decision on it, the wait for [doneChan], the two halves of
    [closeConn]), the start or the run of a request's goroutine, or a phase of
    [Shutdown]; the steps interleave in any order, so [Shutdown] and [Close] can
    come while the loop reads.  Other connections are seen through the world
    only; [AsyncWrite] is off. *)
From S2P Require Import Prelude Go Share Header Message MessageFacts Plugins ServerPlugins Service Server.
Open Scope go_scope.

(** Where [serveConn] is: at its first test of [isShutdown]; at the test of the
    loop; in [readRequest]; past it, with the request and the error; at the test
    of its deferred function; waiting for [doneChan]; about to call [closeConn];
    in it, past [deleteActiveConn]; done. *)
Inductive phase : Type :=
  Starting | Checking | Reading | Deciding (req : option message) (err : option error)
| Returning | AwaitingDone | Closing | Removed | Gone.

(** [Shutdown]: not called, past its compare-and-swap, waiting for the handlers,
    ended (with whether its context expired). *)
Inductive shutdown_state : Type := NotCalled | Begun | Waiting | Ended (expired : bool).

(** What a turn of the loop ends with. *)
Inductive turn_result : Type := Continue | Spawn (req : message) | Return.

Section conn.
Context {W V : Type}.
Context (codecs : byte -> option (ServerCodec V)) (zero : gtype -> V)
        (cs : compressors) (get : Z -> list byte)
        (order : gmap string string -> list (string * string)) (max : Z)
        (conn : nat) (s : config W V).

(** ** The read loop *)

(** The world, the rest of the stream and the frames written. *)
Definition lstate : Type := W * reader * list (list byte).

Definition world_ {A} (p : prog W A) : prog lstate A := fun '(w, r, out) =>
  let '(w, x) := p w in ((w, r, out), x).

(** [req.Decode(r)]: the message as it is left, and the error. *)
Definition decode_request (m0 : message) : prog lstate (message * option error) := fun '(w, r, out) =>
  let '((r, m), x) := Decode cs max (r, m0) in
  ((w, r, out), match x with
                | Ok _ => Ok (m, None)
                | Err e => Ok (m, Some e)
                | Panic => Panic | Fatal => Fatal | Blocked => Blocked
                end).

(** [readRequest]: [m0] is the message from the pool; no request comes with an
    error of [DoPreReadRequest]. *)
Definition readRequest (m0 : message) : prog lstate (option message * option error) :=
  err ← world_ (DoPreReadRequest (Plugins s));
  match err with
  | Some e => mret (None, Some e)
  | None =>
      '(req, err) ← decode_request m0;
      match err with
      | Some EOF => mret (Some req, err)
      | _ =>
          '(req, pErr) ← world_ (DoPostReadRequest err (Plugins s) req);
          mret (Some req, match err with None => pErr | Some e => Some e end)
      end
  end.

(** A program of a request's goroutine run by the loop itself. *)
Definition inline_ (p : prog (gstate (W := W)) unit) : prog lstate unit := fun '(w, r, out) =>
  let '((w, _, fs), x) := p (w, ∅, []) in ((w, r, out ++ fs), x).

(** The loop after [readRequest]: a request above the limit is answered and the
    loop goes on; another error ends it, and so does a request that fails
    [auth], which is answered.  [handleError] dereferences the request, which is
    nil when [DoPreReadRequest] failed. *)
Definition decide_request (c : message) (req : option message) (err : option error) : prog lstate turn_result :=
  match err, req with
  | Some ErrReqReachLimit, Some req => inline_ (handleError cs get order s c req ErrReqReachLimit);; mret Continue
  | Some ErrReqReachLimit, None => lift Panic
  | Some _, _ => mret Return
  | None, None => lift Panic
  | None, Some req =>
      if IsHeartbeat (hdr req) then mret (Spawn req)
      else
        '(req, err) ← world_ (auth s req);
        match err with
        | Some e => inline_ (handleError cs get order s c req e);; mret Return
        | None => mret (Spawn req)
        end
  end.

(** One turn of the loop after the test of [isShutdown]. *)
Definition turn (m0 c : message) : prog lstate turn_result :=
  '(req, err) ← readRequest m0; decide_request c req err.

(** ** The connection and the server around it

    [tasks] are the requests whose goroutine has been started by the loop and
    not ended, with whether it has counted itself in [handlerMsgNum]; [written]
    is what the connection took before it was closed.  [accepted] and [handled]
    record the requests given to a goroutine and those whose goroutine ended. *)
Record sconn : Type := mk_sconn {
  world : W;
  input : reader;
  written : list (list byte);
  at_ : phase;
  tasks : list (message * bool);
  active : bool;
  closed : bool;
  inShutdown : bool;
  doneChan : bool;
  shutting : shutdown_state;
  accepted : list message;
  handled : list message
}.

Definition start_conn (w : W) (r : reader) : sconn :=
  mk_sconn w r [] Starting [] true false false false NotCalled [] [].

Definition set_phase (p : phase) (x : sconn) : sconn :=
  mk_sconn (world x) (input x) (written x) p (tasks x) (active x) (closed x) (inShutdown x) (doneChan x)
    (shutting x) (accepted x) (handled x).
Definition set_tasks (ts : list (message * bool)) (acc han : list message) (x : sconn) : sconn :=
  mk_sconn (world x) (input x) (written x) (at_ x) ts (active x) (closed x) (inShutdown x) (doneChan x)
    (shutting x) acc han.
Definition set_world (w : W) (x : sconn) : sconn :=
  mk_sconn w (input x) (written x) (at_ x) (tasks x) (active x) (closed x) (inShutdown x) (doneChan x)
    (shutting x) (accepted x) (handled x).
Definition set_io (w : W) (r : reader) (fs : list (list byte)) (x : sconn) : sconn :=
  mk_sconn w r (if closed x then written x else written x ++ fs) (at_ x) (tasks x) (active x) (closed x)
    (inShutdown x) (doneChan x) (shutting x) (accepted x) (handled x).
Definition set_conn (act clo : bool) (x : sconn) : sconn :=
  mk_sconn (world x) (input x) (written x) (at_ x) (tasks x) act clo (inShutdown x) (doneChan x)
    (shutting x) (accepted x) (handled x).
Definition set_server (ish don : bool) (sh : shutdown_state) (x : sconn) : sconn :=
  mk_sconn (world x) (input x) (written x) (at_ x) (tasks x) (active x) (closed x) ish don
    sh (accepted x) (handled x).

(** [handlerMsgNum]. *)
Definition handlerMsgNum (x : sconn) : nat := length (filter (fun t => t.2 = true) (tasks x)).

(** The reading of a request: a panic is recovered by the deferred function,
    which ends the loop.  There is no next state when a plugin or a compressor
    ends the process or never returns. *)
Definition serveConn_read (m0 : message) (x : sconn) : option sconn :=
  let '((w, r, fs), res) := readRequest m0 (world x, input x, []) in
  let x := set_io w r fs x in
  match res with
  | Ok (req, err) => Some (set_phase (Deciding req err) x)
  | Panic => Some (set_phase Returning x)
  | Err _ | Fatal | Blocked => None
  end.

(** What the loop does with it. *)
Definition serveConn_decide (c : message) (req : option message) (err : option error) (x : sconn) : option sconn :=
  let '((w, r, fs), res) := decide_request c req err (world x, input x, []) in
  let x := set_io w r fs x in
  match res with
  | Ok Continue => Some (set_phase Checking x)
  | Ok (Spawn req) =>
      Some (set_phase Checking (set_tasks (tasks x ++ [(req, false)]) (accepted x ++ [req]) (handled x) x))
  | Ok Return | Panic => Some (set_phase Returning x)
  | Err _ | Fatal | Blocked => None
  end.

(** [closeConn]: [deleteActiveConn], then the rest. *)
Definition deleteActiveConn (x : sconn) : sconn := set_conn false (closed x) x.
Definition closeConn_rest (x : sconn) : sconn :=
  set_conn (active x) true (set_world (DoPostConnClose conn (Plugins s) (world x)).1 x).

(** A step of [serveConn]; none when it is done, or waits for [doneChan]. *)
Definition serveConn_step (m0 c : message) (x : sconn) : option sconn :=
  match at_ x with
  | Starting => Some (set_phase (if inShutdown x then Closing else Checking) x)
  | Checking => Some (set_phase (if inShutdown x then Returning else Reading) x)
  | Reading => serveConn_read m0 x
  | Deciding req err => serveConn_decide c req err x
  | Returning => Some (set_phase (if inShutdown x then AwaitingDone else Closing) x)
  | AwaitingDone => if doneChan x then Some (set_phase Closing x) else None
  | Closing => Some (set_phase Removed (deleteActiveConn x))
  | Removed => Some (set_phase Gone (closeConn_rest x))
  | Gone => None
  end.

(** The two steps of a turn, with nothing in between. *)
Definition serveConn_turn (m0 c : message) (x : sconn) : option sconn :=
  serveConn_step m0 c x ≫= serveConn_step m0 c.

(** The loop over [activeConn] in [Close] and at the end of [Shutdown]. *)
Definition close_active (x : sconn) : sconn :=
  if active x then set_conn false true (set_world (DoPostConnClose conn (Plugins s) (world x)).1 x) else x.

(** [Close]. *)
Definition Close (x : sconn) : sconn :=
  let x := close_active x in set_server (inShutdown x) true (shutting x) x.

(** [Shutdown] up to its wait: the compare-and-swap; then the plugins unregister
    the registered services, [names]. *)
Fixpoint unregister_all (names : list string) : prog W unit :=
  match names with
  | [] => mret tt
  | n :: names => _ ← DoUnregister n (Plugins s); unregister_all names
  end.

Definition Shutdown_begin (x : sconn) : sconn := set_server true (doneChan x) Begun x.

Definition Shutdown_stop (x : sconn) : sconn :=
  let names := (map_to_list (serviceMap (services s))).*1 in
  set_server (inShutdown x) (doneChan x) Waiting (set_world (unregister_all names (world x)).1 x).

(** [Shutdown] after its wait. *)
Definition Shutdown_end (expired : bool) (x : sconn) : sconn :=
  let x := close_active x in set_server (inShutdown x) true (Ended expired) x.

(** The connection may give no more than a part of the stream: it is closed, or
    [Shutdown] has called [CloseRead]. *)
Definition cut (n : nat) (e : error) (x : sconn) : sconn :=
  set_io (world x) (mk_reader (take n (rest (input x))) e) [] x.

Inductive sstep : sconn -> sconn -> Prop :=
| st_serve m0 c x x' : serveConn_step m0 c x = Some x' -> sstep x x'
| st_start i req x : tasks x !! i = Some (req, false) ->
    sstep x (set_tasks (<[i := (req, true)]> (tasks x)) (accepted x) (handled x) x)
| st_run i req c x w fs : tasks x !! i = Some (req, true) ->
    serve_request codecs zero cs get order s c req (world x) = (w, Ok fs) ->
    sstep x (set_tasks (delete i (tasks x)) (accepted x) (handled x ++ [req]) (set_io w (input x) fs x))
| st_cut n e x : closed x = true \/ shutting x = Waiting -> sstep x (cut n e x)
| st_close x : sstep x (Close x)
| st_shutdown x : inShutdown x = false -> sstep x (Shutdown_begin x)
| st_shutdown_stop x : shutting x = Begun -> sstep x (Shutdown_stop x)
| st_shutdown_end expired x : shutting x = Waiting -> (expired = false -> handlerMsgNum x = 0%nat) ->
    sstep x (Shutdown_end expired x).

Definition sreachable (w : W) (r : reader) (x : sconn) : Prop := rtc sstep (start_conn w r) x.

(** ** Invariant *)

(** A request that may be served: a heartbeat, or one [AuthFunc] let pass. *)
Definition authorised (req : message) : Prop :=
  IsHeartbeat (hdr req) = true \/ exists req0 w w', auth s req0 w = (w', Ok (req, None)).

Record sinv (x : sconn) : Prop := {
  si_auth : Forall authorised (accepted x);
  si_tasks : accepted x ≡ₚ (tasks x).*1 ++ handled x;
  si_closed : active x = false -> closed x = true \/ at_ x = Removed;
  si_done : doneChan x = true -> active x = false;
  si_gone : at_ x = Gone -> closed x = true;
  si_shutting : shutting x <> NotCalled -> inShutdown x = true;
  si_ended : forall e, shutting x = Ended e -> doneChan x = true
}.


(** The loop is past its test of [isShutdown]. *)
Definition in_hand (x : sconn) : nat := match at_ x with Reading | Deciding _ _ => 1 | _ => 0 end.

Lemma decide_spawn c req err l l' req' : decide_request c req err l = (l', Ok (Spawn req')) -> authorised req'.
Proof.
  unfold decide_request, mbind, prog_bind. destruct err as [e|], req as [r|]; try done.
  - destruct e; try done. destruct (inline_ _ l) as [? [| | | |]]; done.
  - by destruct e.
  - destruct (IsHeartbeat (hdr r)) eqn:Hh; [intros [= _ <-]; by left|].
    unfold world_. destruct l as [[w r'] out].
    destruct (auth s r w) as [w1 [[r1 [e|]]| | | |]] eqn:Ha; try done.
    + destruct (inline_ _ _) as [? [| | | |]]; done.
    + intros [= _ <-]. right. by exists r, w, w1.
Qed.

Ltac step_view :=
  split_and!; try done; left; split_and!; try done; first [left; lia | by right].

(** What a step of [serveConn] does to the requests, the server and the
    connection. *)
Lemma serveConn_step_view m0 c x x' : serveConn_step m0 c x = Some x' ->
  inShutdown x' = inShutdown x /\ doneChan x' = doneChan x /\ shutting x' = shutting x /\ handled x' = handled x /\
  (closed x = true -> closed x' = true /\ written x' = written x) /\
  ((tasks x' = tasks x /\ accepted x' = accepted x /\
    (in_hand x' <= in_hand x \/ at_ x = Checking /\ inShutdown x = false)%nat) \/
   exists req, authorised req /\ tasks x' = tasks x ++ [(req, false)] /\ accepted x' = accepted x ++ [req] /\
     in_hand x = 1%nat /\ in_hand x' = 0%nat) /\
  match at_ x with
  | Closing => active x' = false /\ at_ x' = Removed
  | Removed => active x' = active x /\ closed x' = true /\ at_ x' = Gone
  | _ => active x' = active x /\ closed x' = closed x /\ at_ x' <> Gone
  end.
Proof.
  unfold serveConn_step, in_hand. destruct (at_ x) as [| | |req err| | | | |] eqn:Hp.
  - intros [= <-]. destruct (inShutdown x) eqn:Hs; cbn; step_view.
  - intros [= <-]. destruct (inShutdown x) eqn:Hs; cbn; step_view.
  - unfold serveConn_read. destruct (readRequest _ _) as [[[w r] fs] [[req err]| | | |]]; intros [= <-]; cbn;
      destruct (closed x); step_view.
  - unfold serveConn_decide. destruct (decide_request _ _ _ _) as [[[w r] fs] res] eqn:Hd.
    destruct res as [[|req'|]| | | |]; intros [= <-]; cbn; try (destruct (closed x); step_view).
    apply decide_spawn in Hd. destruct (closed x); split_and!; try done; right; by exists req'.
  - intros [= <-]. destruct (inShutdown x) eqn:Hs; cbn; step_view.
  - destruct (doneChan x) eqn:Hd; intros [= <-]. cbn. step_view.
  - intros [= <-]. cbn. step_view.
  - intros [= <-]. cbn. step_view.
  - done.
Qed.

(** A turn that nothing interrupts is [turn]. *)
Lemma readRequest_out m0 w r out l res : readRequest m0 (w, r, out) = (l, res) -> l.2 = out.
Proof.
  unfold readRequest, world_, decode_request, mbind, prog_bind.
  destruct (DoPreReadRequest (Plugins s) w) as [w1 [[e|]| | | |]]; try by intros [= <- _].
  destruct (Decode cs max (r, m0)) as [[r1 m] d].
  destruct d as [[]|e| | |]; cbn; try by intros [= <- _].
  - destruct (DoPostReadRequest None (Plugins s) m w1) as [w2 [[m2 e2]| | | |]]; by intros [= <- _].
  - destruct e; try by intros [= <- _].
    all: destruct (DoPostReadRequest _ (Plugins s) m w1) as [w2 [[m2 e2]| | | |]]; by intros [= <- _].
Qed.

Definition after_turn (x : sconn) (y : lstate * result turn_result) : option sconn :=
  let '((w, r, fs), res) := y in
  let x := set_io w r fs x in
  match res with
  | Ok Continue => Some (set_phase Checking x)
  | Ok (Spawn req) =>
      Some (set_phase Checking (set_tasks (tasks x ++ [(req, false)]) (accepted x ++ [req]) (handled x) x))
  | Ok Return => Some (set_phase Returning x)
  | _ => None
  end.

Lemma serveConn_turn_eq m0 c x y a :
  at_ x = Reading -> turn m0 c (world x, input x, []) = (y, Ok a) -> serveConn_turn m0 c x = after_turn x (y, Ok a).
Proof.
  intros Hp. unfold serveConn_turn, turn, serveConn_step at 2. rewrite Hp. unfold mbind at 1, prog_bind, serveConn_read.
  destruct (readRequest m0 (world x, input x, [])) as [[[w r] fs] res] eqn:Hr.
  apply readRequest_out in Hr as E. cbn in E. subst fs. destruct res as [[req err]| | | |]; try done.
  intros Hd. cbn. unfold serveConn_step, serveConn_decide. cbn. rewrite Hd. destruct y as [[w' r'] fs].
  unfold set_io. cbn. rewrite app_nil_r. destruct (closed x), a; done.
Qed.

Lemma delete_tasks (ts : list (message * bool)) i t acc han :
  ts !! i = Some t -> acc ≡ₚ ts.*1 ++ han -> acc ≡ₚ (delete i ts).*1 ++ (han ++ [t.1]).
Proof.
  intros Hi ->. rewrite (delete_Permutation ts i t Hi) at 1. cbn. rewrite (assoc_L (++)).
  apply Permutation_cons_append.
Qed.

Lemma close_active_closed x : (active x = false -> closed x = true \/ at_ x = Removed) ->
  (closed (close_active x) = true \/ at_ x = Removed) /\ active (close_active x) = false /\
  (closed x = true -> closed (close_active x) = true).
Proof. unfold close_active. destruct (active x) eqn:E; cbn; naive_solver. Qed.

Lemma close_active_same x :
  accepted (close_active x) = accepted x /\ tasks (close_active x) = tasks x /\ handled (close_active x) = handled x /\
  at_ (close_active x) = at_ x /\ inShutdown (close_active x) = inShutdown x /\ shutting (close_active x) = shutting x /\
  doneChan (close_active x) = doneChan x /\ written (close_active x) = written x.
Proof. unfold close_active. by destruct (active x). Qed.

Lemma sinv_serve m0 c x x' : serveConn_step m0 c x = Some x' -> sinv x -> sinv x'.
Proof.
  intros Hst [Ha Ht Hc Hd Hg Hs He].
  destruct (serveConn_step_view _ _ _ _ Hst) as (E1 & E2 & E3 & E4 & _ & Htask & Hphase).
  assert (Hat : active x' = false -> closed x' = true \/ at_ x' = Removed).
  { intros H. destruct (at_ x) eqn:Hp; destruct Hphase as (P1 & P2); try (by right); try (left; apply P2);
      destruct P2 as [P2 _]; rewrite P1 in H; rewrite P2; left; by destruct (Hc H). }
  assert (Hact : active x = false -> active x' = false)
    by (destruct (at_ x); destruct Hphase as (P1 & _); congruence).
  assert (Hgo : at_ x' = Gone -> closed x' = true).
  { intros H. destruct (at_ x); destruct Hphase as (_ & P); rewrite H in P; by destruct_and?. }
  destruct Htask as [(Et & Eacc & _)|(req & Hr & Et & Eacc & _)].
  - split; rewrite ?E1, ?E2, ?E3, ?E4, ?Et, ?Eacc; auto.
  - split; rewrite ?E1, ?E2, ?E3, ?E4, ?Et, ?Eacc; auto.
    + apply Forall_app. split; [done|]. by constructor.
    + rewrite fmap_app, Ht. cbn. rewrite <- !app_assoc. f_equiv. symmetry. apply Permutation_cons_append.
Qed.

Lemma sinv_close_active sh x :
  (sh = shutting x \/ inShutdown x = true) -> sinv x -> sinv (set_server (inShutdown x) true sh (close_active x)).
Proof.
  intros Hsh Hinv. destruct (close_active_same x) as (E1 & E2 & E3 & E4 & E5 & E6 & E7 & _).
  destruct (close_active_closed x (si_closed _ Hinv)) as (Ec & Ea & Ek). destruct Hinv as [Ha Ht Hc Hd Hg Hs He].
  split; cbn; rewrite ?E1, ?E2, ?E3, ?E4, ?Ea; auto.
  intros Hn. destruct Hsh as [->|?]; auto.
Qed.

Lemma sstep_inv x x' : sstep x x' -> sinv x -> sinv x'.
Proof.
  intros Hst Hinv.
  destruct Hst as [m0 c x x' Hx'|i req x Hi|i req c x w fs Hi Hr|n e x Hc|x|x Hs|x Hs|ex x Hs Hn].
  - by eapply sinv_serve.
  - destruct Hinv as [Ha Ht Hc Hd Hg Hs He]. split; cbn; try done.
    rewrite list_fmap_insert. cbn. rewrite list_insert_id; [done|]. by rewrite list_lookup_fmap, Hi.
  - destruct Hinv as [Ha Ht Hc Hd Hg Hs He]. split; cbn; try done. by apply (delete_tasks _ _ (req, true)).
  - by destruct Hinv.
  - unfold Close. destruct (close_active_same x) as (_ & _ & _ & _ & E5 & E6 & _). rewrite E5, E6.
    apply sinv_close_active; [by left|done].
  - destruct Hinv as [Ha Ht Hc Hd Hg Hs' He]. by split.
  - destruct Hinv as [Ha Ht Hc Hd Hg Hs' He]. split; cbn; try done. intros _. apply Hs'. by rewrite Hs.
  - unfold Shutdown_end. destruct (close_active_same x) as (_ & _ & _ & _ & E5 & _). rewrite E5.
    apply sinv_close_active; [right; apply (si_shutting _ Hinv); by rewrite Hs|done].
Qed.

Lemma sreachable_inv w r x : sreachable w r x -> sinv x.
Proof.
  intros Hr. assert (H0 : sinv (start_conn w r)) by by split.
  induction Hr as [|x y z Hst _ IH]; [done|]. apply IH. by eapply sstep_inv.
Qed.

(** A closed connection stays closed and takes nothing more. *)
Lemma sstep_closed x x' : sstep x x' -> closed x = true -> closed x' = true /\ written x' = written x.
Proof.
  intros Hst Hc. destruct Hst as [m0 c x x' Hx'|i req x Hi|i req c x w fs Hi Hr|n e x Hn|x|x Hs|x Hs|ex x Hs Hn];
    cbn; rewrite ?Hc; try done.
  - apply serveConn_step_view in Hx' as (_ & _ & _ & _ & H & _). by apply H.
  - unfold close_active. by destruct (active x).
  - unfold close_active. by destruct (active x).
Qed.

Lemma rtc_closed x x' : rtc sstep x x' -> closed x = true -> closed x' = true /\ written x' = written x.
Proof.
  induction 1 as [|x y z Hst _ IH]; [done|]. intros Hc.
  destruct (sstep_closed _ _ Hst Hc) as [Hc' <-]. by apply IH.
Qed.













(** ** Properties *)

(** C11: what becomes of requests, whatever the interleaving of the loop, the
    goroutines, [Shutdown] and [Close]: the only requests ever given to a
    goroutine are heartbeats and those [AuthFunc] let pass, and each of them is
    either still with its goroutine or was handled, once; none is lost or
    handled twice. *)
Theorem requests_accounted w r x :
  sreachable w r x ->
  Forall authorised (accepted x) /\ accepted x ≡ₚ (tasks x).*1 ++ handled x.
Proof. intros Hr. apply sreachable_inv in Hr as []. done. Qed.


(** [Shutdown] does not wait for every request it has read: the goroutine
    counts itself in [handlerMsgNum], not the loop that starts it, so
    [Shutdown] can end, its context not expired, with an accepted request whose
    goroutine has not begun, and that request never gets an answer. *)
Theorem shutdown_drops_request w r m0 c w1 r1 req :
  turn m0 c (w, r, []) = ((w1, r1, []), Ok (Spawn req)) ->
  exists x, sreachable w r x /\ shutting x = Ended false /\ accepted x = [req] /\ tasks x = [(req, false)] /\
    forall x', rtc sstep x x' -> written x' = [].
Proof.
  intros Hturn. pose proof (serveConn_turn_eq m0 c (set_phase Reading (start_conn w r)) _ _ eq_refl Hturn) as E1.
  apply bind_Some in E1 as (x1 & E1 & E2).
  eexists. split.
  { eapply rtc_l; [by apply (st_serve m0 c (start_conn w r))|].
    eapply rtc_l; [by eapply (st_serve m0 c)|].
    eapply rtc_l; [by eapply st_serve|]. eapply rtc_l; [by eapply st_serve|].
    eapply rtc_l; [by apply st_shutdown|]. eapply rtc_l; [by apply st_shutdown_stop|].
    apply rtc_once. by apply (st_shutdown_end false). }
  split_and!; try done. intros x' Hx'. by apply (rtc_closed _ _ Hx').
Qed.
End conn.

(** ** Witnesses: a server without services, a stream with one heartbeat *)
Definition idle_server : config unit unit := mk_config (mk_registry ∅ ∅) ∅ [] None.
Definition beat : message := mk_message (SetHeartbeat true newHeader) "" "" None [] (mk_slice [] 0).
Definition beat_stream : reader :=
  mk_reader (match Encode raw_compressors dirty_get [] beat with Ok bs => bs | _ => [] end) EOF.
Definition beat_turn : lstate * result turn_result :=
  turn raw_compressors dirty_get map_to_list 0 idle_server NewMessage NewMessage (tt, beat_stream, []).
Definition beat_read : message :=
  match beat_turn with (_, Ok (Spawn req)) => req | _ => NewMessage end.

Lemma beat_turn_eq : beat_turn = ((tt, mk_reader [] EOF, []), Ok (Spawn beat_read)).
Proof. vm_compute. reflexivity. Qed.

Notation idle_step := (sstep (fun _ => None) (fun _ : gtype => tt) raw_compressors dirty_get map_to_list 0 1 idle_server).
Definition idle_reachable : sconn (W := unit) -> Prop :=
  sreachable (fun _ => None) (fun _ => tt) raw_compressors dirty_get map_to_list 0 1 idle_server tt beat_stream.

(** The loop reads; and the state after that turn, of a server whose [Shutdown]
    may have begun meanwhile. *)
Definition idle_reading : sconn (W := unit) := set_phase Reading (start_conn tt beat_stream).
Definition idle_read (ish : bool) (sh : shutdown_state) : sconn (W := unit) :=
  mk_sconn tt (mk_reader [] EOF) [] Checking [(beat_read, false)] true false ish false sh [beat_read] [].

Lemma idle_reachable_reading : idle_reachable idle_reading.
Proof.
  eapply rtc_l; [by apply (st_serve _ _ _ _ _ _ _ _ NewMessage NewMessage)|]. apply rtc_once.
  by apply (st_serve _ _ _ _ _ _ _ _ NewMessage NewMessage).
Qed.

Lemma idle_turn x ish sh : x = set_server ish false sh idle_reading -> rtc idle_step x (idle_read ish sh).
Proof.
  intros ->. pose proof beat_turn_eq as H. unfold beat_turn in H.
  pose proof (serveConn_turn_eq raw_compressors dirty_get map_to_list 0 1 idle_server NewMessage NewMessage
    (set_server ish false sh idle_reading) _ _ eq_refl H) as E.
  apply bind_Some in E as (x1 & E1 & E2). eapply rtc_l; [by eapply st_serve|]. apply rtc_once. by eapply st_serve.
Qed.

Lemma requests_accounted_witness :
  Forall (authorised idle_server) [beat_read] /\ [beat_read] ≡ₚ [beat_read] ++ [].
Proof.
  apply (requests_accounted (fun _ => None) (fun _ => tt) raw_compressors dirty_get map_to_list 0 1 idle_server tt
    beat_stream (idle_read false NotCalled)).
  unfold sreachable. etrans; [apply idle_reachable_reading|]. by apply idle_turn.
Defined.


Lemma shutdown_drops_request_witness :
  exists x, idle_reachable x /\ shutting x = Ended false /\ accepted x = [beat_read] /\
    tasks x = [(beat_read, false)].
Proof.
  pose proof beat_turn_eq as H. unfold beat_turn in H.
  destruct (shutdown_drops_request (fun _ => None) (fun _ => tt) raw_compressors dirty_get map_to_list 0 1
    idle_server tt beat_stream NewMessage NewMessage tt (mk_reader [] EOF) beat_read H)
    as (x & H1 & H2 & H3 & H4 & _).
  exists x. split; [exact H1|]. split; [exact H2|]. split; [exact H3|exact H4].
Defined.
