(* ===== verification/Proto.v ===== *)
(** _testutils/arith_service.go: the arguments and the reply of the arithmetic
    service in the encoding of protocol buffers, as the generator writes it.

    It is the repository's own instance of what the protobuf codec calls
    ([proto.Marshaler] and [proto.Unmarshaler]).  A slice is a list, an index is
    an [int] that wraps, and an access outside of the slice panics. *)
From S2P Require Import Prelude Go.
Open Scope go_scope.

Record ProtoArgs : Type := mk_ProtoArgs { A : Z; B : Z }.
Record ProtoReply : Type := mk_ProtoReply { C : Z }.

(** Of a pointer: nil is none. *)
Definition GetA (m : option ProtoArgs) : Z := match m with Some m => A m | None => 0 end.
Definition GetB (m : option ProtoArgs) : Z := match m with Some m => B m | None => 0 end.
Definition GetC (m : option ProtoReply) : Z := match m with Some m => C m | None => 0 end.

Definition ProtoArgs_Reset (m : ProtoArgs) : ProtoArgs := mk_ProtoArgs 0 0.
Definition ProtoReply_Reset (m : ProtoReply) : ProtoReply := mk_ProtoReply 0.

Definition ErrInvalidLength : error := ErrorString "proto: negative length found during unmarshaling".
Definition ErrIntOverflow : error := ErrorString "proto: integer overflow".

(** [d[i]] and [d[i] = b]. *)
Definition at_ (d : list byte) (i : Z) : result byte :=
  if i <? 0 then Panic else match d !! Z.to_nat i with Some b => Ok b | None => Panic end.

Definition put_at (i : Z) (b : byte) (d : list byte) : result (list byte) :=
  if (0 <=? i) && (i <? Z.of_nat (length d)) then Ok (<[Z.to_nat i := b]> d) else Panic.

(** ** Writing *)

(** The loop of [encodeVarintArithService]; ten turns write 64 bits. *)
Fixpoint encodeVarint_loop (n : nat) (d : list byte) (offset v : Z) : result (list byte * Z) :=
  if 2 ^ 7 <=? v then
    match n with
    | O => Blocked
    | S n =>
        d ← put_at offset (zb (Z.lor (Z.land v 127) 128)) d;
        encodeVarint_loop n d (offset + 1) (Z.shiftr v 7)
    end
  else d ← put_at offset (zb v) d; Ok (d, offset + 1).

Definition encodeVarint : list byte -> Z -> Z -> result (list byte * Z) := encodeVarint_loop 10.

(** [sovArithService], the bytes of a varint. *)
Fixpoint sov_loop (fuel : nat) (n x : Z) : option Z :=
  match fuel with
  | O => None
  | S fuel =>
      let n := n + 1 in
      let x := Z.shiftr x 7 in
      if x =? 0 then Some n else sov_loop fuel n x
  end.

Definition sov (x : Z) : Z := default 0 (sov_loop 10 0 x).

Definition soz (x : Z) : Z := sov (Z.lxor (u64 (Z.shiftl x 1)) (u64 (Z.shiftr (i64 x) 63))).

(** [encodeFixed32ArithService] and [encodeFixed64ArithService], which nothing
    calls: the bytes of the integer, the lowest first. *)
Fixpoint encodeFixed (n : nat) (d : list byte) (offset v : Z) : result (list byte * Z) :=
  match n with
  | O => Ok (d, offset)
  | S n => d ← put_at offset (zb v) d; encodeFixed n d (offset + 1) (Z.shiftr v 8)
  end.
Definition encodeFixed32 : list byte -> Z -> Z -> result (list byte * Z) := encodeFixed 4.
Definition encodeFixed64 : list byte -> Z -> Z -> result (list byte * Z) := encodeFixed 8.

(** A field that is not zero: its tag and its value, sign-extended. *)
Definition field_size (v : Z) : Z := if v =? 0 then 0 else 1 + sov (u64 v).

Definition ProtoArgs_Size (m : ProtoArgs) : Z := field_size (A m) + field_size (B m).
Definition ProtoReply_Size (m : ProtoReply) : Z := field_size (C m).

Definition put_field (tag : byte) (v : Z) (di : list byte * Z) : result (list byte * Z) :=
  let '(d, i) := di in
  if v =? 0 then Ok (d, i)
  else d ← put_at i tag d; encodeVarint d (i + 1) (u64 v).

Definition ProtoArgs_MarshalTo (m : ProtoArgs) (d : list byte) : result (list byte * Z) :=
  di ← put_field x08 (A m) (d, 0); put_field x10 (B m) di.
Definition ProtoReply_MarshalTo (m : ProtoReply) (d : list byte) : result (list byte * Z) :=
  put_field x08 (C m) (d, 0).

(** [Marshal]: a buffer of the size, filled, up to the bytes written. *)
Definition marshal (size : Z) (to : list byte -> result (list byte * Z)) : result (list byte) :=
  '(d, n) ← to (replicate (Z.to_nat size) x00);
  if (0 <=? n) && (n <=? Z.of_nat (length d)) then Ok (take (Z.to_nat n) d) else Panic.

Definition ProtoArgs_Marshal (m : ProtoArgs) : result (list byte) := marshal (ProtoArgs_Size m) (ProtoArgs_MarshalTo m).
Definition ProtoReply_Marshal (m : ProtoReply) : result (list byte) := marshal (ProtoReply_Size m) (ProtoReply_MarshalTo m).

(** ** Reading *)

(** The loop over the bytes of a varint from [i]: the variable it collects them
    in, and the index behind or the error.  [wrap] is the width of the variable,
    [n] the turns until [shift >= 64]. *)
Fixpoint read_varint (wrap : Z -> Z) (n : nat) (d : list byte) (i shift acc : Z) : Z * result Z :=
  match n with
  | O => (acc, Err ErrIntOverflow)
  | S n =>
      if Z.of_nat (length d) <=? i then (acc, Err ErrUnexpectedEOF)
      else
        match at_ d i with
        | Ok b =>
            let acc := Z.lor acc (wrap (Z.shiftl (Z.land (bz b) 127) shift)) in
            if bz b <? 128 then (acc, Ok (i + 1)) else read_varint wrap n d (i + 1) (shift + 7) acc
        | _ => (acc, Panic)
        end
  end.

Definition collect (wrap : Z -> Z) (d : list byte) (i : Z) : Z * result Z := read_varint wrap 10 d i 0 0.

(** When only the value of a whole varint matters. *)
Definition varint (wrap : Z -> Z) (d : list byte) (i : Z) : result (Z * Z) :=
  let '(v, r) := collect wrap d i in i ← r; Ok (v, i).

(** The fields of a group from [i], up to its end; [skip] is the function itself,
    called on the rest of the bytes. *)
Fixpoint skip_group (skip : list byte -> result Z) (n : nat) (d : list byte) (i : Z) : result Z :=
  match n with
  | O => Blocked
  | S n =>
      let start := i in
      '(innerWire, i) ← varint u64 d i;
      if Z.land innerWire 7 =? 4 then Ok i
      else next ← skip (drop (Z.to_nat start) d); skip_group skip n d (i64 (start + next))
  end.

(** [skipArithService]: the index behind the field at the start of [d]; [fuel]
    bounds the nesting of groups and [length d] the fields of one. *)
Fixpoint skip (fuel : nat) (d : list byte) : result Z :=
  match fuel with
  | O => Blocked
  | S fuel =>
      if Z.of_nat (length d) <=? 0 then Panic
      else
        '(wire, i) ← varint u64 d 0;
        let wireType := Z.land wire 7 in
        if wireType =? 0 then '(_, i) ← varint id d i; Ok i
        else if wireType =? 1 then Ok (i64 (i + 8))
        else if wireType =? 2 then
          '(len, i) ← varint i64 d i;
          if len <? 0 then Err ErrInvalidLength else Ok (i64 (i + len))
        else if wireType =? 3 then skip_group (skip fuel) (S (length d)) d i
        else if wireType =? 4 then Ok i
        else if wireType =? 5 then Ok (i64 (i + 4))
        else Err (ErrorString ("proto: illegal wireType " +:+ pretty wireType))
  end.

(** The loop of [Unmarshal] over the fields; [set] stores a known field, or is
    none for another number. *)
Fixpoint unmarshal_loop {M} (name : string) (set : Z -> option (string * (Z -> M -> M))) (fuel : nat) (d : list byte)
    (i : Z) (m : M) : M * result unit :=
  let l := Z.of_nat (length d) in
  if i <? l then
    match fuel with
    | O => (m, Blocked)
    | S fuel =>
        let preIndex := i in
        match varint u64 d i with
        | Ok (wire, i) =>
            let fieldNum := i32 (Z.shiftr wire 3) in
            let wireType := Z.land wire 7 in
            if wireType =? 4 then (m, Err (ErrorString ("proto: " +:+ name +:+ ": wiretype end group for non-group")))
            else if fieldNum <=? 0 then
              (m, Err (ErrorString ("proto: " +:+ name +:+ ": illegal tag " +:+ pretty fieldNum +:+
                         " (wire type " +:+ pretty wire +:+ ")")))
            else
              match set fieldNum with
              | Some (field, store) =>
                  if wireType =? 0 then
                    let '(v, r) := collect i32 d i in
                    match r with
                    | Ok i => unmarshal_loop name set fuel d i (store v m)
                    | Err e => (store v m, Err e)
                    | Panic => (store v m, Panic) | Fatal => (m, Fatal) | Blocked => (m, Blocked)
                    end
                  else (m, Err (ErrorString ("proto: wrong wireType = " +:+ pretty wireType +:+ " for field " +:+ field)))
              | None =>
                  match skip (S (length d)) (drop (Z.to_nat preIndex) d) with
                  | Ok skippy =>
                      if skippy <? 0 then (m, Err ErrInvalidLength)
                      else
                        let i := i64 (preIndex + skippy) in
                        if l <? i then (m, Err ErrUnexpectedEOF) else unmarshal_loop name set fuel d i m
                  | Err e => (m, Err e)
                  | Panic => (m, Panic) | Fatal => (m, Fatal) | Blocked => (m, Blocked)
                  end
              end
        | Err e => (m, Err e)
        | Panic => (m, Panic) | Fatal => (m, Fatal) | Blocked => (m, Blocked)
        end
    end
  else (m, if l <? i then Err ErrUnexpectedEOF else Ok tt).

Definition args_field (n : Z) : option (string * (Z -> ProtoArgs -> ProtoArgs)) :=
  if n =? 1 then Some ("A", fun v m => mk_ProtoArgs v (B m))
  else if n =? 2 then Some ("B", fun v m => mk_ProtoArgs (A m) v)
  else None.

Definition reply_field (n : Z) : option (string * (Z -> ProtoReply -> ProtoReply)) :=
  if n =? 1 then Some ("C", fun v m => mk_ProtoReply v) else None.

Definition ProtoArgs_Unmarshal (d : list byte) (m : ProtoArgs) : ProtoArgs * result unit :=
  unmarshal_loop "ProtoArgs" args_field (S (length d)) d 0 m.
Definition ProtoReply_Unmarshal (d : list byte) (m : ProtoReply) : ProtoReply * result unit :=
  unmarshal_loop "ProtoReply" reply_field (S (length d)) d 0 m.

Example marshal_42 : ProtoArgs_Marshal (mk_ProtoArgs 300 (-1)) =
  Ok [x08; xac; x02; x10; xff; xff; xff; xff; xff; xff; xff; xff; xff; x01].
Proof. vm_compute. reflexivity. Qed.

Example unmarshal_42 :
  ProtoArgs_Unmarshal [x08; xac; x02; x10; xff; xff; xff; xff; xff; xff; xff; xff; xff; x01] (mk_ProtoArgs 0 7)
  = (mk_ProtoArgs 300 (-1), Ok tt).
Proof. vm_compute. reflexivity. Qed.

Example unmarshal_panics :
  (ProtoArgs_Unmarshal [x08; x01; x1a; xf5; xff; xff; xff; xff; xff; xff; xff; x7f] (mk_ProtoArgs 0 0)).2 = Panic.
Proof. vm_compute. reflexivity. Qed.
