(* ===== verification/ProtoFacts.v ===== *)
(** Theorems about Proto.v: what is marshalled unmarshals to the same values,
    the size is exact, and unmarshalling ends on every input, sometimes with a
    panic. *)
From S2P Require Import Prelude Go Proto.
Open Scope go_scope.

(** ** Integers collected seven bits at a time *)

(** A width whose wrap-around works bit by bit. *)
Class WrapBits (wrap : Z -> Z) : Prop := {
  wrap_zero : wrap 0 = 0;
  wrap_lor x y : 0 <= x -> 0 <= y -> wrap (Z.lor x y) = Z.lor (wrap x) (wrap y)
}.

#[export] Instance u64_bits : WrapBits u64.
Proof.
  split; [done|]. intros x y _ _. unfold u64, two64. rewrite <- !Z.land_ones by lia. apply Z.land_lor_distr_l.
Qed.

Lemma i32_range z : - 2 ^ 31 <= i32 z < 2 ^ 31.
Proof. unfold i32, two32. lia. Qed.

Lemma i32_mod z : i32 z mod 2 ^ 32 = z mod 2 ^ 32.
Proof. unfold i32, two32. lia. Qed.

Lemma lor_range k a b : 0 <= k -> - 2 ^ k <= a < 2 ^ k -> - 2 ^ k <= b < 2 ^ k -> - 2 ^ k <= Z.lor a b < 2 ^ k.
Proof.
  intros Hk Ha Hb. rewrite Z.bounded_iff_bits in Ha, Hb |- * by done. intros l Hl.
  rewrite Z.lor_spec, Ha, Hb by done. pose proof (Z.lor_neg a b) as Hn.
  repeat case_bool_decide; cbn; try done; tauto.
Qed.

Lemma lor_mod k a b : 0 <= k -> Z.lor a b mod 2 ^ k = Z.lor (a mod 2 ^ k) (b mod 2 ^ k).
Proof. intros Hk. rewrite <- !Z.land_ones by done. apply Z.land_lor_distr_l. Qed.

#[export] Instance i32_bits : WrapBits i32.
Proof.
  split; [done|]. intros x y _ _. pose proof (i32_range (Z.lor x y)).
  pose proof (lor_range 31 (i32 x) (i32 y) ltac:(lia) (i32_range x) (i32_range y)).
  assert (Hm : i32 (Z.lor x y) mod 2 ^ 32 = Z.lor (i32 x) (i32 y) mod 2 ^ 32).
  { rewrite i32_mod, !lor_mod, !i32_mod by lia. done. }
  lia.
Qed.

(** The seven bits of a byte and the rest. *)
Lemma seven_bits v : 0 <= v -> v = Z.lor (Z.land v 127) (Z.shiftl (Z.shiftr v 7) 7).
Proof.
  intros Hv. change 127 with (Z.ones 7). apply Z.bits_inj'. intros n Hn.
  rewrite Z.lor_spec, Z.land_spec, Z.shiftl_spec by lia. destruct (decide (n < 7)).
  - rewrite Z.ones_spec_low, (Z.testbit_neg_r _ (n - 7)), andb_true_r, orb_false_r by lia. done.
  - rewrite Z.ones_spec_high, andb_false_r, Z.shiftr_spec by lia. cbn. f_equal. lia.
Qed.

(** ** Varints *)

(** The bytes of a varint. *)
Fixpoint uvarint (n : nat) (v : Z) : list byte :=
  if 2 ^ 7 <=? v then
    match n with
    | O => []
    | S n => zb (Z.lor (Z.land v 127) 128) :: uvarint n (Z.shiftr v 7)
    end
  else [zb v].

Lemma shiftr7_bound v n : 0 <= v < 2 ^ (7 * Z.of_nat (S (S n))) -> 0 <= Z.shiftr v 7 < 2 ^ (7 * Z.of_nat (S n)).
Proof.
  intros Hv. rewrite Z.shiftr_div_pow2 by lia. split; [apply Z.div_pos; lia|].
  apply Z.div_lt_upper_bound; [lia|]. rewrite <- Z.pow_add_r by lia.
  replace (7 + 7 * Z.of_nat (S n)) with (7 * Z.of_nat (S (S n))) by lia. lia.
Qed.

Lemma land127_range v : 0 <= Z.land v 127 < 128.
Proof. change 127 with (Z.ones 7). rewrite Z.land_ones by lia. lia. Qed.

(** A byte with the continuation bit: its seven bits, and that more follow. *)
Lemma more_byte w : 0 <= w < 128 -> bz (zb (Z.lor w 128)) = w + 128 /\ Z.land (w + 128) 127 = w.
Proof.
  intros Hw. rewrite <- (Z.mod_small w 256), <- bz_zb by lia.
  assert (H : (bz (zb w) <? 128) = true) by (rewrite bz_zb; lia).
  revert H. generalize (zb w). clear w Hw. intros b.
  assert (Hb : implb (bz b <? 128) ((bz (zb (Z.lor (bz b) 128)) =? bz b + 128) && (Z.land (bz b + 128) 127 =? bz b)) = true).
  { revert b. apply byte_ind_compute. vm_compute. reflexivity. }
  intros H. rewrite H in Hb. cbn in Hb. lia.
Qed.

Lemma last_byte v : 0 <= v < 128 -> bz (zb v) = v /\ Z.land v 127 = v.
Proof.
  intros Hv. split; [rewrite bz_zb; apply Z.mod_small; lia|].
  change 127 with (Z.ones 7). rewrite Z.land_ones by lia. apply Z.mod_small. lia.
Qed.

Lemma at_app pre b post i : i = Z.of_nat (length pre) -> at_ (pre ++ b :: post) i = Ok b.
Proof.
  intros ->. unfold at_. rewrite (proj2 (Z.ltb_ge _ _)) by lia.
  by rewrite Nat2Z.id, list_lookup_middle.
Qed.

Section collect.
Context (wrap : Z -> Z) `{!WrapBits wrap}.

Lemma read_last k pre v post i shift acc : 0 <= v < 2 ^ 7 -> i = Z.of_nat (length pre) ->
  read_varint wrap (S k) (pre ++ [zb v] ++ post) i shift acc =
    (Z.lor acc (wrap (Z.shiftl v shift)), Ok (i + Z.of_nat (length [zb v]))).
Proof.
  intros Hv Hi. cbn [read_varint app]. rewrite length_app. cbn [length]. rewrite (proj2 (Z.leb_gt _ _)) by lia.
  rewrite (at_app _ _ _ _ Hi). destruct (last_byte v ltac:(lia)) as [-> ->].
  by rewrite (proj2 (Z.ltb_lt _ _)) by lia.
Qed.

(** Reading what [encodeVarint] writes collects the wrapped value. *)
Lemma read_uvarint n k pre v post i shift acc :
  0 <= v < 2 ^ (7 * Z.of_nat (S n)) -> (n < k)%nat -> i = Z.of_nat (length pre) -> 0 <= shift ->
  read_varint wrap k (pre ++ uvarint n v ++ post) i shift acc =
    (Z.lor acc (wrap (Z.shiftl v shift)), Ok (i + Z.of_nat (length (uvarint n v)))).
Proof.
  revert k pre v i shift acc. induction n as [|n IH]; intros k pre v i shift acc Hv Hk Hi Hs;
    (destruct k as [|k]; [lia|]); cbn [uvarint]; destruct (Z.leb_spec (2 ^ 7) v) as [Hge|Hlt].
  - cbn in Hv. lia.
  - apply read_last; [lia|done].
  - cbn [read_varint app]. rewrite length_app. cbn [length]. rewrite (proj2 (Z.leb_gt _ _)) by lia.
    rewrite (at_app _ _ _ _ Hi).
    destruct (more_byte (Z.land v 127) (land127_range v)) as [-> ->]. pose proof (land127_range v).
    rewrite (proj2 (Z.ltb_ge _ _)) by lia.
    rewrite cons_middle, app_assoc, (IH k _ (Z.shiftr v 7)); [|by apply shiftr7_bound|lia|rewrite length_app; cbn; lia|lia].
    f_equal; [|f_equal; lia]. rewrite <- Z.lor_assoc. f_equal.
    rewrite <- wrap_lor by (apply Z.shiftl_nonneg; first [lia|apply Z.shiftr_nonneg; lia]). f_equal.
    rewrite (seven_bits v) at 3 by lia. rewrite Z.shiftl_lor, Z.shiftl_shiftl by lia. do 2 f_equal. lia.
  - apply read_last; [lia|done].
Qed.

Lemma collect_uvarint pre v post i : 0 <= v < two64 -> i = Z.of_nat (length pre) ->
  collect wrap (pre ++ uvarint 9 v ++ post) i = (wrap v, Ok (i + Z.of_nat (length (uvarint 9 v)))).
Proof.
  intros Hv Hi. unfold collect. rewrite (read_uvarint 9); [|unfold two64 in Hv; cbn; lia|lia|done|lia].
  by rewrite Z.lor_0_l, Z.shiftl_0_r.
Qed.
End collect.

(** Writing into the space for it. *)
Lemma put_at_app pre old b post i : i = Z.of_nat (length pre) ->
  put_at i b (pre ++ old :: post) = Ok (pre ++ b :: post).
Proof.
  intros ->. unfold put_at. rewrite length_app. cbn [length].
  rewrite (proj2 (Z.leb_le _ _)), (proj2 (Z.ltb_lt _ _)) by lia. cbn.
  rewrite Nat2Z.id, insert_app_r_alt, Nat.sub_diag by lia. done.
Qed.

Lemma encodeVarint_app n k pre old post v i :
  0 <= v < 2 ^ (7 * Z.of_nat (S n)) -> (n <= k)%nat -> i = Z.of_nat (length pre) ->
  length old = length (uvarint n v) ->
  encodeVarint_loop k (pre ++ old ++ post) i v =
    Ok (pre ++ uvarint n v ++ post, i + Z.of_nat (length (uvarint n v))).
Proof.
  revert k pre old v i. induction n as [|n IH]; intros k pre old v i Hv Hk Hi Hold; cbn [uvarint] in *;
    destruct (Z.leb_spec (2 ^ 7) v) as [Hge|Hlt].
  - cbn in Hv. lia.
  - destruct old as [|o [|]]; try done. destruct k; cbn [encodeVarint_loop]; rewrite (proj2 (Z.leb_gt _ _)) by lia;
      cbn [app]; by rewrite (put_at_app _ _ _ _ _ Hi).
  - destruct old as [|o old]; [done|]. destruct k as [|k]; [lia|]. cbn [encodeVarint_loop].
    rewrite (proj2 (Z.leb_le _ _)) by lia. cbn [app]. rewrite (put_at_app _ _ _ _ _ Hi). cbn [mbind result_bind].
    rewrite cons_middle, app_assoc, (IH k _ old (Z.shiftr v 7));
      [|by apply shiftr7_bound|lia|rewrite length_app; cbn; lia|cbn in Hold; lia].
    rewrite <- !app_assoc. cbn [app length]. do 2 f_equal. lia.
  - destruct old as [|o [|]]; try done. destruct k; cbn [encodeVarint_loop]; rewrite (proj2 (Z.leb_gt _ _)) by lia;
      cbn [app]; by rewrite (put_at_app _ _ _ _ _ Hi).
Qed.

Lemma sov_uvarint v : 0 <= v < two64 -> sov v = Z.of_nat (length (uvarint 9 v)).
Proof.
  assert (H : forall n f k x, 0 <= x < 2 ^ (7 * Z.of_nat (S n)) -> (n < f)%nat ->
    sov_loop f k x = Some (k + Z.of_nat (length (uvarint n x)))).
  { induction n as [|n IH]; intros f k x Hx Hf; (destruct f as [|f]; [lia|]); cbn [sov_loop uvarint].
    - cbn in Hx. rewrite (proj2 (Z.leb_gt _ _)) by lia. rewrite Z.shiftr_div_pow2 by lia.
      rewrite (proj2 (Z.eqb_eq _ _)) by lia. done.
    - destruct (Z.leb_spec (2 ^ 7) x) as [Hge|Hlt].
      + assert (1 <= Z.shiftr x 7) by (rewrite Z.shiftr_div_pow2 by lia; lia).
        rewrite (proj2 (Z.eqb_neq _ _)) by lia. rewrite (IH f (k + 1)); [|by apply shiftr7_bound|lia].
        cbn [length]. f_equal. lia.
      + rewrite Z.shiftr_div_pow2 by lia. rewrite (proj2 (Z.eqb_eq _ _)) by lia. done. }
  intros Hv. unfold sov. rewrite (H 9%nat); [done|unfold two64 in Hv; cbn; lia|lia].
Qed.

(** ** Fields *)
Definition int32 (v : Z) : Prop := - 2 ^ 31 <= v < 2 ^ 31.

Definition field_bytes (tag : byte) (v : Z) : list byte := if v =? 0 then [] else tag :: uvarint 9 (u64 v).

Lemma length_field_bytes tag v : Z.of_nat (length (field_bytes tag v)) = field_size v.
Proof.
  unfold field_bytes, field_size. destruct (v =? 0); [done|]. cbn [length].
  rewrite (sov_uvarint _ (u64_range v)). lia.
Qed.

Lemma u64_bound v : 0 <= u64 v < 2 ^ (7 * Z.of_nat 10).
Proof. pose proof (u64_range v). change (2 ^ (7 * Z.of_nat 10)) with (2 ^ 70). unfold two64 in *. lia. Qed.

Lemma put_field_app tag v pre old post i :
  i = Z.of_nat (length pre) -> length old = length (field_bytes tag v) ->
  put_field tag v (pre ++ old ++ post, i) = Ok (pre ++ field_bytes tag v ++ post, i + field_size v).
Proof.
  intros Hi Hold. rewrite <- (length_field_bytes tag v). unfold put_field, field_bytes in *.
  destruct (v =? 0); [by destruct old; cbn; rewrite ?Z.add_0_r|].
  destruct old as [|o old]; [done|]. cbn [app]. rewrite (put_at_app _ _ _ _ _ Hi). cbn [mbind result_bind].
  unfold encodeVarint. rewrite cons_middle, app_assoc, (encodeVarint_app 9);
    [|apply u64_bound|lia|rewrite length_app; cbn [length]; lia|cbn [length] in Hold; lia].
  rewrite <- !app_assoc. cbn [app length]. do 2 f_equal. lia.
Qed.

Lemma replicate_split {T} (n m : Z) (x : T) : 0 <= n -> 0 <= m ->
  replicate (Z.to_nat (n + m)) x = replicate (Z.to_nat n) x ++ replicate (Z.to_nat m) x.
Proof. intros Hn Hm. by rewrite Z2Nat.inj_add, replicate_add by lia. Qed.

Lemma field_size_nonneg v : 0 <= field_size v.
Proof. rewrite <- (length_field_bytes x08). lia. Qed.

Lemma length_space tag v : length (replicate (Z.to_nat (field_size v)) x00) = length (field_bytes tag v).
Proof. rewrite length_replicate, <- (length_field_bytes tag v). lia. Qed.

Lemma marshal_all size to bs : size = Z.of_nat (length bs) ->
  to (replicate (Z.to_nat size) x00) = Ok (bs, size) -> marshal size to = Ok bs.
Proof.
  intros Hs Hto. unfold marshal. rewrite Hto. cbn. rewrite !(proj2 (Z.leb_le _ _)) by lia. cbn.
  by rewrite Hs, Nat2Z.id, firstn_all.
Qed.

Lemma ProtoArgs_Marshal_bytes m :
  ProtoArgs_Marshal m = Ok (field_bytes x08 (A m) ++ field_bytes x10 (B m)).
Proof.
  apply marshal_all; [by rewrite length_app, Nat2Z.inj_add, !length_field_bytes|].
  unfold ProtoArgs_MarshalTo, ProtoArgs_Size. rewrite replicate_split by apply field_size_nonneg.
  rewrite <- (app_nil_l (_ ++ _)), (put_field_app _ _ [] _ _ 0 eq_refl (length_space _ _)).
  cbn [mbind result_bind app]. rewrite <- (app_nil_r (replicate _ _)), put_field_app;
    [by rewrite app_nil_r|by rewrite length_field_bytes|apply length_space].
Qed.

Lemma ProtoReply_Marshal_bytes m : ProtoReply_Marshal m = Ok (field_bytes x08 (C m)).
Proof.
  apply marshal_all; [by rewrite length_field_bytes|]. unfold ProtoReply_MarshalTo, ProtoReply_Size.
  rewrite <- (app_nil_l (replicate _ _)), <- (app_nil_r (replicate _ _)), put_field_app;
    [by rewrite app_nil_r|done|apply length_space].
Qed.

Section fields.
Context {M : Type} (name : string) (set : Z -> option (string * (Z -> M -> M))).

(** A field that [put_field] wrote is read back and stored; one that was zero
    is not there. *)
Lemma unmarshal_field n tag field store fuel pre v post i (m : M) :
  uvarint 9 (8 * n) = [tag] -> 1 <= n < 16 -> set n = Some (field, store) -> int32 v ->
  i = Z.of_nat (length pre) -> (length (field_bytes tag v ++ post) < fuel)%nat ->
  exists fuel', (length post < fuel')%nat /\
    unmarshal_loop name set fuel (pre ++ field_bytes tag v ++ post) i m =
    unmarshal_loop name set fuel' (pre ++ field_bytes tag v ++ post) (i + field_size v) (if v =? 0 then m else store v m).
Proof.
  intros Htag Hn Hset Hv Hi Hfuel. rewrite <- (length_field_bytes tag v). unfold field_bytes in *.
  destruct (v =? 0) eqn:Ev; [exists fuel; split; [done|by rewrite Z.add_0_r]|].
  cbn [app length] in Hfuel. rewrite length_app in Hfuel.
  destruct fuel as [|fuel]; [lia|]. exists fuel. split; [lia|]. cbn [unmarshal_loop].
  rewrite (proj2 (Z.ltb_lt i _)) by (rewrite !length_app; cbn [length]; lia).
  assert (E1 : varint u64 (pre ++ (tag :: uvarint 9 (u64 v)) ++ post) i = Ok (8 * n, i + 1)).
  { unfold varint. change ((tag :: uvarint 9 (u64 v)) ++ post) with ([tag] ++ uvarint 9 (u64 v) ++ post). rewrite <- Htag.
    rewrite (collect_uvarint u64); [|unfold two64; lia|done]. rewrite Htag. cbn. by rewrite u64_small by (unfold two64; lia). }
  rewrite E1.
  assert (H1 : Z.shiftr (8 * n) 3 = n) by (rewrite Z.shiftr_div_pow2 by lia; lia).
  assert (H2 : Z.land (8 * n) 7 = 0) by (change 7 with (Z.ones 3); rewrite Z.land_ones by lia; lia).
  rewrite H1, H2, i32_small by lia. cbn [Z.eqb]. rewrite (proj2 (Z.leb_gt _ _)) by lia. rewrite Hset.
  replace (pre ++ (tag :: uvarint 9 (u64 v)) ++ post) with ((pre ++ [tag]) ++ uvarint 9 (u64 v) ++ post)
    by (by rewrite <- app_assoc).
  rewrite (collect_uvarint i32); [|apply u64_range|rewrite length_app; cbn [length]; lia].
  assert (Hw : i32 (u64 v) = v) by (unfold int32, i32, u64, two32, two64 in *; lia).
  rewrite Hw. f_equal. cbn [length]. lia.
Qed.

Lemma unmarshal_end fuel d (m : M) : unmarshal_loop name set fuel d (Z.of_nat (length d)) m = (m, Ok tt).
Proof. destruct fuel; cbn [unmarshal_loop]; by rewrite Z.ltb_irrefl. Qed.
End fields.

Lemma args_unmarshal a b old : int32 a -> int32 b ->
  ProtoArgs_Unmarshal (field_bytes x08 a ++ field_bytes x10 b) old =
    (mk_ProtoArgs (if a =? 0 then A old else a) (if b =? 0 then B old else b), Ok tt).
Proof.
  intros Ha Hb. unfold ProtoArgs_Unmarshal. set (bs := field_bytes x08 a ++ field_bytes x10 b).
  destruct (unmarshal_field "ProtoArgs" args_field 1 x08 "A" (fun v m => mk_ProtoArgs v (B m))
    (S (length bs)) [] a (field_bytes x10 b) 0 old) as (f1 & Hf1 & E1); try done; [unfold bs; lia|].
  rewrite app_nil_l in E1. fold bs in E1. rewrite E1.
  destruct (unmarshal_field "ProtoArgs" args_field 2 x10 "B" (fun v m => mk_ProtoArgs (A m) v)
    f1 (field_bytes x08 a) b [] (0 + field_size a) (if a =? 0 then old else mk_ProtoArgs a (B old))) as (f2 & _ & E2);
    try done; [by rewrite length_field_bytes|by rewrite app_nil_r|].
  rewrite app_nil_r in E2. fold bs in E2. rewrite E2.
  replace (0 + field_size a + field_size b) with (Z.of_nat (length bs))
    by (unfold bs; rewrite length_app, Nat2Z.inj_add, !length_field_bytes; lia).
  rewrite unmarshal_end. destruct old, (a =? 0), (b =? 0); done.
Qed.

Lemma reply_unmarshal c old : int32 c ->
  ProtoReply_Unmarshal (field_bytes x08 c) old = (mk_ProtoReply (if c =? 0 then C old else c), Ok tt).
Proof.
  intros Hc. unfold ProtoReply_Unmarshal.
  destruct (unmarshal_field "ProtoReply" reply_field 1 x08 "C" (fun v m => mk_ProtoReply v)
    (S (length (field_bytes x08 c))) [] c [] 0 old) as (f1 & _ & E1); try done; [rewrite app_nil_r; lia|].
  rewrite app_nil_r, app_nil_l in E1. rewrite E1. change (0 + field_size c) with (field_size c).
  rewrite <- (length_field_bytes x08), unmarshal_end. destruct old, (c =? 0); done.
Qed.

(** What is marshalled has exactly the size that was computed for it, and
    unmarshals, without an error or a panic, to the same field values; a field
    that is zero is not written, so an object that is filled a second time keeps
    its old value there. *)
Theorem proto_roundtrip m old r oldr : int32 (A m) -> int32 (B m) -> int32 (C r) ->
  (exists bs, ProtoArgs_Marshal m = Ok bs /\ Z.of_nat (length bs) = ProtoArgs_Size m /\
     ProtoArgs_Unmarshal bs old =
       (mk_ProtoArgs (if A m =? 0 then A old else A m) (if B m =? 0 then B old else B m), Ok tt)) /\
  (exists bs, ProtoReply_Marshal r = Ok bs /\ Z.of_nat (length bs) = ProtoReply_Size r /\
     ProtoReply_Unmarshal bs oldr = (mk_ProtoReply (if C r =? 0 then C oldr else C r), Ok tt)).
Proof.
  intros Ha Hb Hc. split; eexists.
  - split; [apply ProtoArgs_Marshal_bytes|]. rewrite length_app, Nat2Z.inj_add, !length_field_bytes.
    split; [done|]. apply args_unmarshal; done.
  - split; [apply ProtoReply_Marshal_bytes|]. rewrite length_field_bytes. split; [done|]. by apply reply_unmarshal.
Qed.

Lemma proto_roundtrip_witness :
  (exists bs, ProtoArgs_Marshal (mk_ProtoArgs (-6) 0) = Ok bs /\ Z.of_nat (length bs) = 11 /\
     ProtoArgs_Unmarshal bs (mk_ProtoArgs 1 7) = (mk_ProtoArgs (-6) 7, Ok tt)).
Proof.
  apply (proto_roundtrip (mk_ProtoArgs (-6) 0) (mk_ProtoArgs 1 7) (mk_ProtoReply 0) (mk_ProtoReply 0)); done.
Defined.

(** ** Unmarshalling ends *)

(** The index behind a varint, if it is one. *)
Lemma read_varint_next wrap n d i shift acc :
  match (read_varint wrap n d i shift acc).2 with
  | Ok j => 0 <= i < j /\ j <= Z.of_nat (length d)
  | Blocked | Fatal => False
  | _ => True
  end.
Proof.
  revert i shift acc. induction n as [|n IH]; intros i shift acc; [done|]. cbn [read_varint].
  destruct (Z.leb_spec (Z.of_nat (length d)) i) as [|Hi]; [done|].
  unfold at_. destruct (Z.ltb_spec i 0); [done|]. destruct (d !! _); [|done].
  destruct (_ <? 128); cbn; [lia|]. specialize (IH (i + 1)). specialize (IH (shift + 7)).
  match goal with |- context [read_varint wrap n d (i + 1) (shift + 7) ?a] => specialize (IH a) end.
  destruct (read_varint _ _ _ _ _ _).2; try done. lia.
Qed.

(** The case split of every use of [varint]. *)
Lemma varint_cases wrap d i :
  (exists v j, varint wrap d i = Ok (v, j) /\ 0 <= i < j /\ j <= Z.of_nat (length d)) \/
  (exists e, varint wrap d i = Err e) \/ varint wrap d i = Panic.
Proof.
  unfold varint, collect. pose proof (read_varint_next wrap 10 d i 0 0) as H.
  destruct (read_varint wrap 10 d i 0 0) as [v [j|e| | |]]; cbn in *; try done; eauto 7.
Qed.

Lemma varint_i64 d i v j : varint i64 d i = Ok (v, j) -> - 2 ^ 63 <= v < 2 ^ 63.
Proof.
  assert (H : forall n i shift acc, - 2 ^ 63 <= acc < 2 ^ 63 -> - 2 ^ 63 <= (read_varint i64 n d i shift acc).1 < 2 ^ 63).
  { clear. intros n. induction n as [|n IH]; intros i shift acc Ha; [done|]. cbn [read_varint].
    destruct (_ <=? i); [done|]. destruct (at_ d i); try done.
    match goal with |- context [Z.lor acc ?x] => assert (- 2 ^ 63 <= Z.lor acc x < 2 ^ 63)
      by (apply lor_range; [lia|done|apply i64_range]) end.
    destruct (_ <? 128); [done|]. by apply IH. }
  unfold varint, collect. specialize (H 10%nat i 0 0). destruct (read_varint _ _ _ _ _ _) as [v' []]; cbn; try done.
  intros [= <- <-]. apply H. lia.
Qed.

(** What [skip] gives: an index behind, or one that wrapped to far below zero. *)
Definition skipped (r : result Z) : Prop :=
  match r with
  | Ok s => 1 <= s < 2 ^ 63 \/ - 2 ^ 63 <= s <= - 2 ^ 62
  | Blocked | Fatal => False
  | _ => True
  end.

Definition small (d : list byte) : Prop := Z.of_nat (length d) < 2 ^ 61.

Lemma skipped_i64 i n d : small d -> 1 <= i <= Z.of_nat (length d) -> 0 <= n < 2 ^ 63 -> skipped (Ok (i64 (i + n))).
Proof. unfold small, skipped, i64, two63, two64. lia. Qed.

Lemma skip_group_returns (f : list byte -> result Z) d n i : small d ->
  (forall k, (1 <= k)%nat -> skipped (f (drop k d))) -> (Z.of_nat (length d) < Z.of_nat n + i \/ i < 0) -> (0 < n)%nat ->
  i <> 0 -> skipped (skip_group f n d i).
Proof.
  intros Hd Hf. revert i. induction n as [|n IH]; intros i Hi Hn H0; [lia|]. cbn [skip_group].
  destruct (varint_cases u64 d i) as [(v & j & -> & ? & ?)|[[e ->]| ->]]; cbn [mbind result_bind]; try done.
  destruct (_ =? 4); [unfold skipped; unfold small in Hd; lia|].
  specialize (Hf (Z.to_nat i) ltac:(lia)). destruct (f _) as [s| | | |]; cbn [mbind result_bind]; try done.
  cbn in Hf. unfold small in Hd. apply IH; unfold i64, two63, two64; lia.
Qed.

Lemma skip_returns fuel d : small d -> (length d < fuel)%nat -> skipped (skip fuel d).
Proof.
  revert d. induction fuel as [|fuel IH]; intros d Hd Hf; [lia|]. cbn [skip].
  destruct (_ <=? 0); [done|].
  destruct (varint_cases u64 d 0) as [(v & j & -> & ? & ?)|[[e ->]| ->]]; cbn [mbind result_bind]; try done.
  destruct (_ =? 0).
  { destruct (varint_cases id d j) as [(w & k & -> & ? & ?)|[[e ->]| ->]]; cbn [mbind result_bind]; try done.
    unfold skipped, small in *. lia. }
  destruct (_ =? 1); [apply (skipped_i64 j 8 d); [done|lia|lia]|].
  destruct (_ =? 2).
  { destruct (varint_cases i64 d j) as [(w & k & E & ? & ?)|[[e ->]| ->]]; cbn [mbind result_bind]; try done.
    rewrite E. cbn [mbind result_bind]. pose proof (varint_i64 _ _ _ _ E).
    destruct (Z.ltb_spec w 0); [done|]. apply (skipped_i64 k w d); [done|lia|lia]. }
  destruct (_ =? 3).
  { apply skip_group_returns; [done| |lia|lia|lia]. intros k Hk. unfold small in *.
    apply IH; rewrite ?length_drop; lia. }
  destruct (_ =? 4); [unfold skipped, small in *; lia|].
  destruct (_ =? 5); [apply (skipped_i64 j 4 d); [done|lia|lia]|done].
Qed.

Section ends.
Context {M : Type} (name : string) (set : Z -> option (string * (Z -> M -> M))).

Lemma unmarshal_loop_returns fuel d i (m : M) : small d ->
  (Z.of_nat (length d) < Z.of_nat fuel + i \/ i < 0) -> (0 < fuel)%nat ->
  (unmarshal_loop name set fuel d i m).2 <> Blocked.
Proof.
  intros Hd. revert i m. induction fuel as [|fuel IH]; intros i m Hi Hf; [lia|]. cbn [unmarshal_loop].
  destruct (Z.ltb_spec i (Z.of_nat (length d))) as [Hl|]; [|by destruct (_ <? i)].
  destruct (varint_cases u64 d i) as [(v & j & -> & ? & ?)|[[e ->]| ->]]; try done.
  destruct (_ =? 4); [done|]. destruct (_ <=? 0); [done|].
  destruct (set _) as [[field store]|].
  - destruct (_ =? 0); [|done].
    pose proof (read_varint_next i32 10 d j 0 0) as Hn. unfold collect.
    destruct (read_varint i32 10 d j 0 0) as [w [k|e| | |]]; cbn in Hn |- *; try done. apply IH; lia.
  - pose proof (skip_returns (S (length d)) (drop (Z.to_nat i) d)) as Hs. unfold small in *.
    rewrite length_drop in Hs. specialize (Hs ltac:(lia) ltac:(lia)).
    destruct (skip _ _) as [s| | | |]; cbn in *; try done.
    destruct (Z.ltb_spec s 0); [done|]. destruct (Z.ltb_spec (Z.of_nat (length d)) (i64 (i + s))); [done|].
    apply IH; unfold i64, two63, two64 in *; lia.
Qed.
End ends.

(** Unmarshalling returns on every input that fits in memory, with a
    result, an error or a panic: every turn of its loops consumes a byte or ends
    in an index that is negative, which the next access does not survive. *)
Theorem proto_unmarshal_returns d m r : small d ->
  (ProtoArgs_Unmarshal d m).2 <> Blocked /\ (ProtoReply_Unmarshal d r).2 <> Blocked.
Proof. intros Hd. split; apply unmarshal_loop_returns; try done; lia. Qed.

Lemma proto_unmarshal_returns_witness :
  (ProtoArgs_Unmarshal [x08; x01; x1a; xf5; xff; xff; xff; xff; xff; xff; xff; x7f] (mk_ProtoArgs 0 0)).2 <> Blocked.
Proof.
  apply (proto_unmarshal_returns [x08; x01; x1a; xf5; xff; xff; xff; xff; xff; xff; xff; x7f]
    (mk_ProtoArgs 0 0) (mk_ProtoReply 0)). reflexivity.
Defined.
