(* ===== verification/Thrift.v ===== *)
(** _testutils/thrift_arith_service.go: the arguments and the reply of the
    arithmetic service as the thrift compiler writes them, over the interface
    [thrift.TProtocol], which is outside of the repository.

    [TProtocol] are its operations; [TProtocolLaws] is what they promise: a
    protocol writes a sequence of tokens and reads back the tokens written. *)
From S2P Require Import Prelude Go.
Open Scope go_scope.

(** ** The protocol *)

(** [thrift.TType]. *)
Definition STOP : Z := 0.
Definition I32 : Z := 8.
Definition STRING : Z := 11.
Definition LIST : Z := 15.

(** The state [S] is the protocol with its transport.  A field that begins comes
    with its type and its number, also next to an error. *)
Class TProtocol (S : Type) : Type := {
  ReadStructBegin : prog S unit;
  ReadStructEnd : prog S unit;
  ReadFieldBegin : prog S (Z * Z * option error);
  ReadFieldEnd : prog S unit;
  ReadI32 : prog S Z;
  ReadString : prog S string;
  ReadListBegin : prog S (Z * Z);
  ReadListEnd : prog S unit;
  Skip : Z -> prog S unit;
  WriteStructBegin : string -> prog S unit;
  WriteStructEnd : prog S unit;
  WriteFieldBegin : string -> Z -> Z -> prog S unit;
  WriteFieldEnd : prog S unit;
  WriteFieldStop : prog S unit;
  WriteI32 : Z -> prog S unit;
  WriteString : string -> prog S unit;
  WriteListBegin : Z -> Z -> prog S unit;
  WriteListEnd : prog S unit;
  (** [thrift.PrependError], the same error with a longer text. *)
  PrependError : string -> error -> error
}.

(** What is on the wire: the value of a field is an [i32], a string, a list
    or of another type, in one token. *)
Inductive token : Type :=
| TStructBegin | TStructEnd
| TFieldBegin (type id : Z) | TFieldEnd | TFieldStop
| TI32 (v : Z) | TString (v : string) | TListBegin (type size : Z) | TListEnd | TOther (type : Z).

Definition type_of_value (t : token) : option Z :=
  match t with
  | TI32 _ => Some I32
  | TString _ => Some STRING
  | TOther ty => if bool_decide (ty ∈ [STOP; I32; STRING; LIST]) then None else Some ty
  | _ => None
  end.

(** [wrote s ts]: the tokens [ts] were written; [holds s ts]: they are left to
    be read. *)
Class TProtocolLaws (S : Type) `{TProtocol S} (wrote holds : S -> list token -> Prop) : Prop := {
  wrote_holds s ts : wrote s ts -> holds s ts;
  wrote_one ts t (op : prog S unit) s : wrote s ts ->
    (t = TStructBegin /\ (exists n, op = WriteStructBegin n) \/ t = TStructEnd /\ op = WriteStructEnd \/
     (exists n ty i, t = TFieldBegin ty i /\ op = WriteFieldBegin n ty i) \/ t = TFieldEnd /\ op = WriteFieldEnd \/
     t = TFieldStop /\ op = WriteFieldStop \/ (exists v, - 2 ^ 31 <= v < 2 ^ 31 /\ t = TI32 v /\ op = WriteI32 v) \/
     (exists v, t = TString v /\ op = WriteString v) \/
     (exists ty n, 0 <= n < 2 ^ 31 /\ t = TListBegin ty n /\ op = WriteListBegin ty n) \/ t = TListEnd /\ op = WriteListEnd) ->
    exists s', op s = (s', Ok tt) /\ wrote s' (ts ++ [t]);
  holds_struct s ts : holds s (TStructBegin :: ts) -> exists s', ReadStructBegin s = (s', Ok tt) /\ holds s' ts;
  holds_end s ts : holds s (TStructEnd :: ts) -> exists s', ReadStructEnd s = (s', Ok tt) /\ holds s' ts;
  holds_field s ty i ts : holds s (TFieldBegin ty i :: ts) ->
    exists s', ReadFieldBegin s = (s', Ok (ty, i, None)) /\ holds s' ts;
  holds_stop s ts : holds s (TFieldStop :: ts) -> exists s' i, ReadFieldBegin s = (s', Ok (STOP, i, None)) /\ holds s' ts;
  holds_field_end s ts : holds s (TFieldEnd :: ts) -> exists s', ReadFieldEnd s = (s', Ok tt) /\ holds s' ts;
  holds_i32 s v ts : holds s (TI32 v :: ts) -> exists s', ReadI32 s = (s', Ok v) /\ holds s' ts;
  holds_string s v ts : holds s (TString v :: ts) -> exists s', ReadString s = (s', Ok v) /\ holds s' ts;
  holds_list s ty n ts : holds s (TListBegin ty n :: ts) -> exists s', ReadListBegin s = (s', Ok (ty, n)) /\ holds s' ts;
  holds_list_end s ts : holds s (TListEnd :: ts) -> exists s', ReadListEnd s = (s', Ok tt) /\ holds s' ts;
  holds_skip s t ty ts : type_of_value t = Some ty -> holds s (t :: ts) -> exists s', Skip ty s = (s', Ok tt) /\ holds s' ts
}.

(** ** The generated code *)
Section thrift.
Context {S : Type} `{TProtocol S}.

Record ThriftArgs_ : Type := mk_ThriftArgs { tA : Z; tB : Z }.
Record ThriftReply : Type := mk_ThriftReply { tC : Z }.

Definition NewThriftArgs_ : ThriftArgs_ := mk_ThriftArgs 0 0.
Definition NewThriftReply : ThriftReply := mk_ThriftReply 0.
Definition thrift_GetA (p : ThriftArgs_) : Z := tA p.
Definition thrift_GetB (p : ThriftArgs_) : Z := tB p.
Definition thrift_GetC (p : ThriftReply) : Z := tC p.

(** [Equals] of two pointers: the same one, or two that are not nil and have
    equal fields. *)
Definition Args_Equals (same : bool) (p other : option ThriftArgs_) : bool :=
  if same then true
  else match p, other with
       | Some p, Some other => (tA p =? tA other) && (tB p =? tB other)
       | _, _ => false
       end.

Definition Reply_Equals (same : bool) (p other : option ThriftReply) : bool :=
  if same then true
  else match p, other with
       | Some p, Some other => tC p =? tC other
       | _, _ => false
       end.

(** [if err := op; err != nil { return PrependError(text, err) }]. *)
Definition told {T A} (text : string) (op : prog T A) : prog T A := fun s =>
  match op s with
  | (s, Err e) => (s, Err (PrependError text e))
  | r => r
  end.

(** An operation of the protocol while [T] is being read. *)
Definition proto {T A} (op : prog S A) : prog (S * T) A := fun '(s, v) =>
  let '(s, r) := op s in ((s, v), r).

(** The fields of a struct: [field i] is the type of field [i] and the method
    that reads it; [fuel] bounds the fields. *)
Fixpoint read_fields {T} (name : string) (field : Z -> option (Z * prog (S * T) unit)) (fuel : nat) : prog (S * T) unit :=
  match fuel with
  | O => lift Blocked
  | Datatypes.S fuel =>
      '(fieldTypeId, fieldId, err) ← proto ReadFieldBegin;
      match err with
      | Some e => fail (PrependError (name +:+ " field " +:+ pretty fieldId +:+ " read error: ") e)
      | None =>
          if fieldTypeId =? STOP then mret tt
          else
            match field fieldId with
            | Some (type, ReadField) => if fieldTypeId =? type then ReadField else proto (Skip fieldTypeId)
            | None => proto (Skip fieldTypeId)
            end;;
            proto ReadFieldEnd;;
            read_fields name field fuel
      end
  end.

Definition read_struct {T} (name : string) (field : Z -> option (Z * prog (S * T) unit)) (fuel : nat) : prog (S * T) unit :=
  told (name +:+ " read error: ") (proto ReadStructBegin);;
  read_fields name field fuel;;
  told (name +:+ " read struct end error: ") (proto ReadStructEnd).

(** [ReadField1] and its like: the value goes to one field of the struct. *)
Definition read_i32 {T} (number : string) (set : Z -> T -> T) : prog (S * T) unit :=
  v ← told ("error reading field " +:+ number +:+ ": ") (proto ReadI32);
  modify (fun '(s, t) => (s, set v t)).

Definition Args_ReadField1 : prog (S * ThriftArgs_) unit := read_i32 "1" (fun v p => mk_ThriftArgs v (tB p)).
Definition Args_ReadField2 : prog (S * ThriftArgs_) unit := read_i32 "2" (fun v p => mk_ThriftArgs (tA p) v).
Definition Reply_ReadField1 : prog (S * ThriftReply) unit := read_i32 "1" (fun v p => mk_ThriftReply v).

Definition args_fields (i : Z) : option (Z * prog (S * ThriftArgs_) unit) :=
  if i =? 1 then Some (I32, Args_ReadField1) else if i =? 2 then Some (I32, Args_ReadField2) else None.
Definition reply_fields (i : Z) : option (Z * prog (S * ThriftReply) unit) :=
  if i =? 1 then Some (I32, Reply_ReadField1) else None.

Definition ThriftArgs_Read : nat -> prog (S * ThriftArgs_) unit := read_struct "*testutils.ThriftArgs_" args_fields.
Definition ThriftReply_Read : nat -> prog (S * ThriftReply) unit := read_struct "*testutils.ThriftReply" reply_fields.

(** [writeField1] and its like. *)
Definition write_i32 (name field number : string) (id v : Z) : prog S unit :=
  told (name +:+ " write field begin error " +:+ number +:+ ":" +:+ field +:+ ": ") (WriteFieldBegin field I32 id);;
  told (name +:+ "." +:+ field +:+ " (" +:+ number +:+ ") field write error: ") (WriteI32 v);;
  told (name +:+ " write field end error " +:+ number +:+ ":" +:+ field +:+ ": ") WriteFieldEnd.

Definition Args_writeField1 (p : ThriftArgs_) : prog S unit := write_i32 "*testutils.ThriftArgs_" "a" "1" 1 (tA p).
Definition Args_writeField2 (p : ThriftArgs_) : prog S unit := write_i32 "*testutils.ThriftArgs_" "b" "2" 2 (tB p).
Definition Reply_writeField1 (p : ThriftReply) : prog S unit := write_i32 "*testutils.ThriftReply" "c" "1" 1 (tC p).

(** [Write] of a pointer: nil has no fields. *)
Definition write_struct (name type : string) (fields : prog S unit) : prog S unit :=
  told (type +:+ " write struct begin error: ") (WriteStructBegin name);;
  fields;;
  told "write field stop error: " WriteFieldStop;;
  told "write struct stop error: " WriteStructEnd.

Definition ThriftArgs_Write (p : option ThriftArgs_) : prog S unit :=
  write_struct "ThriftArgs" "*testutils.ThriftArgs_"
    match p with Some p => Args_writeField1 p;; Args_writeField2 p | None => mret tt end.

Definition ThriftReply_Write (p : option ThriftReply) : prog S unit :=
  write_struct "ThriftReply" "*testutils.ThriftReply"
    match p with Some p => Reply_writeField1 p | None => mret tt end.
End thrift.

(** ** Facts *)

(** A field on the wire. *)
Definition field_tokens (f : Z * token) : list token :=
  match type_of_value f.2 with Some ty => [TFieldBegin ty f.1; f.2; TFieldEnd] | None => [] end.

Definition struct_of (body : list token) : list token := TStructBegin :: body ++ [TFieldStop; TStructEnd].

Definition struct_tokens (fs : list (Z * token)) : list token := struct_of (concat (map field_tokens fs)).

(** What a field does to the struct that is read. *)
Definition args_after (p : ThriftArgs_) (f : Z * token) : ThriftArgs_ :=
  match f with
  | (1, TI32 v) => mk_ThriftArgs v (tB p)
  | (2, TI32 v) => mk_ThriftArgs (tA p) v
  | _ => p
  end.
Definition reply_after (p : ThriftReply) (f : Z * token) : ThriftReply :=
  match f with (1, TI32 v) => mk_ThriftReply v | _ => p end.

Lemma args_after_other p i t : i <> 1 -> i <> 2 -> args_after p (i, t) = p.
Proof. intros H1 H2. destruct i as [|[|[]|]|]; by destruct t. Qed.

Lemma reply_after_other p i t : i <> 1 -> reply_after p (i, t) = p.
Proof. intros H1. destruct i as [|[]|]; by destruct t. Qed.

Section facts.
Context {S : Type} `{TProtocol S} (wrote holds : S -> list token -> Prop) {Hlaws : TProtocolLaws S wrote holds}.

Lemma told_Ok {T A} text (op : prog T A) s s' a : op s = (s', Ok a) -> told text op s = (s', Ok a).
Proof. unfold told. by intros ->. Qed.

Lemma proto_Ok {T A} (op : prog S A) s s' (v : T) a : op s = (s', Ok a) -> proto op (s, v) = ((s', v), Ok a).
Proof. unfold proto. by intros ->. Qed.

(** One field and what is behind it: its reader takes it, or it is skipped. *)
Definition takes {T} (field : Z -> option (Z * prog (S * T) unit)) (after : T -> Z * token -> T) : Prop :=
  forall i t ty s v ts, type_of_value t = Some ty -> holds s (t :: ts) ->
    exists s', match field i with
               | Some (type, ReadField) => if ty =? type then ReadField else proto (Skip ty)
               | None => proto (Skip ty)
               end (s, v) = ((s', after v (i, t)), Ok tt) /\ holds s' ts.

Lemma takes_skip {T} t ty s (v : T) ts : type_of_value t = Some ty -> holds s (t :: ts) ->
  exists s', proto (Skip ty) (s, v) = ((s', v), Ok tt) /\ holds s' ts.
Proof. intros Ht Hs. destruct (holds_skip s t ty ts Ht Hs) as (s' & E & Hs'). exists s'. split; [by apply proto_Ok|done]. Qed.

Lemma read_i32_takes {T} number (set : Z -> T -> T) w s (v : T) ts : holds s (TI32 w :: ts) ->
  exists s', read_i32 number set (s, v) = ((s', set w v), Ok tt) /\ holds s' ts.
Proof.
  intros Hs. destruct (holds_i32 s w ts Hs) as (s' & E & Hs'). exists s'. split; [|done].
  unfold read_i32, mbind, prog_bind. by rewrite (told_Ok _ _ _ _ _ (proto_Ok _ _ _ v _ E)).
Qed.

Lemma type_I32 t : type_of_value t = Some I32 -> exists w, t = TI32 w.
Proof. destruct t as [| | | | |w|v| | |ty]; try done; [eauto|]. cbn. case_bool_decide as Hty; [done|]. intros [= ->]. set_solver. Qed.

(** A reader of numbers that other types pass by. *)
Lemma reads_i32 {T} number (set : Z -> T -> T) t ty s (v : T) ts : type_of_value t = Some ty -> holds s (t :: ts) ->
  exists s', (if ty =? I32 then read_i32 number set else proto (Skip ty)) (s, v) =
    ((s', match t with TI32 w => set w v | _ => v end), Ok tt) /\ holds s' ts.
Proof.
  intros Ht Hs. destruct (Z.eqb_spec ty I32) as [->|Hne].
  - destruct (type_I32 t Ht) as [w ->]. by apply read_i32_takes.
  - destruct (takes_skip t ty s v ts Ht Hs) as (s' & -> & Hs'). exists s'. split; [|done].
    destruct t; try done. by injection Ht as <-.
Qed.

Lemma args_takes : takes args_fields args_after.
Proof.
  intros i t ty s v ts Ht Hs. unfold args_fields.
  destruct (Z.eqb_spec i 1) as [->|H1]; [|destruct (Z.eqb_spec i 2) as [->|H2]].
  - destruct (reads_i32 "1" (fun w p => mk_ThriftArgs w (tB p)) t ty s v ts Ht Hs) as (s' & E & Hs'). by exists s'; destruct t.
  - destruct (reads_i32 "2" (fun w p => mk_ThriftArgs (tA p) w) t ty s v ts Ht Hs) as (s' & E & Hs'). by exists s'; destruct t.
  - destruct (takes_skip t ty s v ts Ht Hs) as (s' & E & Hs'). exists s'. split; [|done]. by rewrite E, args_after_other.
Qed.

Lemma reply_takes : takes reply_fields reply_after.
Proof.
  intros i t ty s v ts Ht Hs. unfold reply_fields. destruct (Z.eqb_spec i 1) as [->|H1].
  - destruct (reads_i32 "1" (fun w p => mk_ThriftReply w) t ty s v ts Ht Hs) as (s' & E & Hs'). by exists s'; destruct t.
  - destruct (takes_skip t ty s v ts Ht Hs) as (s' & E & Hs'). exists s'. split; [|done]. by rewrite E, reply_after_other.
Qed.

Lemma type_not_stop t ty : type_of_value t = Some ty -> ty <> STOP.
Proof.
  destruct t as [| | | | | | | | |type]; try done; cbn; [by intros [= <-]..|].
  case_bool_decide as Hty; [done|]. intros [= <-] ->. set_solver.
Qed.

(** One turn of the loop, over a field whose value is any tokens. *)
Lemma read_fields_turn {T} name field fuel s (v v' : T) ty i rest s' : ty <> STOP ->
  holds s (TFieldBegin ty i :: rest) ->
  (forall s1, holds s1 rest -> exists s2, match field i with
     | Some (type, ReadField) => if ty =? type then ReadField else proto (Skip ty)
     | None => proto (Skip ty)
     end (s1, v) = ((s2, v'), Ok tt) /\ holds s2 (TFieldEnd :: s')) ->
  exists s3, read_fields name field (Datatypes.S fuel) (s, v) = read_fields name field fuel (s3, v') /\ holds s3 s'.
Proof.
  intros Hty Hs Hv. destruct (holds_field _ _ _ _ Hs) as (s1 & E1 & H1). destruct (Hv s1 H1) as (s2 & E2 & H2).
  destruct (holds_field_end _ _ H2) as (s3 & E3 & H3). exists s3. split; [|done].
  cbn [read_fields]. unfold mbind, prog_bind. rewrite (proto_Ok _ _ _ v _ E1).
  rewrite (proj2 (Z.eqb_neq _ _)) by done. cbn beta iota. by rewrite E2, (proto_Ok _ _ _ _ _ E3).
Qed.

Lemma read_fields_stop {T} name field fuel s (v : T) ts : holds s (TFieldStop :: ts) ->
  exists s', read_fields name field (Datatypes.S fuel) (s, v) = ((s', v), Ok tt) /\ holds s' ts.
Proof.
  intros Hs. destruct (holds_stop s ts Hs) as (s1 & i & E & H1). exists s1. split; [|done].
  cbn [read_fields]. unfold mbind, prog_bind. by rewrite (proto_Ok _ _ _ v _ E).
Qed.

Lemma read_fields_tokens {T} name field after fs fuel s (v : T) ts : takes field after ->
  Forall (fun f => is_Some (type_of_value f.2)) fs -> (length fs < fuel)%nat ->
  holds s (concat (map field_tokens fs) ++ TFieldStop :: ts) ->
  exists s', read_fields name field fuel (s, v) = ((s', fold_left after fs v), Ok tt) /\ holds s' ts.
Proof.
  intros Htakes Hfs. revert fuel s v. induction Hfs as [|[i t] fs [ty Ht] _ IH]; intros fuel s v Hf Hs;
    (destruct fuel as [|fuel]; [cbn in Hf; lia|]).
  - by apply read_fields_stop.
  - cbn [map concat] in Hs. unfold field_tokens in Hs at 1. cbn [fst snd] in Hs, Ht. rewrite Ht in Hs. cbn [app] in Hs.
    edestruct (read_fields_turn name field fuel s v (after v (i, t)) ty i) as (s3 & -> & H3);
      [by apply (type_not_stop t)|exact Hs|intros s1 H1; by apply Htakes|].
    apply IH; [cbn in Hf; lia|done].
Qed.

(** A struct, from what its fields are read into. *)
Lemma read_struct_of {T} name (field : Z -> option (Z * prog (S * T) unit)) fuel s v v' body ts :
  (forall s1, holds s1 (body ++ TFieldStop :: TStructEnd :: ts) -> exists s2,
     read_fields name field fuel (s1, v) = ((s2, v'), Ok tt) /\ holds s2 (TStructEnd :: ts)) ->
  holds s (struct_of body ++ ts) ->
  exists s', read_struct name field fuel (s, v) = ((s', v'), Ok tt) /\ holds s' ts.
Proof.
  intros Hfields Hs. unfold struct_of in Hs. cbn [app] in Hs. rewrite <- app_assoc in Hs. cbn [app] in Hs.
  destruct (holds_struct _ _ Hs) as (s1 & E1 & H1). destruct (Hfields s1 H1) as (s2 & E2 & H2).
  destruct (holds_end _ _ H2) as (s3 & E3 & H3). exists s3. split; [|done].
  unfold read_struct, mbind, prog_bind. rewrite (told_Ok _ _ _ _ _ (proto_Ok _ _ _ v _ E1)), E2.
  by rewrite (told_Ok _ _ _ _ _ (proto_Ok _ _ _ _ _ E3)).
Qed.

Lemma read_struct_tokens {T} name field after fs fuel s (v : T) ts : takes field after ->
  Forall (fun f => is_Some (type_of_value f.2)) fs -> (length fs < fuel)%nat -> holds s (struct_tokens fs ++ ts) ->
  exists s', read_struct name field fuel (s, v) = ((s', fold_left after fs v), Ok tt) /\ holds s' ts.
Proof. intros Htakes Hfs Hf. apply read_struct_of. intros s1. by apply read_fields_tokens. Qed.

(** ** Writing *)
Definition writes (p : prog S unit) (out : list token) : Prop :=
  forall s ts, wrote s ts -> exists s', p s = (s', Ok tt) /\ wrote s' (ts ++ out).

Lemma writes_bind p q o1 o2 : writes p o1 -> writes q o2 -> writes (p;; q) (o1 ++ o2).
Proof.
  intros Hp Hq s ts Hs. destruct (Hp s ts Hs) as (s1 & E1 & H1). destruct (Hq s1 _ H1) as (s2 & E2 & H2).
  exists s2. unfold mbind, prog_bind. rewrite E1, E2. by rewrite app_assoc.
Qed.

Lemma writes_told text p o : writes p o -> writes (told text p) o.
Proof. intros Hp s ts Hs. destruct (Hp s ts Hs) as (s' & E & H'). exists s'. split; [by apply told_Ok|done]. Qed.

Lemma writes_i32 name field number i v : - 2 ^ 31 <= v < 2 ^ 31 ->
  writes (write_i32 name field number i v) (field_tokens (i, TI32 v)).
Proof.
  intros Hv. change (field_tokens (i, TI32 v)) with ([TFieldBegin I32 i] ++ [TI32 v] ++ [TFieldEnd]).
  unfold write_i32. repeat apply writes_bind; apply writes_told; intros s ts Hs; (eapply wrote_one; [done|]); eauto 12.
Qed.

Lemma writes_struct name type fields body : writes fields body ->
  writes (write_struct name type fields) (struct_of body).
Proof.
  intros Hf. change (struct_of body) with ([TStructBegin] ++ body ++ [TFieldStop] ++ [TStructEnd]).
  unfold write_struct. repeat (apply writes_bind; [first [exact Hf|apply writes_told; intros s ts Hs; (eapply wrote_one; [done|]); eauto 12]|]).
  apply writes_told. intros s ts Hs. eapply wrote_one; [done|]. eauto 12.
Qed.

(** The arguments and the reply that are written are read back, into any
    object, and a reader takes the fields it knows, the last of each, in any
    order, and passes by those it does not know or whose type is another. *)
Theorem thrift_roundtrip a r a0 r0 s :
  - 2 ^ 31 <= tA a < 2 ^ 31 -> - 2 ^ 31 <= tB a < 2 ^ 31 -> - 2 ^ 31 <= tC r < 2 ^ 31 -> wrote s [] ->
  (exists s1 s2, ThriftArgs_Write (Some a) s = (s1, Ok tt) /\ ThriftArgs_Read 3 (s1, a0) = ((s2, a), Ok tt)) /\
  (exists s1 s2, ThriftReply_Write (Some r) s = (s1, Ok tt) /\ ThriftReply_Read 2 (s1, r0) = ((s2, r), Ok tt)) /\
  (forall fs fuel s1 ts, Forall (fun f => is_Some (type_of_value f.2)) fs -> (length fs < fuel)%nat ->
     holds s1 (struct_tokens fs ++ ts) ->
     exists s2, ThriftArgs_Read fuel (s1, a0) = ((s2, fold_left args_after fs a0), Ok tt) /\ holds s2 ts).
Proof.
  intros Ha Hb Hc Hs.
  assert (Hfs : forall fs fuel s1 ts, Forall (fun f => is_Some (type_of_value f.2)) fs -> (length fs < fuel)%nat ->
     holds s1 (struct_tokens fs ++ ts) ->
     exists s2, ThriftArgs_Read fuel (s1, a0) = ((s2, fold_left args_after fs a0), Ok tt) /\ holds s2 ts).
  { intros fs fuel s1 ts. apply read_struct_tokens, args_takes. }
  split_and!; [| |done].
  - assert (Hw : writes (ThriftArgs_Write (Some a)) (struct_tokens [(1, TI32 (tA a)); (2, TI32 (tB a))])).
    { apply writes_struct. cbn [map concat]. rewrite app_nil_r. by apply writes_bind; apply writes_i32. }
    destruct (Hw s [] Hs) as (s1 & E1 & H1). apply wrote_holds in H1. rewrite app_nil_l, <- (app_nil_r (struct_tokens _)) in H1.
    destruct (Hfs [(1, TI32 (tA a)); (2, TI32 (tB a))] 3%nat s1 []) as (s2 & E2 & _); [by repeat constructor|cbn; lia|done|].
    exists s1, s2. split; [done|]. rewrite E2. by destruct a.
  - assert (Hw : writes (ThriftReply_Write (Some r)) (struct_tokens [(1, TI32 (tC r))])).
    { apply writes_struct. cbn [map concat]. rewrite app_nil_r. by apply writes_i32. }
    destruct (Hw s [] Hs) as (s1 & E1 & H1). apply wrote_holds in H1. rewrite app_nil_l, <- (app_nil_r (struct_tokens _)) in H1.
    destruct (read_struct_tokens "*testutils.ThriftReply" reply_fields reply_after [(1, TI32 (tC r))] 2 s1 r0 [] reply_takes)
      as (s2 & E2 & _); [by repeat constructor|cbn; lia|done|].
    exists s1, s2. split; [done|]. unfold ThriftReply_Read. rewrite E2. by destruct r.
Qed.
End facts.

(** ** Witness: a protocol that keeps its tokens *)
Definition pop (f : token -> option unit) : prog (list token) unit := fun s =>
  match s with
  | t :: s => match f t with Some _ => (s, Ok tt) | None => (s, Err (ErrorString "unexpected token")) end
  | [] => ([], Err EOF)
  end.
Definition push (t : token) : prog (list token) unit := modify (fun s => s ++ [t]).

#[export] Instance token_protocol : TProtocol (list token) := {
  ReadStructBegin := pop (fun t => match t with TStructBegin => Some tt | _ => None end);
  ReadStructEnd := pop (fun t => match t with TStructEnd => Some tt | _ => None end);
  ReadFieldBegin s := match s with
                      | TFieldBegin ty i :: s => (s, Ok (ty, i, None))
                      | TFieldStop :: s => (s, Ok (STOP, 0, None))
                      | _ => (s, Ok (STOP, 0, Some EOF))
                      end;
  ReadFieldEnd := pop (fun t => match t with TFieldEnd => Some tt | _ => None end);
  ReadI32 s := match s with TI32 v :: s => (s, Ok v) | _ => (s, Err EOF) end;
  ReadString s := match s with TString v :: s => (s, Ok v) | _ => (s, Err EOF) end;
  ReadListBegin s := match s with TListBegin ty n :: s => (s, Ok (ty, n)) | _ => (s, Err EOF) end;
  ReadListEnd := pop (fun t => match t with TListEnd => Some tt | _ => None end);
  Skip ty := pop (fun t => if decide (type_of_value t = Some ty) then Some tt else None);
  WriteStructBegin _ := push TStructBegin;
  WriteStructEnd := push TStructEnd;
  WriteFieldBegin _ ty i := push (TFieldBegin ty i);
  WriteFieldEnd := push TFieldEnd;
  WriteFieldStop := push TFieldStop;
  WriteI32 v := push (TI32 v);
  WriteString v := push (TString v);
  WriteListBegin ty n := push (TListBegin ty n);
  WriteListEnd := push TListEnd;
  PrependError p e := ErrorString (p +:+ Error e)
}.

#[export] Instance token_laws : TProtocolLaws (list token) eq eq.
Proof.
  split; try (intros; subst; cbn; by eauto).
  - intros ts t op s -> H.
    destruct H as [[-> [n ->]]|[[-> ->]|[(n & ty & i & -> & ->)|[[-> ->]|[[-> ->]|[(v & _ & -> & ->)|
      [(v & -> & ->)|[(ty & n & _ & -> & ->)|[-> ->]]]]]]]]]; by eexists.
  - intros s t ty ts Ht ->. cbn. rewrite decide_True by done. by eexists.
Qed.

Lemma thrift_roundtrip_witness :
  exists s1 s2, ThriftArgs_Write (Some (mk_ThriftArgs 6 (-7))) [] = (s1, Ok tt) /\
    ThriftArgs_Read 3 (s1, mk_ThriftArgs 1 1) = ((s2, mk_ThriftArgs 6 (-7)), Ok tt).
Proof.
  apply (thrift_roundtrip (S := list token) eq eq (mk_ThriftArgs 6 (-7)) (mk_ThriftReply 0) (mk_ThriftArgs 1 1) (mk_ThriftReply 0) []);
    done.
Defined.

(** An empty frame of another version of the service. *)
Example unknown_fields : (ThriftArgs_Read 4 (struct_tokens [(3, TI32 9); (2, TOther 12); (1, TI32 5)], mk_ThriftArgs 1 1)) =
  (([], mk_ThriftArgs 5 1), Ok tt).
Proof. vm_compute. reflexivity. Qed.
