(* ===== verification/ColorGroup.v ===== *)
(** codec/testdata: the group of colours of the codecs' benchmarks.
    thrift_colorgroup.go is what the thrift compiler writes, over the interface
    [TProtocol] of Thrift.v; its third field is a list of strings.  Of
    protobuf.pb.go, which encodes by reflection in its library, the message
    and its accessors. *)
From S2P Require Import Prelude Go Thrift.
Open Scope go_scope.

Section colorgroup.
Context {S : Type} `{TProtocol S}.

Record ThriftColorGroup : Type := mk_ColorGroup { cg_ID : Z; cg_Name : string; cg_Colors : list string }.

#[export] Instance ThriftColorGroup_eq_dec : EqDecision ThriftColorGroup.
Proof. solve_decision. Defined.

Definition NewThriftColorGroup : ThriftColorGroup := mk_ColorGroup 0 "" [].
Definition GetID (p : ThriftColorGroup) : Z := cg_ID p.
Definition GetName (p : ThriftColorGroup) : string := cg_Name p.
Definition GetColors (p : ThriftColorGroup) : list string := cg_Colors p.

Notation group := (prog (S * ThriftColorGroup)).

(** ** Reading *)
Definition Group_ReadField1 : group unit := read_i32 "1" (fun v p => mk_ColorGroup v (cg_Name p) (cg_Colors p)).

Definition Group_ReadField2 : group unit :=
  v ← told "error reading field 2: " (proto ReadString);
  modify (fun '(s, p) => (s, mk_ColorGroup (cg_ID p) v (cg_Colors p))).

Definition set_Colors (cs : list string) (p : ThriftColorGroup) : ThriftColorGroup :=
  mk_ColorGroup (cg_ID p) (cg_Name p) cs.

(** The elements of the list go to the object one by one. *)
Fixpoint read_colors (n : nat) : group unit :=
  match n with
  | O => mret tt
  | Datatypes.S n =>
      v ← told "error reading field 0: " (proto ReadString);
      modify (fun '(s, p) => (s, set_Colors (cg_Colors p ++ [v]) p));;
      read_colors n
  end.

(** A negative size makes [make] panic. *)
Definition Group_ReadField3 : group unit :=
  '(_, size) ← told "error reading list begin: " (proto ReadListBegin);
  if size <? 0 then lift Panic
  else
    modify (fun '(s, p) => (s, set_Colors [] p));;
    read_colors (Z.to_nat size);;
    told "error reading list end: " (proto ReadListEnd).

Definition group_fields (i : Z) : option (Z * group unit) :=
  if i =? 1 then Some (I32, Group_ReadField1)
  else if i =? 2 then Some (STRING, Group_ReadField2)
  else if i =? 3 then Some (LIST, Group_ReadField3)
  else None.

Definition ThriftColorGroup_Read : nat -> group unit := read_struct "*testdata.ThriftColorGroup" group_fields.

(** ** Writing *)
Definition field_text (what number field : string) : string :=
  "*testdata.ThriftColorGroup write field " +:+ what +:+ " error " +:+ number +:+ ":" +:+ field +:+ ": ".

Definition Group_writeField1 (p : ThriftColorGroup) : prog S unit :=
  write_i32 "*testdata.ThriftColorGroup" "id" "1" 1 (cg_ID p).

Definition Group_writeField2 (p : ThriftColorGroup) : prog S unit :=
  told (field_text "begin" "2" "name") (WriteFieldBegin "name" STRING 2);;
  told "*testdata.ThriftColorGroup.name (2) field write error: " (WriteString (cg_Name p));;
  told (field_text "end" "2" "name") WriteFieldEnd.

Fixpoint write_colors (cs : list string) : prog S unit :=
  match cs with
  | [] => mret tt
  | v :: cs =>
      told "*testdata.ThriftColorGroup. (0) field write error: " (WriteString v);;
      write_colors cs
  end.

Definition Group_writeField3 (p : ThriftColorGroup) : prog S unit :=
  told (field_text "begin" "3" "colors") (WriteFieldBegin "colors" LIST 3);;
  told "error writing list begin: " (WriteListBegin STRING (Z.of_nat (length (cg_Colors p))));;
  write_colors (cg_Colors p);;
  told "error writing list end: " WriteListEnd;;
  told (field_text "end" "3" "colors") WriteFieldEnd.

Definition ThriftColorGroup_Write (p : option ThriftColorGroup) : prog S unit :=
  write_struct "ThriftColorGroup" "*testdata.ThriftColorGroup"
    match p with
    | Some p => Group_writeField1 p;; Group_writeField2 p;; Group_writeField3 p
    | None => mret tt
    end.
End colorgroup.

(** [Equals]: of the same pointer, or of two objects, field by field. *)
Fixpoint same_colors (p other : list string) : bool :=
  match p, other with
  | tgt :: p, src :: other => if decide (tgt <> src) then false else same_colors p other
  | _, _ => true
  end.

Definition Group_Equals (same : bool) (p other : option ThriftColorGroup) : bool :=
  if same then true
  else match p, other with
       | Some p, Some other =>
           if negb (cg_ID p =? cg_ID other) then false
           else if decide (cg_Name p <> cg_Name other) then false
           else if negb (length (cg_Colors p) =? length (cg_Colors other))%nat then false
           else same_colors (cg_Colors p) (cg_Colors other)
       | _, _ => false
       end.

(** ** The message of protocol buffers: accessors of a pointer *)
Record ProtoColorGroup : Type := mk_ProtoColorGroup { Id : Z; Name : string; Colors : list string }.

Definition pb_Reset (x : ProtoColorGroup) : ProtoColorGroup := mk_ProtoColorGroup 0 "" [].
Definition pb_GetId (x : option ProtoColorGroup) : Z := match x with Some x => Id x | None => 0 end.
Definition pb_GetName (x : option ProtoColorGroup) : string := match x with Some x => Name x | None => "" end.
Definition pb_GetColors (x : option ProtoColorGroup) : list string := match x with Some x => Colors x | None => [] end.

(** The accessors do not tell a nil pointer from a message that was reset. *)
Lemma pb_nil_reset x : pb_GetId None = pb_GetId (Some (pb_Reset x)) /\
  pb_GetName None = pb_GetName (Some (pb_Reset x)) /\ pb_GetColors None = pb_GetColors (Some (pb_Reset x)).
Proof. done. Qed.

(** ** Facts *)

(** [Equals] of two objects is equality. *)
Lemma same_colors_spec p other : length p = length other -> same_colors p other = bool_decide (p = other).
Proof.
  revert other. induction p as [|x p IH]; intros [|y other]; cbn [same_colors length]; intros Hl; try done.
  case_decide as Hxy.
  - symmetry. apply bool_decide_eq_false. congruence.
  - subst y. rewrite IH by lia. apply bool_decide_ext. naive_solver.
Qed.

Lemma Group_Equals_spec p other : Group_Equals false (Some p) (Some other) = bool_decide (p = other).
Proof.
  destruct p as [i n cs], other as [i' n' cs']. cbn.
  destruct (Z.eqb_spec i i') as [->|]; cbn; [|symmetry; apply bool_decide_eq_false; congruence].
  case_decide as Hn; [symmetry; apply bool_decide_eq_false; congruence|]. subst n'.
  destruct (Nat.eqb_spec (length cs) (length cs')) as [Hl|Hl]; cbn;
    [|symmetry; apply bool_decide_eq_false; congruence].
  rewrite same_colors_spec by done. apply bool_decide_ext. naive_solver.
Qed.

(** The tokens of a group. *)
Definition list_tokens (cs : list string) : list token :=
  TListBegin STRING (Z.of_nat (length cs)) :: map TString cs ++ [TListEnd].

Definition group_tokens (p : ThriftColorGroup) : list token :=
  field_tokens (1, TI32 (cg_ID p)) ++ [TFieldBegin STRING 2; TString (cg_Name p); TFieldEnd] ++
  [TFieldBegin LIST 3] ++ list_tokens (cg_Colors p) ++ [TFieldEnd].

Section facts.
Context {S : Type} `{TProtocol S} (wrote holds : S -> list token -> Prop) {Hlaws : TProtocolLaws S wrote holds}.

Ltac write_one := apply writes_told; intros s ts Hs; (eapply wrote_one; [done|]); eauto 12.

Lemma writes_colors cs : writes wrote (write_colors cs) (map TString cs).
Proof.
  induction cs as [|c cs IH]; cbn [write_colors map].
  - intros s ts Hs. exists s. by rewrite app_nil_r.
  - apply (writes_bind wrote _ _ [TString c]); [write_one|done].
Qed.

Lemma writes_group p : - 2 ^ 31 <= cg_ID p < 2 ^ 31 -> Z.of_nat (length (cg_Colors p)) < 2 ^ 31 ->
  writes wrote (Group_writeField1 p;; Group_writeField2 p;; Group_writeField3 p) (group_tokens p).
Proof.
  intros Hid Hl. unfold group_tokens. apply writes_bind; [by apply (writes_i32 wrote holds)|]. apply writes_bind.
  - apply (writes_bind wrote _ _ [_]); [write_one|]. apply (writes_bind wrote _ _ [_] [_]); write_one.
  - apply writes_bind; [write_one|]. unfold list_tokens. rewrite <- app_comm_cons, <- app_assoc.
    apply (writes_bind wrote _ _ [_]); [|apply writes_bind; [apply writes_colors|apply writes_bind; write_one]].
    apply writes_told. intros s ts Hs. eapply wrote_one; [done|]. right. right. right. right. right. right. right. left.
    eexists _, _. split; [|done]. lia.
Qed.

(** Reading the elements of a list appends them. *)
Lemma read_colors_tokens cs s p ts : holds s (map TString cs ++ ts) ->
  exists s', read_colors (length cs) (s, p) = ((s', set_Colors (cg_Colors p ++ cs) p), Ok tt) /\ holds s' ts.
Proof.
  revert s p. induction cs as [|c cs IH]; intros s p Hs; cbn [read_colors length].
  - exists s. rewrite app_nil_r. split; [by destruct p|done].
  - cbn [map app] in Hs. destruct (holds_string _ _ _ Hs) as (s1 & E1 & H1). unfold mbind, prog_bind.
    rewrite (told_Ok _ _ _ _ _ (proto_Ok _ _ _ p _ E1)). cbn.
    destruct (IH s1 (set_Colors (cg_Colors p ++ [c]) p) H1) as (s2 & -> & H2). exists s2. split; [|done].
    cbn. by rewrite <- app_assoc.
Qed.

Lemma read_list_tokens cs s p ts : holds s (list_tokens cs ++ ts) ->
  exists s', Group_ReadField3 (s, p) = ((s', set_Colors cs p), Ok tt) /\ holds s' ts.
Proof.
  unfold list_tokens. intros Hs. rewrite <- app_comm_cons, <- app_assoc in Hs.
  destruct (holds_list _ _ _ _ Hs) as (s1 & E1 & H1). unfold Group_ReadField3, mbind, prog_bind.
  rewrite (told_Ok _ _ _ _ _ (proto_Ok _ _ _ p _ E1)), (proj2 (Z.ltb_ge _ _)), Nat2Z.id by lia. cbn [modify].
  destruct (read_colors_tokens cs s1 (set_Colors [] p) ([TListEnd] ++ ts) H1) as (s2 & E2 & H2).
  unfold modify. rewrite E2. destruct (holds_list_end _ _ H2) as (s3 & E3 & H3).
  exists s3. by rewrite (told_Ok _ _ _ _ _ (proto_Ok _ _ _ _ _ E3)).
Qed.

(** The three turns of the loop, and its end. *)
Lemma read_group p p0 s1 ts : holds s1 (group_tokens p ++ TFieldStop :: ts) ->
  exists s2, read_fields "*testdata.ThriftColorGroup" group_fields 4 (s1, p0) = ((s2, p), Ok tt) /\ holds s2 ts.
Proof.
  unfold group_tokens. rewrite <- !app_assoc. intros H1.
  edestruct (read_fields_turn wrote holds "*testdata.ThriftColorGroup" group_fields 3 s1 p0
    (mk_ColorGroup (cg_ID p) (cg_Name p0) (cg_Colors p0)) I32 1) as (s2 & -> & H2); [done|exact H1| |].
  { intros s Hs. exact (read_i32_takes wrote holds "1" _ _ s p0 _ Hs). }
  edestruct (read_fields_turn wrote holds "*testdata.ThriftColorGroup" group_fields 2 s2
    (mk_ColorGroup (cg_ID p) (cg_Name p0) (cg_Colors p0)) (mk_ColorGroup (cg_ID p) (cg_Name p) (cg_Colors p0)) STRING 2)
    as (s3 & -> & H3); [done|exact H2| |].
  { intros s Hs. destruct (holds_string _ _ _ Hs) as (s' & E & Hs'). exists s'. split; [|done].
    cbn. unfold Group_ReadField2, mbind, prog_bind. by rewrite (told_Ok _ _ _ _ _ (proto_Ok _ _ _ _ _ E)). }
  edestruct (read_fields_turn wrote holds "*testdata.ThriftColorGroup" group_fields 1 s3
    (mk_ColorGroup (cg_ID p) (cg_Name p) (cg_Colors p0)) p LIST 3) as (s4 & -> & H4); [done|exact H3| |].
  { intros s Hs. destruct (read_list_tokens (cg_Colors p) s (mk_ColorGroup (cg_ID p) (cg_Name p) (cg_Colors p0)) _ Hs)
      as (s' & E & Hs'). exists s'. split; [|exact Hs']. cbn. rewrite E. by destruct p. }
  by apply (read_fields_stop wrote holds).
Qed.

(** A group that is written is read back, into any object; a nil pointer
    leaves the object as it was. *)
Theorem colorgroup_roundtrip p p0 s :
  - 2 ^ 31 <= cg_ID p < 2 ^ 31 -> Z.of_nat (length (cg_Colors p)) < 2 ^ 31 -> wrote s [] ->
  (exists s1 s2, ThriftColorGroup_Write (Some p) s = (s1, Ok tt) /\
     ThriftColorGroup_Read 4 (s1, p0) = ((s2, p), Ok tt)) /\
  (exists s1 s2, ThriftColorGroup_Write None s = (s1, Ok tt) /\
     ThriftColorGroup_Read 1 (s1, p0) = ((s2, p0), Ok tt)).
Proof.
  intros Hid Hl Hs. split.
  - destruct (writes_struct wrote holds "ThriftColorGroup" "*testdata.ThriftColorGroup" _ _ (writes_group p Hid Hl) s [] Hs)
      as (s1 & E1 & H1).
    apply wrote_holds in H1. rewrite app_nil_l, <- (app_nil_r (struct_of _)) in H1. exists s1.
    destruct (read_struct_of wrote holds "*testdata.ThriftColorGroup" group_fields 4 s1 p0 p (group_tokens p) []) as (s2 & E2 & _);
      [intros s2; apply read_group|done|]. by exists s2.
  - assert (Hw : writes wrote (mret tt) []) by (intros s0 ts0 ?; exists s0; by rewrite app_nil_r).
    destruct (writes_struct wrote holds "ThriftColorGroup" "*testdata.ThriftColorGroup" _ _ Hw s [] Hs) as (s1 & E1 & H1).
    apply wrote_holds in H1. rewrite app_nil_l, <- (app_nil_r (struct_of _)) in H1. exists s1.
    destruct (read_struct_of wrote holds "*testdata.ThriftColorGroup" group_fields 1 s1 p0 p0 [] []) as (s2 & E2 & _);
      [intros s2; by apply (read_fields_stop wrote holds)|done|]. by exists s2.
Qed.
End facts.

(** A group over the protocol that keeps its tokens; and a list that ends too
    early leaves the colours read so far. *)
Example colorgroup_written :
  let p := mk_ColorGroup 1 "Reds" ["Crimson"; "Red"] in
  let s1 := (ThriftColorGroup_Write (Some p) []).1 in
  (ThriftColorGroup_Read 4 (s1, NewThriftColorGroup)) = (([], p), Ok tt) /\
  ThriftColorGroup_Read 4 (take 10 s1, NewThriftColorGroup) =
    (([], mk_ColorGroup 1 "Reds" ["Crimson"]), Err (ErrorString "error reading field 0: EOF")).
Proof. vm_compute. split; reflexivity. Qed.
