(* ===== verification/Codecs.v ===== *)
(** codec/: the five codecs, and the table of them in share/share.go.

    A Go value of unknown type is of [V], and [interface{}] is [option V], none
    when it is nil.  A type assertion on an interface asks [V] for its methods:
    none when the dynamic type does not have them.  Encoding libraries are the
    class [Encoders]. *)
From S2P Require Import Prelude Go Header Client Server Proto ProtoFacts.
Open Scope go_scope.

(** A method that fills its receiver: what it leaves there and its error. *)
Notation filled V := (result (V * option error)).
Notation encoded := (result (list byte * option error)).

(** The language: the name of a dynamic type ([%T]), [[]byte] values, pointers
    to them (nil is none), and [SetBytes] of what a value points to, which
    panics when that is not a byte slice. *)
Class GoValues (V : Type) : Type := {
  type_name : V -> string;
  as_bytes : V -> option (list byte);
  as_bytes_pointer : V -> option (option (list byte));
  SetBytes : list byte -> V -> option V
}.

(** Assertions on interfaces of the libraries, and the libraries' functions.
    [json_Decode] reads one value of the stream and leaves what is behind. *)
Class Encoders (V : Type) : Type := {
  proto_Marshaler : V -> option encoded;
  proto_Unmarshaler : V -> option (list byte -> filled V);
  pb_Message : V -> bool;
  pb_Marshal : V -> encoded;
  pb_Unmarshal : list byte -> V -> filled V;
  msgp_Marshaler : V -> option encoded;
  msgp_Unmarshaler : V -> option (list byte -> result (V * list byte * option error));
  msgpack_Encode : option V -> encoded;
  msgpack_Decode : list byte -> option V -> filled (option V);
  thrift_TStruct : V -> bool;
  thrift_Write : V -> encoded;
  thrift_Read : list byte -> V -> filled V;
  json_Marshal : option V -> encoded;
  json_Decode : bool -> list byte -> option V -> result (option V * list byte * option error)
}.

(** [codec.Codec]. *)
Record GoCodec (V : Type) : Type := mk_GoCodec {
  CEncode : option V -> encoded;
  CDecode : list byte -> option V -> filled (option V)
}.
Arguments mk_GoCodec {V}. Arguments CEncode {V}. Arguments CDecode {V}.

Section codecs.
Context {V : Type} `{!GoValues V, !Encoders V}.

(** [fmt.Errorf] with the type of an interface. *)
Definition type_of (i : option V) : string := from_option type_name "<nil>" i.

(** A pointer whose pointee was filled. *)
Definition fill (r : filled V) : filled (option V) := '(v, e) ← r; Ok (Some v, e).

(** ** codec/byte.go *)
Definition ByteCodec_Encode (i : option V) : encoded :=
  match i ≫= as_bytes with
  | Some data => Ok (data, None)
  | None =>
      match i ≫= as_bytes_pointer with
      | Some (Some data) => Ok (data, None)
      | Some None => Panic
      | None => Ok ([], Some (ErrorString (type_of i +:+ " is not a []byte")))
      end
  end.

Definition ByteCodec_Decode (data : list byte) (i : option V) : filled (option V) :=
  match i ≫= SetBytes data with
  | Some i => Ok (Some i, None)
  | None => Panic
  end.

(** ** codec/json.go *)
Definition JSONCodec_Encode : option V -> encoded := json_Marshal.

Definition JSONCodec_Decode (data : list byte) (i : option V) : filled (option V) :=
  '(i, _, err) ← json_Decode true data i; Ok (i, err).

(** ** codec/msgpack.go *)
Definition MsgpackCodec_Encode (i : option V) : encoded :=
  match i ≫= msgp_Marshaler with
  | Some MarshalMsg => MarshalMsg
  | None => msgpack_Encode i
  end.

Definition MsgpackCodec_Decode (data : list byte) (i : option V) : filled (option V) :=
  match i ≫= msgp_Unmarshaler with
  | Some UnmarshalMsg => '(v, _, err) ← UnmarshalMsg data; Ok (Some v, err)
  | None => msgpack_Decode data i
  end.

(** ** codec/pb.go *)
Definition PBCodec_Encode (i : option V) : encoded :=
  match i with
  | Some v =>
      match proto_Marshaler v with
      | Some Marshal => Marshal
      | None => if pb_Message v then pb_Marshal v
                else Ok ([], Some (ErrorString (type_of i +:+ " is not a proto.Marshaler or pb.Message")))
      end
  | None => Ok ([], Some (ErrorString (type_of i +:+ " is not a proto.Marshaler or pb.Message")))
  end.

Definition PBCodec_Decode (data : list byte) (i : option V) : filled (option V) :=
  match i with
  | Some v =>
      match proto_Unmarshaler v with
      | Some Unmarshal => fill (Unmarshal data)
      | None => if pb_Message v then fill (pb_Unmarshal data v)
                else Ok (i, Some (ErrorString (type_of i +:+ " is not a proto.Unmarshaler  or pb.Message")))
      end
  | None => Ok (i, Some (ErrorString (type_of i +:+ " is not a proto.Unmarshaler  or pb.Message")))
  end.

(** ** codec/thrift.go *)
Definition ThriftCodec_Encode (i : option V) : encoded :=
  match i with
  | Some v => if thrift_TStruct v then thrift_Write v else Ok ([], Some (ErrorString "type assertion failed"))
  | None => Ok ([], Some (ErrorString "type assertion failed"))
  end.

(** The assertion without a second result panics. *)
Definition ThriftCodec_Decode (data : list byte) (i : option V) : filled (option V) :=
  match i with
  | Some v => if thrift_TStruct v then fill (thrift_Read data v) else Panic
  | None => Panic
  end.

(** ** share/share.go *)
Definition codec_table : Type := gmap Z (GoCodec V).

Definition Codecs : codec_table :=
  <[bz SerializeNone := mk_GoCodec ByteCodec_Encode ByteCodec_Decode]>
  (<[bz JSON := mk_GoCodec JSONCodec_Encode JSONCodec_Decode]>
  (<[bz ProtoBuffer := mk_GoCodec PBCodec_Encode PBCodec_Decode]>
  (<[bz MsgPack := mk_GoCodec MsgpackCodec_Encode MsgpackCodec_Decode]>
  (<[bz Thrift := mk_GoCodec ThriftCodec_Encode ThriftCodec_Decode]> ∅)))).

Definition RegisterCodec (t : byte) (c : GoCodec V) (cs : codec_table) : codec_table := <[bz t := c]> cs.

(** ** The codecs as the client and the server use them *)
Definition client_codec (c : GoCodec V) : Codec V V :=
  mk_Codec (fun i => '(bs, err) ← CEncode c i; match err with Some e => Err e | None => Ok bs end) (CDecode c).

Definition server_codec (c : GoCodec V) : ServerCodec V :=
  mk_ServerCodec (CEncode c) (fun data v => '(r, err) ← CDecode c data (Some v); Ok (default v r, err)).

Definition client_codecs (cs : codec_table) (t : byte) : option (Codec V V) := client_codec <$> cs !! bz t.
Definition server_codecs (cs : codec_table) (t : byte) : option (ServerCodec V) := server_codec <$> cs !! bz t.
End codecs.
Arguments codec_table : clear implicits.

(** ** A codec and a value that do not fit

    Encoding says so; of the decoders only the one of protocol buffers does. *)
Section mismatch.
Context {V : Type} `{!GoValues V, !Encoders V}.

Lemma byte_mismatch (v : V) data : as_bytes v = None -> as_bytes_pointer v = None -> SetBytes data v = None ->
  ByteCodec_Encode (Some v) = Ok ([], Some (ErrorString (type_name v +:+ " is not a []byte"))) /\
  ByteCodec_Decode data (Some v) = Panic.
Proof. intros H1 H2 H3. unfold ByteCodec_Encode, ByteCodec_Decode. cbn. by rewrite H1, H2, H3. Qed.

Lemma pb_mismatch (v : V) data : proto_Marshaler v = None -> proto_Unmarshaler v = None -> pb_Message v = false ->
  PBCodec_Encode (Some v) = Ok ([], Some (ErrorString (type_name v +:+ " is not a proto.Marshaler or pb.Message"))) /\
  PBCodec_Decode data (Some v) =
    Ok (Some v, Some (ErrorString (type_name v +:+ " is not a proto.Unmarshaler  or pb.Message"))).
Proof. intros H1 H2 H3. unfold PBCodec_Encode, PBCodec_Decode. by rewrite H1, H2, H3. Qed.

Lemma thrift_mismatch (v : V) data : thrift_TStruct v = false ->
  ThriftCodec_Encode (Some v) = Ok ([], Some (ErrorString "type assertion failed")) /\
  ThriftCodec_Decode data (Some v) = Panic.
Proof. intros H1. unfold ThriftCodec_Encode, ThriftCodec_Decode. by rewrite H1. Qed.
End mismatch.

(** ** The messages of _testutils as Go values

    They have the methods [Marshal] and [Unmarshal], and none of the others; a
    byte slice has none. *)
Inductive arith : Type := VArgs (m : ProtoArgs) | VReply (r : ProtoReply) | VBytes (b : list byte).

#[export] Instance arith_values : GoValues arith := {
  type_name v := match v with
                 | VArgs _ => "*testutils.ProtoArgs" | VReply _ => "*testutils.ProtoReply" | VBytes _ => "*[]uint8"
                 end;
  as_bytes _ := None;
  as_bytes_pointer v := match v with VBytes b => Some (Some b) | _ => None end;
  SetBytes data v := match v with VBytes _ => Some (VBytes data) | _ => None end
}.

Definition unmarshalled {M} (pack : M -> arith) (mr : M * result unit) : filled arith :=
  let '(m, r) := mr in
  match r with
  | Ok _ => Ok (pack m, None)
  | Err e => Ok (pack m, Some e)
  | Panic => Panic | Fatal => Fatal | Blocked => Blocked
  end.

(** Nothing but the methods of the messages is used of it. *)
#[export] Instance arith_encoders : Encoders arith := {
  proto_Marshaler v := match v with
                       | VArgs m => Some (bs ← ProtoArgs_Marshal m; Ok (bs, None))
                       | VReply r => Some (bs ← ProtoReply_Marshal r; Ok (bs, None))
                       | VBytes _ => None
                       end;
  proto_Unmarshaler v := match v with
                         | VArgs m => Some (fun data => unmarshalled VArgs (ProtoArgs_Unmarshal data m))
                         | VReply r => Some (fun data => unmarshalled VReply (ProtoReply_Unmarshal data r))
                         | VBytes _ => None
                         end;
  pb_Message _ := false;
  pb_Marshal _ := Panic;
  pb_Unmarshal _ _ := Panic;
  msgp_Marshaler _ := None;
  msgp_Unmarshaler _ := None;
  msgpack_Encode _ := Panic;
  msgpack_Decode _ _ := Panic;
  thrift_TStruct _ := false;
  thrift_Write _ := Panic;
  thrift_Read _ _ := Panic;
  json_Marshal _ := Panic;
  json_Decode _ _ _ := Panic
}.

#[local] Arguments ProtoArgs_Marshal : simpl never.
#[local] Arguments ProtoReply_Marshal : simpl never.
#[local] Arguments ProtoArgs_Unmarshal : simpl never.
#[local] Arguments ProtoReply_Unmarshal : simpl never.

(** What is registered for other types leaves an entry alone. *)
Lemma registered_others (regs : list (byte * GoCodec arith)) t c :
  Forall (fun '(t', _) => t' <> t) regs -> Codecs !! bz t = Some c ->
  foldr (fun '(t, c) => RegisterCodec t c) Codecs regs !! bz t = Some c.
Proof.
  intros Hregs Hc. induction Hregs as [|[t' c'] regs Hne Hregs IH]; [done|]. cbn [foldr]. rewrite <- IH.
  apply (lookup_insert_ne (M := gmap Z)). intros E. by apply (inj bz) in E.
Qed.

(** C38: the entries of the table for protocol buffers and for raw bytes, with
    the generated messages [ProtoArgs] and [ProtoReply] and with byte slices.
    Whatever is registered for other types, the arguments that the client encodes
    are those that the server decodes, and the reply that the server encodes is
    what the client finds in its reply object, where a zero of a message leaves
    what was there. *)
Theorem codecs_agree regs m r old b b0 :
  Forall (fun '(t, _) => t <> ProtoBuffer) regs -> Forall (fun '(t, _) => t <> SerializeNone) regs ->
  int32 (A m) -> int32 (B m) -> int32 (C r) ->
  let tbl := foldr (fun '(t, c) => RegisterCodec t c) Codecs regs in
  (exists cc sc args reply,
    client_codecs tbl ProtoBuffer = Some cc /\ server_codecs tbl ProtoBuffer = Some sc /\
    CodecEncode cc (Some (VArgs m)) = Ok args /\
    Decode_ sc args (VArgs (mk_ProtoArgs 0 0)) = Ok (VArgs m, None) /\
    Encode_ sc (Some (VReply r)) = Ok (reply, None) /\
    CodecDecode cc reply (Some (VReply old)) =
      Ok (Some (VReply (if C r =? 0 then old else r)), None)) /\
  (exists cc sc,
    client_codecs tbl SerializeNone = Some cc /\ server_codecs tbl SerializeNone = Some sc /\
    CodecEncode cc (Some (VBytes b)) = Ok b /\ Decode_ sc b (VBytes b0) = Ok (VBytes b, None) /\
    Encode_ sc (Some (VBytes b)) = Ok (b, None) /\ CodecDecode cc b (Some (VBytes b0)) = Ok (Some (VBytes b), None)).
Proof.
  intros Hpb Hraw Ha Hb Hc tbl. split.
  - assert (Ht : tbl !! bz ProtoBuffer = Some (mk_GoCodec PBCodec_Encode PBCodec_Decode)) by by apply registered_others.
    unfold client_codecs, server_codecs. rewrite Ht. cbn [fmap option_fmap option_map].
    eexists _, _, _, _. split; [done|]. split; [done|]. cbn.
    rewrite ProtoArgs_Marshal_bytes, ProtoReply_Marshal_bytes. cbn. split; [done|].
    rewrite args_unmarshal by done. cbn. split.
    { destruct m as [x y]. cbn. destruct (Z.eqb_spec x 0), (Z.eqb_spec y 0); by subst. }
    split; [done|]. rewrite reply_unmarshal by done. cbn. destruct old, r as [x]. cbn. by destruct (x =? 0).
  - assert (Ht : tbl !! bz SerializeNone = Some (mk_GoCodec ByteCodec_Encode ByteCodec_Decode)) by by apply registered_others.
    unfold client_codecs, server_codecs. rewrite Ht. cbn [fmap option_fmap option_map]. by eexists _, _.
Qed.

Lemma codecs_agree_witness :
  let tbl := RegisterCodec JSON (mk_GoCodec (fun _ => Panic) (fun _ _ => Panic)) Codecs in
  (exists cc sc args reply,
    client_codecs tbl ProtoBuffer = Some cc /\ server_codecs tbl ProtoBuffer = Some sc /\
    CodecEncode cc (Some (VArgs (mk_ProtoArgs 6 7))) = Ok args /\
    Decode_ sc args (VArgs (mk_ProtoArgs 0 0)) = Ok (VArgs (mk_ProtoArgs 6 7), None) /\
    Encode_ sc (Some (VReply (mk_ProtoReply 42))) = Ok (reply, None) /\
    CodecDecode cc reply (Some (VReply (mk_ProtoReply 9))) = Ok (Some (VReply (mk_ProtoReply 42)), None)) /\
  (exists cc sc,
    client_codecs tbl SerializeNone = Some cc /\ server_codecs tbl SerializeNone = Some sc /\
    CodecEncode cc (Some (VBytes [x2a])) = Ok [x2a] /\ Decode_ sc [x2a] (VBytes []) = Ok (VBytes [x2a], None) /\
    Encode_ sc (Some (VBytes [x2a])) = Ok ([x2a], None) /\
    CodecDecode cc [x2a] (Some (VBytes [])) = Ok (Some (VBytes [x2a]), None)).
Proof.
  apply (codecs_agree [(JSON, mk_GoCodec (fun _ => Panic) (fun _ _ => Panic))] (mk_ProtoArgs 6 7) (mk_ProtoReply 42)
    (mk_ProtoReply 9) [x2a] []); [by repeat constructor|by repeat constructor|done..].
Defined.
