(* ===== verification/EndToEnd.v ===== *)
(** The client of Client.v and the server of Server.v on the two ends of a
    connection: a call that is registered, sent, served and answered. *)
From S2P Require Import Prelude Go Share Header Message MessageFacts Plugins ServerPlugins UrlQuery.
From S2P Require Import Client ClientFacts Service Server ServerFacts Proto Codecs.
Open Scope go_scope.

Section rpc.
Context {A R W V : Type}.
(** The client's codecs and the server's; what both sides share. *)
Context (ccodecs : byte -> option (Codec A R)) (scodecs : byte -> option (ServerCodec V)) (zero : gtype -> V)
        (cs : compressors) (cget sget : Z -> list byte) (order : gmap string string -> list (string * string))
        (corder : option (gmap string string) -> list (string * string)).
Context `{!CompressorLaws cs, !BufferGet cget, !BufferGet sget} (order_perm : forall m, order m ≡ₚ map_to_list m).

(** ** The server's part *)

(** A call the server can serve: a method of a service without plugins, whose
    argument decodes to [argv], which ends without an error, and whose reply
    encodes to [p]. *)
Record served (s : config W V) (req : message) (w w' : W) (p : list byte) : Prop := {
  sv_plugins : Plugins s = [];
  sv_route : router s !! (ServicePath req +:+ "." +:+ ServiceMethod req) = None;
  sv_run : exists (sv : service (body W V)) (mt : methodType (body W V)) (coder : ServerCodec V) argv reply,
    getService (ServicePath req) (services s) = Some sv /\ method sv !! ServiceMethod req = Some mt /\
    scodecs (SerializeType (hdr req)) = Some coder /\
    Decode_ coder (Payload req) (zero (ArgType mt)) = Ok (argv, None) /\
    method_ mt (Metadata req) argv (w, zero (ReplyType mt), ∅) = ((w', reply, ∅), Ok None) /\
    Encode_ coder (Some reply) = Ok (p, None)
}.

Lemma served_response s c req w w' p : IsOneway (hdr req) = false -> served s req w w' p ->
  handleRequest scodecs zero s c req (w, ∅) = ((w', ∅), Ok (set_Payload p (response c req), None)).
Proof.
  intros Hone [Hpl _ (sv & mt & coder & argv & reply & Hsv & Hmt & Hco & Hdec & Hrun & Henc)].
  unfold handleRequest. rewrite Hsv, Hco, Hmt. unfold mbind, prog_bind, lift. rewrite Hdec, Hpl.
  cbn [on_world DoPreCall until_error mret prog_ret]. unfold Server.call. rewrite Hrun.
  cbn [on_world DoPostCall until_error mret prog_ret]. rewrite Hone.
  unfold encode_reply, mbind, prog_bind, lift. by rewrite Henc.
Qed.

Lemma served_quiet s req w w' p : served s req w w' p -> quiet s.
Proof. intros [Hpl _ _]. unfold quiet. rewrite Hpl. constructor. Qed.

(** The frame the server writes, as its reader sees it. *)
Lemma served_reads s c req w w' p :
  blank_msg c -> plain_request s req -> IsOneway (hdr req) = false -> served s req w w' p ->
  exists bs, serve_request scodecs zero cs sget order s c req w = (w', Ok [bs]) /\
    reads_as cs bs req (set_Payload p (response c req)).
Proof.
  intros Hc Hpr Hone Hs.
  pose proof (serve_request_reads scodecs zero cs sget order order_perm s c req w w' ∅ _ None
    (served_quiet _ _ _ _ _ Hs) Hpr (served_response s c req w w' p Hone Hs)) as H.
  rewrite Hone, copy_metadata_empty in H. exact H.
Qed.

(** ** The client's part *)

(** What the client makes of the payload of an answer: an empty one is not
    decoded, so it leaves the reply object alone. *)
Definition decoded (codec : Codec A R) (p : list byte) (r : option R) : result (option R * option error) :=
  match p with [] => Ok (r, None) | _ => CodecDecode codec p r end.

(** A normal answer completes the call of its number with the decoded reply. *)
Lemma answered_state res (c : Client A R) i call codec r :
  pending c !! Seq (hdr res) = Some i -> heap c !! i = Some call -> cRaw call = false ->
  MessageType (hdr res) = Response -> MessageStatusType (hdr res) = Normal -> Metadata res = None ->
  ccodecs (SerializeType (hdr res)) = Some codec -> decoded codec (Payload res) (cReply call) = Ok (r, None) ->
  input_message ccodecs (fun m => m) corder res c =
    (done_ i (set_heap (<[i := with_Reply r call]> (heap c)) (set_pending (delete (Seq (hdr res)) (pending c)) c)), Ok None).
Proof.
  intros Hp Hh Hraw Ht Hst Hmd Hco Hdec. unfold input_message.
  assert (Hsm : isServerMessage res = false) by (unfold isServerMessage; by rewrite Ht).
  rewrite Hsm. unfold take_pending. rewrite Hp. cbn [mbind option_bind heap set_pending]. rewrite Hh.
  cbn [fmap option_fmap option_map]. rewrite decide_False by (by rewrite Hst).
  replace (answer_normal ccodecs corder res call) with (Ok (with_Reply r call, @None error)); [done|].
  unfold answer_normal, decoded in *. rewrite Hraw, Hco, Hmd. destruct (Payload res) as [|b bs].
  - injection Hdec as <-. cbn. by destruct call.
  - rewrite Hdec. done.
Qed.

Lemma answered_call res (c : Client A R) i call codec r :
  pending c !! Seq (hdr res) = Some i -> heap c !! i = Some call -> cRaw call = false ->
  MessageType (hdr res) = Response -> MessageStatusType (hdr res) = Normal -> Metadata res = None ->
  ccodecs (SerializeType (hdr res)) = Some codec -> decoded codec (Payload res) (cReply call) = Ok (r, None) ->
  exists c', input_message ccodecs (fun m => m) corder res c = (c', Ok None) /\
    pending c' = delete (Seq (hdr res)) (pending c) /\ dones c' = dones c ++ [i] /\
    heap c' = <[i := with_Reply r call]> (heap c).
Proof.
  intros Hp Hh Hraw Ht Hst Hmd Hco Hdec. eexists. split; [by eapply answered_state|].
  destruct (done_view i (set_heap (<[i := with_Reply r call]> (heap c)) (set_pending (delete (Seq (hdr res)) (pending c)) c)))
    as (-> & -> & -> & _). done.
Qed.

(** C1: a call comes back with the method's result.  A call is registered under
    a number and sent; the server decodes the bytes and its goroutine answers;
    the client decodes the answer and its input loop completes exactly that
    call, once, without an error and with the reply that decoding the server's
    encoding of the method's reply gives.  Compression, the order of map
    iterations and stale buffers play no part. *)
Theorem rpc_call_returns (c : Client A R) n i call codec data m0 kvs (s : config W V) c0 w w' p r0 r1 :
  (* the call, registered as [n], and what encoding its arguments gives *)
  heap c !! i = Some call -> pending c !! n = Some i -> 0 <= n < two64 ->
  cRaw call = false -> cReply call = Some r0 -> isHeartbeatCall call = false ->
  ccodecs (oSerializeType (option_ c)) = Some codec -> oSerializeType (option_ c) .& x0f = oSerializeType (option_ c) ->
  CodecEncode codec (cArgs call) = Ok data -> kvs ≡ₚ map_to_list (default ∅ (cMetadata call)) ->
  hdr m0 = newHeader -> Metadata m0 = None -> cap (Message.data m0) < 1024 ->
  (* the server serves such a request, and its reply decodes *)
  (forall req, ServicePath req = cServicePath call -> ServiceMethod req = cServiceMethod call ->
     Metadata req = norm_meta (cMetadata call) -> Payload req = data ->
     SerializeType (hdr req) = oSerializeType (option_ c) -> served s req w w' p) ->
  blank_msg c0 -> decoded codec p (Some r0) = Ok (Some r1, None) ->
  exists bs c1,
    send_finish ccodecs cs cget (fun m => m) (fun _ => None) i n m0 kvs c = (c1, Ok tt) /\
    written c1 = written c ++ [bs] /\
    (Z.of_nat (length bs) < two32 ->
     exists req ans,
       Decode cs 0 (mk_reader bs EOF, NewMessage) = ((mk_reader [] EOF, req), Ok tt) /\
       serve_request scodecs zero cs sget order s c0 req w = (w', Ok [ans]) /\
       (Z.of_nat (length ans) < two32 ->
        exists res c2,
          Decode cs 0 (mk_reader ans EOF, NewMessage) = ((mk_reader [] EOF, res), Ok tt) /\
          input_message ccodecs (fun m => m) corder res c1 = (c2, Ok None) /\
          pending c2 = delete n (pending c) /\ dones c2 = dones c ++ [i] /\
          heap c2 !! i = Some (with_Reply (Some r1) call))).
Proof.
  intros Hid Hpend Hn Hraw Hrep Hhb Hco Hser Henc Hkvs Hm0 Hmeta0 Hcap Hserved Hc0 Hdec.
  assert (Hco' : ccodecs (if isHeartbeatCall call then MsgPack else oSerializeType (option_ c)) = Some codec)
    by (by rewrite Hhb).
  destruct (send_reads ccodecs cs cget 0 i n m0 NewMessage kvs call codec data c [] EOF
    Hid Hm0 Hmeta0 Hcap newHeader_wf eq_refl Hco' Henc Hkvs) as (bs & c1 & Hs & Hwr & Hreq).
  destruct (send_written ccodecs cs cget i n m0 kvs call codec data c Hid Hm0 Hcap Hco' Henc)
    as (bs2 & h & _ & Hs2).
  rewrite Hs in Hs2. injection Hs2 as Hc1.
  exists bs, c1. split; [done|]. split; [done|]. intros Hlen.
  destruct (Hreq Hlen) as (req & Hd & Hsp & Hsm & Hmd & Hpl & Ht & Hseq & Hone & Hhbr & Hw & Hmagic & Hst & Hsr);
    [lia|]. rewrite app_nil_r in Hd. rewrite Hhb in Hhbr, Hsr. rewrite Hser in Hsr.
  rewrite u64_small in Hseq by done. rewrite Hrep in Hone.
  specialize (Hserved req Hsp Hsm Hmd Hpl Hsr).
  assert (Hpr : plain_request s req) by (split; try done; apply Hserved).
  destruct (served_reads s c0 req w w' p Hc0 Hpr Hone Hserved) as (ans & Hsv & Hans).
  exists req, ans. split; [done|]. split; [done|]. intros Hla.
  destruct (Hans 0 NewMessage [] EOF newHeader_wf eq_refl Hla) as (res & Hdr & Ha & Hst' & Hpl' & Hmd'); [lia|].
  rewrite app_nil_r in Hdr. cbn in Hpl'. rewrite (proj1 Hc0 : Metadata (set_Payload p (response c0 req)) = None) in Hmd'.
  assert (Hresst : MessageStatusType (hdr res) = Normal).
  { rewrite Hst'. exact (eq_trans (response_status c0 req Hw) Hst). }
  assert (Hseq' : Seq (hdr res) = n) by (by rewrite (ans_seq _ _ Ha)).
  destruct (answered_call res c1 i call codec (Some r1)) as (c2 & Hin & Hp2 & Hd2 & Hh2).
  - by rewrite Hc1, Hseq'.
  - by rewrite Hc1.
  - done.
  - apply Ha.
  - done.
  - done.
  - by rewrite (ans_serialize _ _ Ha), Hsr.
  - by rewrite Hpl', Hrep.
  - exists res, c2. split; [done|]. split; [done|]. rewrite Hp2, Hd2, Hh2, Hseq', Hc1. split_and!; [done..|].
    cbn. apply lookup_insert_eq.
Qed.
End rpc.

(** ** Witness: [Arith.Mul] called with 6 and 7

    Both sides use the table of codecs and the messages of protocol buffers. *)
Definition mul_proto : body unit arith :=
  fun _ argv '(w, reply, rm) =>
    match argv with
    | VArgs m => ((w, VReply (mk_ProtoReply (i32 (A m * B m))), rm), Ok None)
    | _ => ((w, reply, rm), Panic)
    end.

Definition args_ptr : gtype := TPtr (TUnnamed 1).
Definition reply_ptr : gtype := TPtr (TUnnamed 2).

Definition zero_arith (t : gtype) : arith :=
  if decide (t = args_ptr) then VArgs (mk_ProtoArgs 0 0) else VReply (mk_ProtoReply 0).

Definition proto_server : config unit arith :=
  mk_config (mk_registry {["Arith" := mk_service "Arith" {["Mul" := mk_methodType mul_proto args_ptr reply_ptr]} None]}
               {[args_ptr; reply_ptr]}) ∅ [] None.

Definition proto_call (a b : Z) : Call arith arith :=
  mk_Call "Arith" "Mul" None None (Some (VArgs (mk_ProtoArgs a b))) (Some (VReply (mk_ProtoReply 9))) None None 0 false.

Definition proto_client (a b : Z) : Client arith arith :=
  (send_register (client_codecs Codecs) 0 (set_heap {[0%nat := proto_call a b]}
     (set_chans {[0%nat := mk_chan 1 []]} (NewClient (mk_Option ProtoBuffer None_ false))))).1.

Lemma proto_served req :
  ServicePath req = "Arith" -> ServiceMethod req = "Mul" -> Payload req = [x08; x06; x10; x07] ->
  SerializeType (hdr req) = ProtoBuffer ->
  served (server_codecs Codecs) zero_arith proto_server req tt tt [x08; x2a].
Proof.
  intros Hp Hm Hd Hs. split; [reflexivity|apply lookup_empty|].
  exists (mk_service "Arith" {["Mul" := mk_methodType mul_proto args_ptr reply_ptr]} None),
    (mk_methodType mul_proto args_ptr reply_ptr), (server_codec (mk_GoCodec PBCodec_Encode PBCodec_Decode)),
    (VArgs (mk_ProtoArgs 6 7)), (VReply (mk_ProtoReply 42)).
  rewrite Hp, Hm, Hd, Hs. split_and!; reflexivity.
Qed.

Lemma rpc_call_returns_witness :
  exists bs c1,
    send_finish (client_codecs Codecs) raw_compressors dirty_get (fun m => m) (fun _ => None) 0 0 NewMessage []
      (proto_client 6 7) = (c1, Ok tt) /\
    written c1 = [] ++ [bs] /\
    (Z.of_nat (length bs) < two32 ->
     exists req ans,
       Decode raw_compressors 0 (mk_reader bs EOF, NewMessage) = ((mk_reader [] EOF, req), Ok tt) /\
       serve_request (server_codecs Codecs) zero_arith raw_compressors dirty_get map_to_list proto_server
         NewMessage req tt = (tt, Ok [ans]) /\
       (Z.of_nat (length ans) < two32 ->
        exists res c2,
          Decode raw_compressors 0 (mk_reader ans EOF, NewMessage) = ((mk_reader [] EOF, res), Ok tt) /\
          input_message (client_codecs Codecs) (fun m => m) (fun _ => []) res c1 = (c2, Ok None) /\
          pending c2 = delete 0 {[0 := 0%nat]} /\ dones c2 = [0%nat] /\
          heap c2 !! 0%nat = Some (with_Reply (Some (VReply (mk_ProtoReply 42))) (proto_call 6 7)))).
Proof.
  apply (rpc_call_returns (client_codecs Codecs) (server_codecs Codecs) zero_arith raw_compressors dirty_get dirty_get
    map_to_list (fun _ => []) (fun _ => reflexivity _) (proto_client 6 7) 0 0 (proto_call 6 7)
    (client_codec (mk_GoCodec PBCodec_Encode PBCodec_Decode)) [x08; x06; x10; x07]
    NewMessage [] proto_server NewMessage tt tt [x08; x2a] (VReply (mk_ProtoReply 9)) (VReply (mk_ProtoReply 42)));
    try reflexivity; try done.
  intros req Hp Hm _ Hd Hs. by apply proto_served.
Defined.
