(* ===== verification/Pipeline.v ===== *)
(** Many calls on one connection, on top of EndToEnd: the client writes its calls
    one after the other without waiting, the server reads them from the stream, its
    goroutines run and write their answers in any order, and the client's input
    loop completes each call with its own reply. *)
From S2P Require Import Prelude Go Share Header Message MessageFacts Plugins ServerPlugins UrlQuery.
From S2P Require Import Client ClientFacts Service Server ServerFacts Proto Codecs EndToEnd.
Open Scope go_scope.

Section pipeline.
Context {A R W V : Type}.
Context (ccodecs : byte -> option (Codec A R)) (scodecs : byte -> option (ServerCodec V)) (zero : gtype -> V)
        (cs : compressors) (cget sget : Z -> list byte) (order : gmap string string -> list (string * string))
        (corder : option (gmap string string) -> list (string * string)).
Context `{!CompressorLaws cs, !BufferGet cget, !BufferGet sget} (order_perm : forall m, order m ≡ₚ map_to_list m).
(** The codec of the client's serialize type [st]; the server, and the message its
    goroutines clone their answers into. *)
Context (st : byte) (codec : Codec A R) (s : config W V) (c0 : message).
Implicit Types c : Client A R.

(** A call that is made: its place in the heap, its number, the pooled message it
    is sent with and the order of its metadata; the bytes of its arguments and of
    its reply; the reply object before and after. *)
Record pcall : Type := mk_pcall {
  pid : nat; pnum : Z; pcall_of : Call A R; pm0 : message; pkvs : list (string * string);
  pdata : list byte; preply : list byte; pr0 : R; pr1 : R
}.

(** ** The two ends *)

Fixpoint send_all (xs : list pcall) c : Client A R * result unit :=
  match xs with
  | [] => (c, Ok tt)
  | x :: xs =>
      match send_finish ccodecs cs cget (fun m => m) (fun _ => None) (pid x) (pnum x) (pm0 x) (pkvs x) c with
      | (c, Ok _) => send_all xs c
      | (c, Err e) => (c, Err e)
      | (c, Panic) => (c, Panic) | (c, Fatal) => (c, Fatal) | (c, Blocked) => (c, Blocked)
      end
  end.

(** The read loop of the server, with a message from the pool for each request. *)
Fixpoint read_all (ms : list message) (r : reader) : reader * result (list message) :=
  match ms with
  | [] => (r, Ok [])
  | m :: ms =>
      match Decode cs 0 (r, m) with
      | ((r, req), Ok _) => let '(r, res) := read_all ms r in (r, reqs ← res; Ok (req :: reqs))
      | ((r, _), Err e) => (r, Err e)
      | ((r, _), _) => (r, Panic)
      end
  end.

(** Its goroutines, in the order in which they run. *)
Fixpoint serve_all (reqs : list message) : prog W (list (list byte)) :=
  match reqs with
  | [] => mret []
  | req :: reqs =>
      out ← serve_request scodecs zero cs sget order s c0 req;
      rest ← serve_all reqs;
      mret (out ++ rest)
  end.

(** ** What a call and its request are *)

Record waiting c (x : pcall) : Prop := {
  wt_heap : heap c !! pid x = Some (pcall_of x);
  wt_pending : pending c !! pnum x = Some (pid x);
  wt_num : 0 <= pnum x < two64;
  wt_raw : cRaw (pcall_of x) = false;
  wt_reply : cReply (pcall_of x) = Some (pr0 x);
  wt_decoded : decoded codec (preply x) (Some (pr0 x)) = Ok (Some (pr1 x), None)
}.

Record sendable (x : pcall) : Prop := {
  sd_heartbeat : isHeartbeatCall (pcall_of x) = false;
  sd_data : CodecEncode codec (cArgs (pcall_of x)) = Ok (pdata x);
  sd_kvs : pkvs x ≡ₚ map_to_list (default ∅ (cMetadata (pcall_of x)));
  sd_message : hdr (pm0 x) = newHeader /\ Metadata (pm0 x) = None /\ cap (Message.data (pm0 x)) < 1024
}.

(** The request of a call, as far as a service can see it. *)
Record request_of (x : pcall) (req : message) : Prop := {
  rq_path : ServicePath req = cServicePath (pcall_of x);
  rq_method : ServiceMethod req = cServiceMethod (pcall_of x);
  rq_metadata : Metadata req = norm_meta (cMetadata (pcall_of x));
  rq_payload : Payload req = pdata x;
  rq_serialize : SerializeType (hdr req) = st
}.

(** A request that belongs to a call on the connection. *)
Record belongs (x : pcall) (req : message) : Prop := {
  bl_request : request_of x req;
  bl_seq : Seq (hdr req) = pnum x;
  bl_oneway : IsOneway (hdr req) = false;
  bl_heartbeat : IsHeartbeat (hdr req) = false;
  bl_wf : Header_wf (hdr req) /\ CheckMagicNumber (hdr req) = true /\ MessageStatusType (hdr req) = Normal
}.

(** The server can serve the call, whatever it served before. *)
Definition servable (x : pcall) : Prop :=
  forall req, request_of x req -> forall w, exists w', served scodecs zero s req w w' (preply x).

Definition fits (bs : list byte) : Prop := Z.of_nat (length bs) < two32.

(** Bytes that a client reads as the answer of a call. *)
Definition answer_for (x : pcall) (ans : list byte) : Prop :=
  fits ans -> forall tail fn, exists res,
    Decode cs 0 (mk_reader (ans ++ tail) fn, NewMessage) = ((mk_reader tail fn, res), Ok tt) /\
    Seq (hdr res) = pnum x /\ MessageType (hdr res) = Response /\ MessageStatusType (hdr res) = Normal /\
    Metadata res = None /\ SerializeType (hdr res) = st /\ Payload res = preply x.

(** ** Sending *)
Lemma send_one x c : ccodecs st = Some codec -> st .& x0f = st -> oSerializeType (option_ c) = st ->
  waiting c x -> sendable x ->
  exists bs, send_finish ccodecs cs cget (fun m => m) (fun _ => None) (pid x) (pnum x) (pm0 x) (pkvs x) c =
      (set_written (written c ++ [bs]) c, Ok tt) /\
    (fits bs -> forall m tail fn, Header_wf (hdr m) -> Metadata m = None ->
       exists req, Decode cs 0 (mk_reader (bs ++ tail) fn, m) = ((mk_reader tail fn, req), Ok tt) /\ belongs x req).
Proof.
  intros Hco Hst Hopt [Hh _ Hn _ Hr _] [Hhb Hdata Hkvs (Hm1 & Hm2 & Hm3)].
  assert (Hco' : ccodecs (if isHeartbeatCall (pcall_of x) then MsgPack else oSerializeType (option_ c)) = Some codec)
    by (by rewrite Hhb, Hopt).
  destruct (send_written ccodecs cs cget (pid x) (pnum x) (pm0 x) (pkvs x) (pcall_of x) codec (pdata x) c Hh Hm1 Hm3 Hco' Hdata)
    as (bs & h & _ & E).
  exists bs. split; [exact E|]. intros Hfit m tail fn Hmw Hmm.
  destruct (send_reads ccodecs cs cget 0 (pid x) (pnum x) (pm0 x) m (pkvs x) (pcall_of x) codec (pdata x) c tail fn
    Hh Hm1 Hm2 Hm3 Hmw Hmm Hco' Hdata Hkvs) as (bs' & c' & E' & Hw' & Hreq).
  rewrite E in E'. injection E' as <-. cbn [written set_written] in Hw'. apply app_inv_head in Hw'. injection Hw' as <-.
  destruct (Hreq Hfit) as (req & Hd & Hsp & Hsm & Hmd & Hpl & Ht & Hseq & Hone & Hhbr & Hw & Hmagic & Hstat & Hsr); [lia|].
  exists req. split; [done|]. rewrite Hhb in Hhbr, Hsr. rewrite Hopt, Hst in Hsr. rewrite u64_small in Hseq by done.
  rewrite Hr in Hone. by split.
Qed.

Definition pooled (m : message) : Prop := Header_wf (hdr m) /\ Metadata m = None.

(** All calls are written, and read in their order. *)
Lemma pipeline_reads xs c : ccodecs st = Some codec -> st .& x0f = st -> oSerializeType (option_ c) = st ->
  Forall (waiting c) xs -> Forall sendable xs ->
  exists frames, send_all xs c = (set_written (written c ++ frames) c, Ok tt) /\ length frames = length xs /\
    (Forall fits frames -> forall ms tail fn, Forall pooled ms -> length ms = length xs ->
       exists reqs, read_all ms (mk_reader (concat frames ++ tail) fn) = (mk_reader tail fn, Ok reqs) /\ Forall2 belongs xs reqs).
Proof.
  intros Hco Hst Hopt Hw Hs. revert c Hopt Hw. induction Hs as [|x xs Hx _ IH]; intros c Hopt Hw.
  - exists []. split; [cbn; by destruct c; cbn; rewrite app_nil_r|]. split; [done|]. intros _ [|m ms] tail fn _ Hl; [|done].
    exists []. by split.
  - apply Forall_cons in Hw as [Hwx Hws].
    destruct (send_one x c Hco Hst Hopt Hwx Hx) as (bs & E & Hread). cbn [send_all]. rewrite E.
    destruct (IH (set_written (written c ++ [bs]) c) Hopt) as (frames & E' & Hl & Hreads).
    { eapply Forall_impl; [exact Hws|]. intros y [H1 H2 H3 H4 H5 H6]. by split. }
    exists (bs :: frames). cbn [length]. split; [rewrite E'; cbn; by rewrite <- app_assoc|]. split; [by rewrite Hl|].
    intros Hfit [|m ms] tail fn Hms Hlen; [done|]. apply Forall_cons in Hfit as [Hf Hfs]. apply Forall_cons in Hms as [[Hm1 Hm2] Hms].
    cbn [concat read_all]. rewrite <- app_assoc.
    destruct (Hread Hf m (concat frames ++ tail) fn Hm1 Hm2) as (req & -> & Hb).
    destruct (Hreads Hfs ms tail fn Hms) as (reqs & -> & Hreqs); [by injection Hlen|].
    exists (req :: reqs). split; [done|]. by constructor.
Qed.

(** ** Serving *)
Lemma serve_one x req w : blank_msg c0 -> servable x -> belongs x req ->
  exists w' ans, serve_request scodecs zero cs sget order s c0 req w = (w', Ok [ans]) /\ answer_for x ans.
Proof.
  intros Hc0 Hs [Hrq Hseq Hone Hhb (Hw & Hmagic & Hstat)]. destruct (Hs req Hrq w) as [w' Hserved].
  assert (Hpr : plain_request s req) by (split; try done; apply Hserved).
  destruct (served_reads scodecs zero cs sget order order_perm s c0 req w w' (preply x) Hc0 Hpr Hone Hserved) as (ans & E & Hans).
  exists w', ans. split; [done|]. intros Hfit tail fn.
  destruct (Hans 0 NewMessage tail fn newHeader_wf eq_refl Hfit) as (res & Hd & Ha & Hst' & Hpl & Hmd); [lia|].
  exists res. split; [done|]. split_and!.
  - by rewrite (ans_seq _ _ Ha).
  - apply Ha.
  - rewrite Hst'. exact (eq_trans (response_status c0 req Hw) Hstat).
  - rewrite Hmd. cbn. by rewrite (proj1 Hc0).
  - rewrite (ans_serialize _ _ Ha). apply Hrq.
  - by rewrite Hpl.
Qed.

Lemma serve_all_answers ps w : blank_msg c0 -> Forall (fun p => servable p.1 /\ belongs p.1 p.2) ps ->
  exists w' anss, serve_all ps.*2 w = (w', Ok anss) /\ Forall2 (fun p ans => answer_for p.1 ans) ps anss.
Proof.
  intros Hc0 Hps. revert w. induction Hps as [|[x req] ps [Hx Hb] _ IH]; intros w; [by eexists _, []|].
  cbn [fmap list_fmap serve_all]. unfold mbind, prog_bind. cbn [fst snd] in *.
  destruct (serve_one x req w Hc0 Hx Hb) as (w1 & ans & -> & Ha). destruct (IH w1) as (w2 & anss & -> & Has).
  exists w2, (ans :: anss). split; [done|]. by constructor.
Qed.

(** ** Receiving *)

(** What completing calls does to the client. *)
Record completed (xs : list pcall) c c' : Prop := {
  cp_pending n : pending c' !! n = if bool_decide (n ∈ pnum <$> xs) then None else pending c !! n;
  cp_dones : dones c' = dones c ++ (pid <$> xs);
  cp_reply x : x ∈ xs -> heap c' !! pid x = Some (with_Reply (Some (pr1 x)) (pcall_of x));
  cp_other i : i ∉ pid <$> xs -> heap c' !! i = heap c !! i
}.

Lemma receive_one x c res : ccodecs st = Some codec -> waiting c x ->
  Seq (hdr res) = pnum x -> MessageType (hdr res) = Response -> MessageStatusType (hdr res) = Normal ->
  Metadata res = None -> SerializeType (hdr res) = st -> Payload res = preply x ->
  exists c', input_message ccodecs (fun m => m) corder res c = (c', Ok None) /\
    pending c' = delete (pnum x) (pending c) /\ dones c' = dones c ++ [pid x] /\
    heap c' = <[pid x := with_Reply (Some (pr1 x)) (pcall_of x)]> (heap c).
Proof.
  intros Hco [Hh Hp Hn Hraw Hr Hd] Hseq Ht Hst Hmd Hsr Hpl. rewrite <- Hseq.
  apply (answered_call ccodecs corder res c (pid x) (pcall_of x) codec (Some (pr1 x))); try done.
  - by rewrite Hseq.
  - by rewrite Hsr.
  - by rewrite Hpl, Hr.
Qed.

Lemma receive_all ps c fuel addr tail fn : ccodecs st = Some codec ->
  NoDup (pnum <$> ps.*1) -> NoDup (pid <$> ps.*1) ->
  Forall (fun p => waiting c p.1 /\ answer_for p.1 p.2 /\ fits p.2) ps ->
  exists c', completed ps.*1 c c' /\
    input ccodecs cs (fun m => m) corder (length ps + fuel) addr (mk_reader (concat ps.*2 ++ tail) fn) c =
    input ccodecs cs (fun m => m) corder fuel addr (mk_reader tail fn) c'.
Proof.
  intros Hco. revert c. induction ps as [|[x ans] ps IH]; intros c Hnum Hid Hps.
  - exists c. split; [split; cbn; try done|done].
    + by rewrite app_nil_r.
    + by intros x ?%elem_of_nil.
  - cbn [fmap list_fmap fst snd] in Hnum, Hid. apply NoDup_cons in Hnum as [Hnx Hnum], Hid as [Hix Hid].
    apply Forall_cons in Hps as [(Hw & Ha & Hf) Hps]. cbn [fst snd] in *.
    destruct (Ha Hf (concat ps.*2 ++ tail) fn) as (res & Hd & Hres).
    destruct (receive_one x c res Hco Hw) as (c1 & E & Hp1 & Hd1 & Hh1); [apply Hres..|].
    destruct (IH c1 Hnum Hid) as (c2 & Hc2 & E2).
    { eapply Forall_impl; [apply Forall_and; split; [exact Hps|]|].
      - apply Forall_forall. intros p Hp. exact (conj Hp Hp).
      - cbn. intros p [([H1 H2 H3 H4 H5 H6] & H7 & H8) [Hin _]]. split; [|done].
        assert (Hin' : p.1 ∈ ps.*1) by (by apply list_elem_of_fmap_2).
        split; try done.
        + rewrite Hh1, lookup_insert_ne; [done|]. intros Heq. apply Hix. rewrite Heq. by apply list_elem_of_fmap_2.
        + rewrite Hp1, lookup_delete_ne; [done|]. intros Heq. apply Hnx. rewrite Heq. by apply list_elem_of_fmap_2. }
    exists c2. split.
    + destruct Hc2 as [Hp2 Hd2 Hr2 Ho2]. split; cbn [fmap list_fmap fst].
      * intros n. rewrite Hp2, Hp1. destruct (decide (n = pnum x)) as [->|Hne].
        -- rewrite lookup_delete_eq, (bool_decide_eq_true_2 (pnum x ∈ pnum x :: _)) by left. by case_bool_decide.
        -- rewrite lookup_delete_ne by done. do 2 case_bool_decide; try done; set_solver.
      * by rewrite Hd2, Hd1, <- app_assoc.
      * intros y [->|Hy]%elem_of_cons; [|by apply Hr2]. rewrite Ho2 by done. by rewrite Hh1, lookup_insert_eq.
      * intros i [Hi1 Hi2]%not_elem_of_cons. rewrite Ho2 by done. by rewrite Hh1, lookup_insert_ne.
    + cbn [length plus concat fmap list_fmap fst snd input]. rewrite <- app_assoc, Hd, E. exact E2.
Qed.

Lemma Forall_zip_belongs xs reqs : Forall servable xs -> Forall2 belongs xs reqs ->
  Forall (fun p => servable p.1 /\ belongs p.1 p.2) (zip xs reqs).
Proof. intros Hs Hb. induction Hb as [|x req xs reqs Hx _ IH]; [done|]. inversion Hs; subst. constructor; [done|by apply IH]. Qed.

Lemma Forall_zip_answers c (run : list (pcall * message)) anss : Forall (waiting c) run.*1 -> Forall fits anss ->
  Forall2 (fun p ans => answer_for p.1 ans) run anss ->
  Forall (fun p => waiting c p.1 /\ answer_for p.1 p.2 /\ fits p.2) (zip run.*1 anss).
Proof.
  intros Hw Hf Ha. induction Ha as [|p ans run anss Hp _ IH]; [done|]. inversion Hw; inversion Hf; subst.
  constructor; [done|by apply IH].
Qed.

(** C3: calls that are pipelined on one connection do not get in each other's way.
    They are sent without waiting for answers; the server reads exactly their
    requests from the stream; however its goroutines run and in whatever order
    they write their answers, the client's input loop completes every one of the
    calls, once, without an error and with its own reply, in the order of the
    answers, touches no other call, and is left with what comes after them. *)
Theorem calls_pipelined c xs :
  ccodecs st = Some codec -> st .& x0f = st -> oSerializeType (option_ c) = st -> blank_msg c0 ->
  NoDup (pnum <$> xs) -> NoDup (pid <$> xs) -> Forall (waiting c) xs -> Forall sendable xs -> Forall servable xs ->
  exists frames c1, send_all xs c = (c1, Ok tt) /\ written c1 = written c ++ frames /\
    (Forall fits frames -> forall ms rest fn, Forall pooled ms -> length ms = length xs ->
     exists reqs, read_all ms (mk_reader (concat frames ++ rest) fn) = (mk_reader rest fn, Ok reqs) /\
       Forall2 belongs xs reqs /\
       forall run, run ≡ₚ zip xs reqs -> forall w,
       exists w' anss, serve_all run.*2 w = (w', Ok anss) /\
         (Forall fits anss -> forall out, out ≡ₚ zip run.*1 anss -> forall fuel addr tail fn',
          exists c2, out.*1 ≡ₚ xs /\ completed out.*1 c1 c2 /\
            input ccodecs cs (fun m => m) corder (length xs + fuel) addr (mk_reader (concat out.*2 ++ tail) fn') c1 =
            input ccodecs cs (fun m => m) corder fuel addr (mk_reader tail fn') c2)).
Proof.
  intros Hco Hst Hopt Hc0 Hnum Hid Hw Hsd Hsv.
  destruct (pipeline_reads xs c Hco Hst Hopt Hw Hsd) as (frames & E & Hlf & Hread).
  eexists frames, _. split; [exact E|]. split; [done|]. intros Hfit ms rest fn Hms Hlen.
  destruct (Hread Hfit ms rest fn Hms Hlen) as (reqs & Er & Hb). exists reqs. split; [exact Er|]. split; [done|].
  intros run Hrun w.
  assert (Hlr : length xs = length reqs) by (by apply Forall2_length in Hb).
  assert (Hrun1 : run.*1 ≡ₚ xs) by (rewrite Hrun, fst_zip by lia; done).
  destruct (serve_all_answers run w Hc0) as (w' & anss & Es & Ha).
  { rewrite Hrun. apply Forall_zip_belongs; done. }
  exists w', anss. split; [exact Es|]. intros Hfa out Hout fuel addr tail fn'.
  assert (Hla : length run = length anss) by (by apply Forall2_length in Ha).
  assert (Hout1 : out.*1 ≡ₚ xs) by (rewrite Hout, fst_zip by (rewrite length_fmap; lia); exact Hrun1).
  destruct (receive_all out (set_written (written c ++ frames) c) fuel addr tail fn' Hco) as (c2 & Hc2 & E2).
  - by rewrite Hout1.
  - by rewrite Hout1.
  - rewrite Hout. apply Forall_zip_answers; try done. rewrite Hrun1. eapply Forall_impl; [exact Hw|].
    intros x [H1 H2 H3 H4 H5 H6]. by split.
  - exists c2. split; [done|]. split; [done|].
    replace (length xs) with (length out); [exact E2|]. rewrite <- (length_fmap fst out). by rewrite Hout1.
Qed.
End pipeline.

(** ** Witness: 6 times 7 and 2 times 3, answered in the other order *)
Definition two_client : Client arith arith :=
  let cl := set_heap {[0%nat := proto_call 6 7; 1%nat := proto_call 2 3]} (set_chans {[0%nat := mk_chan 2 []]}
              (NewClient (mk_Option ProtoBuffer None_ false))) in
  (send_register (client_codecs Codecs) 1 (send_register (client_codecs Codecs) 0 cl).1).1.

Definition six_seven : pcall (A := arith) (R := arith) :=
  mk_pcall 0 0 (proto_call 6 7) NewMessage [] [x08; x06; x10; x07] [x08; x2a] (VReply (mk_ProtoReply 9)) (VReply (mk_ProtoReply 42)).
Definition two_three : pcall (A := arith) (R := arith) :=
  mk_pcall 1 1 (proto_call 2 3) NewMessage [] [x08; x02; x10; x03] [x08; x06] (VReply (mk_ProtoReply 9)) (VReply (mk_ProtoReply 6)).

Notation proto_codec := (client_codec (mk_GoCodec PBCodec_Encode PBCodec_Decode)).

Lemma proto_servable x a b r : pcall_of x = proto_call a b ->
  Decode_ (server_codec (mk_GoCodec PBCodec_Encode PBCodec_Decode)) (pdata x) (zero_arith args_ptr) = Ok (VArgs (mk_ProtoArgs a b), None) ->
  i32 (a * b) = r ->
  Encode_ (server_codec (mk_GoCodec PBCodec_Encode PBCodec_Decode)) (Some (VReply (mk_ProtoReply r))) = Ok (preply x, None) ->
  servable (server_codecs Codecs) zero_arith ProtoBuffer proto_server x.
Proof.
  intros Hx Hdec Hr Henc req [Hp Hm _ Hd Hs] []. exists tt. rewrite Hx in Hp, Hm. cbn in Hp, Hm.
  split; [reflexivity|apply lookup_empty|].
  exists (mk_service "Arith" {["Mul" := mk_methodType mul_proto args_ptr reply_ptr]} None),
    (mk_methodType mul_proto args_ptr reply_ptr), (server_codec (mk_GoCodec PBCodec_Encode PBCodec_Decode)),
    (VArgs (mk_ProtoArgs a b)), (VReply (mk_ProtoReply r)).
  rewrite Hp, Hm, Hd, Hs. split_and!; try reflexivity; try done. cbn. by rewrite Hr.
Qed.

Lemma calls_pipelined_witness :
  exists frames c1 reqs anss c2,
    send_all (client_codecs Codecs) raw_compressors dirty_get [six_seven; two_three] two_client = (c1, Ok tt) /\
    written c1 = frames /\
    read_all raw_compressors [NewMessage; NewMessage] (mk_reader (concat frames) EOF) = (mk_reader [] EOF, Ok reqs) /\
    serve_all (server_codecs Codecs) zero_arith raw_compressors dirty_get map_to_list proto_server NewMessage (reverse reqs) tt =
      (tt, Ok anss) /\
    input (client_codecs Codecs) raw_compressors (fun m => m) (fun _ => []) 3 "" (mk_reader (concat anss) EOF) c1 =
      input (client_codecs Codecs) raw_compressors (fun m => m) (fun _ => []) 1 "" (mk_reader [] EOF) c2 /\
    dones c2 = [1%nat; 0%nat] /\
    heap c2 !! 0%nat = Some (with_Reply (Some (VReply (mk_ProtoReply 42))) (proto_call 6 7)) /\
    heap c2 !! 1%nat = Some (with_Reply (Some (VReply (mk_ProtoReply 6))) (proto_call 2 3)).
Proof.
  destruct (calls_pipelined (client_codecs Codecs) (server_codecs Codecs) zero_arith raw_compressors dirty_get dirty_get
    map_to_list (fun _ => []) (fun _ => reflexivity _) ProtoBuffer proto_codec proto_server NewMessage two_client
    [six_seven; two_three]) as (frames & c1 & Es & Hw & H); [reflexivity|reflexivity|reflexivity|done| | | | | |].
  - apply (bool_decide_unpack _). vm_compute. exact I.
  - apply (bool_decide_unpack _). vm_compute. exact I.
  - repeat constructor; done.
  - repeat constructor; done.
  - repeat constructor; [by apply (proto_servable six_seven 6 7 42)|by apply (proto_servable two_three 2 3 6)].
  - assert (Hc1 : c1 = (send_all (client_codecs Codecs) raw_compressors dirty_get [six_seven; two_three] two_client).1) by (by rewrite Es).
    assert (Hf : frames = written c1) by (by rewrite Hw). vm_compute in Hc1. rewrite Hc1 in Hf. cbn [written] in Hf.
    destruct (H ltac:(rewrite Hf; repeat constructor; vm_compute; reflexivity) [NewMessage; NewMessage] [] EOF)
      as (reqs & Er & Hb & Hserve); [repeat constructor; done|done|]. rewrite app_nil_r in Er.
    assert (Hr : reqs = match (read_all raw_compressors [NewMessage; NewMessage] (mk_reader (concat frames) EOF)).2 with Ok l => l | _ => [] end)
      by (by rewrite Er).
    rewrite Hf in Hr. vm_compute in Hr.
    destruct (Hserve (reverse (zip [six_seven; two_three] reqs)) (reverse_Permutation _) tt) as ([] & anss & Ea & Hout).
    assert (Ha : anss = match (serve_all (server_codecs Codecs) zero_arith raw_compressors dirty_get map_to_list proto_server NewMessage
      (reverse reqs) tt).2 with Ok l => l | _ => [] end).
    { rewrite Hr in Ea |- *. cbn [zip zip_with reverse rev_append fmap list_fmap snd] in Ea |- *. by rewrite Ea. }
    rewrite Hr in Ha. vm_compute in Ha.
    destruct (Hout ltac:(rewrite Ha; repeat constructor; vm_compute; reflexivity)
      (zip (reverse (zip [six_seven; two_three] reqs)).*1 anss) (reflexivity _) 1%nat "" [] EOF) as (c2 & _ & Hc2 & Ein).
    exists frames, c1, reqs, anss, c2. split; [exact Es|]. split; [by rewrite Hw|]. split; [exact Er|].
    rewrite Hr in Ea, Hc2, Ein |- *. rewrite Ha in Hc2, Ein, Ea |- *.
    cbn [zip zip_with reverse rev_append fmap list_fmap fst snd length plus] in Ea, Hc2, Ein |- *. rewrite app_nil_r in Ein.
    split; [exact Ea|]. split; [exact Ein|]. split; [by rewrite (cp_dones _ _ _ Hc2), Hc1|].
    split; [apply (cp_reply _ _ _ Hc2 six_seven); right; left|apply (cp_reply _ _ _ Hc2 two_three); left].
Defined.
