(* ===== verification/Gateway.v ===== *)
(** server/converter.go and server/gateway.go: requests that come over HTTP and
    the answers to them. *)
From Stdlib Require Import Strings.Ascii.
From S2P Require Import Prelude Go Share Header Message MessageFacts UrlQuery Selectors Plugins ServerPlugins.
From S2P Require Import Service Server ServerFacts.
Open Scope go_scope.

(** ** HTTP headers

    [http.Header] is a map from canonical keys to values; [Get] and [Set]
    canonicalise their key: upper case at the start and after a hyphen, lower
    case elsewhere. *)
Definition to_upper (c : Ascii.ascii) : Ascii.ascii :=
  let n := Ascii.nat_of_ascii c in if ((97 <=? n) && (n <=? 122))%nat then Ascii.ascii_of_nat (n - 32) else c.
Definition to_lower (c : Ascii.ascii) : Ascii.ascii :=
  let n := Ascii.nat_of_ascii c in if ((65 <=? n) && (n <=? 90))%nat then Ascii.ascii_of_nat (n + 32) else c.

Fixpoint canonical_from (upper : bool) (s : string) : string :=
  match s with
  | "" => ""
  | String c s => String (if upper then to_upper c else to_lower c) (canonical_from (bool_decide (c = "-"%char)) s)
  end.
Definition CanonicalMIMEHeaderKey : string -> string := canonical_from true.

Notation httpHeader := (gmap string (list string)).

Definition hGet (k : string) (h : httpHeader) : string :=
  match h !! CanonicalMIMEHeaderKey k with Some (v :: _) => v | _ => "" end.
Definition hSet (k v : string) (h : httpHeader) : httpHeader := <[CanonicalMIMEHeaderKey k := [v]]> h.

(** The constants of converter.go. *)
Definition gXVersion : string := "X-IRPC-Version".
Definition gXHeartbeat : string := "X-IRPC-Heartbeat".
Definition gXOneway : string := "X-IRPC-Oneway".
Definition gXMessageStatusType : string := "X-IRPC-MessageStatusType".
Definition gXSerializeType : string := "X-IRPC-SerializeType".
Definition gXMessageID : string := "X-IRPC-MessageID".
Definition gXServicePath : string := "X-IRPC-ServicePath".
Definition gXServiceMethod : string := "X-IRPC-ServiceMethod".
Definition gXMeta : string := "X-IRPC-Meta".
Definition gXErrorMessage : string := "X-IRPC-ErrorMessage".

(** [strconv.ParseUint(s, 10, 64)]. *)
Definition ParseUint (s : string) : option Z :=
  match bytes_of s with
  | [] => None
  | ds => n ← digits 0 ds; if n <? two64 then Some n else None
  end.

(** The metadata of a query: the first value of each key. *)
Definition first_values (vs : list (list byte * list byte)) : gmap string string :=
  foldr (fun '(k, v) m => <[string_of k := string_of v]> m) ∅ vs.

Definition number_error : error := Foreign "strconv: invalid syntax".

(** The metadata of the header [X-IRPC-Meta], [md] without it; [None] when it
    does not parse. *)
Definition meta_of (md : option (gmap string string)) (meta : string) : option (option (gmap string string)) :=
  if decide (meta = "") then Some md
  else let '(vs, ok) := ParseQuery (bytes_of meta) in if (ok : bool) then Some (Some (first_values vs)) else None.

(** [HTTPRequest2IrpcRequest]: [m] is the message from the pool, [body] what
    reading the body gives. *)
Definition HTTPRequest2IrpcRequest (m : message) (h : httpHeader) (body : list byte + error) : message + error :=
  let hd := SetMessageType Request (hdr m) in
  let seq := hGet gXMessageID h in
  match (if decide (seq = "") then Some hd else (fun id => SetSeq id hd) <$> ParseUint seq) with
  | None => inr number_error
  | Some hd =>
  let hd := if decide (hGet gXHeartbeat h = "") then hd else SetHeartbeat true hd in
  let hd := if decide (hGet gXOneway h = "") then hd else SetOneway true hd in
  let st := hGet gXSerializeType h in
  match (if decide (st = "") then Some hd else (fun rst => SetSerializeType (zb rst) hd) <$> Atoi st) with
  | None => inr number_error
  | Some hd =>
  match meta_of (Metadata m) (hGet gXMeta h) with
  | None => inr (Foreign "invalid URL escape")
  | Some md =>
  let auth := hGet "Authorization" h in
  let md := if decide (auth = "") then md else Some (<[AuthKey := auth]> (default ∅ md)) in
  match body with
  | inr e => inr e
  | inl p => inl (mk_message hd (hGet gXServicePath h) (hGet gXServiceMethod h) md p (data m))
  end
  end
  end
  end.

(** ** Answers *)

(** A [http.ResponseWriter]: its headers, the status once one is written (200
    when nothing says otherwise) and the body. *)
Record httpResponse : Type := mk_httpResponse { wh : httpHeader; status : option Z; wbody : list byte }.

Definition empty_response : httpResponse := mk_httpResponse ∅ None [].

Definition rSet (k v : string) (r : httpResponse) : httpResponse := mk_httpResponse (hSet k v (wh r)) (status r) (wbody r).
Definition WriteHeader (code : Z) (r : httpResponse) : httpResponse :=
  mk_httpResponse (wh r) (match status r with None => Some code | Some c => Some c end) (wbody r).
Definition rWrite (p : list byte) (r : httpResponse) : httpResponse :=
  let r := WriteHeader 200 r in mk_httpResponse (wh r) (status r) (wbody r ++ p).

(** [http.Error]. *)
Definition httpError (msg : string) (code : Z) (r : httpResponse) : httpResponse :=
  rWrite (bytes_of msg ++ ["010"%byte])
    (WriteHeader code (rSet "X-Content-Type-Options" "nosniff" (rSet "Content-Type" "text/plain; charset=utf-8" r))).

(** [url.Values.Encode]: the pairs by sorted key. *)
Definition encode_values (m : gmap string string) : string :=
  let pair k := string_of (QueryEscape (bytes_of k)) +:+ "=" +:+ string_of (QueryEscape (bytes_of (default "" (m !! k)))) in
  match sort_strings (map_to_list m).*1 with
  | [] => ""
  | k :: ks => fold_left (fun s k => s +:+ "&" +:+ pair k) ks (pair k)
  end.

(** [strings.HasPrefix]. *)
Definition HasPrefix (s p : string) : bool := String.prefix p s.

Section gateway.
Context {W V : Type}.
Context (codecs : byte -> option (ServerCodec V)) (zero : gtype -> V)
        (order : gmap string string -> list (string * string)).

(** The three checks of the headers a request needs: each empty one is an
    error when there is none before it, else the header is echoed. *)
Definition check_header (k v msg : string) (err : option error) (r : httpResponse) : option error * httpResponse :=
  match err with
  | None => if decide (v = "") then (Some (ErrorString msg), r) else (None, rSet k v r)
  | Some e => (Some e, rSet k v r)
  end.

(** The error headers; the request's headers with the prefix are echoed. *)
Definition echo_headers (h : httpHeader) (r : httpResponse) : httpResponse :=
  fold_left (fun r '(k, v) =>
    match v with x :: _ => if HasPrefix k "X-IRPC-" then rSet k x r else r | [] => r end) (map_to_list h) r.

Definition fail_headers (e : error) (r : httpResponse) : httpResponse :=
  rSet gXErrorMessage (Error e) (rSet gXMessageStatusType "Error" r).

(** The metadata of the context overwrites that of the answer. *)
Definition merge_metadata (rm : gmap string string) (res : message) : message :=
  if decide (rm = ∅) then res else set_Metadata (Some (rm ∪ default ∅ (Metadata res))) res.

(** The state of the handler: the world and the response. *)
Definition wstate : Type := W * httpResponse.

Definition with_world {A} (p : prog W A) : prog wstate A := fun '(w, r) => let '(w, x) := p w in ((w, r), x).
Definition respond (f : httpResponse -> httpResponse) : prog wstate unit := modify (fun '(w, r) => (w, f r)).

(** [handleGatewayRequest]: [m] and [c] are messages from the pool, [path] the
    path of the URL. *)
Definition handleGatewayRequest (s : config W V) (m c : message) (path : string) (h : httpHeader)
    (body : list byte + error) : prog wstate unit :=
  err ← with_world (DoPreReadRequest (Plugins s));
  match err with
  | Some e => respond (httpError (Error e) 500)
  | None =>
  let h := if decide (hGet gXServicePath h = "")
           then hSet gXServicePath (match path with String "/" p => p | p => p end) h else h in
  let servicePath := hGet gXServicePath h in
  let conv := HTTPRequest2IrpcRequest m h body in
  respond (fun r => rSet gXMessageID (hGet gXMessageID h) (rSet gXVersion (hGet gXVersion h) r));;
  '(_, r) ← get_st;
  let '(err, r) := check_header gXServicePath servicePath "empty servicePath"
                     (match conv with inl _ => None | inr e => Some e end) r in
  let '(err, r) := check_header gXServiceMethod (hGet gXServiceMethod h) "empty serviceMethod" err r in
  let '(err, r) := check_header gXSerializeType (hGet gXSerializeType h) "empty serialized type" err r in
  respond (fun _ => r);;
  match err, conv with
  | Some e, _ => respond (fun r => fail_headers e (echo_headers h r))
  | None, inr _ => lift Panic
  | None, inl req =>
  '(req, err) ← with_world (DoPostReadRequest None (Plugins s) req);
  match err with
  | Some e =>
      _ ← with_world (DoPreWriteResponse (Some e) (Plugins s) (req, None));
      respond (httpError (Error e) 500);;
      _ ← with_world (DoPostWriteResponse (Some e) (Plugins s) (req, Some (Clone req c)));
      mret tt
  | None =>
  '(req, err) ← with_world (auth s req);
  match err with
  | Some e =>
      _ ← with_world (DoPreWriteResponse (Some e) (Plugins s) (req, None));
      respond (fun r => WriteHeader 401 (fail_headers e r));;
      _ ← with_world (DoPostWriteResponse (Some e) (Plugins s) (req, Some (Clone req c)));
      mret tt
  | None =>
  '(w, r) ← get_st;
  let '((w, rm), x) := handleRequest codecs zero s c req (w, ∅) in
  put_st (w, r);;
  '(res, err) ← lift x;
  match err with
  | Some e =>
      _ ← with_world (DoPreWriteResponse (Some e) (Plugins s) (req, None));
      respond (fun r => WriteHeader 500 (fail_headers e r));;
      _ ← with_world (DoPostWriteResponse (Some e) (Plugins s) (req, Some (Clone req c)));
      mret tt
  | None =>
      '((req, res'), _) ← with_world (DoPreWriteResponse None (Plugins s) (req, Some res));
      let res := merge_metadata rm (default res res') in
      respond (fun r => rWrite (Payload res) (rSet gXMeta (encode_values (default ∅ (Metadata res))) r));;
      _ ← with_world (DoPostWriteResponse None (Plugins s) (req, Some res));
      mret tt
  end
  end
  end
  end
  end.

(** ** What comes back over HTTP *)
Context (cs : compressors) (get : Z -> list byte).
Context `{!CompressorLaws cs, !BufferGet get} (order_perm : forall m, order m ≡ₚ map_to_list m).

Lemma check_header_ok k v msg r : v <> "" -> check_header k v msg None r = (None, rSet k v r).
Proof. intros Hv. unfold check_header. by rewrite decide_False. Qed.

Lemma hGet_hSet_ne k k' v h : CanonicalMIMEHeaderKey k <> CanonicalMIMEHeaderKey k' ->
  hGet k (hSet k' v h) = hGet k h.
Proof. intros Hne. unfold hGet, hSet. by rewrite lookup_insert_ne. Qed.

Lemma hGet_hSet k v h : hGet k (hSet k v h) = v.
Proof. unfold hGet, hSet. by rewrite lookup_insert_eq. Qed.

(** A complete request on a server without plugins and authentication. *)
Lemma gateway_runs (s : config W V) m c path h body req w w' rm res err :
  Plugins s = [] -> AuthFunc s = None ->
  hGet gXServicePath h <> "" -> hGet gXServiceMethod h <> "" -> hGet gXSerializeType h <> "" ->
  HTTPRequest2IrpcRequest m h body = inl req ->
  handleRequest codecs zero s c req (w, ∅) = ((w', rm), Ok (res, err)) ->
  let h0 := hSet gXSerializeType (hGet gXSerializeType h) (hSet gXServiceMethod (hGet gXServiceMethod h)
    (hSet gXServicePath (hGet gXServicePath h) (hSet gXMessageID (hGet gXMessageID h)
      (hSet gXVersion (hGet gXVersion h) ∅)))) in
  handleGatewayRequest s m c path h body (w, empty_response) =
    ((w', match err with
          | None => mk_httpResponse (hSet gXMeta (encode_values (default ∅ (Metadata (merge_metadata rm res)))) h0)
                      (Some 200) (Payload (merge_metadata rm res))
          | Some e => WriteHeader 500 (fail_headers e (mk_httpResponse h0 None []))
          end), Ok tt).
Proof.
  intros Hpl Hau Hp Hm Ht Hconv Hr h0. unfold handleGatewayRequest. rewrite Hpl, (decide_False (P := hGet gXServicePath h = "")) by done.
  unfold auth. rewrite Hau, Hconv.
  unfold respond, modify, get_st, put_st, lift, mbind, prog_bind, mret, prog_ret, DoPreReadRequest, mbind, prog_bind, mret.
  cbn beta iota delta [with_world until_error prog_ret]. unfold mret, prog_ret. cbn beta iota.
  rewrite !check_header_ok by done. cbn beta iota delta [DoPostReadRequest until_error].
  unfold mret, prog_ret. cbn beta iota delta [with_world]. rewrite Hr.
  destruct err; cbn beta iota delta [DoPreWriteResponse DoPostWriteResponse until_error]; unfold mret, prog_ret; reflexivity.
Qed.

(** C32: a request that comes over HTTP is answered like the one that comes in a
    frame, up to the status.  The server has no plugins and no authentication.
    When [handleRequest] returns no error, the body of the HTTP answer is the
    payload of the frame that the same message would be answered with, its metadata
    are in [X-IRPC-Meta], and its status is 200 whatever the frame's is: a request
    refused for want of its service or method has status 200 and no
    [X-IRPC-MessageStatusType].  When it returns an error, as for a codec that is
    not there or arguments that do not decode, the HTTP answer has status 500, the error in its headers and
    no body, also where the frame has a payload. *)
Theorem gateway_same_as_rpc (s : config W V) m c path h body req w w' rm res err :
  Plugins s = [] -> AuthFunc s = None ->
  hGet gXServicePath h <> "" -> hGet gXServiceMethod h <> "" -> hGet gXSerializeType h <> "" ->
  HTTPRequest2IrpcRequest m h body = inl req -> plain_request s req -> IsOneway (hdr req) = false ->
  handleRequest codecs zero s c req (w, ∅) = ((w', rm), Ok (res, err)) ->
  (exists r, handleGatewayRequest s m c path h body (w, empty_response) = ((w', r), Ok tt) /\
     match err with
     | None =>
         wbody r = Payload res /\ hGet gXMeta (wh r) = encode_values (default ∅ (Metadata (merge_metadata rm res))) /\
         status r = Some 200 /\ hGet gXMessageStatusType (wh r) = ""
     | Some e =>
         wbody r = [] /\ status r = Some 500 /\ hGet gXMessageStatusType (wh r) = "Error" /\
         hGet gXErrorMessage (wh r) = Error e
     end) /\
  (exists bs, serve_request codecs zero cs get order s c req w = (w', Ok [bs]) /\
     forall m0 tail fn, Header_wf (hdr m0) -> Metadata m0 = None -> Z.of_nat (length bs) < two32 ->
     exists m', Decode cs 0 (mk_reader (bs ++ tail) fn, m0) = ((mk_reader tail fn, m'), Ok tt) /\
       Payload m' = Payload res /\ MessageStatusType (hdr m') = MessageStatusType (hdr res)).
Proof.
  intros Hpl Hau Hp Hm Ht Hconv Hpr Hone Hr. split.
  - eexists. split; [by eapply gateway_runs|]. destruct err as [e|].
    + split; [done|]. split; [done|]. cbn [WriteHeader fail_headers rSet wh].
      split; [rewrite hGet_hSet_ne by (vm_compute; discriminate)|]; apply hGet_hSet.
    + cbn [wbody wh status]. split; [unfold merge_metadata; by case_decide|]. split; [apply hGet_hSet|]. split; [done|].
      rewrite !hGet_hSet_ne by (vm_compute; discriminate). done.
  - assert (Hq : quiet s) by (unfold quiet; rewrite Hpl; constructor).
    pose proof (serve_request_reads codecs zero cs get order order_perm s c req w w' rm res err Hq Hpr Hr) as Hs.
    rewrite Hone in Hs. destruct Hs as (bs & Hs & Hreads). exists bs. split; [done|].
    intros m0 tail fn H0 H1 Hl. destruct (Hreads 0 m0 tail fn H0 H1 Hl) as (m' & Hd & _ & Hst & Hpay & _); [lia|].
    exists m'. split; [done|].
    destruct (copy_metadata_answers order rm req res) as (_ & Eh & Ep);
      [eapply handleRequest_answers; [apply Hpr|exact Hr]|].
    rewrite Hpay, Hst, Eh, Ep. done.
Qed.
End gateway.

(** ** Echoed headers

    No canonical key has the prefix the gateway looks for, so an error answer
    never echoes the headers of its request. *)
Lemma to_lower_not_R c : to_lower c <> "R"%char.
Proof. destruct c as [[] [] [] [] [] [] [] []]; vm_compute; discriminate. Qed.

Lemma to_upper_I c : to_upper c = "I"%char -> c <> "-"%char.
Proof. intros H ->. by vm_compute in H. Qed.

Lemma case_hyphen (b : bool) c : (if b then to_upper c else to_lower c) = "-"%char -> c = "-"%char.
Proof. destruct b, c as [[] [] [] [] [] [] [] []]; vm_compute; congruence. Qed.

Lemma prefix_app p s : String.prefix p s = true -> exists r, s = p +:+ r.
Proof.
  revert s. induction p as [|a p IH]; intros s; [by exists s|]. destruct s as [|b s]; [done|].
  cbn [String.prefix]. destruct (Ascii.ascii_dec a b) as [->|]; [|done]. intros [r ->]%IH. by exists r.
Qed.

Lemma canonical_no_prefix k : HasPrefix (CanonicalMIMEHeaderKey k) "X-IRPC-" = false.
Proof.
  unfold HasPrefix. destruct (String.prefix _ _) eqn:E; [|done]. exfalso.
  apply prefix_app in E as [r E]. unfold CanonicalMIMEHeaderKey in E.
  change ("X-IRPC-" +:+ r) with (String "X" (String "-" (String "I" (String "R" ("PC-" +:+ r))))) in E.
  destruct k as [|a [|b [|c [|d k]]]]; try discriminate E. cbn [canonical_from] in E.
  injection E as _ Eb Ec Ed _. apply case_hyphen in Eb as ->.
  rewrite bool_decide_eq_true_2 in Ec by done. apply to_upper_I in Ec.
  rewrite bool_decide_eq_false_2 in Ed by done. by apply to_lower_not_R in Ed.
Qed.

(** The keys of a header that went through [Set] or the HTTP reader. *)
Lemma echo_headers_none (h : httpHeader) r :
  (forall k v, h !! k = Some v -> exists k', k = CanonicalMIMEHeaderKey k') -> echo_headers h r = r.
Proof.
  intros Hk. unfold echo_headers.
  assert (H : Forall (fun kv => HasPrefix kv.1 "X-IRPC-" = false) (map_to_list h)).
  { apply Forall_forall. intros [k v] Hin%elem_of_map_to_list. apply Hk in Hin as [k' ->]. apply canonical_no_prefix. }
  induction H as [|[k v] kvs Hkv _ IH]; [done|]. cbn [fst] in Hkv. cbn [fold_left map_to_list]. rewrite Hkv. by destruct v.
Qed.

(** ** Witness: the request of the gateway test, without a service *)
Definition test_header : httpHeader :=
  hSet gXServiceMethod "Mul" (hSet gXServicePath "Arith" (hSet gXSerializeType "0" (hSet gXMessageID "10000" ∅))).
Definition converted : message :=
  mk_message (SetSerializeType x00 (SetSeq 10000 newHeader)) "Arith" "Mul" None [x2a] (mk_slice [] 0).

Example test_conversion :
  HTTPRequest2IrpcRequest NewMessage test_header (inl [x2a]) = inl converted.
Proof. vm_compute. reflexivity. Qed.

Lemma gateway_same_as_rpc_witness :
  exists r, handleGatewayRequest raw_codecs (fun _ => []) test_server NewMessage NewMessage "/" test_header
      (inl [x2a]) (tt, empty_response) = ((tt, r), Ok tt) /\
    wbody r = [x2a; x2a] /\ status r = Some 200.
Proof.
  destruct (gateway_same_as_rpc raw_codecs (fun _ => []) map_to_list raw_compressors dirty_get (fun _ => reflexivity _)
    test_server NewMessage NewMessage "/" test_header (inl [x2a]) converted tt tt ∅
    (set_Payload [x2a; x2a] (response NewMessage converted)) None) as [(r & Hr & Hb & _ & Hst & _) _];
    try reflexivity; try (vm_compute; discriminate).
  - split; [reflexivity|reflexivity|reflexivity|apply lookup_empty].
  - exists r. split; [exact Hr|]. split; [exact Hb|exact Hst].
Defined.

(** The same request on a server that does not have the codec. *)
Example gateway_error :
  let r := (handleGatewayRequest (V := list byte) (fun _ => None) (fun _ => []) test_server NewMessage NewMessage "/"
    test_header (inl [x2a]) (tt, empty_response)).1.2 in
  status r = Some 500 /\ wbody r = [].
Proof. vm_compute. done. Qed.
