(* ===== verification/Auth.v ===== *)
(** Authentication from the client's token to the server's decision.

    [Auth] of client/xclient.go keeps a token; every method of the client puts
    it into the metadata of the request's context before it calls (the block at
    the start of [Call], [Go], [Broadcast], [Fork] and [Inform]), and
    [setServerTimeout] puts the time left there.  That map belongs to the
    context, which the caller may use again: the maps are a store here, with
    their aliases.  On the other side [auth] of server/server.go gives the token
    it finds in the request to [AuthFunc], and [serveConn] serves the request or
    answers it with the refusal. *)
From S2P Require Import Prelude Go Share Header Message MessageFacts Plugins ServerPlugins UrlQuery.
From S2P Require Import Client ClientFacts Selectors Breaker XClient Service Server ServerFacts ServerConn Proto Codecs EndToEnd Gateway.
Open Scope go_scope.

(** ** The client: metadata of a context *)

(** [xClient.Auth]. *)
Definition Auth {S C} (token : string) (x : xClient S C) : xClient S C :=
  mk_xClient (failMode x) (Retries x) (GenBreaker x) (isShutdown x) token (servers x) (selector x)
    (cachedClient x) (objs x) (breakers x) (log x) (tick x).

(** The maps by address; the value of [ReqMetaDataKey] in a context is none, or
    an address, which has no map when it is the nil map. *)
Notation mapstore := (gmap nat (gmap string string)).

(** The context's map, or a new one in a new context. *)
Definition request_map (ctx : option nat) : prog mapstore nat :=
  match ctx with
  | Some p => mret p
  | None => st ← get_st; put_st (<[fresh (dom st) := ∅]> st);; mret (fresh (dom st))
  end.

(** [m[k] = v]. *)
Definition assign (p : nat) (k v : string) : prog mapstore unit :=
  st ← get_st;
  match st !! p with
  | Some m => put_st (<[p := <[k := v]> m]> st)
  | None => lift Panic
  end.

(** [if c.auth != "" { ... }]: the context of the request. *)
Definition put_auth (token : string) (ctx : option nat) : prog mapstore (option nat) :=
  if decide (token = "") then mret ctx
  else p ← request_map ctx; assign p AuthKey token;; mret (Some p).

(** [setServerTimeout]. *)
Definition put_timeout (deadline : option Z) (now : Z) (ctx : option nat) : prog mapstore (option nat) :=
  match deadline with
  | None => mret ctx
  | Some d => p ← request_map ctx; assign p ServerTimeout (pretty (Z.quot (d - now) 1000000));; mret (Some p)
  end.

Definition request_ctx (token : string) (deadline : option Z) (now : Z) (ctx : option nat) : prog mapstore (option nat) :=
  ctx ← put_auth token ctx; put_timeout deadline now ctx.

(** What a context holds. *)
Definition contents (ctx : option nat) (st : mapstore) : option (gmap string string) := ctx ≫= (st !!.).

(** The context has no metadata, or a map. *)
Definition ctx_ok (ctx : option nat) (st : mapstore) : Prop := forall p, ctx = Some p -> is_Some (st !! p).

(** Writing a key changes the map of the context and no other. *)
Lemma assign_ctx ctx k v st : ctx_ok ctx st ->
  exists st' p, (p ← request_map ctx; assign p k v;; mret (Some p)) st = (st', Ok (Some p)) /\
    st' !! p = Some (<[k := v]> (default ∅ (contents ctx st))) /\
    (forall q, is_Some (st !! q) -> ctx <> Some q -> st' !! q = st !! q) /\ ctx_ok (Some p) st'.
Proof.
  intros Hok. unfold request_map, assign, mbind, prog_bind, get_st, put_st, mret, prog_ret. destruct ctx as [p|].
  - destruct (Hok p eq_refl) as [m Hm]. cbn. rewrite Hm. eexists _, p. split; [reflexivity|].
    split_and!; [by rewrite lookup_insert_eq| |intros ? [= <-]; rewrite lookup_insert_eq; by eexists].
    intros q _ Hq. rewrite lookup_insert_ne; [done|congruence].
  - cbn. set (p := fresh (dom st)). rewrite lookup_insert_eq. eexists _, p. split; [reflexivity|].
    rewrite insert_insert_eq. split_and!; [by rewrite lookup_insert_eq| |intros ? [= <-]; rewrite lookup_insert_eq; by eexists].
    intros q Hq _. rewrite lookup_insert_ne; [done|]. intros <-. assert (p ∉ dom st) by apply is_fresh.
    by apply elem_of_dom in Hq.
Qed.

(** The metadata of the request is that of XClient.v; no other context's map
    changes, and the context's own map does, for its owner too. *)
Lemma request_ctx_contents token deadline now ctx st : ctx_ok ctx st ->
  exists st' ctx', request_ctx token deadline now ctx st = (st', Ok ctx') /\
    contents ctx' st' = setServerTimeout deadline now (with_auth token (contents ctx st)) /\
    (forall q, is_Some (st !! q) -> ctx <> Some q -> st' !! q = st !! q) /\ ctx_ok ctx' st'.
Proof.
  intros Hok. unfold request_ctx, put_auth, with_auth, setServerTimeout.
  assert (H1 : exists st1 ctx1, (if decide (token = "") then mret ctx
      else p ← request_map ctx; assign p AuthKey token;; mret (Some p)) st = (st1, Ok ctx1) /\
    contents ctx1 st1 = (if decide (token = "") then contents ctx st
      else Some (<[AuthKey := token]> (default ∅ (contents ctx st)))) /\
    (forall q, is_Some (st !! q) -> ctx <> Some q -> st1 !! q = st !! q /\ ctx1 <> Some q) /\ ctx_ok ctx1 st1).
  { case_decide; [by exists st, ctx|].
    destruct (assign_ctx ctx AuthKey token st Hok) as (st1 & p & E & Hp & Hq & Hok1). exists st1, (Some p).
    split_and!; [done|done| |done]. intros q Hs Hne. split; [by apply Hq|]. intros [= ->].
    destruct ctx as [c|]; unfold request_map, assign, mbind, prog_bind, get_st, put_st, mret, prog_ret in E.
    - destruct (st !! c); [|done]. injection E as _ ->. done.
    - rewrite lookup_insert_eq in E. injection E as _ <-. apply elem_of_dom in Hs. by apply is_fresh in Hs. }
  destruct H1 as (st1 & ctx1 & E1 & Hc1 & Hq1 & Hok1). unfold mbind at 1, prog_bind at 1. rewrite E1.
  destruct deadline as [d|]; cbn [put_timeout].
  - destruct (assign_ctx ctx1 ServerTimeout (pretty (Z.quot (d - now) 1000000)) st1 Hok1) as (st2 & p & E2 & Hp & Hq2 & Hok2).
    exists st2, (Some p). rewrite E2. split_and!; [done| | |done].
    + unfold contents at 1. cbn. rewrite Hp, Hc1. by case_decide.
    + intros q Hs Hne. destruct (Hq1 q Hs Hne) as [Eq Hne1]. rewrite Hq2; [done|by rewrite Eq|done].
  - exists st1, ctx1. split_and!; [done|rewrite Hc1; by case_decide| |done]. intros q Hs Hne. by apply Hq1.
Qed.

(** A context used with two clients: the map is the caller's, so the request
    of the second client, which has no token of its own, carries the first
    one's. *)
Lemma token_stays token p st : token <> "" -> is_Some (st !! p) ->
  exists st1 st2, put_auth token (Some p) st = (st1, Ok (Some p)) /\ put_auth "" (Some p) st1 = (st2, Ok (Some p)) /\
    contents (Some p) st2 ≫= (.!! AuthKey) = Some token.
Proof.
  intros Hne [m Hm]. unfold put_auth. rewrite decide_False by done.
  destruct (assign_ctx (Some p) AuthKey token st) as (st1 & p1 & E & H1 & _); [by intros ? [= <-]|].
  assert (p1 = p) as ->.
  { cbn in E. unfold assign, mbind, prog_bind, get_st, put_st, mret, prog_ret in E. rewrite Hm in E. by injection E. }
  exists st1, st1. rewrite E. split_and!; [done|done|]. cbn. rewrite H1. cbn. by rewrite lookup_insert_eq.
Qed.

(** ** The server *)
Section auth.
Context {A R W V : Type}.
Context (ccodecs : byte -> option (Codec A R)) (scodecs : byte -> option (ServerCodec V))
        (cs : compressors) (cget sget : Z -> list byte) (order : gmap string string -> list (string * string))
        (corder : option (gmap string string) -> list (string * string)).
Context `{!CompressorLaws cs, !BufferGet cget, !BufferGet sget} (order_perm : forall m, order m ≡ₚ map_to_list m).

(** A turn of the loop of [serveConn] that reads a request is the decision of
    [AuthFunc] about the token in its metadata. *)
Definition token_of (req : message) : string := default "" (Metadata req ≫= (fun m => m !! AuthKey)).

Lemma turn_decides (s : config W V) m0 c0 f req w out bs tail fn :
  Plugins s = [] -> AuthFunc s = Some f ->
  Decode cs 0 (mk_reader (bs ++ tail) fn, m0) = ((mk_reader tail fn, req), Ok tt) -> IsHeartbeat (hdr req) = false ->
  turn cs sget order 0 s m0 c0 (w, mk_reader (bs ++ tail) fn, out) =
    match f req (token_of req) w with
    | (w', Ok (req', None)) => ((w', mk_reader tail fn, out), Ok (Spawn req'))
    | (w', Ok (req', Some e)) =>
        (inline_ (handleError cs sget order s c0 req' e);; mret Return) (w', mk_reader tail fn, out)
    | (w', Err e) => ((w', mk_reader tail fn, out), Err e)
    | (w', Panic) => ((w', mk_reader tail fn, out), Panic)
    | (w', Fatal) => ((w', mk_reader tail fn, out), Fatal)
    | (w', Blocked) => ((w', mk_reader tail fn, out), Blocked)
    end.
Proof.
  intros Hpl Hf Hd Hhb.
  assert (Hr : readRequest cs 0 s m0 (w, mk_reader (bs ++ tail) fn, out) = ((w, mk_reader tail fn, out), Ok (Some req, None))).
  { unfold readRequest, decode_request, DoPreReadRequest, DoPostReadRequest, mbind, prog_bind, world_. rewrite Hpl.
    cbn -[Decode]. by rewrite Hd. }
  unfold turn, decide_request, mbind, prog_bind. rewrite Hr, Hhb. unfold Server.auth, world_. rewrite Hf.
  unfold token_of. by destruct (f req _ w) as [w' [[req' [e|]]| | | |]].
Qed.

(** A refusal on the wire: the loop writes one frame, which the client that
    decodes it reads as an error answer to that request with the reason. *)
Lemma refusal_reads (s : config W V) c0 req e :
  Plugins s = [] -> Header_wf (hdr req) -> CheckMagicNumber (hdr req) = true -> IsOneway (hdr req) = false -> blank_msg c0 ->
  exists ans,
    (forall w r out, inline_ (handleError cs sget order s c0 req e) (w, r, out) = ((w, r, out ++ [ans]), Ok tt)) /\
    reads_as cs ans req (HandleError (Some e) (response c0 req)).
Proof.
  intros Hpl Hw Hmagic Hone Hc0. destruct (HandleError_answers e c0 req Hw) as [Ha _].
  destruct (sendResponse_reads cs sget order order_perm s (Some e) req
    (HandleError (Some e) (response c0 req))) as (ans & E & Hreads);
    [unfold quiet; rewrite Hpl; constructor|exact Ha|done|].
  exists ans. split; [|done]. intros w r out. unfold inline_, handleError. rewrite Hone. fold (response c0 req). by rewrite E.
Qed.

(** The token of the metadata that arrives. *)
Lemma token_sent token deadline now m :
  m ≫= (.!! AuthKey) = None \/ token <> "" ->
  default "" (norm_meta (setServerTimeout deadline now (with_auth token m)) ≫= (fun m => m !! AuthKey)) = token.
Proof.
  intros Htok. assert (Hn : forall x, norm_meta x ≫= (fun m => m !! AuthKey) = default ∅ x !! AuthKey).
  { intros [x|]; cbn; [|done]. unfold norm_meta. cbn. case_decide as Hx; [by rewrite Hx|done]. }
  rewrite Hn. assert (Hs : forall x, default ∅ (setServerTimeout deadline now x) !! AuthKey = default ∅ x !! AuthKey).
  { intros x. unfold setServerTimeout. destruct deadline; [|done]. cbn. by rewrite lookup_insert_ne. }
  rewrite Hs. unfold with_auth. case_decide as Ht.
  - destruct Htok as [Htok|]; [|done]. destruct m as [m|]; cbn in *; by rewrite ?Htok.
  - cbn. by rewrite lookup_insert_eq.
Qed.

(** The client completes the call with the reason. *)
Lemma refusal_completes (c : Client A R) res i call e :
  pending c !! Seq (hdr res) = Some i -> heap c !! i = Some call -> cRaw call = false ->
  MessageType (hdr res) = Response -> MessageStatusType (hdr res) = StatusError -> Payload res = [] ->
  Metadata res = Some {[ServiceErrorKey := e]} ->
  exists c', input_message ccodecs (fun m => m) corder res c = (c', Ok None) /\
    pending c' = delete (Seq (hdr res)) (pending c) /\ dones c' = dones c ++ [i] /\
    heap c' = <[i := with_Error (Some (ServiceError e)) (with_ResMetadata (Metadata res) call)]> (heap c).
Proof.
  intros Hp Hh Hraw Ht Hst Hpay Hmd. unfold input_message.
  assert (Hsm : isServerMessage res = false) by (unfold isServerMessage; by rewrite Ht).
  rewrite Hsm. unfold take_pending. rewrite Hp. cbn [mbind option_bind heap set_pending]. rewrite Hh.
  cbn [fmap option_fmap option_map]. rewrite decide_True by done.
  assert (Ha : answer_error ccodecs corder res call =
    Ok (with_Error (Some (ServiceError e)) (with_ResMetadata (Metadata res) call))).
  { unfold answer_error. rewrite Hmd, Hpay. cbn [default from_option]. unfold id.
    rewrite bool_decide_eq_false_2 by apply insert_non_empty. cbn [negb]. cbn. rewrite Hraw.
    unfold meta_get. cbn. by rewrite lookup_insert_eq. }
  rewrite Ha. eexists. split; [reflexivity|].
  match goal with |- context [done_ i ?c1] => destruct (done_view i c1) as (-> & -> & -> & _) end. done.
Qed.

(** From the refusal to the completed call. *)
Lemma refused_call (s : config W V) c0 req e (c : Client A R) n i call :
  Plugins s = [] -> Header_wf (hdr req) -> CheckMagicNumber (hdr req) = true -> IsOneway (hdr req) = false -> blank_msg c0 ->
  Seq (hdr req) = n -> pending c !! n = Some i -> heap c !! i = Some call -> cRaw call = false ->
  exists ans,
    (forall w r out, inline_ (handleError cs sget order s c0 req e) (w, r, out) = ((w, r, out ++ [ans]), Ok tt)) /\
    (Z.of_nat (length ans) < two32 -> exists res c2 call',
       Decode cs 0 (mk_reader ans EOF, NewMessage) = ((mk_reader [] EOF, res), Ok tt) /\
       input_message ccodecs (fun m => m) corder res c = (c2, Ok None) /\
       pending c2 = delete n (pending c) /\ dones c2 = dones c ++ [i] /\
       heap c2 = <[i := call']> (heap c) /\ cError call' = Some (ServiceError (Error e))).
Proof.
  intros Hpl Hw Hmagic Hone Hc0 Hseq Hp Hh Hraw.
  destruct (refusal_reads s c0 req e Hpl Hw Hmagic Hone Hc0) as (ans & Ei & Hreads).
  exists ans. split; [exact Ei|]. intros Hla.
  destruct (Hreads 0 NewMessage [] EOF newHeader_wf eq_refl Hla) as (res & Hdr & Ha & Hst & Hpl' & Hmd); [lia|].
  rewrite app_nil_r in Hdr. destruct (HandleError_answers e c0 req Hw) as [_ Hste]. rewrite Hste in Hst.
  assert (Hseq' : Seq (hdr res) = n) by (by rewrite (ans_seq _ _ Ha)).
  destruct (refusal_completes c res i call (Error e)) as (c2 & Hin & Hp2 & Hd2 & Hh2); [by rewrite Hseq'|done|done|apply Ha|done| | |].
  - rewrite Hpl'. apply Hc0.
  - rewrite Hmd. cbn. by rewrite (proj1 Hc0).
  - exists res, c2, (with_Error (Some (ServiceError (Error e))) (with_ResMetadata (Metadata res) call)).
    split; [done|]. split; [done|]. rewrite Hp2, Hd2, Hh2, Hseq'. by split_and!.
Qed.

(** C18: the token a client was given with [Auth] is the one the server
    decides about.  A call whose context was prepared by the client is sent;
    when the server's loop reads the frame, it asks [AuthFunc] about exactly
    that token (without one, about the empty string) and
    about that very call.  Accepted, the request goes to a goroutine, as
    [AuthFunc] left it.  Refused, nothing is run: the loop writes one answer and
    ends, and the client that reads it completes the call with the reason. *)
Theorem auth_decides token deadline now ctx st c n i call codec data m0 m1 kvs (s : config W V) f c0 w out tail fn :
  ctx_ok ctx st -> contents ctx st ≫= (.!! AuthKey) = None \/ token <> "" ->
  (* the call, registered, with the metadata of its context *)
  (forall st' ctx', request_ctx token deadline now ctx st = (st', Ok ctx') -> cMetadata call = contents ctx' st') ->
  heap c !! i = Some call -> pending c !! n = Some i -> 0 <= n < two64 ->
  cRaw call = false -> cReply call <> None -> isHeartbeatCall call = false ->
  ccodecs (oSerializeType (option_ c)) = Some codec -> CodecEncode codec (cArgs call) = Ok data ->
  kvs ≡ₚ map_to_list (default ∅ (cMetadata call)) ->
  hdr m0 = newHeader -> Metadata m0 = None -> cap (Message.data m0) < 1024 ->
  (* the server, and the message it decodes into *)
  Plugins s = [] -> AuthFunc s = Some f -> Header_wf (hdr m1) -> Metadata m1 = None -> blank_msg c0 ->
  exists bs c1,
    send_finish ccodecs cs cget (fun m => m) (fun _ => None) i n m0 kvs c = (c1, Ok tt) /\
    Client.written c1 = Client.written c ++ [bs] /\
    (Z.of_nat (length bs) < two32 ->
     exists req, ServicePath req = cServicePath call /\ ServiceMethod req = cServiceMethod call /\ Payload req = data /\
       forall w' req' verdict, f req token w = (w', Ok (req', verdict)) ->
       match verdict with
       | None => turn cs sget order 0 s m1 c0 (w, mk_reader (bs ++ tail) fn, out) =
           ((w', mk_reader tail fn, out), Ok (Spawn req'))
       | Some e => req' = req -> exists ans,
           turn cs sget order 0 s m1 c0 (w, mk_reader (bs ++ tail) fn, out) =
             ((w', mk_reader tail fn, out ++ [ans]), Ok Return) /\
           (Z.of_nat (length ans) < two32 -> exists res c2 call',
              Decode cs 0 (mk_reader ans EOF, NewMessage) = ((mk_reader [] EOF, res), Ok tt) /\
              input_message ccodecs (fun m => m) corder res c1 = (c2, Ok None) /\
              pending c2 = delete n (pending c) /\ dones c2 = dones c ++ [i] /\
              heap c2 = <[i := call']> (heap c) /\ cError call' = Some (ServiceError (Error e)))
       end).
Proof.
  intros Hok Htok Hctx Hid Hpend Hn Hraw Hrep Hhb Hco Henc Hkvs Hm0 Hmeta0 Hcap Hpl Hf Hw1 Hmeta1 Hc0.
  assert (Hco' : ccodecs (if isHeartbeatCall call then MsgPack else oSerializeType (option_ c)) = Some codec)
    by (by rewrite Hhb).
  destruct (send_reads ccodecs cs cget 0 i n m0 m1 kvs call codec data c tail fn
    Hid Hm0 Hmeta0 Hcap Hw1 Hmeta1 Hco' Henc Hkvs) as (bs & c1 & Hs & Hwr & Hreq).
  destruct (send_written ccodecs cs cget i n m0 kvs call codec data c Hid Hm0 Hcap Hco' Henc) as (bs2 & h & _ & Hs2).
  rewrite Hs in Hs2. injection Hs2 as Hc1.
  exists bs, c1. split; [done|]. split; [done|]. intros Hlen.
  destruct (Hreq Hlen) as (req & Hd & Hsp & Hsm & Hmd & Hpay & Ht & Hseq & Hone & Hhbr & Hw & Hmagic & Hst & _); [lia|].
  rewrite u64_small in Hseq by done. rewrite Hhb in Hhbr. rewrite bool_decide_eq_false_2 in Hone by done.
  exists req. split_and!; [done..|]. intros w' req' verdict Hv.
  assert (Htoken : token_of req = token).
  { unfold token_of. rewrite Hmd. destruct (request_ctx_contents token deadline now ctx st Hok) as (st' & ctx' & E & Hcont & _).
    rewrite (Hctx _ _ E), Hcont. by apply token_sent. }
  pose proof (turn_decides s m1 c0 f req w out bs tail fn Hpl Hf Hd Hhbr) as Hturn. rewrite Htoken, Hv in Hturn.
  destruct verdict as [e|]; [|done]. intros ->. unfold mbind, prog_bind in Hturn.
  destruct (refused_call s c0 req e c1 n i call) as (ans & Ei & Hans); [done..|by rewrite Hc1|by rewrite Hc1|done|].
  rewrite Ei in Hturn. exists ans. split; [done|]. intros Hla. rewrite Hc1 in Hans |- *. by apply Hans.
Qed.
End auth.

(** ** The same decision over HTTP

    The gateway asks about the header [Authorization], which becomes the token of
    the message, also in place of one in [X-IRPC-Meta]. *)
Section gateway.
Context {W V : Type} (scodecs : byte -> option (ServerCodec V)) (zero : gtype -> V).

Lemma gateway_token m h body req : HTTPRequest2IrpcRequest m h body = inl req ->
  hGet "Authorization" h <> "" -> token_of req = hGet "Authorization" h.
Proof.
  unfold HTTPRequest2IrpcRequest. intros E Ha. repeat (case_match; try discriminate E); injection E as <-;
    unfold token_of; cbn; try done; by rewrite lookup_insert_eq.
Qed.

(** A refused request runs nothing but [AuthFunc]: the answer has status 401,
    the reason in its headers and no body. *)
Theorem gateway_refuses (s : config W V) f m c path h body req req' e w w' :
  Plugins s = [] -> AuthFunc s = Some f ->
  hGet gXServicePath h <> "" -> hGet gXServiceMethod h <> "" -> hGet gXSerializeType h <> "" ->
  HTTPRequest2IrpcRequest m h body = inl req -> f req (token_of req) w = (w', Ok (req', Some e)) ->
  exists r, handleGatewayRequest scodecs zero s m c path h body (w, empty_response) = ((w', r), Ok tt) /\
    status r = Some 401 /\ hGet gXErrorMessage (wh r) = Error e /\
    hGet gXMessageStatusType (wh r) = "Error" /\ wbody r = [].
Proof.
  intros Hpl Hf Hp Hm Ht Hconv Hv. eexists. split.
  - unfold handleGatewayRequest. rewrite Hpl, (decide_False (P := hGet gXServicePath h = "")) by done.
    unfold Server.auth. rewrite Hf, Hconv. unfold token_of, mbind in Hv.
    unfold respond, modify, get_st, put_st, lift, mbind, prog_bind, mret, prog_ret, DoPreReadRequest, mbind, prog_bind, mret.
    cbn beta iota delta [with_world until_error prog_ret]. unfold mret, prog_ret. cbn beta iota.
    rewrite !check_header_ok by done. cbn beta iota delta [DoPostReadRequest until_error].
    unfold mret, prog_ret. cbn beta iota delta [with_world]. rewrite Hv.
    cbn beta iota delta [DoPreWriteResponse DoPostWriteResponse until_error]. unfold mret, prog_ret. reflexivity.
  - cbn [status WriteHeader wh wbody fail_headers rSet empty_response]. split_and!; [done| | |done].
    + apply hGet_hSet.
    + rewrite hGet_hSet_ne by (vm_compute; discriminate). apply hGet_hSet.
Qed.
End gateway.

(** ** Witness: a server that lets one token in *)
Definition one_token (req : message) (token : string) : prog unit (message * option error) :=
  mret (req, if decide (token = "secret") then None else Some (ErrorString "denied")).

Definition guarded_server : config unit arith :=
  mk_config (services proto_server) ∅ [] (Some one_token).

Definition guess_call : Client.Call arith arith :=
  mk_Call "Arith" "Mul" (Some {[AuthKey := "guess"]}) None (Some (VArgs (mk_ProtoArgs 6 7)))
    (Some (VReply (mk_ProtoReply 9))) None None 0 false.

Definition guess_client : Client arith arith :=
  (send_register (client_codecs Codecs) 0 (set_heap {[0%nat := guess_call]}
     (set_chans {[0%nat := mk_chan 1 []]} (NewClient (mk_Option ProtoBuffer None_ false))))).1.

Lemma auth_decides_witness :
  exists bs c1,
    send_finish (client_codecs Codecs) raw_compressors dirty_get (fun m => m) (fun _ => None) 0 0 NewMessage
      [(AuthKey, "guess")] guess_client = (c1, Ok tt) /\
    (Z.of_nat (length bs) < two32 -> exists ans,
       turn raw_compressors dirty_get map_to_list 0 guarded_server NewMessage NewMessage (tt, mk_reader (bs ++ []) EOF, []) =
         ((tt, mk_reader [] EOF, [] ++ [ans]), Ok Return) /\
       (Z.of_nat (length ans) < two32 -> exists res c2 call',
          Decode raw_compressors 0 (mk_reader ans EOF, NewMessage) = ((mk_reader [] EOF, res), Ok tt) /\
          input_message (client_codecs Codecs) (fun m => m) (fun md => map_to_list (default ∅ md)) res c1 = (c2, Ok None) /\
          pending c2 = delete 0 (pending guess_client) /\ dones c2 = dones guess_client ++ [0%nat] /\
          heap c2 = <[0%nat := call']> (heap guess_client) /\ cError call' = Some (ServiceError "denied"))).
Proof.
  destruct (auth_decides (client_codecs Codecs) raw_compressors dirty_get dirty_get map_to_list
    (fun md => map_to_list (default ∅ md)) (fun m => reflexivity _)
    "guess" None 0 None ∅ guess_client 0 0 guess_call (client_codec (mk_GoCodec PBCodec_Encode PBCodec_Decode))
    [x08; x06; x10; x07] NewMessage NewMessage [(AuthKey, "guess")] guarded_server one_token NewMessage tt [] [] EOF)
    as (bs & c1 & H1 & _ & H3).
  - intros p [=].
  - by right.
  - intros st' ctx' E. vm_compute in E. injection E as <- <-. reflexivity.
  - reflexivity.
  - reflexivity.
  - unfold two64. lia.
  - reflexivity.
  - discriminate.
  - reflexivity.
  - reflexivity.
  - vm_compute. reflexivity.
  - reflexivity.
  - reflexivity.
  - reflexivity.
  - vm_compute. reflexivity.
  - reflexivity.
  - reflexivity.
  - apply newHeader_wf.
  - reflexivity.
  - split; reflexivity.
  - exists bs, c1. split; [exact H1|]. intros Hl. destruct (H3 Hl) as (req & _ & _ & _ & Hv).
    exact (Hv tt req (Some (ErrorString "denied")) eq_refl eq_refl).
Defined.
