(* ===== verification/FullStack.v ===== *)
(** The whole path of a call, from [xClient.Call] to the method and back.

    The connections of XClient.v are those of Client.v here, each with a server
    of Server.v behind it; dialling a server that is down fails.  [converse] is
    what the goroutines of the two ends do for one call, one after the other:
    [Go] writes the request, the server reads and serves it, and the input loop
    takes the answer.  The theorem puts Failover, EndToEnd and the codecs
    together. *)
From S2P Require Import Prelude Go Share Header Message MessageFacts Plugins ServerPlugins UrlQuery.
From S2P Require Import Client ClientFacts Selectors Breaker XClient XClientFacts Failover.
From S2P Require Import Service Server ServerFacts Proto Codecs EndToEnd.
Open Scope go_scope.

(** ** Lengths *)
Section lengths.
Context (cs : compressors) (get : Z -> list byte) `{!CompressorLaws cs, !BufferGet get}.

(** A payload stays below a bound whether or not it is compressed. *)
Definition payload_below (bound : Z) (d : list byte) : Prop :=
  Z.of_nat (length d) < bound /\
  forall ct comp z, cs ct = Some comp -> Zip comp d = Ok z -> Z.of_nat (length z) < bound.

Lemma EncodeSlicePointer_below kvs m bs h bound : Header_wf (hdr m) ->
  EncodeSlicePointer cs get kvs m = Ok (bs, h) -> payload_below bound (Payload m) ->
  Z.of_nat (length bs) < 32 + slen (ServicePath m) + slen (ServiceMethod m) + Z.of_nat (length (encodeMetadata kvs)) + bound.
Proof.
  intros Hw E [Hraw Hzip]. rewrite EncodeSlicePointer_wire in E by done.
  destruct (compressPayload cs m) as [[h' p]| | | |] eqn:Ec; try done. cbn in E. injection E as <- <-.
  assert (Hp : Z.of_nat (length p) < bound).
  { unfold compressPayload in Ec. repeat case_match; try done; injection Ec as <- <-; try done. by eapply Hzip. }
  rewrite length_wire by (by eapply compressPayload_wf). unfold frame. rewrite !length_app, !length_lv.
  unfold slen. lia.
Qed.
End lengths.

(** ** A call over one connection *)
Section stack.
Context {A R W V : Type}.
Context (ccodecs : byte -> option (Codec A R)) (scodecs : byte -> option (ServerCodec V)) (zero : gtype -> V)
        (cs : compressors) (cget sget : Z -> list byte) (order : gmap string string -> list (string * string))
        (corder : option (gmap string string) -> list (string * string)).
Context `{!CompressorLaws cs, !BufferGet cget, !BufferGet sget} (order_perm : forall m, order m ≡ₚ map_to_list m).

(** A connection: the client, and the server behind it with its world. *)
Record endpoint : Type := mk_endpoint { ep_client : Client A R; ep_server : config W V; ep_world : W }.

#[export] Instance endpoint_RPCClient : RPCClient endpoint := {
  IsClosing ep := closing (ep_client ep);
  IsShutdown ep := shutdown (ep_client ep);
  CloseClient ep := let '(c, r) := CloseClient (ep_client ep) in (mk_endpoint c (ep_server ep) (ep_world ep), r)
}.

(** The call: its names and metadata, its arguments and the reply object; the
    message the server's goroutine clones its answer into. *)
Context (sp sm : string) (meta : option (gmap string string)) (kvs : list (string * string)) (args : A) (r0 : R)
        (c0 : message).

(** [Client.Call] with both ends at work: what the call returns, and the
    connection after it; none when an end stops. *)
Definition converse_run (ep : endpoint) : option (endpoint * option error) :=
  let c := ep_client ep in
  match Client.Go ccodecs cs cget (fun m => m) (fun _ => None) (fresh (dom (heap c))) (fresh (dom (chans c))) sp sm meta
          (Some args) (Some r0) None NewMessage kvs c with
  | (c, Ok id) =>
      if decide (length (dones (ep_client ep)) < length (dones c))%nat
      then call ← heap c !! id; Some (mk_endpoint c (ep_server ep) (ep_world ep), cError call)
      else
        bs ← last (written c);
        match Decode cs 0 (mk_reader bs EOF, NewMessage) with
        | ((_, req), Ok _) =>
            match serve_request scodecs zero cs sget order (ep_server ep) c0 req (ep_world ep) with
            | (w, Ok [ans]) =>
                match Decode cs 0 (mk_reader ans EOF, NewMessage) with
                | ((_, res), Ok _) =>
                    match input_message ccodecs (fun m => m) corder res c with
                    | (c, Ok _) => call ← heap c !! id; Some (mk_endpoint c (ep_server ep) w, cError call)
                    | _ => None
                    end
                | _ => None
                end
            | _ => None
            end
        | _ => None
        end
  | _ => None
  end.

Definition converse (_ : nat) (ep : endpoint) : endpoint * option error :=
  default (ep, Some ErrShutdown) (converse_run ep).

(** What the two ends must agree on: the codec of the client's option, the bytes of
    the arguments and of the reply, and what the reply object holds in the end. *)
Context (o : Option_) (codec : Codec A R) (data p : list byte) (r1 : R).

Record agreed : Prop := {
  ag_codec : ccodecs (oSerializeType o) = Some codec;
  ag_type : oSerializeType o .& x0f = oSerializeType o;
  ag_call : sp <> "" \/ sm <> "";
  ag_data : CodecEncode codec (Some args) = Ok data;
  ag_reply : decoded codec p (Some r0) = Ok (Some r1, None);
  ag_kvs : kvs ≡ₚ map_to_list (default ∅ meta);
  ag_blank : blank_msg c0;
  ag_request : payload_below cs (two32 - (32 + slen sp + slen sm + Z.of_nat (length (encodeMetadata kvs)))) data;
  ag_answer : payload_below cs (two32 - (32 + slen sp + slen sm)) p
}.

(** A server that serves the call with the reply [p], whatever it did before. *)
Definition serves (s : config W V) : Prop :=
  forall req, ServicePath req = sp -> ServiceMethod req = sm -> Metadata req = norm_meta meta -> Payload req = data ->
    SerializeType (hdr req) = oSerializeType o -> forall w, exists w', served scodecs zero s req w w' p.

Record ep_live (ep : endpoint) : Prop := {
  el_closing : closing (ep_client ep) = false;
  el_shutdown : shutdown (ep_client ep) = false;
  el_pending : pending (ep_client ep) = ∅;
  el_seq : 0 <= seq (ep_client ep) < two64;
  el_option : option_ (ep_client ep) = o;
  el_server : serves (ep_server ep)
}.

(** The call that completed last is this one, with the reply. *)
Definition ep_answered (ep : endpoint) : Prop :=
  exists i call, last (dones (ep_client ep)) = Some i /\ heap (ep_client ep) !! i = Some call /\
    cServicePath call = sp /\ cServiceMethod call = sm /\ cArgs call = Some args /\
    cReply call = Some r1 /\ cError call = None.

(** The frame of an answer, and its length. *)
Lemma served_frame (s : config W V) req w w' : blank_msg c0 -> plain_request s req -> IsOneway (hdr req) = false ->
  served scodecs zero s req w w' p -> ServicePath req = sp -> ServiceMethod req = sm ->
  payload_below cs (two32 - (32 + slen sp + slen sm)) p ->
  exists ans, serve_request scodecs zero cs sget order s c0 req w = (w', Ok [ans]) /\
    reads_as cs ans req (set_Payload p (response c0 req)) /\ Z.of_nat (length ans) < two32.
Proof.
  intros Hc0 Hpr Hone Hs Hsp Hsm Hlen.
  destruct (served_reads scodecs zero cs sget order order_perm s c0 req w w' p Hc0 Hpr Hone Hs) as (ans & E & Hreads).
  exists ans. split; [exact E|]. split; [exact Hreads|].
  pose proof (served_response scodecs zero s c0 req w w' p Hone Hs) as Hres.
  pose proof (serve_call_run scodecs zero cs sget order s c0 req w w' ∅ _ None (served_quiet _ _ _ _ _ _ _ Hs)
    (pr_route _ _ Hpr) Hres) as Hrun.
  unfold serve_request in E. rewrite (pr_call _ _ Hpr), Hrun, Hone, copy_metadata_empty in E.
  change p with (Payload (set_Payload p (response c0 req))) in Hlen.
  set (res := set_Payload p (response c0 req)) in *.
  assert (Ha : answers req res) by (eapply handleRequest_answers; [apply Hpr|exact Hres]).
  destruct (compress_like_ok req res Ha) as (Ha' & _ & Hp' & Hmd').
  unfold sendResponse, on_handler, on_world, DoPreWriteResponse, DoPostWriteResponse, mbind, prog_bind, lift, emit, modify in E.
  rewrite (sv_plugins _ _ _ _ _ _ _ Hs) in E. cbn -[writeResponse compress_like] in E.
  unfold writeResponse in E.
  destruct (EncodeSlicePointer cs sget _ (compress_like req res)) as [[bs h]| | | |] eqn:Ee; cbn in E; try done.
  injection E as <-.
  rewrite <- Hp' in Hlen. pose proof (EncodeSlicePointer_below cs sget _ _ bs h _ (ans_wf _ _ Ha') Ee Hlen) as Hb.
  rewrite Hmd' in Hb. rewrite (ans_path _ _ Ha'), (ans_method _ _ Ha'), Hsp, Hsm in Hb.
  change (Metadata res) with (Metadata c0) in Hb. rewrite (proj1 Hc0) in Hb. cbn [default from_option] in Hb.
  assert (Ho : order ∅ = []) by (apply Permutation_nil; symmetry; by rewrite order_perm, map_to_list_empty).
  unfold id in Hb. rewrite Ho in Hb. cbn in Hb. lia.
Qed.

(** The call that [Go] makes, registered under the connection's next number. *)
Definition placed (c : Client A R) : Client.Call A R :=
  mk_Call sp sm meta None (Some args) (Some r0) None None (fresh (dom (chans c))) false.

Lemma Go_exchange (Hag : agreed) (c : Client A R) :
  closing c = false -> shutdown c = false -> pending c = ∅ -> 0 <= seq c < two64 -> option_ c = o ->
  exists bs c1,
    Client.Go ccodecs cs cget (fun m => m) (fun _ => None) (fresh (dom (heap c))) (fresh (dom (chans c))) sp sm meta
      (Some args) (Some r0) None NewMessage kvs c = (c1, Ok (fresh (dom (heap c)))) /\
    last (written c1) = Some bs /\ Z.of_nat (length bs) < two32 /\ dones c1 = dones c /\
    closing c1 = false /\ shutdown c1 = false /\ pending c1 = {[seq c := fresh (dom (heap c))]} /\
    seq c1 = u64 (seq c + 1) /\ option_ c1 = o /\ heap c1 !! fresh (dom (heap c)) = Some (placed c) /\
    exists req, Decode cs 0 (mk_reader bs EOF, NewMessage) = ((mk_reader [] EOF, req), Ok tt) /\
      ServicePath req = sp /\ ServiceMethod req = sm /\ Metadata req = norm_meta meta /\ Payload req = data /\
      MessageType (hdr req) = Request /\ Seq (hdr req) = seq c /\ IsOneway (hdr req) = false /\
      IsHeartbeat (hdr req) = false /\ Header_wf (hdr req) /\ CheckMagicNumber (hdr req) = true /\
      MessageStatusType (hdr req) = Normal /\ SerializeType (hdr req) = oSerializeType o.
Proof.
  intros Hc Hs Hp Hn Ho. set (id := fresh (dom (heap c))). set (ch := fresh (dom (chans c))).
  set (c1 := set_heap (<[id := placed c]> (heap c)) (set_chans (<[ch := mk_chan 10 []]> (chans c)) c)).
  set (c2 := set_pending (<[seq c := id]> (pending c)) (set_seq (u64 (seq c + 1)) c1)).
  assert (Hhb : isHeartbeatCall (placed c) = false).
  { unfold isHeartbeatCall. cbn. by destruct (ag_call Hag); repeat case_bool_decide. }
  assert (Hreg : send_register ccodecs id c1 = (c2, Some (seq c))).
  { unfold send_register. cbn [c1 heap set_heap]. rewrite lookup_insert_eq, Hhb.
    cbn [c1 shutdown closing option_ set_heap set_chans]. rewrite Hc, Hs, Ho, (ag_codec Hag). cbn [orb].
    done. }
  assert (Hid : heap c2 !! id = Some (placed c)) by (cbn; apply lookup_insert_eq).
  assert (Hco : ccodecs (if isHeartbeatCall (placed c) then MsgPack else oSerializeType (option_ c2)) = Some codec).
  { rewrite Hhb. cbn. rewrite Ho. apply Hag. }
  assert (Hcap : cap (Message.data NewMessage) < 1024) by (by vm_compute).
  destruct (send_reads ccodecs cs cget 0 id (seq c) NewMessage NewMessage kvs (placed c) codec data c2 [] EOF
    Hid eq_refl eq_refl Hcap newHeader_wf eq_refl Hco (ag_data Hag) (ag_kvs Hag)) as (bs & c3 & Es & Hwr & Hd).
  destruct (send_written ccodecs cs cget id (seq c) NewMessage kvs (placed c) codec data c2 Hid eq_refl Hcap Hco (ag_data Hag))
    as (bs' & h & Ee & Es').
  destruct (send_request_header (option_ c2) (seq c) (placed c) data NewMessage eq_refl) as (Hw & _).
  pose proof (EncodeSlicePointer_below cs cget _ _ bs' h _ Hw Ee (ag_request Hag)) as Hlen.
  rewrite Es in Es'. injection Es' as ->. cbn in Hwr. apply (inj (_ ++.)) in Hwr as [= <-].
  assert (Hbs : Z.of_nat (length bs') < two32) by (unfold send_request in Hlen; cbn in Hlen; lia).
  destruct (Hd Hbs ltac:(lia)) as (req & Hreq & H1 & H2 & H3 & H4 & H5 & H6 & H7 & H8 & H9 & H10 & H11 & H12).
  eexists bs', _. split.
  - unfold Client.Go. fold ch. cbn [chans set_chans]. rewrite lookup_insert_eq. cbn [ccap].
    rewrite decide_False by done. fold (placed c). change (set_heap _ _) with c1.
    unfold send. rewrite Hreg, Es. reflexivity.
  - rewrite app_nil_r in Hreq. cbn [placed cServicePath cServiceMethod cMetadata cReply] in *.
    rewrite Hhb in *. cbn [c2 c1 option_ set_pending set_seq set_heap set_chans] in H12. rewrite Ho, (ag_type Hag) in H12.
    rewrite u64_small in H6 by done.
    split_and!; [by apply last_snoc|done|done|done|done|cbn; by rewrite Hp|done|done|exact Hid|].
    exists req. split_and!; done.
Qed.

(** A live connection answers the call and is live again. *)
Lemma converse_live (Hag : agreed) n ep :
  ep_live ep -> exists ep', converse n ep = (ep', None) /\ ep_live ep' /\ ep_answered ep'.
Proof.
  intros [H1 H2 H3 H4 H5 H6]. destruct ep as [c s w]; cbn in *.
  destruct (Go_exchange Hag c H1 H2 H3 H4 H5) as
    (bs & c1 & EGo & Hlast & _ & Hdn & Hcl & Hsh & Hpend & Hseq & Hopt & Hid & req & Hreq & Q1 & Q2 & Q3 & Q4 & Q5 & Q6 & Q7
     & Q8 & Q9 & Q10 & Q11 & Q12).
  set (id := fresh (dom (heap c))) in *.
  destruct (H6 req Q1 Q2 Q3 Q4 Q12 w) as [w' Hserved].
  assert (Hpr : plain_request s req) by (split; try done; apply Hserved).
  destruct (served_frame s req w w' (ag_blank Hag) Hpr Q7 Hserved Q1 Q2 (ag_answer Hag)) as (ans & Esv & Hreads & Hla).
  destruct (Hreads 0 NewMessage [] EOF newHeader_wf eq_refl Hla) as (res & Hdr & Ha & Hst & Hpl & Hmd); [lia|].
  rewrite app_nil_r in Hdr. cbn in Hpl. rewrite (proj1 (ag_blank Hag) : Metadata (set_Payload p (response c0 req)) = None) in Hmd.
  assert (Hsts : MessageStatusType (hdr res) = Normal) by (rewrite Hst; exact (eq_trans (response_status c0 req Q9) Q11)).
  assert (Hsq : Seq (hdr res) = seq c) by (by rewrite (ans_seq _ _ Ha)).
  assert (Ein := answered_state ccodecs corder res c1 id (placed c) codec (Some r1)).
  rewrite Hpend, Hsq, lookup_singleton_eq in Ein. specialize (Ein eq_refl Hid eq_refl (ans_type _ _ Ha) Hsts Hmd).
  rewrite (ans_serialize _ _ Ha), Q12, Hpl in Ein. specialize (Ein (ag_codec Hag) (ag_reply Hag)).
  rewrite delete_singleton_eq in Ein.
  set (c2 := set_heap _ _) in Ein. destruct (done_view id c2) as (V1 & V2 & V3 & V4 & V5 & V6 & _).
  exists (mk_endpoint (done_ id c2) s w'). split_and!.
  - unfold converse, converse_run. cbn [ep_client ep_server ep_world]. fold id. rewrite EGo, decide_False by (rewrite Hdn; lia).
    rewrite Hlast. cbn [mbind option_bind]. rewrite Hreq, Esv, Hdr, Ein, V2. cbn [c2 heap set_heap].
    by rewrite lookup_insert_eq.
  - split; cbn; rewrite ?V1, ?V4, ?V5, ?V6; [done..| |by rewrite done_option|done].
    cbn. rewrite Hseq. apply u64_range.
  - exists id, (with_Reply (Some r1) (placed c)). cbn. rewrite V2, V3. cbn. rewrite lookup_insert_eq.
    split_and!; try done. apply last_snoc.
Qed.

(** ** The whole stack

    A server that is up accepts connections and serves the call; one that is
    not refuses them.  None of them fails a call once it is connected, so no
    connection is bad in the sense of Failover. *)
Context (dial : nat -> string -> endpoint + error) (up : string -> Prop).

Record reachable : Prop := {
  re_up n k : up k -> exists ep, dial n k = inl ep;
  re_dial n k : match dial n k with inl ep => ep_live ep | inr e => contextCanceled (Some e) = false end
}.

Definition no_endpoint (_ : endpoint) : Prop := False.

Lemma stack_network : agreed -> reachable -> network dial converse up ep_live ep_answered no_endpoint.
Proof.
  intros Hag [Hup Hdial]. split; try done.
  - intros n k (ep & E)%(Hup n). exists ep. specialize (Hdial n k). by rewrite E in Hdial.
  - intros n k. specialize (Hdial n k). destruct (dial n k); [by left|done].
  - by intros ep [? ? _ _ _ _].
  - intros n ep Hep. by apply converse_live.
Qed.

(** C2: a call of [xClient.Call] in [Failover] mode comes back with the method's
    result.  The selector rotates over servers of which one is up within
    [Retries + 1] selections, the others refuse to be dialled, and the cache
    holds live connections.  Then [Call] returns nil; exactly one connection was
    used, once; on it the call that completed last is this one, with the reply
    the method's answer decodes to and without an error, and no call is left
    pending, so the connection is fit for the next call. *)
Theorem stack_call_returns {D} `{DoubleJump D} AvgRtt (rnd : nat -> nat) (clock : nat -> Z) backup r
    (x : xClient (anySelector (H := D)) endpoint) n :
  agreed -> reachable -> failMode x = Failover ->
  reaching (up := up) (live := ep_live) (bad := no_endpoint) x ->
  covers up (selector x) n -> n <= Retries x + 1 ->
  exists x' id ep,
    XClient.Call (H := made_Selector AvgRtt) dial converse rnd clock backup r x = (x', Ok None) /\
    log x' = log x ++ [(id, None)] /\
    objs x' !! id = Some ep /\ ep_live ep /\ ep_answered ep.
Proof.
  intros Hag Hre Hmode Hx Hcov Hn.
  destruct (covers_finds AvgRtt up r _ _ Hcov) as (m & Hm & Hf).
  destruct (Call_reaches dial converse rnd clock (stack_network Hag Hre) backup r m x Hmode Hx Hf)
    as (x' & res & E & -> & _ & l & id & Hlog & Hl & (ep & Hid & Hlive & Hans)); [lia|].
  exists x', id, ep. split_and!; [done| |done..].
  destruct Hl as [|a l [_ [? []]] _]. done.
Qed.
End stack.

(** ** Witness: [Arith.Mul] of 6 and 7 in Failover mode, the first server down *)
Definition fs_option : Option_ := mk_Option ProtoBuffer None_ false.

Definition fs_endpoint : endpoint (A := arith) (R := arith) (W := unit) (V := arith) :=
  mk_endpoint (NewClient fs_option) proto_server tt.

Definition fs_up (k : string) : Prop := k = "tcp@b:1".

Definition fs_dial (_ : nat) (k : string) : endpoint (A := arith) (R := arith) (W := unit) (V := arith) + error :=
  if decide (k = "tcp@b:1") then inl fs_endpoint else inr EOF.

Definition fs_xclient : xClient (anySelector (H := list string)) (endpoint (A := arith) (R := arith) (W := unit) (V := arith)) :=
  mk_xClient Failover 3 None false "" ∅ (SelRoundRobin (mk_rr ["tcp@a:1"; "tcp@b:1"] 0)) ∅ ∅ ∅ [] 0.

Definition fs_agreed : Prop :=
  agreed (client_codecs Codecs) raw_compressors "Arith" "Mul" None [] (VArgs (mk_ProtoArgs 6 7)) (VReply (mk_ProtoReply 9))
    NewMessage fs_option (client_codec (mk_GoCodec PBCodec_Encode PBCodec_Decode)) [x08; x06; x10; x07] [x08; x2a]
    (VReply (mk_ProtoReply 42)).

Lemma raw_below bound d : Z.of_nat (length d) < bound -> payload_below raw_compressors bound d.
Proof.
  intros Hd. split; [done|]. intros ct comp z. unfold raw_compressors, Compressors.
  repeat case_decide; intros [= <-] [= <-]; done.
Qed.

Lemma fs_agrees : fs_agreed.
Proof. split; try reflexivity; try done; try (by left); by apply raw_below. Qed.

Lemma fs_live :
  ep_live (server_codecs Codecs) zero_arith "Arith" "Mul" None fs_option [x08; x06; x10; x07] [x08; x2a] fs_endpoint.
Proof.
  split; [reflexivity..|done|reflexivity|]. intros req Hp Hm _ Hd Hs []. exists tt. by apply proto_served.
Qed.

Lemma stack_call_returns_witness :
  exists x' id ep,
    XClient.Call (H := made_Selector (D := list string) (fun _ => None)) fs_dial
      (converse (client_codecs Codecs) (server_codecs Codecs) zero_arith raw_compressors dirty_get dirty_get map_to_list
         (fun _ => []) "Arith" "Mul" None [] (VArgs (mk_ProtoArgs 6 7)) (VReply (mk_ProtoReply 9)) NewMessage)
      (fun _ => 0%nat) (fun _ => 0) (None, Timer, None, Timer) toy_request fs_xclient = (x', Ok None) /\
    log x' = [] ++ [(id, None)] /\ objs x' !! id = Some ep /\
    exists i call, last (dones (ep_client ep)) = Some i /\ heap (ep_client ep) !! i = Some call /\
      cReply call = Some (VReply (mk_ProtoReply 42)).
Proof.
  destruct (stack_call_returns (client_codecs Codecs) (server_codecs Codecs) zero_arith raw_compressors dirty_get
    dirty_get map_to_list (fun _ => []) (fun _ => reflexivity _) "Arith" "Mul" None [] (VArgs (mk_ProtoArgs 6 7))
    (VReply (mk_ProtoReply 9)) NewMessage fs_option _ [x08; x06; x10; x07] [x08; x2a] (VReply (mk_ProtoReply 42))
    fs_dial fs_up (D := list string) (fun _ => None) (fun _ => 0%nat) (fun _ => 0) (None, Timer, None, Timer) toy_request
    fs_xclient 2 fs_agrees) as (x' & id & ep & E & Hl & Hid & _ & (i & call & H1 & H2 & _ & _ & _ & H3 & _)).
  - split.
    + intros n k ->. by exists fs_endpoint.
    + intros n k. unfold fs_dial. case_decide; [apply fs_live|done].
  - reflexivity.
  - split; [reflexivity..|]. intros k id Hk. cbn in Hk. by rewrite lookup_empty in Hk.
  - refine (covers_round_robin fs_up ["tcp@a:1"; "tcp@b:1"] 0 "tcp@b:1" _ _ _ _ _);
      [cbn; unfold two63; lia|unfold two63; lia|set_solver|discriminate|reflexivity].
  - cbn. lia.
  - exists x', id, ep. split; [exact E|]. split; [exact Hl|]. split; [exact Hid|]. exists i, call. auto.
Defined.
