(* ===== verification/Logging.v ===== *)
(** log/: the interface of a logger, the default one with its levels, the dummy
    one, and the variable that everything else logs with.

    A message is what [fmt.Sprint] or [fmt.Sprintf] made of the arguments, so the
    two forms of each method are one here.  [W] is what is written to.  The other
    files leave logging out: this one says when that is right. *)
From S2P Require Import Prelude Go UrlQuery Gateway.
Open Scope go_scope.

(** The methods of [Logger]. *)
Inductive severity : Type := Debug | Info | Warn | LError | LFatal | LPanic.

#[export] Instance severity_eq : EqDecision severity.
Proof. solve_decision. Defined.

Class Logger (L W : Type) : Type := log_with : L -> severity -> string -> prog W unit.

Section logging.
Context {W : Type}.
(** [log.Logger.Output] of the standard library, and the colours of a terminal
    (github.com/fatih/color). *)
Context (Output : string -> prog W unit) (color : severity -> string -> string).

(** ** log/default_logger.go *)

Definition LvFatal : Z := 1.
Definition LvError : Z := 2.
Definition LvWarn : Z := 3.
Definition LvInfo : Z := 4.
Definition LvDebug : Z := 5.
Definition LvMax : Z := 6.

Definition header (lvl msg : string) : string := lvl +:+ ": " +:+ msg.

(** Whether the function at an index of [out] is [l.Output] or drops. *)
Record defaultLogger : Type := mk_defaultLogger { out : gmap Z bool }.

(** [NewDefaultLogger]: [env] is the variable IRPC_LOG_LEVEL. *)
Definition NewDefaultLogger (env : string) (lv : Z) : defaultLogger :=
  let level := if decide (env = "") then lv else default lv (Atoi env) in
  mk_defaultLogger (list_to_map ((fun i => (i, i <=? level)) <$> seqZ LvFatal (LvMax - LvFatal))).

(** [l.out[lv](callDepth, s)]; the function at an index that was not set is nil. *)
Definition out_at (l : defaultLogger) (lv : Z) (s : string) : prog W unit :=
  match out l !! lv with
  | Some true => Output s
  | Some false => mret tt
  | None => lift Panic
  end.

#[export] Instance default_Logger : Logger defaultLogger W := fun l sev msg =>
  match sev with
  | Debug => out_at l LvDebug (header "DEBUG" msg)
  | Info => out_at l LvInfo (header (color Info "INFO ") msg)
  | Warn => out_at l LvWarn (header (color Warn "WARN ") msg)
  | LError => out_at l LvError (header (color LError "ERROR") msg)
  | LFatal => Output (header (color LFatal "FATAL") msg);; lift Fatal
  | LPanic => Output msg;; lift Panic
  end.

(** ** log/dummy_logger.go *)
Inductive dummyLogger : Type := mk_dummyLogger.

#[export] Instance dummy_Logger : Logger dummyLogger W := fun _ _ _ => mret tt.

(** ** log/logger.go: the variable [l], and the functions that use it. *)
Definition logger : Type := severity -> string -> prog W unit.

Definition SetLogger {L} `{Logger L W} (l : L) : logger := log_with l.
Definition SetDummyLogger : logger := log_with mk_dummyLogger.

Definition log (l : logger) (sev : severity) (msg : string) : prog W unit := l sev msg.

(** ** What a logger does to the program *)

(** The level of a method that logs and returns. *)
Definition level_of (sev : severity) : option Z :=
  match sev with
  | Debug => Some LvDebug | Info => Some LvInfo | Warn => Some LvWarn | LError => Some LvError
  | LFatal | LPanic => None
  end.

Lemma out_levels env lv sev v : level_of sev = Some v ->
  out (NewDefaultLogger env lv) !! v = Some (v <=? (if decide (env = "") then lv else default lv (Atoi env))).
Proof. destruct sev; by intros [= <-]. Qed.

(** With the default logger a message is written exactly when its level is at
    most that of the environment, or else of the program, and the program goes
    on; a fatal message is always written and ends the process, and a panic is
    one.  The dummy logger writes nothing, and a program goes on behind a fatal
    message and a panic. *)
Theorem log_effects env lv sev msg (w : W) : (forall s w, exists w', Output s w = (w', Ok tt)) ->
  let level := if decide (env = "") then lv else default lv (Atoi env) in
  let l := log (SetLogger (NewDefaultLogger env lv)) sev msg in
  match level_of sev with
  | Some v =>
      (v <= level -> exists s, l w = Output s w) /\ (level < v -> l w = (w, Ok tt)) /\ exists w', l w = (w', Ok tt)
  | None =>
      exists s w', Output s w = (w', Ok tt) /\ l w = (w', if decide (sev = LFatal) then Fatal else Panic)
  end /\
  log SetDummyLogger sev msg w = (w, Ok tt).
Proof.
  intros Hout level l. split; [|done].
  assert (Hlv : forall v s, level_of sev = Some v -> l = out_at (NewDefaultLogger env lv) v s ->
    (v <= level -> exists s, l w = Output s w) /\ (level < v -> l w = (w, Ok tt)) /\ exists w', l w = (w', Ok tt)).
  { intros v s Hv ->. unfold out_at. rewrite (out_levels _ _ _ _ Hv). fold level.
    destruct (Z.leb_spec v level); split_and!; try lia; eauto. }
  assert (Hend : forall s r, l = (Output s;; lift r) -> exists w', Output s w = (w', Ok tt) /\ l w = (w', r)).
  { intros s r ->. destruct (Hout s w) as [w' E]. exists w'. unfold mbind, prog_bind. by rewrite E. }
  destruct sev; cbn [level_of]; try (by eapply Hlv); eexists; by apply Hend.
Qed.
End logging.

(** [client.Go] with an unbuffered channel relies on [log.Panic] to stop: with the
    dummy logger it does not. *)
Example dummy_goes_on : log (W := unit) SetDummyLogger LPanic "irpc: done channel is unbuffered" tt = (tt, Ok tt).
Proof. reflexivity. Qed.
