(* ===== verification/Backoff.v ===== *)
(** The delays between attempts that fail: ServeListener of
    server/server_serve.go, the accept loops of server/file_transfer.go and
    server/stream.go, and the watch of client/discovery_consul.go compute them
    with the same few lines. *)
From S2P Require Import Prelude Go.

(** [tempDelay] after a failure: [first], doubled each time, at most [max]. *)
Definition backoff (first max tempDelay : Z) : Z :=
  Z.min max (if decide (tempDelay = 0) then first else tempDelay * 2).

(** After a temporary error of [Accept]. *)
Definition accept_delay : Z -> Z := backoff (5 * millisecond) second.

(** After a failed [WatchTree]. *)
Definition next_delay : Z -> Z := backoff second (30 * second).

Lemma backoff_bounds first max t :
  0 <= first <= max -> t = 0 \/ first <= t -> first <= backoff first max t <= max.
Proof. unfold backoff. intros Hf Ht. case_decide; lia. Qed.

Lemma accept_delay_bounds t : t = 0 \/ 5 * millisecond <= t <= second ->
  5 * millisecond <= accept_delay t <= second.
Proof. intros Ht. apply backoff_bounds; [done|]. destruct Ht; [by left|right; tauto]. Qed.

Lemma next_delay_bounds t : t = 0 \/ second <= t -> second <= next_delay t <= 30 * second.
Proof. by apply backoff_bounds. Qed.

(** The delays of failures in a row are those of the doubling sequence: after
    [n] more failures than the first, [first * 2^n] or [max]. *)
Lemma backoff_iter first max n : 0 < first <= max ->
  Nat.iter (S n) (backoff first max) 0 = Z.min max (first * 2 ^ Z.of_nat n).
Proof.
  intros Hf. induction n as [|n IH]; [cbn; unfold backoff; case_decide; lia|].
  rewrite Nat.iter_succ, IH. unfold backoff.
  pose proof (Z.pow_pos_nonneg 2 (Z.of_nat n)). rewrite decide_False by nia.
  rewrite Nat2Z.inj_succ, Z.pow_succ_r by lia. nia.
Qed.
