(* ===== verification/KVStore.v ===== *)
(** What the registry plugins (serverplugin/) and the discoveries (client/) use
    of code outside the repository: the key-value store of libkv, as a record
    of its operations with the laws its documentation gives, and an instance on
    finite maps; and of the language: channels that are only closed,
    [strings.TrimSpace]. *)
From S2P Require Import Prelude Go.
Open Scope go_scope.

(** ** The store *)

(** [store.WriteOptions]. *)
Inductive write_options : Type := IsDir | TTL (d : Z).

(** [store.Store], and [libkv.NewStore] for the plugin's addresses: its
    argument says if the plugin's options are given or nil.  [AtomicPut] is
    called with a nil previous pair only. *)
Record Store (W : Type) : Type := mk_Store {
  NewStore : bool -> prog W unit;
  Put : string -> string -> write_options -> prog W unit;
  AtomicPut : string -> string -> write_options -> prog W unit;
  Get : string -> prog W string;
  Exists : string -> prog W bool;
  Delete : string -> prog W unit;
  List : string -> prog W (list (string * string))
}.
Arguments mk_Store {W}.
Arguments NewStore {W}.
Arguments Put {W}.
Arguments AtomicPut {W}.
Arguments Get {W}.
Arguments Exists {W}.
Arguments Delete {W}.
Arguments List {W}.

(** [store.ErrKeyNotFound]. *)
Definition ErrKeyNotFound : error := Foreign "Key not found in store".

(** An operation of the store gives a value or an error. *)
Definition returns {A} (r : result A) : Prop :=
  match r with Ok _ | Err _ => True | Panic | Fatal | Blocked => False end.

(** Two views of the store that differ at most at [k]. *)
Definition same_but (k : string) (m m' : gmap string string) : Prop :=
  forall k', k' <> k -> m' !! k' = m !! k'.

(** The documented behaviour of the store: [nodes] is what it holds.  When an
    operation fails its key may have any value; no operation changes another
    key. *)
Class StoreLaws {W} (st : Store W) (nodes : W -> gmap string string) : Prop := {
  NewStore_same o w w' r : NewStore st o w = (w', r) -> nodes w' = nodes w /\ returns r;
  Put_same k v o w w' r : Put st k v o w = (w', r) -> same_but k (nodes w) (nodes w') /\ returns r;
  Put_Ok k v o w w' : Put st k v o w = (w', Ok tt) -> nodes w' !! k = Some v;
  AtomicPut_same k v o w w' r : AtomicPut st k v o w = (w', r) -> same_but k (nodes w) (nodes w') /\ returns r;
  AtomicPut_Ok k v o w w' : AtomicPut st k v o w = (w', Ok tt) -> nodes w' !! k = Some v;
  Get_same k w w' r : Get st k w = (w', r) -> nodes w' = nodes w /\ returns r;
  Get_Ok k w w' v : Get st k w = (w', Ok v) -> nodes w !! k = Some v;
  Exists_same k w w' r : Exists st k w = (w', r) -> nodes w' = nodes w /\ returns r;
  Exists_Ok k w w' b : Exists st k w = (w', Ok b) -> b = bool_decide (is_Some (nodes w !! k));
  Delete_same k w w' r : Delete st k w = (w', r) -> same_but k (nodes w) (nodes w') /\ returns r;
  Delete_Ok k w w' : Delete st k w = (w', Ok tt) -> nodes w' !! k = None;
  List_same d w w' r : List st d w = (w', r) -> nodes w' = nodes w /\ returns r;
  List_Ok d w w' ps k v : List st d w = (w', Ok ps) ->
    nodes w !! (d +:+ "/" +:+ k) = Some v <-> (d +:+ "/" +:+ k, v) ∈ ps;
  List_missing d w w' k : List st d w = (w', Err ErrKeyNotFound) -> nodes w !! (d +:+ "/" +:+ k) = None
}.

Lemma same_but_refl k m : same_but k m m.
Proof. done. Qed.
Lemma same_but_eq k m m' : m' = m -> same_but k m m'.
Proof. by intros ->. Qed.
#[export] Hint Resolve same_but_refl same_but_eq : core.

(** ** A store in memory: every operation succeeds, [List] lists by prefix. *)

Definition map_store : Store (gmap string string) := mk_Store
  (fun _ m => (m, Ok tt))
  (fun k v _ m => (<[k := v]> m, Ok tt))
  (fun k v _ m => match m !! k with Some _ => (m, Err (Foreign "key exists")) | None => (<[k := v]> m, Ok tt) end)
  (fun k m => (m, match m !! k with Some v => Ok v | None => Err ErrKeyNotFound end))
  (fun k m => (m, Ok (bool_decide (is_Some (m !! k)))))
  (fun k m => (delete k m, Ok tt))
  (fun d m => (m, Ok (filter (fun kv => String.prefix d kv.1 = true) (map_to_list m)))).

Lemma prefix_append (d s : string) : String.prefix d (d +:+ s) = true.
Proof.
  induction d as [|c d IH]; [by destruct s|].
  change (String c d +:+ s) with (String c (d +:+ s)). cbn [String.prefix].
  destruct (Ascii.ascii_dec c c); [exact IH|done].
Qed.

#[export] Instance map_store_laws : StoreLaws map_store id.
Proof.
  split; cbn; unfold same_but, id; intros; simplify_eq; try done.
  - split; [|done]. intros. by rewrite lookup_insert_ne.
  - by rewrite lookup_insert_eq.
  - case_match; simplify_eq; split; try done. intros. by rewrite lookup_insert_ne.
  - case_match; simplify_eq. by rewrite lookup_insert_eq.
  - split; [done|]. by case_match.
  - by case_match; simplify_eq.
  - split; [|done]. intros. by rewrite lookup_delete_ne.
  - by rewrite lookup_delete_eq.
  - rewrite list_elem_of_filter, elem_of_map_to_list. cbn. rewrite prefix_append. naive_solver.
Qed.

(** ** Channels made late *)

(** [make] on a nil channel field. *)
Definition made (c : chan_state) : chan_state := match c with NilChan => OpenChan | _ => c end.

(** ** [strings.TrimSpace(s) == ""]

    Every rune of the string is white space: the ASCII spaces, and the UTF-8
    encodings of U+0085, U+00A0, U+1680, U+2000 to U+200A, U+2028, U+2029,
    U+202F, U+205F and U+3000. *)
Definition ascii_space (b : byte) : bool := ((9 <=? bz b) && (bz b <=? 13)) || (bz b =? 32).

Definition space2 (a b : byte) : bool := (bz a =? 194) && ((bz b =? 133) || (bz b =? 160)).

Definition space3 (a b c : byte) : bool :=
  let x := (bz a * 256 + bz b) * 256 + bz c in
  (x =? 14785152) || ((14844032 <=? x) && (x <=? 14844042)) ||
  (x =? 14844072) || (x =? 14844073) || (x =? 14844079) || (x =? 14844319) || (x =? 14909568).

Fixpoint blank_bytes (s : list byte) : bool :=
  match s with
  | [] => true
  | a :: s1 =>
      if ascii_space a then blank_bytes s1
      else match s1 with
           | b :: s2 =>
               if space2 a b then blank_bytes s2
               else match s2 with
                    | c :: s3 => if space3 a b c then blank_bytes s3 else false
                    | [] => false
                    end
           | [] => false
           end
  end.

Definition blank (s : string) : bool := blank_bytes (bytes_of s).

(** ** Paths: [fmt.Sprintf] with slashes *)
Definition path2 (a b : string) : string := a +:+ "/" +:+ b.
Definition path3 (a b c : string) : string := path2 a (path2 b c).

(** A name that is one segment of a path. *)
Definition one_segment (s : string) : Prop := "/"%byte ∉ bytes_of s.

Lemma bytes_of_app a b : bytes_of (a +:+ b) = bytes_of a ++ bytes_of b.
Proof.
  induction a as [|c a IH]; [done|].
  change (Ascii.byte_of_ascii c :: bytes_of (a +:+ b) = Ascii.byte_of_ascii c :: bytes_of a ++ bytes_of b).
  by rewrite IH.
Qed.

Lemma bytes_of_inj a b : bytes_of a = bytes_of b -> a = b.
Proof. intros H. by rewrite <- (string_of_bytes_of a), H, string_of_bytes_of. Qed.

Lemma bytes_of_path2 a b : bytes_of (path2 a b) = bytes_of a ++ "/"%byte :: bytes_of b.
Proof. unfold path2. by rewrite !bytes_of_app. Qed.

Lemma path2_inj_r a b b' : path2 a b = path2 a b' -> b = b'.
Proof.
  intros H%(f_equal bytes_of). rewrite !bytes_of_path2 in H.
  apply app_inv_head in H. injection H as H. by apply bytes_of_inj.
Qed.

Lemma path2_inj_l a a' b : path2 a b = path2 a' b -> a = a'.
Proof.
  intros H%(f_equal bytes_of). rewrite !bytes_of_path2 in H.
  apply app_inv_tail in H. by apply bytes_of_inj.
Qed.

Lemma path3_inj base n n' addr : path3 base n addr = path3 base n' addr -> n = n'.
Proof. unfold path3. by intros ?%path2_inj_r%path2_inj_l. Qed.

(** The node of a service is neither the base path nor a service's directory. *)
Lemma path3_not_base base n addr : path3 base n addr <> base.
Proof.
  intros H%(f_equal (fun s => length (bytes_of s))). revert H.
  unfold path3. rewrite bytes_of_path2, length_app. cbn. lia.
Qed.

Lemma path3_not_dir base n n' addr : one_segment n' -> path3 base n addr <> path2 base n'.
Proof.
  intros Hs H%path2_inj_r. subst n'. apply Hs. rewrite bytes_of_path2. apply elem_of_app.
  right. by left.
Qed.
