(* ===== verification/Registries.v ===== *)
(** serverplugin/consul.go, zookeeper.go and redis.go: the plugins that publish
    the services of a server in a key-value store.

    The three have the same fields and operations and differ in how they treat
    the base path, which errors they pass over and how they write a node; each
    has its Module.  A plugin's refresh goroutine is cut at its operations of
    the store, so that the operations of the plugin can come between them. *)
From Stdlib Require Import Strings.Ascii.
From S2P Require Import Prelude Go KVStore UrlQuery.
Open Scope go_scope.

(** The fields of the three structs.  [kv] says if the store was created. *)
Record registry_plugin : Type := mk_plugin {
  ServiceAddress : string;
  BasePath : string;
  Services : list string;
  metas : gmap string string;
  UpdateInterval : Z;
  kv : bool;
  dying : chan_state;
  done_ : chan_state
}.

Definition set_BasePath (b : string) (p : registry_plugin) : registry_plugin :=
  mk_plugin (ServiceAddress p) b (Services p) (metas p) (UpdateInterval p) (kv p) (dying p) (done_ p).
Definition set_Services (ss : list string) (ms : gmap string string) (p : registry_plugin) : registry_plugin :=
  mk_plugin (ServiceAddress p) (BasePath p) ss ms (UpdateInterval p) (kv p) (dying p) (done_ p).
Definition set_kv (p : registry_plugin) : registry_plugin :=
  mk_plugin (ServiceAddress p) (BasePath p) (Services p) (metas p) (UpdateInterval p) true (dying p) (done_ p).
Definition set_chans (dy dn : chan_state) (p : registry_plugin) : registry_plugin :=
  mk_plugin (ServiceAddress p) (BasePath p) (Services p) (metas p) (UpdateInterval p) (kv p) dy dn.

Definition nodePath (p : registry_plugin) (name : string) : string := path3 (BasePath p) name (ServiceAddress p).

(** [go-metrics]: a meter's [Mark(1)] and its [RateMean()] printed with two
    decimals. *)
Record Meters (W : Type) : Type := mk_Meters { Mark : string -> prog W unit; Rate : string -> W -> string }.
Arguments mk_Meters {W}.
Arguments Mark {W}.
Arguments Rate {W}.

Section registries.
Context {W : Type} (st : Store W) (Metrics : option (Meters W)).

(** The plugin and the world of the store. *)
Definition rstate : Type := registry_plugin * W.

Definition on_store {A} (m : prog W A) : prog rstate A := fun '(p, w) =>
  let '(w, r) := m w in ((p, w), r).

Definition upd (f : registry_plugin -> registry_plugin) : prog rstate unit := modify (fun '(p, w) => (f p, w)).

(** Run [h] when [m] returns an error, and return the error. *)
Definition on_error {A} (m : prog rstate A) (h : prog rstate unit) : prog rstate A := fun s =>
  match m s with
  | (s, Err e) => match h s with
                  | (s, Ok _) => (s, Err e)
                  | (s, Err e') => (s, Err e')
                  | (s, Panic) => (s, Panic) | (s, Fatal) => (s, Fatal) | (s, Blocked) => (s, Blocked)
                  end
  | r => r
  end.

(** An error the code passes over, and one it ignores. *)
Definition tolerate (ok : error -> bool) (m : prog rstate unit) : prog rstate unit := fun s =>
  match m s with (s, Err e) => if ok e then (s, Ok tt) else (s, Err e) | r => r end.
Definition ignore_error (m : prog rstate unit) : prog rstate unit := tolerate (fun _ => true) m.

(** [if p.kv == nil { kv, err := libkv.NewStore(...); ...; p.kv = kv }]. *)
Definition open_store (options : bool) : prog rstate unit :=
  '(p, _) ← get_st;
  if kv p then mret tt else on_store (NewStore st options);; upd set_kv.

(** [if p.BasePath[0] == '/' { p.BasePath = p.BasePath[1:] }]: an empty path
    panics. *)
Definition trim_base : prog rstate unit :=
  '(p, _) ← get_st;
  match BasePath p with
  | "" => lift Panic
  | String c b => if decide (c = "/"%char) then upd (set_BasePath b) else mret tt
  end.

(** [p.kv.Put(path, value, opts)] for a path made of the plugin's fields. *)
Definition put (path : registry_plugin -> string) (v : string) (o : registry_plugin -> write_options) :
    prog rstate unit :=
  '(p, _) ← get_st; on_store (Put st (path p) v (o p)).

Definition delete_node (name : string) : prog rstate unit :=
  '(p, _) ← get_st; on_store (Delete st (nodePath p name)).

Definition dir (name : string) (p : registry_plugin) : string := path2 (BasePath p) name.
Definition node (name : string) (p : registry_plugin) : string := nodePath p name.
Definition is_dir (p : registry_plugin) : write_options := IsDir.
Definition ttl (p : registry_plugin) : write_options := TTL (i64 (UpdateInterval p * 2)).

(** The end of [Register] and of [Unregister]: the service in [Services] and
    its metadata in [metas]. *)
Definition remember (name metadata : string) : prog rstate unit :=
  upd (fun p => set_Services (Services p ++ [name]) (<[name := metadata]> (metas p)) p).
Definition forget (name : string) : prog rstate unit :=
  upd (fun p => set_Services (filter (fun s => s <> name) (Services p)) (delete name (metas p)) p).

(** [close(p.done)], [close(p.dying)]. *)
Definition close_done : prog rstate unit :=
  '(p, _) ← get_st; c ← lift (close_chan (done_ p)); upd (set_chans (dying p) c).
Definition close_dying : prog rstate unit :=
  '(p, _) ← get_st; c ← lift (close_chan (dying p)); upd (fun p => set_chans c (done_ p) p).

Definition make_chans : prog rstate unit := upd (fun p => set_chans (made (dying p)) (made (done_ p)) p).

(** The loop of [Stop] over [p.Services]: an error of [Exists] goes on to the
    next service. *)
Fixpoint remove_nodes (names : list string) : prog rstate unit :=
  match names with
  | [] => mret tt
  | name :: names =>
      '(p, _) ← get_st;
      ignore_error (
        exist ← on_store (Exists st (nodePath p name));
        if (exist : bool) then ignore_error (on_store (Delete st (nodePath p name))) else mret tt);;
      remove_nodes names
  end.

Definition empty_name (verb : string) : error := ErrorString (verb +:+ " service `name` can't be empty").

(** What a plugin counts: [HandleConnAccept] and [PreCall]. *)
Definition mark (meter : string) : prog rstate unit :=
  match Metrics with Some m => on_store (Mark m meter) | None => mret tt end.

(** ** The refresh goroutine *)

(** Waiting in the [select]; refreshing, with the services left of the range
    over [p.Services] and the extra values; about to write a node; returned. *)
Inductive refresh_loop : Type :=
| Waiting
| Refreshing (extra : list (string * string)) (todo : list string)
| Writing (path value : string) (extra : list (string * string)) (todo : list string)
| Exited.

#[export] Instance refresh_loop_eq_dec : EqDecision refresh_loop.
Proof. solve_decision. Defined.

Definition extra (w : W) : list (string * string) :=
  match Metrics with
  | Some m => [("calls", Rate m "calls" w); ("connections", Rate m "connections" w)]
  | None => []
  end.

(** [v, _ := url.ParseQuery(value); for ... v.Set(key, value); v.Encode()]. *)
Definition refreshed (extra : list (string * string)) (value : string) : string :=
  let v := (ParseQuery (bytes_of value)).1 in
  string_of (Values_Encode (fold_left (fun v '(key, value) => Values_Set key value v) extra v)).

(** [case <-ticker.C]. *)
Definition loop_tick (s : rstate) : refresh_loop := Refreshing (extra s.2) (Services s.1).

(** The turn for a service up to its write. *)
Definition loop_get (ex : list (string * string)) (name : string) (todo : list string) : prog rstate refresh_loop := fun '(p, w) =>
  let path := nodePath p name in
  match KVStore.Get st path w with
  | (w, Err _) => ((p, w), Ok (Writing path (default "" (metas p !! name)) ex todo))
  | (w, Ok v) => ((p, w), Ok (Writing path (refreshed ex v) ex todo))
  | (w, Panic) => ((p, w), Panic) | (w, Fatal) => ((p, w), Fatal) | (w, Blocked) => ((p, w), Blocked)
  end.

Definition loop_put (path value : string) (ex : list (string * string)) (todo : list string) : prog rstate refresh_loop :=
  ignore_error (put (fun _ => path) value ttl);; mret (Refreshing ex todo).

(** [case <-p.dying: close(p.done); return]. *)
Definition loop_dying : prog rstate refresh_loop := close_done;; mret Exited.
End registries.

(** ** The operations *)
Module Consul.
Section consul.
Context {W : Type} (st : Store W) (Metrics : option (Meters W)).

(** Whether a refresh goroutine was started. *)
Definition Start : prog (rstate (W := W)) bool :=
  make_chans;;
  on_error (open_store st true) close_done;;
  trim_base;;
  on_error (put st BasePath "irpc_path" is_dir) close_done;;
  '(p, _) ← get_st;
  mret (0 <? UpdateInterval p).

(** [Stop] up to its wait for [p.done]. *)
Definition Stop : prog (rstate (W := W)) unit :=
  open_store st true;;
  trim_base;;
  '(p, _) ← get_st;
  remove_nodes st (Services p);;
  close_dying.

Definition HandleConnAccept {C} (conn : C) : prog (rstate (W := W)) (C * bool) :=
  mark Metrics "connections";; mret (conn, true).

Definition PreCall {V} (args : V) : prog (rstate (W := W)) V := mark Metrics "calls";; mret args.

Definition Register (name metadata : string) : prog (rstate (W := W)) unit :=
  if blank name then fail (empty_name "register") else
  open_store st false;;
  trim_base;;
  put st BasePath "irpc_path" is_dir;;
  put st (dir name) name is_dir;;
  put st (node name) metadata ttl;;
  remember name metadata.

Definition RegisterFunction (serviceName fname metadata : string) : prog (rstate (W := W)) unit :=
  Register serviceName metadata.

Definition Unregister (name : string) : prog (rstate (W := W)) unit :=
  '(p, _) ← get_st;
  match Services p with
  | [] => mret tt
  | _ =>
      if blank name then fail (empty_name "unregister") else
      open_store st false;;
      trim_base;;
      put st BasePath "irpc_path" is_dir;;
      put st (dir name) name is_dir;;
      delete_node st name;;
      forget name
  end.
End consul.
End Consul.

Module Zookeeper.
Section zookeeper.
Context {W : Type} (st : Store W) (Metrics : option (Meters W)).

Definition Start : prog (rstate (W := W)) bool :=
  make_chans;;
  on_error (open_store st true) close_done;;
  trim_base;;
  on_error (put st BasePath "irpc_path" is_dir) close_done;;
  '(p, _) ← get_st;
  mret (0 <? UpdateInterval p).

Definition Stop : prog (rstate (W := W)) unit :=
  open_store st true;;
  trim_base;;
  '(p, _) ← get_st;
  remove_nodes st (Services p);;
  close_dying.

Definition HandleConnAccept {C} (conn : C) : prog (rstate (W := W)) (C * bool) :=
  mark Metrics "connections";; mret (conn, true).

Definition PreCall {V} (args : V) : prog (rstate (W := W)) V := mark Metrics "calls";; mret args.

(** The node is deleted first, because [AtomicPut] without a previous pair
    fails on an existing key. *)
Definition Register (name metadata : string) : prog (rstate (W := W)) unit :=
  if blank name then fail (empty_name "register") else
  open_store st false;;
  trim_base;;
  put st BasePath "irpc_path" is_dir;;
  put st (dir name) name is_dir;;
  ignore_error (delete_node st name);;
  '(p, _) ← get_st;
  on_store (AtomicPut st (nodePath p name) metadata (ttl p));;
  remember name metadata.

Definition RegisterFunction (serviceName fname metadata : string) : prog (rstate (W := W)) unit :=
  Register serviceName metadata.

Definition Unregister (name : string) : prog (rstate (W := W)) unit :=
  '(p, _) ← get_st;
  match Services p with
  | [] => mret tt
  | _ =>
      if blank name then fail (empty_name "Register") else
      open_store st false;;
      trim_base;;
      put st BasePath "irpc_path" is_dir;;
      put st (dir name) name is_dir;;
      delete_node st name;;
      forget name
  end.
End zookeeper.
End Zookeeper.

Module Redis.
Section redis.
Context {W : Type} (st : Store W) (Metrics : option (Meters W)).

(** [strings.Contains(err.Error(), "Not a file")]. *)
Definition not_a_file (e : error) : bool :=
  match String.index 0 "Not a file" (Error e) with Some _ => true | None => false end.

Definition Start : prog (rstate (W := W)) bool :=
  make_chans;;
  on_error (open_store st true) close_done;;
  on_error (tolerate not_a_file (put st BasePath "irpc_path" is_dir)) close_done;;
  '(p, _) ← get_st;
  mret (0 <? UpdateInterval p).

Definition Stop : prog (rstate (W := W)) unit :=
  open_store st true;;
  '(p, _) ← get_st;
  remove_nodes st (Services p);;
  close_dying.

Definition HandleConnAccept {C} (conn : C) : prog (rstate (W := W)) (C * bool) :=
  mark Metrics "connections";; mret (conn, true).

Definition PreCall {V} (args : V) : prog (rstate (W := W)) V := mark Metrics "calls";; mret args.

Definition Register (name metadata : string) : prog (rstate (W := W)) unit :=
  if blank name then fail (empty_name "register") else
  open_store st true;;
  tolerate not_a_file (put st BasePath "irpc_path" is_dir);;
  tolerate not_a_file (put st (dir name) name is_dir);;
  put st (node name) metadata ttl;;
  remember name metadata.

Definition Unregister (name : string) : prog (rstate (W := W)) unit :=
  '(p, _) ← get_st;
  match Services p with
  | [] => mret tt
  | _ =>
      if blank name then fail (empty_name "register") else
      open_store st true;;
      tolerate not_a_file (put st BasePath "irpc_path" is_dir);;
      tolerate not_a_file (put st (dir name) name is_dir);;
      delete_node st name;;
      forget name
  end.
End redis.
End Redis.
