(* ===== verification/RegistryFacts.v ===== *)
(** What the registry plugins promise to the server and to the clients that
    read the store: the class [RegistryPlugin], its instances for the three
    plugins of Registries, and what follows from it for any sequence of calls;
    then the refresh goroutine and [Stop] as a step relation. *)
From Stdlib Require Import Strings.Ascii.
From S2P Require Import Prelude Go KVStore UrlQuery Registries.
Open Scope go_scope.

(** ** The contract *)

(** The fields no [Register] or [Unregister] changes. *)
Definition same_fields (p p' : registry_plugin) : Prop :=
  ServiceAddress p' = ServiceAddress p /\ BasePath p' = BasePath p /\ UpdateInterval p' = UpdateInterval p /\
  dying p' = dying p /\ done_ p' = done_ p.

(** A path the plugins leave as it is. *)
Definition trimmed (base : string) : Prop :=
  match base with "" => False | String c _ => c <> "/"%char end.

Section contract.
Context {W : Type} (nodes : W -> gmap string string).

(** The keys [Register] and [Unregister] write. *)
Definition touched (p : registry_plugin) (name : string) : list string :=
  [BasePath p; dir name p; nodePath p name].

Definition only_touched (p : registry_plugin) (name : string) (w w' : W) : Prop :=
  forall k, k ∉ touched p name -> nodes w' !! k = nodes w !! k.

Definition Register_post (name metadata : string) (p : registry_plugin) (w : W)
    (x : rstate (W := W) * result unit) : Prop :=
  let '((p', w'), r) := x in
  same_fields p p' /\ only_touched p name w w' /\
  match r with
  | Ok _ => blank name = false /\ nodes w' !! nodePath p name = Some metadata /\
            Services p' = Services p ++ [name] /\ metas p' = <[name := metadata]> (metas p)
  | Err _ => Services p' = Services p /\ metas p' = metas p
  | Panic | Fatal | Blocked => False
  end.

Definition Unregister_post (name : string) (p : registry_plugin) (w : W)
    (x : rstate (W := W) * result unit) : Prop :=
  let '((p', w'), r) := x in
  same_fields p p' /\ only_touched p name w w' /\
  match r with
  | Ok _ => (Services p = [] /\ p' = p /\ w' = w) \/
            (Services p <> [] /\ blank name = false /\ nodes w' !! nodePath p name = None /\
             Services p' = filter (fun s => s <> name) (Services p) /\ metas p' = delete name (metas p))
  | Err _ => Services p' = Services p /\ metas p' = metas p
  | Panic | Fatal | Blocked => False
  end.

(** [base_ok]: the base paths the plugin works with. *)
Class RegistryPlugin (base_ok : string -> Prop)
    (Register : string -> string -> prog (rstate (W := W)) unit)
    (Unregister : string -> prog (rstate (W := W)) unit) : Prop := {
  Register_meets name metadata p w : base_ok (BasePath p) ->
    Register_post name metadata p w (Register name metadata (p, w));
  Unregister_meets name p w : base_ok (BasePath p) ->
    Unregister_post name p w (Unregister name (p, w))
}.
End contract.

(** ** Programs that only prepare *)
Section preparing.
Context {W : Type} (st : Store W) (nodes : W -> gmap string string) {Hst : StoreLaws st nodes}.
Context (name : string) (p0 : registry_plugin) (w0 : W).

(** Nothing changed but the [kv] field and the touched keys. *)
Definition prepared (s : rstate (W := W)) : Prop :=
  set_kv s.1 = set_kv p0 /\ only_touched nodes p0 name w0 s.2.

Definition prepares {A} (m : prog (rstate (W := W)) A) : Prop :=
  forall s, prepared s -> prepared (m s).1 /\ returns (m s).2.

Lemma prepared_fields s : prepared s ->
  same_fields p0 s.1 /\ Services s.1 = Services p0 /\ metas s.1 = metas p0 /\ touched s.1 name = touched p0 name.
Proof. intros [H _]. destruct s as [[] w], p0. cbn in *. unfold same_fields. cbn. by simplify_eq. Qed.

Lemma prepared_refl : prepared (p0, w0).
Proof. by split. Qed.

(** A store operation on a touched key. *)
Lemma prepared_op s k w' : prepared s -> k ∈ touched p0 name ->
  same_but k (nodes s.2) (nodes w') -> prepared (s.1, w').
Proof.
  intros [H1 H2] Hk Hs. split; [done|]. intros k' Hk'. rewrite <- H2 by done.
  apply Hs. by intros ->.
Qed.

Lemma prepares_ret {A} (a : A) : prepares (mret a).
Proof. done. Qed.

Lemma prepares_open_store o : prepares (open_store st o).
Proof.
  intros [p w] Hp. unfold open_store. prog_step. destruct (kv p); [done|].
  unfold on_store. destruct (NewStore st o w) as [w1 r] eqn:E.
  apply NewStore_same in E as [E Hr]. destruct Hp as [H1 H2]. cbn in *.
  destruct r; try done; (split; [split|done]); cbn; try done; intros k Hk; cbn; rewrite E; by apply H2.
Qed.

Lemma prepares_trim_base : trimmed (BasePath p0) -> prepares trim_base.
Proof.
  intros Hb [p w] Hp. destruct (prepared_fields _ Hp) as ((_ & HB & _) & _). cbn in HB.
  unfold trim_base. prog_step. rewrite HB. destruct (BasePath p0); [done|]. cbn in Hb.
  by rewrite decide_False.
Qed.

Lemma prepares_put path v o : (forall p, path (set_kv p) = path p) -> path p0 ∈ touched p0 name ->
  prepares (put st path v o).
Proof.
  intros Hpath Hin [p w] Hp. unfold put. prog_step. unfold on_store.
  destruct (Put st (path p) v (o p) w) as [w1 r] eqn:E. apply Put_same in E as [E Hr].
  split; [|done]. eapply (prepared_op (p, w)); [done| |exact E].
  rewrite <- (Hpath p). destruct Hp as [Hp _]. cbn in Hp. by rewrite Hp, Hpath.
Qed.

Lemma prepares_delete_node : prepares (delete_node st name).
Proof.
  intros [p w] Hp. unfold delete_node. prog_step. unfold on_store.
  destruct (Delete st (nodePath p name) w) as [w1 r] eqn:E. apply Delete_same in E as [E Hr].
  split; [|done]. eapply (prepared_op (p, w)); [done| |exact E].
  pose proof (prepared_fields _ Hp) as (_ & _ & _ & Ht). cbn in Ht. rewrite <- Ht.
  unfold touched. set_solver.
Qed.

Lemma prepares_tolerate ok (m : prog (rstate (W := W)) unit) : prepares m -> prepares (tolerate ok m).
Proof.
  intros Hm s Hs. destruct (Hm s Hs) as [H1 H2]. unfold tolerate.
  destruct (m s) as [s1 [[]|e| | |]]; try done. by destruct (ok e).
Qed.

(** The rule that carries the contracts through a preparing program: go on, or
    stop with its error. *)
Lemma prepares_bind (m : prog (rstate (W := W)) unit) (k : prog (rstate (W := W)) unit) (Q : rstate (W := W) * result unit -> Prop) s :
  prepares m -> prepared s ->
  (forall s', prepared s' -> Q (k s')) -> (forall s' e, prepared s' -> Q (s', Err e)) ->
  Q ((m ;; k) s).
Proof.
  intros Hm Hs Hk He. destruct (Hm s Hs) as [H1 H2]. unfold mbind, prog_bind.
  destruct (m s) as [s1 [[]|e| | |]]; try done; [by apply Hk|by apply He].
Qed.

Lemma prepared_error metadata s e : prepared s -> Register_post nodes name metadata p0 w0 (s, Err e).
Proof.
  intros Hs. destruct (prepared_fields _ Hs) as (H1 & H2 & H3 & _). destruct Hs as [_ H4].
  destruct s. done.
Qed.

Lemma prepared_error' s e : prepared s -> Unregister_post nodes name p0 w0 (s, Err e).
Proof.
  intros Hs. destruct (prepared_fields _ Hs) as (H1 & H2 & H3 & _). destruct Hs as [_ H4].
  destruct s. done.
Qed.
End preparing.

(** ** The three instances *)
Section instances.
Context {W : Type} (st : Store W) (nodes : W -> gmap string string) {Hst : StoreLaws st nodes}.

(** The last write of [Register]: its key is the node, and on success the
    node has the metadata. *)
Lemma write_remember name metadata p0 w0 (write : rstate (W := W) -> prog W unit) s :
  (forall s' w w' r, prepared nodes name p0 w0 s' -> write s' w = (w', r) ->
    same_but (nodePath p0 name) (nodes w) (nodes w') /\ returns r /\
    (r = Ok tt -> nodes w' !! nodePath p0 name = Some metadata)) ->
  blank name = false -> prepared nodes name p0 w0 s ->
  Register_post nodes name metadata p0 w0
    ((on_store (write s);; remember name metadata) s).
Proof.
  intros Hw Hb Hs. destruct s as [p w]. unfold mbind, prog_bind, on_store.
  destruct (write (p, w) w) as [w1 r] eqn:E.
  destruct (Hw (p, w) w w1 r Hs E) as (H1 & H2 & H3).
  assert (Hs1 : prepared nodes name p0 w0 (p, w1)).
  { eapply (prepared_op nodes name p0 w0 (p, w)); [done| |exact H1]. unfold touched. set_solver. }
  destruct (prepared_fields nodes name p0 w0 _ Hs1) as (F1 & F2 & F3 & _).
  destruct r as [[]|e| | |]; try done; [|by apply prepared_error].
  cbn in *. rewrite F2, F3. destruct Hs1 as [_ Hs1]. split_and!; try done. by apply H3.
Qed.

Lemma put_remember name metadata p0 w0 s :
  blank name = false -> prepared nodes name p0 w0 s ->
  Register_post nodes name metadata p0 w0 ((put st (node name) metadata ttl;; remember name metadata) s).
Proof.
  intros Hb Hs. destruct s as [p w].
  apply (write_remember name metadata p0 w0 (fun s => Put st (node name s.1) metadata (ttl s.1)) (p, w)); [|done|done].
  intros [p1 w1] w2 w3 r Hp E. cbn in E.
  assert (Hn : node name p1 = nodePath p0 name).
  { destruct (prepared_fields nodes name p0 w0 _ Hp) as ((F1 & F2 & _) & _). cbn in *.
    unfold node, nodePath. by rewrite F1, F2. }
  rewrite Hn in E. pose proof (Put_same _ _ _ _ _ _ E) as [H1 H2].
  split_and!; try done. intros ->. by eapply Put_Ok.
Qed.

(** The end of [Unregister]. *)
Lemma delete_forget name p0 w0 s :
  Services p0 <> [] -> blank name = false -> prepared nodes name p0 w0 s ->
  Unregister_post nodes name p0 w0 ((delete_node st name;; forget name) s).
Proof.
  intros Hne Hb Hs. destruct s as [p w].
  destruct (prepared_fields nodes name p0 w0 _ Hs) as (F1 & F2 & F3 & F4). cbn in *.
  assert (Hn : nodePath p name = nodePath p0 name)
    by (destruct F1 as (F5 & F6 & _); unfold nodePath; by rewrite F5, F6).
  unfold mbind, prog_bind, delete_node. prog_step. unfold on_store. rewrite Hn.
  destruct (Delete st (nodePath p0 name) w) as [w1 r] eqn:E.
  pose proof (Delete_same _ _ _ _ E) as [H1 H2].
  assert (Hs1 : prepared nodes name p0 w0 (p, w1)).
  { eapply (prepared_op nodes name p0 w0 (p, w)); [done| |exact H1]. unfold touched. set_solver. }
  destruct r as [[]|e| | |]; try done; [|by apply prepared_error'].
  cbn. destruct Hs1 as [_ Hs1]. split_and!; try done. right. rewrite F2, F3.
  split_and!; try done. by eapply Delete_Ok.
Qed.

Lemma unregister_nothing name p0 w0 : Services p0 = [] -> Unregister_post nodes name p0 w0 ((p0, w0), Ok tt).
Proof. intros Hs. unfold Unregister_post, same_fields. split_and!; try done. by left. Qed.

(** Go through a preparing step of a contract. *)
Ltac prepare :=
  lazymatch goal with
  | H : prepared ?nodes ?name ?p0 ?w0 ?s |- ?Q (_ ?s) =>
      apply (prepares_bind nodes name p0 w0 _ _ Q s);
      [|exact H|clear H; let s := fresh "s" in intros s ?|by intros; (apply prepared_error || apply prepared_error')]
  end.
Ltac prepares_tac :=
  match goal with
  | |- prepares _ _ _ _ (tolerate _ _) => apply prepares_tolerate; prepares_tac
  | |- prepares _ _ _ _ (ignore_error _) => apply prepares_tolerate; prepares_tac
  | |- prepares _ _ _ _ (open_store _ _) => by apply (prepares_open_store st nodes)
  | |- prepares _ _ _ _ trim_base => by apply prepares_trim_base
  | |- prepares _ _ _ _ (put _ _ _ _) => apply (prepares_put st nodes); [by intros []|unfold touched; rewrite !elem_of_cons; auto]
  | |- prepares _ _ _ _ (delete_node _ _) => by apply (prepares_delete_node st nodes)
  end.

#[export] Instance Consul_plugin :
  RegistryPlugin nodes trimmed (Consul.Register st) (Consul.Unregister st).
Proof.
  split.
  - intros name metadata p0 w0 Hb. pose proof (prepared_refl nodes name p0 w0) as Hp.
    unfold Consul.Register. destruct (blank name) eqn:Hbl; [by apply prepared_error|].
    do 4 (prepare; [prepares_tac|]). by apply put_remember.
  - intros name p0 w0 Hb. pose proof (prepared_refl nodes name p0 w0) as Hp.
    unfold Consul.Unregister. unfold mbind at 1, prog_bind, get_st.
    destruct (Services p0) as [|s0 ss] eqn:Hss; [by apply unregister_nothing|].
    destruct (blank name) eqn:Hbl; [by apply prepared_error'|].
    do 4 (prepare; [prepares_tac|]). apply delete_forget; congruence.
Qed.

#[export] Instance Redis_plugin :
  RegistryPlugin nodes (fun _ => True) (Redis.Register st) (Redis.Unregister st).
Proof.
  split.
  - intros name metadata p0 w0 Hb. pose proof (prepared_refl nodes name p0 w0) as Hp.
    unfold Redis.Register. destruct (blank name) eqn:Hbl; [by apply prepared_error|].
    do 3 (prepare; [prepares_tac|]). by apply put_remember.
  - intros name p0 w0 Hb. pose proof (prepared_refl nodes name p0 w0) as Hp.
    unfold Redis.Unregister. unfold mbind at 1, prog_bind, get_st.
    destruct (Services p0) as [|s0 ss] eqn:Hss; [by apply unregister_nothing|].
    destruct (blank name) eqn:Hbl; [by apply prepared_error'|].
    do 3 (prepare; [prepares_tac|]). apply delete_forget; congruence.
Qed.

#[export] Instance Zookeeper_plugin :
  RegistryPlugin nodes trimmed (Zookeeper.Register st) (Zookeeper.Unregister st).
Proof.
  split.
  - intros name metadata p0 w0 Hb. pose proof (prepared_refl nodes name p0 w0) as Hp.
    unfold Zookeeper.Register. destruct (blank name) eqn:Hbl; [by apply prepared_error|].
    do 5 (prepare; [prepares_tac|]). match goal with |- _ (_ ?s) => destruct s as [p w] end.
    apply (write_remember name metadata p0 w0 (fun s => AtomicPut st (nodePath s.1 name) metadata (ttl s.1)) (p, w)); [|done|done].
    intros [p1 w1] w2 w3 r Hp1 E. cbn in E.
    assert (Hn : nodePath p1 name = nodePath p0 name).
    { destruct (prepared_fields nodes name p0 w0 _ Hp1) as ((F1 & F2 & _) & _). cbn in *.
      unfold nodePath. by rewrite F1, F2. }
    rewrite Hn in E. pose proof (AtomicPut_same _ _ _ _ _ _ E) as [H1 H2].
    split_and!; try done. intros ->. by eapply AtomicPut_Ok.
  - intros name p0 w0 Hb. pose proof (prepared_refl nodes name p0 w0) as Hp.
    unfold Zookeeper.Unregister. unfold mbind at 1, prog_bind, get_st.
    destruct (Services p0) as [|s0 ss] eqn:Hss; [by apply unregister_nothing|].
    destruct (blank name) eqn:Hbl; [by apply prepared_error'|].
    do 4 (prepare; [prepares_tac|]). apply delete_forget; congruence.
Qed.
End instances.

(** ** Any sequence of calls *)
Inductive plugin_call : Type := CallRegister (name metadata : string) | CallUnregister (name : string).

Definition called (c : plugin_call) : string :=
  match c with CallRegister name _ => name | CallUnregister name => name end.

Section sequences.
Context {W : Type} (nodes : W -> gmap string string) (base_ok : string -> Prop)
  (Register : string -> string -> prog (rstate (W := W)) unit)
  (Unregister : string -> prog (rstate (W := W)) unit)
  {Hplugin : RegistryPlugin nodes base_ok Register Unregister}.

Definition do_call (c : plugin_call) : prog (rstate (W := W)) unit :=
  match c with CallRegister name metadata => Register name metadata | CallUnregister name => Unregister name end.

(** What an observer of the calls notes: the names whose last call failed, and
    the names that were registered at some time. *)
Record notes : Type := mk_notes { failed : gset string; owned : gset string }.

Definition note (c : plugin_call) (p : registry_plugin) (r : result unit) (n : notes) : notes :=
  match r, c with
  | Ok _, CallRegister name _ => mk_notes (failed n ∖ {[name]}) (owned n ∪ {[name]})
  | Ok _, CallUnregister name =>
      match Services p with [] => n | _ => mk_notes (failed n ∖ {[name]}) (owned n) end
  | _, _ => mk_notes (failed n ∪ {[called c]}) (owned n)
  end.

(** The calls one after the other; the server goes on after an error. *)
Fixpoint run_calls (cs : list plugin_call) (n : notes) (s : rstate (W := W)) : notes * rstate (W := W) :=
  match cs with
  | [] => (n, s)
  | c :: cs => let '(s', r) := do_call c s in run_calls cs (note c s.1 r n) s'
  end.

(** [Services] and [metas] hold the same names; the node of a service is in
    the store with its metadata, and that of a service that is no longer
    registered is not, unless the last call for that name failed ([Unregister]
    of a plugin without services does nothing, so it does not count). *)
Record published (n : notes) (p : registry_plugin) (w : W) : Prop := {
  pub_base : base_ok (BasePath p);
  pub_agree name : name ∈ Services p <-> is_Some (metas p !! name);
  pub_node name m : metas p !! name = Some m -> name ∉ failed n -> nodes w !! nodePath p name = Some m;
  pub_gone name : metas p !! name = None -> name ∈ owned n -> name ∉ failed n -> nodes w !! nodePath p name = None
}.

(** The node of another service is not touched. *)
Lemma untouched p name name' : one_segment name -> name' <> name -> nodePath p name' ∉ touched p name.
Proof.
  intros Hs Hne. unfold touched, dir, nodePath. rewrite !not_elem_of_cons. split_and!.
  - apply path3_not_base.
  - by apply path3_not_dir.
  - by intros ?%path3_inj.
  - apply not_elem_of_nil.
Qed.

Lemma same_nodePath p p' name : same_fields p p' -> nodePath p' name = nodePath p name.
Proof. intros (H1 & H2 & _). unfold nodePath. by rewrite H1, H2. Qed.

(** The store keeps the node of every other service. *)
Lemma other_node p p' w w' name name' : one_segment name -> name' <> name ->
  same_fields p p' -> only_touched nodes p name w w' -> nodes w' !! nodePath p' name' = nodes w !! nodePath p name'.
Proof. intros Hs Hne Hf Ho. rewrite (same_nodePath p p') by done. apply Ho. by apply untouched. Qed.

Lemma published_failed c n p p' w w' :
  one_segment (called c) -> published n p w -> same_fields p p' -> only_touched nodes p (called c) w w' ->
  Services p' = Services p -> metas p' = metas p -> published (mk_notes (failed n ∪ {[called c]}) (owned n)) p' w'.
Proof.
  intros Hseg [Hb Ha Hn Hg] Hf Ho Hs Hm. split; cbn.
  - by rewrite (proj1 (proj2 Hf)).
  - intros name. by rewrite Hs, Hm.
  - intros name m. rewrite Hm, not_elem_of_union, not_elem_of_singleton. intros Hl [Hni Hne].
    rewrite (other_node p p' w w' (called c)) by done. by apply Hn.
  - intros name. rewrite Hm, not_elem_of_union, not_elem_of_singleton. intros Hl Hin [Hni Hne].
    rewrite (other_node p p' w w' (called c)) by done. by apply Hg.
Qed.

Lemma published_registered name metadata n p p' w w' :
  one_segment name -> published n p w -> same_fields p p' -> only_touched nodes p name w w' ->
  nodes w' !! nodePath p name = Some metadata ->
  Services p' = Services p ++ [name] -> metas p' = <[name := metadata]> (metas p) ->
  published (mk_notes (failed n ∖ {[name]}) (owned n ∪ {[name]})) p' w'.
Proof.
  intros Hseg [Hb Ha Hn Hg] Hf Ho Hnode Hs Hm. split; cbn.
  - by rewrite (proj1 (proj2 Hf)).
  - intros name'. rewrite Hs, Hm, elem_of_app, list_elem_of_singleton, Ha.
    destruct (decide (name' = name)) as [->|Hne]; [rewrite lookup_insert_eq|rewrite lookup_insert_ne by done];
      naive_solver.
  - intros name' m Hl Hnf. rewrite Hm in Hl. destruct (decide (name' = name)) as [->|Hne].
    + rewrite lookup_insert_eq in Hl. simplify_eq. by rewrite (same_nodePath p p').
    + rewrite lookup_insert_ne in Hl by done. rewrite (other_node p p' w w' name) by done.
      apply Hn; [done|]. set_solver.
  - intros name' Hl Hown Hnf. rewrite Hm in Hl. destruct (decide (name' = name)) as [->|Hne].
    + by rewrite lookup_insert_eq in Hl.
    + rewrite lookup_insert_ne in Hl by done. rewrite (other_node p p' w w' name) by done.
      apply Hg; [done| |]; set_solver.
Qed.

Lemma published_unregistered name n p p' w w' :
  one_segment name -> published n p w -> same_fields p p' -> only_touched nodes p name w w' ->
  nodes w' !! nodePath p name = None ->
  Services p' = filter (fun s => s <> name) (Services p) -> metas p' = delete name (metas p) ->
  published (mk_notes (failed n ∖ {[name]}) (owned n)) p' w'.
Proof.
  intros Hseg [Hb Ha Hn Hg] Hf Ho Hnode Hs Hm. split; cbn.
  - by rewrite (proj1 (proj2 Hf)).
  - intros name'. rewrite Hs, Hm, list_elem_of_filter, Ha.
    destruct (decide (name' = name)) as [->|Hne]; [rewrite lookup_delete_eq|rewrite lookup_delete_ne by done].
    + split; [by intros []|by intros []].
    + naive_solver.
  - intros name' m Hl Hnf. rewrite Hm in Hl.
    destruct (decide (name' = name)) as [->|Hne]; [by rewrite lookup_delete_eq in Hl|].
    rewrite lookup_delete_ne in Hl by done. rewrite (other_node p p' w w' name) by done.
    apply Hn; [done|]. set_solver.
  - intros name' Hl Hown Hnf. destruct (decide (name' = name)) as [->|Hne]; [by rewrite (same_nodePath p p')|].
    rewrite Hm, lookup_delete_ne in Hl by done. rewrite (other_node p p' w w' name) by done.
    apply Hg; [done|done|]. set_solver.
Qed.

Lemma published_step c n p w s' r :
  one_segment (called c) -> published n p w -> do_call c (p, w) = (s', r) ->
  published (note c p r n) s'.1 s'.2 /\ returns r.
Proof.
  intros Hseg Hp E. destruct s' as [p' w']. destruct c as [name metadata|name]; cbn in E, Hseg.
  - pose proof (Register_meets nodes name metadata p w (pub_base _ _ _ Hp)) as Hpost. rewrite E in Hpost.
    destruct Hpost as (Hf & Ho & Hr). destruct r as [[]|e| | |]; try done.
    + destruct Hr as (_ & Hnode & Hs & Hm). split; [|done]. by apply (published_registered name metadata n p p' w w').
    + destruct Hr as [Hs Hm]. split; [|done]. by eapply published_failed.
  - pose proof (Unregister_meets nodes name p w (pub_base _ _ _ Hp)) as Hpost. rewrite E in Hpost.
    destruct Hpost as (Hf & Ho & Hr). destruct r as [[]|e| | |]; try done.
    + destruct Hr as [(Hs & -> & ->)|(Hne & _ & Hnode & Hs & Hm)]; (split; [|done]).
      * cbn. by rewrite Hs.
      * cbn. destruct (Services p) eqn:Hs0; [done|]. rewrite <- Hs0 in *.
        by apply (published_unregistered name n p p' w w').
    + destruct Hr as [Hs Hm]. split; [|done]. by eapply published_failed.
Qed.

Lemma published_run cs n p w : Forall (fun c => one_segment (called c)) cs -> published n p w ->
  published (run_calls cs n (p, w)).1 (run_calls cs n (p, w)).2.1 (run_calls cs n (p, w)).2.2.
Proof.
  intros Hseg. revert n p w. induction Hseg as [|c cs Hc _ IH]; intros n p w Hp; [done|].
  cbn [run_calls]. destruct (do_call c (p, w)) as [[p' w'] r] eqn:E.
  apply IH. exact (proj1 (published_step c n p w (p', w') r Hc Hp E)).
Qed.

(** A plugin that starts without services has published nothing. *)
Lemma published_nothing p w : base_ok (BasePath p) -> Services p = [] -> metas p = ∅ -> published (mk_notes ∅ ∅) p w.
Proof.
  intros Hb Hs Hm. split; cbn; [done| | |].
  - intros name. rewrite Hs, Hm, lookup_empty. split; [by intros ?%elem_of_nil|by intros []].
  - intros name v. by rewrite Hm, lookup_empty.
  - by intros name _ ?%elem_of_empty.
Qed.
End sequences.

(** ** The refresh goroutine and [Stop] *)
Section system.
Context {W : Type} (st : Store W) (Metrics : option (Meters W)).
Context (Register : string -> string -> prog (rstate (W := W)) unit)
  (Unregister : string -> prog (rstate (W := W)) unit) (Stop : prog (rstate (W := W)) unit).

(** The plugin after [Start]: its refresh goroutine if there is one, the calls
    of [Stop] that wait for [p.done] and those that returned; [crashed] when a
    goroutine panicked, which ends the process. *)
Record rsystem : Type := mk_rsystem {
  reg : rstate (W := W);
  loop : option refresh_loop;
  stops : nat;
  stopped : nat;
  crashed : bool
}.

Definition started (s : rstate (W := W)) (goroutine : bool) : rsystem :=
  mk_rsystem s (if goroutine then Some Waiting else None) 0 0 false.

Definition set_reg (s : rstate) (x : rsystem) : rsystem := mk_rsystem s (loop x) (stops x) (stopped x) (crashed x).
Definition set_loop (s : rstate) (l : refresh_loop) (x : rsystem) : rsystem :=
  mk_rsystem s (Some l) (stops x) (stopped x) (crashed x).

(** One step: a call of the server, a call of [Stop] up to its wait, its
    return, or a part of the refresh goroutine. *)
Inductive rstep : rsystem -> rsystem -> Prop :=
| rs_call c s' r x : crashed x = false -> do_call Register Unregister c (reg x) = (s', r) -> returns r ->
    rstep x (set_reg s' x)
| rs_stop s' x : crashed x = false -> Stop (reg x) = (s', Ok tt) ->
    rstep x (mk_rsystem s' (loop x) (S (stops x)) (stopped x) false)
| rs_stop_err s' e x : crashed x = false -> Stop (reg x) = (s', Err e) -> rstep x (set_reg s' x)
| rs_stopped n x : crashed x = false -> stops x = S n -> done_ (reg x).1 = ClosedChan ->
    rstep x (mk_rsystem (reg x) (loop x) n (S (stopped x)) false)
| rs_tick x : crashed x = false -> loop x = Some Waiting ->
    rstep x (set_loop (reg x) (loop_tick Metrics (reg x)) x)
| rs_get ex name todo s' l x : crashed x = false -> loop x = Some (Refreshing ex (name :: todo)) ->
    loop_get st ex name todo (reg x) = (s', Ok l) -> rstep x (set_loop s' l x)
| rs_put path value ex todo s' l x : crashed x = false -> loop x = Some (Writing path value ex todo) ->
    loop_put st path value ex todo (reg x) = (s', Ok l) -> rstep x (set_loop s' l x)
| rs_refreshed ex x : crashed x = false -> loop x = Some (Refreshing ex []) ->
    rstep x (set_loop (reg x) Waiting x)
| rs_dying s' l x : crashed x = false -> loop x = Some Waiting -> dying (reg x).1 = ClosedChan ->
    loop_dying (reg x) = (s', Ok l) -> rstep x (set_loop s' l x)
| rs_panic s' x : crashed x = false -> loop x = Some Waiting -> dying (reg x).1 = ClosedChan ->
    loop_dying (reg x) = (s', Panic) -> rstep x (mk_rsystem s' (loop x) (stops x) (stopped x) true).

(** One turn of the goroutine for the services of [todo], alone. *)
Fixpoint refresh_all (ex : list (string * string)) (todo : list string) : prog (rstate (W := W)) unit :=
  match todo with
  | [] => mret tt
  | name :: todo =>
      l ← loop_get st ex name todo;
      match l with
      | Writing path value ex' todo' => loop_put st path value ex' todo';; refresh_all ex todo
      | _ => mret tt
      end
  end.
End system.

(** The store answers what it holds and takes every write. *)
Class StoreReliable {W} (st : Store W) (nodes : W -> gmap string string) : Prop := {
  Put_total k v o w : exists w', Put st k v o w = (w', Ok tt);
  Get_total k w v : nodes w !! k = Some v -> exists w', KVStore.Get st k w = (w', Ok v);
  Get_missing k w : nodes w !! k = None -> exists w' e, KVStore.Get st k w = (w', Err e)
}.

#[export] Instance map_store_reliable : StoreReliable map_store id.
Proof.
  split; cbn; unfold id.
  - intros. by eexists.
  - intros k w v ->. by eexists.
  - intros k w ->. by eexists _, _.
Qed.

(** [v'] has the metadata of [v], the extra keys apart. *)
Definition keeps (ex : list (string * string)) (v v' : string) : Prop :=
  forall k, k ∉ ex.*1 -> UrlQuery.Get (ParseQuery (bytes_of v')).1 k = UrlQuery.Get (ParseQuery (bytes_of v)).1 k.

Lemma keeps_refl ex v : keeps ex v v.
Proof. done. Qed.

Lemma keeps_trans ex v1 v2 v3 : keeps ex v1 v2 -> keeps ex v2 v3 -> keeps ex v1 v3.
Proof. intros H1 H2 k Hk. by rewrite H2, H1. Qed.

Lemma keeps_refreshed ex v : keeps ex v (refreshed ex v).
Proof.
  intros k Hk. unfold refreshed. rewrite bytes_of_string_of, ParseQuery_Values_Encode. cbn [fst].
  rewrite Get_sort_by_key. generalize (ParseQuery (bytes_of v)).1.
  induction ex as [|[k' v'] ex IH]; intros vs; [done|]. cbn [fold_left]. cbn in Hk.
  rewrite not_elem_of_cons in Hk. rewrite IH by tauto. apply Get_Set_ne. tauto.
Qed.

Section healing.
Context {W : Type} (st : Store W) (nodes : W -> gmap string string)
  {Hst : StoreLaws st nodes} {Hrel : StoreReliable st nodes}.

(** The value of a service's node before a refresh: what the store has, or the
    metadata the plugin remembers. *)
Definition before (p : registry_plugin) (w : W) (name : string) : string :=
  default (default "" (metas p !! name)) (nodes w !! nodePath p name).

Definition healed (ex : list (string * string)) (p : registry_plugin) (w w' : W) (name : string) : Prop :=
  exists v', nodes w' !! nodePath p name = Some v' /\ keeps ex (before p w name) v'.

(** A turn for one service. *)
Lemma refresh_one ex name todo p w :
  exists w1 value w2,
    loop_get st ex name todo (p, w) = ((p, w1), Ok (Writing (nodePath p name) value ex todo)) /\
    loop_put st (nodePath p name) value ex todo (p, w1) = ((p, w2), Ok (Refreshing ex todo)) /\
    healed ex p w w2 name /\ same_but (nodePath p name) (nodes w) (nodes w2).
Proof.
  unfold loop_get, healed, before.
  assert (Hput : forall w1 value, nodes w1 = nodes w -> exists w2,
    loop_put st (nodePath p name) value ex todo (p, w1) = ((p, w2), Ok (Refreshing ex todo)) /\
    nodes w2 !! nodePath p name = Some value /\ same_but (nodePath p name) (nodes w) (nodes w2)).
  { intros w1 value Hn. destruct (Put_total (nodePath p name) value (ttl p) w1) as [w2 Hp].
    exists w2. rewrite <- Hn. split_and!; [|by eapply Put_Ok|by eapply Put_same].
    unfold loop_put, ignore_error, tolerate, put. prog_step. unfold on_store. by rewrite Hp. }
  destruct (nodes w !! nodePath p name) as [v|] eqn:E.
  - destruct (Get_total _ _ _ E) as [w1 Hg]. rewrite Hg. pose proof (Get_same _ _ _ _ Hg) as [Hn _].
    destruct (Hput w1 (refreshed ex v) Hn) as (w2 & H1 & H2 & H3).
    exists w1, (refreshed ex v), w2. split_and!; try done. exists (refreshed ex v). split; [done|]. apply keeps_refreshed.
  - destruct (Get_missing _ _ E) as (w1 & e & Hg). rewrite Hg. pose proof (Get_same _ _ _ _ Hg) as [Hn _].
    destruct (Hput w1 (default "" (metas p !! name)) Hn) as (w2 & H1 & H2 & H3).
    exists w1, (default "" (metas p !! name)), w2. split_and!; try done.
    eexists. split; [done|]. apply keeps_refl.
Qed.

Lemma refresh_all_heals ex todo p w :
  exists w', refresh_all st ex todo (p, w) = ((p, w'), Ok tt) /\
    (forall name, name ∈ todo -> healed ex p w w' name) /\
    (forall k, k ∉ (nodePath p <$> todo) -> nodes w' !! k = nodes w !! k).
Proof.
  revert w. induction todo as [|name todo IH]; intros w.
  { exists w. split_and!; [done| |done]. intros ? []%elem_of_nil. }
  destruct (refresh_one ex name todo p w) as (w1 & value & w2 & H1 & H2 & (v2 & Hv2 & Hk2) & H4).
  destruct (IH w2) as (w3 & H5 & H6 & H7). exists w3. split_and!.
  - cbn [refresh_all]. unfold mbind, prog_bind at 1. rewrite H1. cbn iota beta.
    unfold prog_bind at 1. rewrite H2. done.
  - intros n Hn. destruct (decide (n ∈ todo)) as [Hin|Hin].
    + destruct (H6 n Hin) as (v' & Hv' & Hk'). exists v'. split; [done|].
      destruct (decide (n = name)) as [->|Hne].
      * eapply keeps_trans; [exact Hk2|]. revert Hk'. unfold before. by rewrite Hv2.
      * revert Hk'. unfold before. rewrite (H4 (nodePath p n)); [done|]. by intros ?%path3_inj.
    + rewrite elem_of_cons in Hn. destruct Hn as [->|?]; [|done]. exists v2. split; [|done].
      rewrite H7; [done|]. rewrite list_elem_of_fmap. intros (n' & Hn'%path3_inj & ?). by subst n'.
  - intros k Hk. rewrite fmap_cons, not_elem_of_cons in Hk. rewrite H7 by tauto. apply H4. tauto.
Qed.
End healing.

(** ** [Start] and [Stop] *)

(** The fields [Start] and [Stop] keep. *)
Definition same_services (p p' : registry_plugin) : Prop :=
  ServiceAddress p' = ServiceAddress p /\ BasePath p' = BasePath p /\ UpdateInterval p' = UpdateInterval p /\
  Services p' = Services p /\ metas p' = metas p.

Lemma same_services_trans p1 p2 p3 : same_services p1 p2 -> same_services p2 p3 -> same_services p1 p3.
Proof. unfold same_services. intros (-> & -> & -> & -> & ->) (-> & -> & -> & -> & ->). done. Qed.

Lemma same_services_chans dy dn p : same_services p (set_chans dy dn p).
Proof. done. Qed.

Section stop_contract.
Context {W : Type}.

(** [Stop] closes [dying], which panics unless it is open, and leaves [done]
    alone; [Start] makes the channels, and closes [done] if it fails. *)
Definition Stop_post (p : registry_plugin) (x : rstate (W := W) * result unit) : Prop :=
  let '((p', _), r) := x in
  same_services p p' /\ done_ p' = done_ p /\
  match r with
  | Ok _ => dying p = OpenChan /\ dying p' = ClosedChan
  | Err _ => dying p' = dying p
  | Panic => dying p <> OpenChan
  | Fatal | Blocked => False
  end.

Definition Start_post (p : registry_plugin) (x : rstate (W := W) * result bool) : Prop :=
  let '((p', _), r) := x in
  same_services p p' /\ dying p' = made (dying p) /\
  match r with
  | Ok b => b = (0 <? UpdateInterval p) /\ done_ p' = made (done_ p)
  | Err _ => done_ p' = ClosedChan /\ made (done_ p) = OpenChan
  | Panic => made (done_ p) = ClosedChan
  | Fatal | Blocked => False
  end.

Class StoppablePlugin (base_ok : string -> Prop) (Start : prog (rstate (W := W)) bool)
    (Stop : prog (rstate (W := W)) unit) : Prop := {
  Start_meets p w : base_ok (BasePath p) -> Start_post p (Start (p, w));
  Stop_meets p w : base_ok (BasePath p) -> Stop_post p (Stop (p, w))
}.
End stop_contract.

Section stoppable.
Context {W : Type} (st : Store W) (nodes : W -> gmap string string) {Hst : StoreLaws st nodes}.

(** Programs that only change the [kv] field and the store. *)
Definition quiet {A} (m : prog (rstate (W := W)) A) (p0 : registry_plugin) : Prop :=
  forall s, set_kv s.1 = set_kv p0 -> set_kv (m s).1.1 = set_kv p0 /\ returns (m s).2.

Lemma quiet_fields p p0 : set_kv p = set_kv p0 ->
  same_services p0 p /\ dying p = dying p0 /\ done_ p = done_ p0.
Proof. intros H. destruct p, p0. cbn in *. unfold same_services. cbn. by simplify_eq. Qed.

Lemma quiet_on_store {A} (m : prog W A) p0 : (forall w, returns (m w).2) -> quiet (on_store m) p0.
Proof.
  intros Hm [p w] Hp. unfold on_store. specialize (Hm w). by destruct (m w).
Qed.

Lemma quiet_open_store o p0 : quiet (open_store st o) p0.
Proof.
  intros [p w] Hp. unfold open_store. prog_step. destruct (kv p); [done|]. unfold on_store.
  destruct (NewStore st o w) as [w1 r] eqn:E. apply NewStore_same in E as [_ Hr]. by destruct r.
Qed.

Lemma quiet_put path v o p0 : quiet (put st path v o) p0.
Proof.
  intros [p w] Hp. unfold put. prog_step. apply quiet_on_store; [|done]. intros w0.
  destruct (Put st (path p) v (o p) w0) eqn:E. by apply Put_same in E as [_ ?].
Qed.

Lemma quiet_tolerate ok m p0 : quiet m p0 -> quiet (tolerate ok m) p0.
Proof.
  intros Hm s Hs. specialize (Hm s Hs). unfold tolerate.
  destruct (m s) as [s1 [[]|e| | |]]; try done. by destruct (ok e).
Qed.

Lemma quiet_trim p0 : trimmed (BasePath p0) -> quiet (trim_base (W := W)) p0.
Proof.
  intros Hb [p w] Hp. destruct (quiet_fields p p0 Hp) as ((_ & HB & _) & _).
  unfold trim_base. prog_step. rewrite HB. destruct (BasePath p0); [done|]. cbn in Hb.
  by rewrite decide_False.
Qed.

Lemma quiet_bind {A B} (m : prog (rstate (W := W)) A) (k : A -> prog (rstate (W := W)) B) p0 :
  quiet m p0 -> (forall a, quiet (k a) p0) -> quiet (m ≫= k) p0.
Proof.
  intros Hm Hk s Hs. destruct (Hm s Hs) as [H1 H2]. unfold mbind, prog_bind.
  destruct (m s) as [s1 [a|e| | |]]; try done. by apply Hk.
Qed.

Lemma quiet_get {B} (k : rstate (W := W) -> prog (rstate (W := W)) B) p0 :
  (forall s, quiet (k s) p0) -> quiet (get_st ≫= k) p0.
Proof. intros Hk s Hs. by apply Hk. Qed.

Lemma quiet_remove_nodes names p0 : quiet (remove_nodes st names) p0.
Proof.
  induction names as [|name names IH]; [done|]. cbn [remove_nodes].
  apply quiet_get. intros [p w]. apply quiet_bind; [|by intros].
  apply quiet_tolerate, quiet_bind.
  - apply quiet_on_store. intros w0. destruct (Exists st (nodePath p name) w0) eqn:E. by apply Exists_same in E as [_ ?].
  - intros [|]; [|done]. apply quiet_tolerate, quiet_on_store.
    intros w0. destruct (Delete st (nodePath p name) w0) eqn:E. by apply Delete_same in E as [_ ?].
Qed.

(** Carry a contract through a quiet step. *)
Lemma quiet_step {A} (m : prog (rstate (W := W)) unit) (k : prog (rstate (W := W)) A)
    (Q : rstate (W := W) * result A -> Prop) p0 s :
  quiet m p0 -> set_kv s.1 = set_kv p0 ->
  (forall s', set_kv s'.1 = set_kv p0 -> Q (k s')) -> (forall s' e, set_kv s'.1 = set_kv p0 -> Q (s', Err e)) ->
  Q ((m ;; k) s).
Proof.
  intros Hm Hs Hk He. destruct (Hm s Hs) as [H1 H2]. unfold mbind, prog_bind.
  destruct (m s) as [s1 [[]|e| | |]]; try done; [by apply Hk|by apply He].
Qed.

Lemma quiet_step_close {A} (m : prog (rstate (W := W)) unit) (k : prog (rstate (W := W)) A)
    (Q : rstate (W := W) * result A -> Prop) p0 s :
  quiet m p0 -> set_kv s.1 = set_kv p0 ->
  (forall s', set_kv s'.1 = set_kv p0 -> Q (k s')) ->
  (forall s' e, set_kv s'.1 = set_kv p0 ->
    Q (match close_chan (done_ p0) with
       | Ok c => ((set_chans (dying p0) c s'.1, s'.2), Err e)
       | _ => (s', Panic) end)) ->
  Q ((on_error m close_done ;; k) s).
Proof.
  intros Hm Hs Hk He. destruct (Hm s Hs) as [H1 H2]. unfold mbind, prog_bind, on_error.
  destruct (m s) as [s1 [[]|e| | |]]; try done; [by apply Hk|].
  specialize (He s1 e H1). destruct s1 as [p w]. destruct (quiet_fields p p0 H1) as (_ & Hd & Hn).
  unfold close_done. prog_step. rewrite Hn.
  destruct (close_chan (done_ p0)) eqn:Ec; destruct (done_ p0); try done; simplify_eq/=; by rewrite ?Hd.
Qed.

Lemma Start_failed p0 s' e : set_kv s'.1 = set_kv (set_chans (made (dying p0)) (made (done_ p0)) p0) ->
  Start_post (W := W) p0 (match close_chan (done_ (set_chans (made (dying p0)) (made (done_ p0)) p0)) with
       | Ok c => ((set_chans (dying (set_chans (made (dying p0)) (made (done_ p0)) p0)) c s'.1, s'.2), Err e)
       | _ => (s', Panic) end).
Proof.
  intros H. destruct (quiet_fields _ _ H) as (Hs & Hd & Hn). destruct s' as [p w]. cbn in *.
  unfold Start_post. destruct (done_ p0); cbn in *; unfold same_services in *; cbn in *; tauto.
Qed.

Lemma Start_end p0 (s : rstate (W := W)) :
  set_kv s.1 = set_kv (set_chans (made (dying p0)) (made (done_ p0)) p0) ->
  Start_post p0 (('(p, _) ← get_st; mret (0 <? UpdateInterval p)) s).
Proof.
  intros H. destruct (quiet_fields _ _ H) as (Hs & Hd & Hn). destruct s as [p w]. cbn in *.
  split_and!; try done. by destruct Hs as (_ & _ & -> & _).
Qed.

Lemma Stop_end p0 (s : rstate (W := W)) : set_kv s.1 = set_kv p0 ->
  Stop_post p0 (('(p, _) ← get_st; remove_nodes st (Services p);; close_dying) s).
Proof.
  intros H. destruct s as [p w]. unfold mbind at 1, prog_bind at 1, get_st. cbn iota beta.
  assert (E : forall s', set_kv s'.1 = set_kv p0 -> forall e, Stop_post (W := W) p0 (s', Err e)).
  { intros [p' w'] H' e. destruct (quiet_fields _ _ H') as (Hs & Hd & Hn). done. }
  apply (quiet_step _ _ _ p0); [apply quiet_remove_nodes|done| |intros; by apply E].
  intros [p' w'] H'. destruct (quiet_fields _ _ H') as (Hs & Hd & Hn).
  cbn in Hd. unfold close_dying. prog_step. rewrite Hd. unfold Stop_post. destruct (dying p0) eqn:Hdy; cbn in *; unfold same_services in *; cbn in *; rewrite ?Hdy; split_and!; try done; tauto.
Qed.

(** Go through the first step of [Stop]. *)
Ltac stop_step p0 :=
  apply (quiet_step _ _ _ p0);
  [apply quiet_open_store|done|intros ? ?|intros [? ?] ? ?%quiet_fields; unfold Stop_post; tauto].

Lemma trim_step {A} p0 (k : prog (rstate (W := W)) A) s (Q : rstate (W := W) * result A -> Prop) :
  trimmed (BasePath p0) -> set_kv s.1 = set_kv p0 -> Q (k s) -> Q ((trim_base;; k) s).
Proof.
  intros Hb Hs Hk. destruct s as [p w]. destruct (quiet_fields _ _ Hs) as ((_ & HB & _) & _).
  cbn in HB. unfold mbind, prog_bind, trim_base. prog_step. rewrite HB. destruct (BasePath p0); [done|]. cbn in Hb.
  by rewrite decide_False.
Qed.

Lemma make_chans_step {A} (k : prog (rstate (W := W)) A) p w :
  (make_chans;; k) (p, w) = k (set_chans (made (dying p)) (made (done_ p)) p, w).
Proof. done. Qed.

Lemma Start_trimming p w : trimmed (BasePath p) -> Start_post p (Consul.Start st (p, w)).
Proof.
  intros Hb. unfold Consul.Start. rewrite make_chans_step.
  set (p0 := set_chans (made (dying p)) (made (done_ p)) p).
  apply (quiet_step_close _ _ _ p0); [apply quiet_open_store|done| |intros; by apply Start_failed].
  intros s1 H1. apply (trim_step p0); [done|done|].
  apply (quiet_step_close _ _ _ p0); [apply quiet_put|done| |intros; by apply Start_failed].
  intros s2 H2. by apply Start_end.
Qed.

Lemma Stop_trimming p w : trimmed (BasePath p) -> Stop_post p (Consul.Stop st (p, w)).
Proof.
  intros Hb. unfold Consul.Stop. stop_step p. apply (trim_step p); [done|done|]. by apply Stop_end.
Qed.

#[export] Instance Consul_stoppable : StoppablePlugin trimmed (Consul.Start st) (Consul.Stop st).
Proof. split; [apply Start_trimming|apply Stop_trimming]. Qed.

#[export] Instance Zookeeper_stoppable : StoppablePlugin trimmed (Zookeeper.Start st) (Zookeeper.Stop st).
Proof. split; [apply Start_trimming|apply Stop_trimming]. Qed.

#[export] Instance Redis_stoppable : StoppablePlugin (fun _ => True) (Redis.Start st) (Redis.Stop st).
Proof.
  split; intros p w _.
  - unfold Redis.Start. rewrite make_chans_step.
    set (p0 := set_chans (made (dying p)) (made (done_ p)) p).
    apply (quiet_step_close _ _ _ p0); [apply quiet_open_store|done| |intros; by apply Start_failed].
    intros s1 H1.
    apply (quiet_step_close _ _ _ p0); [apply quiet_tolerate, quiet_put|done| |intros; by apply Start_failed].
    intros s2 H2. by apply Start_end.
  - unfold Redis.Stop. stop_step p. by apply Stop_end.
Qed.
End stoppable.

(** ** The system after [Start] *)
Section started.
Context {W : Type} (st : Store W) (nodes : W -> gmap string string) {Hst : StoreLaws st nodes}.
Context (Metrics : option (Meters W)) (base_ok : string -> Prop)
  (Register : string -> string -> prog (rstate (W := W)) unit)
  (Unregister : string -> prog (rstate (W := W)) unit)
  (Start : prog (rstate (W := W)) bool) (Stop : prog (rstate (W := W)) unit)
  {Hplugin : RegistryPlugin nodes base_ok Register Unregister}
  {Hstop : StoppablePlugin base_ok Start Stop}.

Notation rstep := (rstep st Metrics Register Unregister Stop).

Record rinv (x : rsystem (W := W)) : Prop := {
  ri_base : base_ok (BasePath (reg x).1);
  ri_crashed : crashed x = false;
  ri_dying : dying (reg x).1 = OpenChan /\ (stops x + stopped x = 0)%nat \/
             dying (reg x).1 = ClosedChan /\ (stops x + stopped x = 1)%nat;
  ri_done : done_ (reg x).1 = if decide (loop x = Some Exited) then ClosedChan else OpenChan;
  ri_exited : loop x = Some Exited -> dying (reg x).1 = ClosedChan;
  ri_stopped : (0 < stopped x)%nat -> loop x = Some Exited
}.

Lemma loop_get_keeps ex name todo s s' l :
  loop_get st ex name todo s = (s', Ok l) -> s'.1 = s.1 /\ l <> Exited.
Proof.
  destruct s as [p w]. unfold loop_get. destruct (KVStore.Get st _ w) as [w1 [v|e| | |]]; by intros [= <- <-].
Qed.

Lemma loop_put_keeps path value ex todo s s' l :
  loop_put st path value ex todo s = (s', Ok l) -> s'.1 = s.1 /\ l <> Exited.
Proof.
  destruct s as [p w]. unfold loop_put, ignore_error, tolerate, put. prog_step. unfold on_store.
  destruct (Put st path value (ttl p) w) as [w1 [[]|e| | |]]; cbn; by intros [= <- <-].
Qed.

Lemma rinv_reg s x : rinv x -> BasePath s.1 = BasePath (reg x).1 -> dying s.1 = dying (reg x).1 ->
  done_ s.1 = done_ (reg x).1 -> rinv (set_reg s x).
Proof. intros [] H1 H2 H3. split; cbn; rewrite ?H1, ?H2, ?H3; done. Qed.

Lemma rinv_loop s l x : rinv x -> s.1 = (reg x).1 -> loop x <> Some Exited -> l <> Exited -> rinv (set_loop s l x).
Proof.
  intros [H1 H2 H3 H4 H5 H6] Hs Hx Hl. split; cbn; rewrite ?Hs; try done.
  - rewrite H4, !decide_False; [done|congruence|done].
  - congruence.
  - intros H. specialize (H6 H). congruence.
Qed.

Lemma do_call_fields c s s' r : base_ok (BasePath s.1) -> do_call Register Unregister c s = (s', r) ->
  same_fields s.1 s'.1.
Proof.
  destruct s as [p w], s' as [p' w']. intros Hb E. destruct c as [name m|name]; cbn in E.
  - pose proof (Register_meets nodes name m p w Hb) as H. rewrite E in H. apply H.
  - pose proof (Unregister_meets nodes name p w Hb) as H. rewrite E in H. apply H.
Qed.

Lemma rstep_inv x x' : rstep x x' -> rinv x -> rinv x'.
Proof.
  intros Hs Hx. pose proof Hx as [H1 H2 H3 H4 H5 H6].
  destruct Hs as [c s' r x Hc E Hr|s' x Hc E|s' e x Hc E|n x Hc En Ed|x Hc El|ex name todo s' l x Hc El E
    |path value ex todo s' l x Hc El E|ex x Hc El|s' l x Hc El Ed E|s' x Hc El Ed E].
  - apply do_call_fields in E as (_ & E1 & _ & E2 & E3); [|done]. by apply rinv_reg.
  - destruct (reg x) as [p w] eqn:Er. cbn in *. pose proof (Stop_meets p w H1) as HS. rewrite E in HS.
    destruct s' as [p' w']. destruct HS as ((_ & B & _) & D & Y1 & Y2). rewrite Y1 in *.
    destruct H3 as [[_ H3]|[? _]]; [|done]. split; cbn; rewrite ?B, ?D, ?Y2; try done; right; (split; [done|lia]).
  - destruct (reg x) as [p w] eqn:Er. cbn in *. pose proof (Stop_meets p w H1) as HS. rewrite E in HS.
    destruct s' as [p' w']. destruct HS as ((_ & B & _) & D & Y). apply rinv_reg; cbn; by rewrite ?Er.
  - split; cbn; try done.
    + destruct H3 as [[? ?]|[? ?]]; [left|right]; (split; [done|lia]).
    + intros _. rewrite H4 in Ed. by destruct (decide (loop x = Some Exited)).
  - apply rinv_loop; [done|done|congruence|done].
  - apply loop_get_keeps in E as [E1 E2]. apply rinv_loop; [done|done|congruence|done].
  - apply loop_put_keeps in E as [E1 E2]. apply rinv_loop; [done|done|congruence|done].
  - apply rinv_loop; [done|done|congruence|done].
  - rewrite decide_False in H4 by congruence. destruct (reg x) as [p w] eqn:Er. cbn in *.
    unfold loop_dying, close_done in E. prog_step. rewrite H4 in E. cbn in E. injection E as <- <-.
    split; cbn; try done; by rewrite Ed in *.
  - rewrite decide_False in H4 by congruence. destruct (reg x) as [p w] eqn:Er. cbn in *.
    unfold loop_dying, close_done in E. prog_step. by rewrite H4 in E.
Qed.

(** The state after a [Start] of a fresh plugin. *)
Lemma started_inv p w s b : base_ok (BasePath p) -> dying p = NilChan -> done_ p = NilChan ->
  Start (p, w) = (s, Ok b) -> rinv (started s b) /\ b = (0 <? UpdateInterval p).
Proof.
  intros Hb Hd Hn E. pose proof (Start_meets p w Hb) as HS. rewrite E in HS. destruct s as [p' w'].
  destruct HS as ((_ & B & _) & Y & Hb' & D). rewrite Hd in Y. rewrite Hn in D. cbn in Y, D. split; [|done].
  split; cbn; rewrite ?B, ?Y, ?D; try done.
  - by left.
  - by destruct b.
  - by destruct b.
  - lia.
Qed.

Lemma rstep_loop_None x x' : rstep x x' -> loop x = None -> loop x' = None.
Proof. intros Hs Hn. destruct Hs; cbn; congruence. Qed.

Lemma reachable_inv x x' : rtc rstep x x' -> rinv x -> rinv x' /\ (loop x = None -> loop x' = None).
Proof.
  induction 1 as [|x y z Hs _ IH]; intros Hx; [done|].
  destruct (IH (rstep_inv _ _ Hs Hx)) as [H1 H2]. split; [done|].
  intros H. apply H2. by eapply rstep_loop_None.
Qed.

(** C14: what a call of [Stop] does after [Start]: whatever the order of the
    server's calls and of the refresh goroutine, the goroutine does not panic, at most
    one call of [Stop] gets to its wait (a later one does not get past the closed
    [dying]), and a call that returned means that the refresh goroutine is
    over.  Without a refresh interval nothing ever closes [done], so no call of
    [Stop] returns. *)
Theorem Stop_waits_for_refresh p w s b x :
  base_ok (BasePath p) -> dying p = NilChan -> done_ p = NilChan -> Start (p, w) = (s, Ok b) ->
  rtc rstep (started s b) x ->
  crashed x = false /\ (stops x + stopped x <= 1)%nat /\
  ((0 < stopped x)%nat -> loop x = Some Exited) /\
  ((0 < stops x + stopped x)%nat -> (Stop (reg x)).2 <> Ok tt) /\
  (UpdateInterval p <= 0 -> stopped x = 0%nat).
Proof.
  intros Hb Hd Hn E Hr. destruct (started_inv p w s b Hb Hd Hn E) as [Hi Hbool].
  destruct (reachable_inv _ _ Hr Hi) as [Hx Hl]. split_and!.
  - apply Hx.
  - destruct (ri_dying _ Hx) as [[_ ?]|[_ ?]]; lia.
  - apply Hx.
  - intros Hs. destruct (ri_dying _ Hx) as [[_ ?]|[Hdy _]]; [lia|].
    destruct (reg x) as [p1 w1] eqn:Er. pose proof (ri_base _ Hx) as Hb1. rewrite Er in Hb1.
    pose proof (Stop_meets p1 w1 Hb1) as HS. destruct (Stop (p1, w1)) as [[p2 w2] r].
    destruct HS as (_ & _ & HS). cbn in Hdy. intros [= ->]. destruct HS. congruence.
  - intros Hu. subst b. replace (0 <? UpdateInterval p) with false in Hl by lia.
    destruct (decide (stopped x = 0%nat)) as [|Hne]; [done|].
    assert (loop x = Some Exited) by (apply Hx; lia). by rewrite Hl in *.
Qed.

Context {Hrel : StoreReliable st nodes}.

(** [refresh_all] as steps of the goroutine. *)
Lemma refresh_all_steps ex todo p w w' x :
  crashed x = false -> reg x = (p, w) -> loop x = Some (Refreshing ex todo) ->
  refresh_all st ex todo (p, w) = ((p, w'), Ok tt) ->
  rtc rstep x (set_loop (p, w') Waiting x).
Proof.
  revert w x. induction todo as [|name todo IH]; intros w x Hc Hr Hl E.
  - injection E as <-. rewrite <- Hr. apply rtc_once. by eapply rs_refreshed.
  - destruct (refresh_one st nodes ex name todo p w) as (w1 & value & w2 & H1 & H2 & _).
    cbn [refresh_all] in E. unfold mbind, prog_bind at 1 in E. rewrite H1 in E. cbn iota beta in E.
    unfold prog_bind at 1 in E. rewrite H2 in E.
    eapply rtc_l; [eapply rs_get; [done|exact Hl|by rewrite Hr]|].
    eapply rtc_l; [eapply rs_put; [done|done|exact H2]|].
    exact (IH w2 (set_loop (p, w2) (Refreshing ex todo) x) Hc eq_refl eq_refl E).
Qed.

(** A refresh repairs the store: from any state in which the refresh
    goroutine waits, a tick it handles alone, with a store that answers, ends
    with a node for every registered service, although the store may have lost
    any of them; a node keeps the metadata it had, the two meters apart, a lost
    one gets the metadata the service was registered with, and no other key
    changes. *)
Theorem refresh_heals x :
  crashed x = false -> loop x = Some Waiting ->
  exists w', let p := (reg x).1 in let w := (reg x).2 in
    rtc rstep x (set_loop (p, w') Waiting x) /\
    (forall name, name ∈ Services p -> healed nodes (extra Metrics w) p w w' name) /\
    (forall k, k ∉ (nodePath p <$> Services p) -> nodes w' !! k = nodes w !! k).
Proof.
  intros Hc Hl. destruct (reg x) as [p w] eqn:Er. cbn [fst snd].
  destruct (refresh_all_heals st nodes (extra Metrics w) (Services p) p w) as (w' & H1 & H2 & H3).
  exists w'. split_and!; [|done|done].
  eapply rtc_l; [by apply rs_tick|].
  apply (refresh_all_steps (extra Metrics w) (Services p) p w w' (set_loop (reg x) (loop_tick Metrics (reg x)) x));
    [done|done| |done]. cbn. unfold loop_tick. by rewrite Er.
Qed.
End started.

(** ** Properties of the plugins *)

(** C25: the consul, zookeeper and redis plugins keep the contracts above:
    [Register] and [Unregister] change the list of services only when they
    succeed, together with the metadata and the service's node, write nothing
    but the base path, the service's directory and its node, and never panic
    once the base path is not empty and has no leading slash (any path for
    redis); [Start] and [Stop] handle the channels as their contracts say. *)
Theorem registry_plugins_meet_contract {W} (st : Store W) nodes (Hst : StoreLaws st nodes) :
  (RegistryPlugin nodes trimmed (Consul.Register st) (Consul.Unregister st) /\
   StoppablePlugin trimmed (Consul.Start st) (Consul.Stop st)) /\
  (RegistryPlugin nodes trimmed (Zookeeper.Register st) (Zookeeper.Unregister st) /\
   StoppablePlugin trimmed (Zookeeper.Start st) (Zookeeper.Stop st)) /\
  (RegistryPlugin nodes (fun _ => True) (Redis.Register st) (Redis.Unregister st) /\
   StoppablePlugin (fun _ => True) (Redis.Start st) (Redis.Stop st)).
Proof. split_and!; apply _. Qed.

(** C20: after any sequence of calls of [Register] and [Unregister], some of
    which may fail, on a plugin that starts without services: [Services] and
    [metas] name the same services; the store has, under the node of each of
    them, the metadata of its last registration; and it has no node for a
    service that was registered and no longer is.  Only names whose last call
    failed are excepted. *)
Theorem registry_published {W} (nodes : W -> gmap string string) base_ok Register Unregister
    (Hplugin : RegistryPlugin nodes base_ok Register Unregister) (cs : list plugin_call) p w :
  base_ok (BasePath p) -> Services p = [] -> metas p = ∅ -> Forall (fun c => one_segment (called c)) cs ->
  let '(n, s) := run_calls Register Unregister cs (mk_notes ∅ ∅) (p, w) in published nodes base_ok n s.1 s.2.
Proof.
  intros Hb Hs Hm Hseg. pose proof (published_run nodes base_ok Register Unregister cs (mk_notes ∅ ∅) p w Hseg) as H.
  destruct (run_calls _ _ cs _ _) as [n s]. apply H. by apply published_nothing.
Qed.

(** The calls of the consul plugin on the store in memory. *)
Lemma Consul_Register_map name metadata p m :
  blank name = false -> trimmed (BasePath p) -> kv p = true ->
  Consul.Register map_store name metadata (p, m) =
    ((set_Services (Services p ++ [name]) (<[name := metadata]> (metas p)) p,
      <[nodePath p name := metadata]> (<[dir name p := name]> (<[BasePath p := "irpc_path"]> m))), Ok tt).
Proof.
  intros Hb Ht Hk. unfold Consul.Register. rewrite Hb.
  unfold open_store, trim_base, put, remember, upd. prog_step. rewrite Hk.
  destruct (BasePath p) as [|c b] eqn:E; [done|]. rewrite decide_False by exact Ht. unfold on_store. by rewrite ?E.
Qed.

Lemma Consul_Unregister_map name p m :
  Services p <> [] -> blank name = false -> trimmed (BasePath p) -> kv p = true ->
  Consul.Unregister map_store name (p, m) =
    ((set_Services (filter (fun s => s <> name) (Services p)) (delete name (metas p)) p,
      delete (nodePath p name) (<[dir name p := name]> (<[BasePath p := "irpc_path"]> m))), Ok tt).
Proof.
  intros Hne Hb Ht Hk. unfold Consul.Unregister. unfold mbind at 1, prog_bind at 1, get_st. cbn iota beta.
  destruct (Services p) as [|s ss] eqn:Es; [done|]. rewrite Hb, <- Es.
  unfold open_store, trim_base, put, delete_node, forget, upd. prog_step. rewrite Hk.
  destruct (BasePath p) as [|c b] eqn:E; [done|]. rewrite decide_False by exact Ht. unfold on_store. by rewrite ?E.
Qed.

(** A plugin as a server sets it up, after [Start]. *)
Definition ready (base addr : string) (interval : Z) : registry_plugin :=
  mk_plugin addr base [] ∅ interval true OpenChan OpenChan.

(** A service that is unregistered can come back: [Unregister] takes the
    node away between the two operations of the refresh goroutine on it, and
    the goroutine writes it again, for as long as the next refresh keeps it
    alive.  The service is in no list of the plugin any more, and clients find
    it in the store. *)
Theorem refresh_restores_unregistered name metadata base addr interval m :
  blank name = false -> trimmed base ->
  exists x, rtc (rstep map_store None (Consul.Register map_store) (Consul.Unregister map_store) (Consul.Stop map_store))
                (started (ready base addr interval, m) true) x /\
    Services (reg x).1 = [] /\ metas (reg x).1 !! name = None /\ loop x = Some Waiting /\
    (reg x).2 !! path3 base name addr = Some (refreshed [] metadata).
Proof.
  intros Hb Ht.
  set (R := rstep map_store None (Consul.Register map_store) (Consul.Unregister map_store) (Consul.Stop map_store)).
  set (p1 := set_Services [name] (<[name := metadata]> ∅) (ready base addr interval)).
  set (m1 := <[path3 base name addr := metadata]> (<[path2 base name := name]> (<[base := "irpc_path"]> m))).
  set (p2 := set_Services [] ∅ (ready base addr interval)).
  set (m2 := delete (path3 base name addr) (<[path2 base name := name]> (<[base := "irpc_path"]> m1))).
  set (v := refreshed [] metadata).
  assert (S1 : R (started (ready base addr interval, m) true) (mk_rsystem (p1, m1) (Some Waiting) 0 0 false)).
  { apply (rs_call _ _ _ _ _ (CallRegister name metadata) (p1, m1) (Ok tt) (started _ true)); [done| |done].
    by apply Consul_Register_map. }
  assert (S2 : R (mk_rsystem (p1, m1) (Some Waiting) 0 0 false)
                 (mk_rsystem (p1, m1) (Some (Refreshing [] [name])) 0 0 false)) by by apply rs_tick.
  assert (S3 : R (mk_rsystem (p1, m1) (Some (Refreshing [] [name])) 0 0 false)
                 (mk_rsystem (p1, m1) (Some (Writing (path3 base name addr) v [] [])) 0 0 false)).
  { apply (rs_get _ _ _ _ _ [] name [] (p1, m1) _ (mk_rsystem (p1, m1) _ 0 0 false)); [done|done|].
    unfold loop_get. cbn [map_store KVStore.Get reg]. unfold m1, nodePath. cbn [BasePath ServiceAddress set_Services p1 ready].
    by rewrite lookup_insert_eq. }
  assert (S4 : R (mk_rsystem (p1, m1) (Some (Writing (path3 base name addr) v [] [])) 0 0 false)
                 (mk_rsystem (p2, m2) (Some (Writing (path3 base name addr) v [] [])) 0 0 false)).
  { apply (rs_call _ _ _ _ _ (CallUnregister name) (p2, m2) (Ok tt) (mk_rsystem (p1, m1) _ 0 0 false)); [done| |done].
    cbn [do_call reg]. rewrite Consul_Unregister_map by done. unfold p1, p2, set_Services. cbn.
    rewrite delete_insert_eq. rewrite decide_False by tauto. done. }
  eexists. split.
  { eapply rtc_l; [exact S1|]. eapply rtc_l; [exact S2|]. eapply rtc_l; [exact S3|]. eapply rtc_l; [exact S4|].
    eapply rtc_l; [by eapply (rs_put _ _ _ _ _ (path3 base name addr) v [] [] (p2, <[path3 base name addr := v]> m2))|].
    apply rtc_once. by eapply rs_refreshed. }
  cbn. split_and!; try done. by rewrite lookup_insert_eq.
Qed.

(** ** Witnesses *)
Definition sample_plugin (interval : Z) : registry_plugin :=
  mk_plugin "tcp@a" "irpc" [] ∅ interval false NilChan NilChan.

Definition sample_store : gmap string string := <["irpc" := "irpc_path"]> ∅.

(** [Stop] is called, the goroutine sees it and ends, [Stop] returns. *)
Definition stopped_plugin : registry_plugin := mk_plugin "tcp@a" "irpc" [] ∅ 10 true ClosedChan ClosedChan.

Lemma Stop_waits_for_refresh_witness :
  exists x, loop x = Some Exited /\ stopped x = 1%nat /\ (Consul.Stop map_store (reg x)).2 <> Ok tt.
Proof.
  exists (mk_rsystem (stopped_plugin, sample_store) (Some Exited) 0 1 false).
  destruct (Stop_waits_for_refresh map_store id None trimmed (Consul.Register map_store) (Consul.Unregister map_store)
    (Consul.Start map_store) (Consul.Stop map_store) (sample_plugin 10) (∅ : gmap string string)
    (ready "irpc" "tcp@a" 10, sample_store) true (mk_rsystem (stopped_plugin, sample_store) (Some Exited) 0 1 false)
    ltac:(done) eq_refl eq_refl eq_refl) as (_ & _ & H1 & H2 & _).
  - eapply rtc_l; [by eapply rs_stop; vm_compute|].
    eapply rtc_l; [by eapply rs_dying; vm_compute|].
    apply rtc_once. by apply (rs_stopped _ _ _ _ _ 0).
  - split; [apply H1; cbn; lia|]. split; [reflexivity|]. apply H2. cbn. lia.
Defined.

Lemma refresh_heals_witness :
  exists w', forall name, name ∈ ["Arith"] ->
    healed id [] (set_Services ["Arith"] {["Arith" := "group=a"]} (ready "irpc" "tcp@a" 10)) ∅ w' name.
Proof.
  destruct (refresh_heals map_store id None (Consul.Register map_store) (Consul.Unregister map_store)
    (Consul.Stop map_store)
    (started (set_Services ["Arith"] {["Arith" := "group=a"]} (ready "irpc" "tcp@a" 10), ∅) true) eq_refl eq_refl)
    as (w' & _ & H & _).
  exists w'. exact H.
Defined.

Lemma registry_plugins_meet_contract_witness :
  RegistryPlugin id (fun _ => True) (Redis.Register map_store) (Redis.Unregister map_store).
Proof. apply (registry_plugins_meet_contract map_store id map_store_laws). Defined.

Lemma registry_published_witness :
  let '(n, s) := run_calls (Consul.Register map_store) (Consul.Unregister map_store)
    [CallRegister "Arith" "group=a"] (mk_notes ∅ ∅) (sample_plugin 10, ∅) in published id trimmed n s.1 s.2.
Proof.
  apply (registry_published id trimmed (Consul.Register map_store) (Consul.Unregister map_store)
    (Consul_plugin map_store id) [CallRegister "Arith" "group=a"] (sample_plugin 10) ∅); try done.
  constructor; [|constructor]. unfold one_segment. apply (bool_decide_unpack _). vm_compute. exact I.
Defined.

Lemma refresh_restores_unregistered_witness :
  exists x : rsystem (W := gmap string string), Services (reg x).1 = [] /\ loop x = Some Waiting /\
    (reg x).2 !! "irpc/Arith/tcp@a" = Some (refreshed [] "group=a").
Proof.
  destruct (refresh_restores_unregistered "Arith" "group=a" "irpc" "tcp@a" 10 ∅) as (x & _ & H1 & _ & H2 & H3);
    [vm_compute; reflexivity|done|].
  by exists x.
Defined.
