(* ===== verification/Publish.v ===== *)
(** server/server_register.go and [UnregisterAll] of server/service.go: a service
    enters the server's registry (Service) and is then published by the plugins
    (ServerPlugins), here by a registry plugin (Registries). *)
From S2P Require Import Prelude Go Plugins Service ServerPlugins UrlQuery KVStore Registries RegistryFacts.
Open Scope go_scope.

(** ** The server's side *)
Section server.
Context {B V W : Type}.
(** As in Service. *)
Context (upper_rune : string -> bool) (ImplementsContext : gtype -> bool).

(** What registering touches of [Server]: the services, the plugins (an
    interface, which a user may set to nil) and the world of the plugins. *)
Record pserver : Type := mk_pserver {
  sregistry : registry B;
  splugins : option (pluginContainer W V);
  sworld : W
}.

Definition New_pserver (w : W) : pserver := mk_pserver empty_registry (Some []) w.

Definition on_registry {A} (p : prog (registry B) A) : prog pserver A := fun x =>
  let '(r, a) := p (sregistry x) in (mk_pserver r (splugins x) (sworld x), a).

(** A method of [s.Plugins], which panics when that is nil. *)
Definition on_plugins {A} (p : pluginContainer W V -> prog W A) : prog pserver A := fun x =>
  match splugins x with
  | None => (x, Panic)
  | Some ps => let '(w, a) := p ps (sworld x) in (mk_pserver (sregistry x) (splugins x) w, a)
  end.

(** The receiver is [rcvr] to the registry and [v] to the plugins. *)
Definition Server_Register (rcvr : receiver B) (v : V) (metadata : string) : prog pserver (option error) :=
  '(serviceName, err) ← on_registry (register upper_rune ImplementsContext rcvr "" false);
  match err with
  | Some e => mret (Some e)
  | None => on_plugins (DoRegister serviceName v metadata)
  end.

Definition RegisterName (name : string) (rcvr : receiver B) (v : V) (metadata : string) : prog pserver (option error) :=
  '(_, err) ← on_registry (register upper_rune ImplementsContext rcvr name true);
  match err with
  | Some e => mret (Some e)
  | None =>
      modify (fun x => mk_pserver (sregistry x) (Some (default [] (splugins x))) (sworld x));;
      on_plugins (DoRegister name v metadata)
  end.

Definition Server_RegisterFunction (servicePath : string) (f : gfunc B) (v : V) (metadata : string) :
    prog pserver (option error) :=
  '(serviceName, err) ← on_registry (registerFunction upper_rune ImplementsContext servicePath f "" false);
  match err with
  | Some e => mret (Some e)
  | None => on_plugins (DoRegisterFunction servicePath serviceName v metadata)
  end.

Definition RegisterFunctionName (servicePath name : string) (f : gfunc B) (v : V) (metadata : string) :
    prog pserver (option error) :=
  '(_, err) ← on_registry (registerFunction upper_rune ImplementsContext servicePath f name true);
  match err with
  | Some e => mret (Some e)
  | None => on_plugins (DoRegisterFunction servicePath name v metadata)
  end.

(** [UnregisterAll]; [ks] are the keys of the service map in the order of the
    iteration. *)
Fixpoint unregister_each (ks : list string) : prog pserver (list error) :=
  match ks with
  | [] => mret []
  | k :: ks =>
      err ← on_plugins (DoUnregister k);
      es ← unregister_each ks;
      mret (match err with Some e => e :: es | None => es end)
  end.

Definition UnregisterAll (ks : list string) : prog pserver (option error) :=
  es ← unregister_each ks; mret (NewMultiError es).

(** What a program does with its server. *)
Inductive publish_op : Type :=
| PRegister (rcvr : receiver B) (v : V) (metadata : string)
| PRegisterName (name : string) (rcvr : receiver B) (v : V) (metadata : string)
| PFunction (path : string) (f : gfunc B) (v : V) (metadata : string)
| PFunctionName (path name : string) (f : gfunc B) (v : V) (metadata : string).

Definition run_op (o : publish_op) : prog pserver (option error) :=
  match o with
  | PRegister rcvr v md => Server_Register rcvr v md
  | PRegisterName name rcvr v md => RegisterName name rcvr v md
  | PFunction path f v md => Server_RegisterFunction path f v md
  | PFunctionName path name f v md => RegisterFunctionName path name f v md
  end.

(** The name a client finds the service under. *)
Definition op_name (o : publish_op) : string :=
  match o with
  | PRegister rcvr _ _ => Name (Indirect (rtyp rcvr))
  | PRegisterName name _ _ _ => name
  | PFunction path _ _ _ | PFunctionName path _ _ _ _ => path
  end.

Definition op_metadata (o : publish_op) : string :=
  match o with PRegister _ _ md | PRegisterName _ _ _ md | PFunction _ _ _ md | PFunctionName _ _ _ _ md => md end.

Definition is_function (o : publish_op) : bool :=
  match o with PRegister _ _ _ | PRegisterName _ _ _ _ => false | _ => true end.

(** The program goes on after an error, and keeps the errors. *)
Fixpoint run_ops (os : list publish_op) : prog pserver (list (option error)) :=
  match os with
  | [] => mret []
  | o :: os => e ← run_op o; es ← run_ops os; mret (e :: es)
  end.
End server.
Arguments pserver : clear implicits.
Arguments publish_op : clear implicits.

(** ** A registry plugin as a plugin of the server *)
Section hooks.
Context {V W : Type}.

(** The error a method returns, as a value. *)
Definition hook (m : prog (rstate (W := W)) unit) : prog (rstate (W := W)) (option error) := fun s =>
  let '(s, r) := m s in
  (s, match r with
      | Ok _ => Ok None
      | Err e => Ok (Some e)
      | Panic => Panic | Fatal => Fatal | Blocked => Blocked
      end).

(** [functions]: the plugin has [RegisterFunction] too, which those of consul
    and zookeeper have and that of redis has not. *)
Definition registry_hooks (functions : bool) (Register : string -> string -> prog (rstate (W := W)) unit)
    (Unregister : string -> prog (rstate (W := W)) unit) : Plugin (rstate (W := W)) V := {|
  pid := 0;
  ServerPlugins.Register := Some (fun name _ metadata => hook (Register name metadata));
  ServerPlugins.Unregister := Some (fun name => hook (Unregister name));
  ServerPlugins.RegisterFunction := if functions then Some (fun path _ _ metadata => hook (Register path metadata)) else None;
  ServerPlugins.HandleConnAccept := None; HandleConnClose := None; PreReadRequest := None; PostReadRequest := None;
  PreHandleRequest := None; ServerPlugins.PreCall := None; PostCall := None; PreWriteResponse := None;
  PostWriteResponse := None; PreWriteRequest := None; PostWriteRequest := None; HeartbeatRequest := None
|}.
End hooks.

Section facts.
Context {B V W : Type} (upper_rune : string -> bool) (ImplementsContext : gtype -> bool).
Context (nodes : W -> gmap string string) (base_ok : string -> Prop) (functions : bool)
  (Reg : string -> string -> prog (rstate (W := W)) unit) (Unreg : string -> prog (rstate (W := W)) unit)
  {Hplugin : RegistryPlugin nodes base_ok Reg Unreg}.
Notation server := (pserver B V (rstate (W := W))).
Notation plugin := (registry_hooks (V := V) functions Reg Unreg).
Notation names x := (dom (serviceMap (sregistry x))).

(** What a container of one plugin makes of its result. *)
Definition alone (sr : rstate (W := W) * result unit) : rstate (W := W) * result (option error) :=
  (sr.1, match sr.2 with
         | Ok _ => Ok None
         | Err e => Ok (Some (MultiError [e]))
         | Panic => Panic | Fatal => Fatal | Blocked => Blocked
         end).

Lemma DoRegister_alone name v md s : DoRegister name v md [plugin] s = alone (Reg name md s).
Proof.
  unfold DoRegister, collected, collect_errors, alone. cbn. unfold mbind, prog_bind, hook.
  by destruct (Reg name md s) as [s' [[]| | | |]].
Qed.

Lemma DoUnregister_alone name s : DoUnregister name [plugin] s = alone (Unreg name s).
Proof.
  unfold DoUnregister, collected, collect_errors, alone. cbn. unfold mbind, prog_bind, hook.
  by destruct (Unreg name s) as [s' [[]| | | |]].
Qed.

Lemma DoRegisterFunction_alone path f v md s :
  DoRegisterFunction path f v md [plugin] s = if functions then alone (Reg path md s) else (s, Ok None).
Proof.
  unfold DoRegisterFunction, collected, collect_errors, alone. cbn. destruct functions; [|done].
  cbn. unfold mbind, prog_bind, hook. by destruct (Reg path md s) as [s' [[]| | | |]].
Qed.

(** The names that are served after a registration. *)
Lemma register_names rcvr nm (useName : bool) (s s' : registry B) n err :
  register upper_rune ImplementsContext rcvr nm useName s = (s', Ok (n, err)) ->
  n = (if useName then nm else Name (Indirect (rtyp rcvr))) /\
  dom (serviceMap s') = match err with None => {[n]} ∪ dom (serviceMap s) | Some _ => dom (serviceMap s) end.
Proof.
  unfold register. destruct (checkServiceName _ _ _) as [e|]; [by intros [= <- <- <-]|].
  destruct (suitableMethods _ _ (rmethods rcvr) _) as [methods ps]. destruct (decide (methods = ∅)).
  - destruct (suitableMethods _ _ _ _). by intros [= <- <- <-].
  - intros [= <- <- <-]. cbn. split; [done|]. by rewrite dom_insert_L.
Qed.

Lemma registerFunction_names path f nm useName (s s' : registry B) n err :
  registerFunction upper_rune ImplementsContext path f nm useName s = (s', Ok (n, err)) ->
  dom (serviceMap s') = match err with None => {[path]} ∪ dom (serviceMap s) | Some _ => dom (serviceMap s) end.
Proof.
  unfold registerFunction. destruct err; repeat (case_match; try done); intros H'; simplify_eq; cbn; try done.
  by rewrite dom_insert_L.
Qed.

(** What a call of the program did: the server refused the service, or serves it
    and called the plugin, unless it has no such method. *)
Inductive op_did (o : publish_op B V) (x x' : server) (err : option error) : Prop :=
| did_refuse e : err = Some e -> names x' = names x -> sworld x' = sworld x -> op_did o x x' err
| did_serve : err = None -> functions = false -> is_function o = true ->
    names x' = {[op_name o]} ∪ names x -> sworld x' = sworld x -> op_did o x x' err
| did_publish r : names x' = {[op_name o]} ∪ names x ->
    Reg (op_name o) (op_metadata o) (sworld x) = (sworld x', r) -> alone (sworld x', r) = (sworld x', Ok err) ->
    op_did o x x' err.

(** Calling the plugins after the registry took the service. *)
Lemma published_by o (p : pluginContainer (rstate (W := W)) V -> prog (rstate (W := W)) (option error)) (x x1 x' : server) err :
  (forall s, p [plugin] s = alone (Reg (op_name o) (op_metadata o) s)) ->
  splugins x1 = Some [plugin] -> sworld x1 = sworld x -> names x1 = {[op_name o]} ∪ names x ->
  on_plugins p x1 = (x', Ok err) -> splugins x' = Some [plugin] /\ op_did o x x' err.
Proof.
  intros Hp Hpl Hw Hn. unfold on_plugins. rewrite Hpl, Hp, Hw.
  destruct (Reg (op_name o) (op_metadata o) (sworld x)) as [s r] eqn:E. unfold alone. cbn. intros [= <- Hr]. split; [done|].
  apply (did_publish o _ _ _ r); cbn; [done|done|]. unfold alone. cbn. by rewrite Hr.
Qed.

Lemma run_op_did o (x x' : server) err : splugins x = Some [plugin] ->
  run_op upper_rune ImplementsContext o x = (x', Ok err) -> splugins x' = Some [plugin] /\ op_did o x x' err.
Proof.
  intros Hpl. destruct o as [rcvr v md|nm rcvr v md|path f v md|path nm f v md]; cbn [run_op];
    unfold Server_Register, RegisterName, Server_RegisterFunction, RegisterFunctionName, mbind, prog_bind, on_registry.
  - destruct (register _ _ _ _ _ _) as [s [[n [e|]]| | | |]] eqn:E; try done; apply register_names in E as [-> Hn].
    + intros [= <- <-]. split; [done|]. by apply (did_refuse _ _ _ _ e).
    + apply (published_by (PRegister rcvr v md)); try done. intros s0. apply DoRegister_alone.
  - destruct (register _ _ _ _ _ _) as [s [[n [e|]]| | | |]] eqn:E; try done; apply register_names in E as [-> Hn].
    + intros [= <- <-]. split; [done|]. by apply (did_refuse _ _ _ _ e).
    + cbn beta iota delta [modify]. apply (published_by (PRegisterName nm rcvr v md)); try done; [|cbn; by rewrite Hpl].
      intros s0. apply DoRegister_alone.
  - destruct (registerFunction _ _ _ _ _ _ _) as [s [[n [e|]]| | | |]] eqn:E; try done; apply registerFunction_names in E as Hn.
    + intros [= <- <-]. split; [done|]. by apply (did_refuse _ _ _ _ e).
    + destruct (bool_dec functions true) as [Ef|Ef%not_true_is_false].
      * apply (published_by (PFunction path f v md)); try done. intros s0. by rewrite DoRegisterFunction_alone, Ef.
      * unfold on_plugins. cbn. rewrite Hpl, DoRegisterFunction_alone, Ef. intros [= <- <-]. split; [done|].
        by apply did_serve.
  - destruct (registerFunction _ _ _ _ _ _ _) as [s [[n [e|]]| | | |]] eqn:E; try done; apply registerFunction_names in E as Hn.
    + intros [= <- <-]. split; [done|]. by apply (did_refuse _ _ _ _ e).
    + destruct (bool_dec functions true) as [Ef|Ef%not_true_is_false].
      * apply (published_by (PFunctionName path nm f v md)); try done. intros s0. by rewrite DoRegisterFunction_alone, Ef.
      * unfold on_plugins. cbn. rewrite Hpl, DoRegisterFunction_alone, Ef. intros [= <- <-]. split; [done|].
        by apply did_serve.
Qed.

(** ** What is published *)

(** Only what is served is published. *)
Record pinv (x : server) (n : notes) (p : registry_plugin) (w : W) : Prop := {
  pv_plugin : splugins x = Some [plugin];
  pv_world : sworld x = (p, w);
  pv_published : published nodes base_ok n p w;
  pv_served k : k ∈ Services p -> k ∈ names x;
  pv_segment k : k ∈ names x -> one_segment k
}.

(** Exactly the services of [m] are served and published, with its metadata. *)
Record exactly (m : gmap string string) (x : server) (n : notes) (p : registry_plugin) : Prop := {
  ex_failed : failed n = ∅;
  ex_metas : metas p = m;
  ex_names : names x = dom m;
  ex_owned : dom m ⊆ owned n
}.

Definition registered (os : list (publish_op B V)) (m : gmap string string) : gmap string string :=
  fold_left (fun m o => <[op_name o := op_metadata o]> m) os m.

(** The plugin publishes what the program registers. *)
Definition covered (os : list (publish_op B V)) : Prop := functions = true \/ Forall (fun o => is_function o = false) os.

Lemma start_inv p w : base_ok (BasePath p) -> Services p = [] -> metas p = ∅ ->
  pinv (mk_pserver empty_registry (Some [plugin]) (p, w)) (mk_notes ∅ ∅) p w.
Proof.
  intros Hb Hs Hm. split; [done|done|by apply published_nothing|rewrite Hs; by intros k ?%elem_of_nil|].
  cbn. rewrite dom_empty_L. by intros k ?%elem_of_empty.
Qed.

Lemma start_exactly p w : metas p = ∅ ->
  exactly ∅ (mk_pserver empty_registry (Some [plugin]) (p, w)) (mk_notes ∅ ∅) p.
Proof. intros Hm. split; try done; cbn; by rewrite ?dom_empty_L. Qed.

Lemma op_did_inv o x x' err n p w : one_segment (op_name o) -> pinv x n p w ->
  splugins x' = Some [plugin] -> op_did o x x' err ->
  exists n' p' w', pinv x' n' p' w' /\
    forall m, (functions = true \/ is_function o = false) -> err = None -> exactly m x n p ->
      exactly (<[op_name o := op_metadata o]> m) x' n' p'.
Proof.
  intros Hseg [Hpl Hw Hp Hs Hsegs] Hpl' [e He Hn Hw'|He Hf Hif Hn Hw'|r Hn Hr Ha].
  - exists n, p, w. split; [split; rewrite ?Hw', ?Hn; done|]. by rewrite He.
  - exists n, p, w. split; [|by rewrite Hf, Hif; intros m []]. split; rewrite ?Hw', ?Hn; try done; [set_solver|].
    intros k [->%elem_of_singleton|]%elem_of_union; [done|by apply Hsegs].
  - rewrite Hw in Hr. destruct (sworld x') as [p' w'] eqn:Ew.
    pose proof (published_step nodes base_ok Reg Unreg (CallRegister (op_name o) (op_metadata o)) n p w (p', w') r Hseg Hp Hr)
      as [Hp' _].
    pose proof (Register_meets nodes (op_name o) (op_metadata o) p w (pub_base _ _ _ _ _ Hp)) as Hpost.
    rewrite Hr in Hpost. destruct Hpost as (_ & _ & Hpost).
    exists (note (CallRegister (op_name o) (op_metadata o)) p r n), p', w'. split.
    + split; try done.
      * intros k Hk. rewrite Hn. destruct r as [[]|e| | |]; try done; [destruct Hpost as (_ & _ & Hs' & _)|destruct Hpost as [Hs' _]];
          rewrite Hs' in Hk; set_solver.
      * intros k. rewrite Hn. intros [->%elem_of_singleton|]%elem_of_union; [done|by apply Hsegs].
    + intros m _ -> [Hf Hm Hnames Hown]. unfold alone in Ha. cbn in Ha. destruct r as [[]|e| | |]; try done.
      destruct Hpost as (_ & _ & _ & Hm'). cbn. split; cbn.
      * rewrite Hf. set_solver.
      * by rewrite Hm', Hm.
      * by rewrite Hn, Hnames, dom_insert_L.
      * rewrite dom_insert_L. set_solver.
Qed.

Lemma run_ops_inv os x x' errs n p w : Forall (fun o => one_segment (op_name o)) os -> pinv x n p w ->
  run_ops upper_rune ImplementsContext os x = (x', Ok errs) ->
  exists n' p' w', pinv x' n' p' w' /\
    forall m, covered os -> Forall (eq None) errs -> exactly m x n p -> exactly (registered os m) x' n' p'.
Proof.
  intros Hseg. revert x errs n p w. induction Hseg as [|o os Ho _ IH]; intros x errs n p w Hi; cbn [run_ops].
  - intros [= <- <-]. by exists n, p, w.
  - unfold mbind, prog_bind. destruct (run_op _ _ o x) as [x1 [e| | | |]] eqn:E1; try done.
    destruct (run_ops _ _ os x1) as [x2 [es| | | |]] eqn:E2; try done. intros [= <- <-].
    apply run_op_did in E1 as [Hpl Hdid]; [|apply Hi].
    destruct (op_did_inv o x x1 e n p w Ho Hi Hpl Hdid) as (n1 & p1 & w1 & Hi1 & Hex1).
    destruct (IH x1 es n1 p1 w1 Hi1 E2) as (n2 & p2 & w2 & Hi2 & Hex2).
    exists n2, p2, w2. split; [done|]. intros m Hc Herr Hex. inversion Herr as [|? ? He Hes]; subst.
    apply Hex2; [|done|].
    + destruct Hc as [Hc|Hc]; [by left|]. inversion Hc. by right.
    + apply Hex1; [|done|done]. destruct Hc as [Hc|Hc]; [by left|]. inversion Hc. by right.
Qed.

(** Withdrawing services one after the other, without an error. *)
Lemma unregister_each_inv ks x x' n p w : pinv x n p w -> failed n = ∅ -> (forall k, k ∈ ks -> k ∈ names x) ->
  unregister_each ks x = (x', Ok []) ->
  exists n' p' w', pinv x' n' p' w' /\ failed n' = ∅ /\ owned n' = owned n /\ sregistry x' = sregistry x /\
    forall k, k ∈ Services p' -> k ∈ Services p /\ k ∉ ks.
Proof.
  revert x n p w. induction ks as [|k ks IH]; intros x n p w Hi Hf Hks; cbn [unregister_each].
  - intros [= <-]. exists n, p, w. split_and!; try done. intros k Hk. split; [done|apply not_elem_of_nil].
  - unfold mbind, prog_bind, on_plugins. pose proof Hi as [Hpl Hw Hp Hs Hsegs]. rewrite Hpl, DoUnregister_alone, Hw.
    assert (Hk : k ∈ names x) by (apply Hks; left).
    destruct (Unreg k (p, w)) as [[p1 w1] r] eqn:Er. unfold alone. cbn [fst snd].
    destruct (published_step nodes base_ok Reg Unreg (CallUnregister k) n p w (p1, w1) r (Hsegs k Hk) Hp Er) as [Hp1 _].
    pose proof (Unregister_meets nodes k p w (pub_base _ _ _ _ _ Hp)) as Hpost. rewrite Er in Hpost.
    destruct Hpost as (_ & _ & Hpost). destruct r as [[]|e| | |]; try done; cbn [fst snd].
    2:{ by destruct (unregister_each ks _) as [? [?| | | |]]. }
    destruct (unregister_each ks _) as [x2 [es| | | |]] eqn:E2; try done. intros [= <- ->].
    assert (Hin : forall k', k' ∈ Services p1 -> k' ∈ Services p /\ k' <> k).
    { destruct Hpost as [(H0 & -> & _)|(_ & _ & _ & -> & _)]; [rewrite H0; by intros ? ?%elem_of_nil|].
      intros k'. rewrite list_elem_of_filter. naive_solver. }
    destruct (IH (mk_pserver (sregistry x) (Some [plugin]) (p1, w1)) (note (CallUnregister k) p (Ok tt) n) p1 w1)
      as (n2 & p2 & w2 & Hi2 & Hf2 & Ho2 & Hr2 & Hs2); try done.
    + split; try done. intros k' Hk'. apply Hs. by apply Hin.
    + cbn. rewrite Hf. destruct (Services p); cbn; set_solver.
    + intros k' Hk'. apply (Hks k'). by right.
    + exists n2, p2, w2. split_and!; try done.
      * rewrite Ho2. cbn. by destruct (Services p).
      * intros k' Hk'. destruct (Hs2 k' Hk') as [H1 H2]. destruct (Hin k' H1). split; [done|].
        by apply not_elem_of_cons.
Qed.

(** C26: a server with a registry plugin publishes only what it serves, whatever
    fails.  When no registration returned an error, it serves exactly the services
    the program registered, and the store has a node for each of them with the
    metadata of its last registration (functions need a plugin that publishes
    them, which that of redis is not); and when [UnregisterAll] then returns no
    error, the store has no node of any of them, while the server goes on serving
    them. *)
Theorem published_services os p w x errs :
  base_ok (BasePath p) -> Services p = [] -> metas p = ∅ -> Forall (fun o => one_segment (op_name o)) os ->
  run_ops upper_rune ImplementsContext os (mk_pserver empty_registry (Some [plugin]) (p, w)) = (x, Ok errs) ->
  exists p' w', sworld x = (p', w') /\
    (forall k, k ∈ Services p' -> is_Some (serviceMap (sregistry x) !! k)) /\
    (covered os -> Forall (eq None) errs ->
       let m := registered os ∅ in
       (forall k, is_Some (serviceMap (sregistry x) !! k) <-> is_Some (m !! k)) /\
       (forall k md, m !! k = Some md -> nodes w' !! nodePath p' k = Some md) /\
       forall ks x2, ks ≡ₚ elements (names x) -> UnregisterAll ks x = (x2, Ok None) ->
         exists p2 w2, sworld x2 = (p2, w2) /\ Services p2 = [] /\ sregistry x2 = sregistry x /\
           forall k, is_Some (m !! k) -> nodes w2 !! nodePath p2 k = None).
Proof.
  intros Hb Hs Hm Hseg Hrun.
  destruct (run_ops_inv os _ x errs (mk_notes ∅ ∅) p w Hseg (start_inv p w Hb Hs Hm) Hrun) as (n & p' & w' & Hi & Hex).
  exists p', w'. split; [apply Hi|]. split; [intros k Hk; by apply elem_of_dom, (pv_served _ _ _ _ Hi)|].
  intros Hc Herr m. specialize (Hex ∅ Hc Herr (start_exactly p w Hm)). fold m in Hex. split_and!.
  - intros k. by rewrite <- !elem_of_dom, (ex_names _ _ _ _ Hex).
  - intros k md Hk. apply (pub_node _ _ _ _ _ (pv_published _ _ _ _ Hi)); [by rewrite (ex_metas _ _ _ _ Hex)|].
    rewrite (ex_failed _ _ _ _ Hex). apply not_elem_of_empty.
  - intros ks x2 Hks. unfold UnregisterAll, mbind, prog_bind.
    destruct (unregister_each ks x) as [x3 [[|e es]| | | |]] eqn:Eu; try done. intros [= <-].
    assert (Hin : forall k, k ∈ names x <-> k ∈ ks) by (intros k; by rewrite Hks, elem_of_elements).
    destruct (unregister_each_inv ks x x3 n p' w' Hi (ex_failed _ _ _ _ Hex) (fun k Hk => proj2 (Hin k) Hk) Eu)
      as (n2 & p2 & w2 & Hi2 & Hf2 & Ho2 & Hr2 & Hs2).
    assert (Hs0 : Services p2 = []).
    { apply elem_of_nil_inv. intros k Hk. destruct (Hs2 k Hk) as [H1 H2]. by apply H2, Hin, (pv_served _ _ _ _ Hi). }
    exists p2, w2. split_and!; [apply Hi2|done|done|]. intros k Hk. pose proof (pv_published _ _ _ _ Hi2) as Hp2.
    apply (pub_gone _ _ _ _ _ Hp2).
    + apply eq_None_not_Some. rewrite <- (pub_agree _ _ _ _ _ Hp2), Hs0. apply not_elem_of_nil.
    + rewrite Ho2. by apply (ex_owned _ _ _ _ Hex), elem_of_dom.
    + rewrite Hf2. apply not_elem_of_empty.
Qed.
End facts.

(** ** Witness: a service and a function published in a consul-like store *)
Definition publish_example : list (publish_op Z unit) :=
  [PRegister arith tt "group=a"; PFunctionName "Math" "Mul" mul tt ""; PRegisterName "Arith" arith tt "group=b"].

Definition consul_server : pserver Z unit (rstate (W := gmap string string)) :=
  mk_pserver empty_registry (Some [registry_hooks true (Consul.Register map_store) (Consul.Unregister map_store)])
    (sample_plugin 10, ∅).

Lemma published_services_witness :
  let x := (run_ops (fun _ => false) ctx_type publish_example consul_server).1 in
  exists p' w', sworld x = (p', w') /\
    (forall k, k ∈ Services p' -> is_Some (serviceMap (sregistry x) !! k)) /\
    (covered true publish_example -> Forall (eq (@None error)) [None; None; None] ->
       let m : gmap string string := <["Arith" := "group=b"]> (<["Math" := ""]> (<["Arith" := "group=a"]> ∅)) in
       (forall k, is_Some (serviceMap (sregistry x) !! k) <-> is_Some (m !! k)) /\
       (forall k md, m !! k = Some md -> (w' : gmap string string) !! nodePath p' k = Some md) /\
       forall ks x2, ks ≡ₚ elements (dom (serviceMap (sregistry x))) -> UnregisterAll ks x = (x2, Ok None) ->
         exists p2 w2, sworld x2 = (p2, w2) /\ Services p2 = [] /\ sregistry x2 = sregistry x /\
           forall k, is_Some (m !! k) -> (w2 : gmap string string) !! nodePath p2 k = None).
Proof.
  apply (published_services (fun _ => false) ctx_type id trimmed true (Consul.Register map_store) (Consul.Unregister map_store)
    publish_example (sample_plugin 10) ∅ _ [None; None; None]); try done.
  repeat constructor; unfold one_segment; apply (bool_decide_unpack _); vm_compute; exact I.
Defined.

(** The plugin of redis has no [RegisterFunction]: a function is served and not
    published, and nobody is told. *)
Example redis_function_unpublished :
  let '(x, r) := run_op (fun _ => false) ctx_type (PFunctionName "Math" "Mul" mul tt "")
    (mk_pserver empty_registry (Some [registry_hooks (V := unit) false (Redis.Register map_store) (Redis.Unregister map_store)])
       (sample_plugin 10, ∅)) in
  r = Ok None /\ is_Some (serviceMap (sregistry x) !! "Math") /\ sworld x = (sample_plugin 10, ∅).
Proof. vm_compute. split_and!; [done|by eexists|done]. Qed.
