(* ===== verification/Discovery.v ===== *)
(** client/discovery.go, discovery_consul.go, discovery_multiple_servers.go and
    discovery_peer2peer.go: the discoveries, from which an xClient learns its
    servers, and the channels on which they publish changes.

    A change is sent on each watcher's channel by a goroutine of its own, so
    changes may arrive in any order: the sends are steps. *)
From Stdlib Require Import Strings.Ascii.
From S2P Require Import Prelude Go Backoff KVStore.
Open Scope go_scope.

(** [KVPair] is a pair of strings; a change is a list of them. *)
Notation change := (list (string * string)).

(** ** Watchers *)

(** A channel is a number.  [chans] are the registered ones; [buf] what each
    channel holds, and none when it was closed; [sending] the goroutines that
    still try to send; [received] and [dropped] are observers' logs. *)
Record watchers : Type := mk_watchers {
  chans : list nat;
  buf : gmap nat (list change);
  sending : list (nat * change);
  received : list (nat * change);
  dropped : list (nat * change);
  next_chan : nat
}.

Definition no_watchers : watchers := mk_watchers [] ∅ [] [] [] 0.

(** [make(chan []*KVPair, 10)]. *)
Definition chan_cap : nat := 10.

(** [WatchService] of ConsulDiscovery and of MultipleServersDiscovery. *)
Definition WatchService (x : watchers) : watchers * nat :=
  (mk_watchers (chans x ++ [next_chan x]) (<[next_chan x := []]> (buf x)) (sending x) (received x) (dropped x)
     (S (next_chan x)), next_chan x).

Definition RemoveWatcher (ch : nat) (x : watchers) : watchers :=
  mk_watchers (filter (fun c => c <> ch) (chans x)) (buf x) (sending x) (received x) (dropped x) (next_chan x).

(** The loop over [d.chans] that starts a goroutine for each. *)
Definition notify (pairs : change) (x : watchers) : watchers :=
  mk_watchers (chans x) (buf x) (sending x ++ ((fun ch => (ch, pairs)) <$> chans x)) (received x) (dropped x)
    (next_chan x).

(** [close(c.ch)], which the client that owns the channel does. *)
Definition close_watcher (ch : nat) (x : watchers) : watchers :=
  mk_watchers (chans x) (delete ch (buf x)) (sending x) (received x)
    (dropped x ++ ((fun u => (ch, u)) <$> default [] (buf x !! ch))) (next_chan x).

(** A goroutine's select: the send when the channel has room; the send on a
    closed channel panics and is recovered; after a minute the change is
    dropped. *)
Definition deliver (i : nat) (x : watchers) : option watchers :=
  '(ch, u) ← sending x !! i;
  match buf x !! ch with
  | None => Some (mk_watchers (chans x) (buf x) (delete i (sending x)) (received x) (dropped x ++ [(ch, u)]) (next_chan x))
  | Some b =>
      if (length b <? chan_cap)%nat
      then Some (mk_watchers (chans x) (<[ch := b ++ [u]]> (buf x)) (delete i (sending x)) (received x) (dropped x)
                   (next_chan x))
      else None
  end.

Definition drop_change (i : nat) (x : watchers) : option watchers :=
  '(ch, u) ← sending x !! i;
  Some (mk_watchers (chans x) (buf x) (delete i (sending x)) (received x) (dropped x ++ [(ch, u)]) (next_chan x)).

(** The receive of [for pairs := range ch]. *)
Definition receive (ch : nat) (x : watchers) : option (watchers * change) :=
  b ← buf x !! ch;
  match b with
  | [] => None
  | u :: b => Some (mk_watchers (chans x) (<[ch := b]> (buf x)) (sending x) (received x ++ [(ch, u)]) (dropped x)
                      (next_chan x), u)
  end.

(** The steps between two changes; a change is [notify]. *)
Inductive wstep : watchers -> watchers -> Prop :=
| ws_watch x : wstep x (WatchService x).1
| ws_remove ch x : wstep x (RemoveWatcher ch x)
| ws_close ch x : wstep x (close_watcher ch x)
| ws_deliver i x x' : deliver i x = Some x' -> wstep x x'
| ws_give_up i x x' : drop_change i x = Some x' -> wstep x x'
| ws_receive ch x x' u : receive ch x = Some (x', u) -> wstep x x'.

(** ** Peer2PeerDiscovery *)
Record Peer2PeerDiscovery : Type := mk_p2p { server : string; metadata : string }.

Definition p2p_GetServices (d : Peer2PeerDiscovery) : change := [(server d, metadata d)].
(** It has no channel to watch. *)
Definition p2p_WatchService (d : Peer2PeerDiscovery) : option nat := None.
Definition p2p_Clone (servicePath : string) (d : Peer2PeerDiscovery) : Peer2PeerDiscovery := d.
Definition NewPeer2PeerDiscovery (server metadata : string) : Peer2PeerDiscovery := mk_p2p server metadata.
Definition p2p_SetFilter (f : string * string -> bool) (d : Peer2PeerDiscovery) : Peer2PeerDiscovery := d.
Definition p2p_RemoveWatcher (ch : nat) (d : Peer2PeerDiscovery) : Peer2PeerDiscovery := d.
Definition p2p_Close (d : Peer2PeerDiscovery) : Peer2PeerDiscovery := d.

(** ** MultipleServersDiscovery *)
Record MultipleServersDiscovery : Type := mk_msd { msd_pairs : change; msd_watchers : watchers }.

Definition NewMultipleServersDiscovery (pairs : change) : MultipleServersDiscovery := mk_msd pairs no_watchers.
(** A clone is the same discovery, filters are ignored, and closing does nothing. *)
Definition msd_Clone (servicePath : string) (d : MultipleServersDiscovery) : MultipleServersDiscovery := d.
Definition msd_SetFilter (f : string * string -> bool) (d : MultipleServersDiscovery) : MultipleServersDiscovery := d.
Definition msd_Close (d : MultipleServersDiscovery) : MultipleServersDiscovery := d.
Definition msd_GetServices (d : MultipleServersDiscovery) : change := msd_pairs d.
Definition msd_WatchService (d : MultipleServersDiscovery) : MultipleServersDiscovery * nat :=
  let '(x, ch) := WatchService (msd_watchers d) in (mk_msd (msd_pairs d) x, ch).
Definition msd_RemoveWatcher (ch : nat) (d : MultipleServersDiscovery) : MultipleServersDiscovery :=
  mk_msd (msd_pairs d) (RemoveWatcher ch (msd_watchers d)).
Definition Update (pairs : change) (d : MultipleServersDiscovery) : MultipleServersDiscovery :=
  mk_msd pairs (notify pairs (msd_watchers d)).

(** ** ConsulDiscovery *)
Record ConsulDiscovery : Type := mk_cd {
  basePath : string;
  pairs : change;
  watching : watchers;
  RetriesAfterWatchFailed : Z;
  filter_ : option (string * string -> bool);
  stopCh : chan_state
}.

Definition set_pairs (ps : change) (x : watchers) (d : ConsulDiscovery) : ConsulDiscovery :=
  mk_cd (basePath d) ps x (RetriesAfterWatchFailed d) (filter_ d) (stopCh d).

(** [strings.TrimPrefix] after [strings.HasPrefix]. *)
Fixpoint cut_prefix (prefix s : string) : option string :=
  match prefix, s with
  | "", _ => Some s
  | String a p, String b s => if decide (a = b) then cut_prefix p s else None
  | String _ _, "" => None
  end.

(** The loop over the store's pairs, in [NewConsulDiscoveryStore] and in
    [watch]. *)
Definition to_pairs (base : string) (flt : option (string * string -> bool)) (ps : change) : change :=
  omap (fun '(key, value) =>
    k ← cut_prefix (base +:+ "/") key;
    match flt with
    | Some f => if f (k, value) then Some (k, value) else None
    | None => Some (k, value)
    end) ps.

(** The base path without its first slash and its last; an empty path panics. *)
Definition last_slash (s : string) : option string :=
  match rev (bytes_of s) with
  | b :: rest => if decide (b = "/"%byte) then Some (string_of (rev rest)) else None
  | [] => None
  end.

Definition clean_base (base : string) : result string :=
  match base with
  | "" => Panic
  | String c rest =>
      let base := if decide (c = "/"%char) then rest else base in
      Ok (if 1 <? slen base then default base (last_slash base) else base)
  end.

Section consul.
Context {W : Type} (st : Store W) (NewStore : prog W unit).

(** [err != nil && err != store.ErrKeyNotFound]. *)
#[local] Instance foreign_eq_dec s : Decision (Foreign s = ErrKeyNotFound).
Proof.
  destruct (decide (s = "Key not found in store")) as [->|H]; [by left|right; by intros [= ?]].
Defined.

Definition list_or_missing (base : string) : prog W change := fun w =>
  match List st base w with
  | (w, Err (Foreign s)) => (w, if decide (Foreign s = ErrKeyNotFound) then Ok [] else Err (Foreign s))
  | r => r
  end.

Definition NewConsulDiscoveryStore (base : string) : prog W ConsulDiscovery :=
  base ← lift (clean_base base);
  ps ← list_or_missing base;
  mret (mk_cd base (to_pairs base None ps) no_watchers (-1) None OpenChan).

Definition NewConsulDiscovery (base servicePath : string) : prog W ConsulDiscovery :=
  NewStore;; NewConsulDiscoveryStore (base +:+ "/" +:+ servicePath).

Definition NewConsulDiscoveryTemplate (base : string) : prog W ConsulDiscovery :=
  base ← lift (clean_base base); NewStore;; NewConsulDiscoveryStore base.

Definition Clone (servicePath : string) (d : ConsulDiscovery) : prog W ConsulDiscovery :=
  NewConsulDiscoveryStore (basePath d +:+ "/" +:+ servicePath).
End consul.

Definition SetFilter (f : option (string * string -> bool)) (d : ConsulDiscovery) : ConsulDiscovery :=
  mk_cd (basePath d) (pairs d) (watching d) (RetriesAfterWatchFailed d) f (stopCh d).

Definition cd_GetServices (d : ConsulDiscovery) : change := pairs d.
Definition cd_WatchService (d : ConsulDiscovery) : ConsulDiscovery * nat :=
  let '(x, ch) := WatchService (watching d) in (set_pairs (pairs d) x d, ch).
Definition cd_RemoveWatcher (ch : nat) (d : ConsulDiscovery) : ConsulDiscovery :=
  set_pairs (pairs d) (RemoveWatcher ch (watching d)) d.

(** [close(d.stopCh)]. *)
Definition cd_Close (d : ConsulDiscovery) : result ConsulDiscovery :=
  c ← close_chan (stopCh d);
  Ok (mk_cd (basePath d) (pairs d) (watching d) (RetriesAfterWatchFailed d) (filter_ d) c).

(** *** The watch loop *)

(** The attempts at [WatchTree]: [failures] says, attempt by attempt, if it
    fails.  The result is if the tree is watched, and the delays slept; none
    when the attempts go on past the end of [failures]. *)
Fixpoint attempts (retries retry tempDelay : Z) (failures : list bool) : option (bool * list Z) :=
  if (retries <? 0) || (0 <=? retry) then
    match failures with
    | [] => None
    | false :: _ => Some (true, [])
    | true :: failures =>
        let tempDelay := next_delay tempDelay in
        '(ok, delays) ← attempts retries (if 0 <? retries then retry - 1 else retry) tempDelay failures;
        Some (ok, tempDelay :: delays)
    end
  else Some (false, []).

Definition watch_attempts (d : ConsulDiscovery) (failures : list bool) : option (bool * list Z) :=
  attempts (RetriesAfterWatchFailed d) (RetriesAfterWatchFailed d) 0 failures.

(** What the [select] of [readChanges] gives: the stop, the end of the
    channel, a value (nil or the store's pairs). *)
Inductive watch_event : Type := Stopped | ChanClosed | Nil | Pairs (ps : change).

(** What the turn does: return, watch again, read on. *)
Inductive watch_next : Type := Return | Rewatch | Continue.

Definition watch_turn (ev : watch_event) (d : ConsulDiscovery) : ConsulDiscovery * watch_next :=
  match ev with
  | Stopped => (d, Return)
  | ChanClosed => (d, Rewatch)
  | Nil => (set_pairs [] (watching d) d, Continue)
  | Pairs ps =>
      let pairs := to_pairs (basePath d) (filter_ d) ps in
      (set_pairs pairs (notify pairs (watching d)) d, Continue)
  end.
