(* ===== verification/DiscoveryFacts.v ===== *)
(** What the discoveries promise to an xClient: a change reaches a watcher at
    most once, the list of a consul discovery is what the store holds, the
    attempts at watching it are bounded; and how far the promise goes (changes
    may be reordered). *)
From Stdlib Require Import Strings.Ascii.
From S2P Require Import Prelude Go Backoff KVStore Registries RegistryFacts Discovery UrlQuery Selectors XClient.
Open Scope go_scope.

(** ** Changes and watchers *)

(** The states reached, with every change given to a goroutine so far. *)
Inductive wreach : list (nat * change) -> watchers -> Prop :=
| wr_init : wreach [] no_watchers
| wr_step log x x' : wreach log x -> wstep x x' -> wreach log x'
| wr_notify pairs log x : wreach log x ->
    wreach (log ++ ((fun ch => (ch, pairs)) <$> chans x)) (notify pairs x).

(** What the channels hold. *)
Definition held (m : gmap nat (list change)) : list (nat * change) :=
  map_to_list m ≫= fun '(ch, b) => (fun u => (ch, u)) <$> b.

Lemma held_insert m ch b : held (<[ch := b]> m) ≡ₚ ((fun u => (ch, u)) <$> b) ++ held (delete ch m).
Proof.
  unfold held. rewrite <- insert_delete_eq, (map_to_list_insert (delete ch m)) by apply lookup_delete_eq.
  done.
Qed.

Lemma held_lookup m ch b : m !! ch = Some b -> held m ≡ₚ ((fun u => (ch, u)) <$> b) ++ held (delete ch m).
Proof. intros Hm. rewrite <- held_insert. by rewrite insert_id. Qed.

Record winv (log : list (nat * change)) (x : watchers) : Prop := {
  wi_log : log ≡ₚ sending x ++ held (buf x) ++ received x ++ dropped x;
  wi_nodup : NoDup (chans x);
  wi_chans : Forall (fun ch => ch < next_chan x)%nat (chans x);
  wi_fresh : forall ch, (next_chan x <= ch)%nat -> buf x !! ch = None;
  wi_room : forall ch b, buf x !! ch = Some b -> (length b <= chan_cap)%nat
}.

Lemma held_empty (m : gmap nat (list change)) ch : m !! ch = None -> held (<[ch := []]> m) ≡ₚ held m.
Proof. intros Hm. rewrite held_insert. by rewrite delete_id. Qed.

Lemma winv_take log x i ch u s d :
  sending x !! i = Some (ch, u) -> log ≡ₚ sending x ++ s ++ d -> log ≡ₚ delete i (sending x) ++ (ch, u) :: s ++ d.
Proof.
  intros Hi ->. rewrite (delete_Permutation _ _ _ Hi) at 1. cbn. by rewrite Permutation_middle.
Qed.

(** An update of the channels: the new part has the sends left, the buffers and
    the logs of a permutation of the old ones. *)
Lemma wstep_inv log x x' : wstep x x' -> winv log x -> winv log x'.
Proof.
  intros Hs [H1 H2 H3 H4 H5].
  destruct Hs as [x|ch x|ch x|i x x' E|i x x' E|ch x x' u E].
  - split; cbn.
    + rewrite held_empty by (by apply H4). done.
    + apply NoDup_app. split_and!; [done| |apply NoDup_singleton].
      intros ch Hch. rewrite list_elem_of_singleton. intros ->. rewrite Forall_forall in H3. specialize (H3 _ Hch). lia.
    + apply Forall_app. split; [|by constructor; [lia|]]. eapply Forall_impl; [exact H3|]. cbn. lia.
    + intros ch Hch. rewrite lookup_insert_ne by lia. apply H4. lia.
    + intros ch b [[<- <-]|[_ Hb]]%lookup_insert_Some; [cbn; unfold chan_cap; lia|by eapply H5].
  - split; cbn; try done.
    + by apply NoDup_filter.
    + apply Forall_forall. intros c [_ Hc]%list_elem_of_filter. rewrite Forall_forall in H3. by apply H3.
  - split; cbn; try done.
    + rewrite H1. f_equiv. destruct (buf x !! ch) as [b|] eqn:E; cbn.
      * rewrite (held_lookup _ _ _ E). solve_Permutation.
      * by rewrite delete_id, app_nil_r.
    + intros c Hc. rewrite lookup_delete_None. right. by apply H4.
    + intros c b [_ Hb]%lookup_delete_Some. by eapply H5.
  - unfold deliver in E. destruct (sending x !! i) as [[ch u]|] eqn:Hi; [|done]. cbn [mbind option_bind] in E.
    destruct (buf x !! ch) as [b|] eqn:Hb.
    + destruct (Nat.ltb_spec (length b) chan_cap) as [Hlt|]; [|done]. injection E as <-. split; cbn; try done.
      * rewrite held_insert, fmap_app. cbn.
        rewrite (winv_take log x i ch u _ _ Hi H1), (held_lookup _ _ _ Hb). solve_Permutation.
      * intros c Hc. rewrite lookup_insert_ne; [by apply H4|]. intros ->. by rewrite H4 in Hb.
      * intros c b' [[<- <-]|[_ Hb']]%lookup_insert_Some; [|by eapply H5]. rewrite length_app. cbn. lia.
    + injection E as <-. split; cbn; try done.
      rewrite (winv_take log x i ch u _ _ Hi H1). solve_Permutation.
  - unfold drop_change in E. destruct (sending x !! i) as [[ch u]|] eqn:Hi; [|done]. injection E as <-.
    split; cbn; try done. rewrite (winv_take log x i ch u _ _ Hi H1). solve_Permutation.
  - unfold receive in E. destruct (buf x !! ch) as [[|v b]|] eqn:Hb; try done. injection E as <- ->.
    split; cbn; try done.
    + rewrite H1, held_insert, (held_lookup _ _ _ Hb). cbn. solve_Permutation.
    + intros c Hc. rewrite lookup_insert_ne; [by apply H4|]. intros ->. by rewrite H4 in Hb.
    + intros c b' [[<- <-]|[_ Hb']]%lookup_insert_Some; [|by eapply H5]. specialize (H5 _ _ Hb). cbn in H5. lia.
Qed.

Lemma wreach_inv log x : wreach log x -> winv log x.
Proof.
  induction 1 as [|log x x' _ IH Hs|pairs log x _ [H1 H2 H3 H4 H5]].
  - split; cbn; try done. apply NoDup_nil_2.
  - by eapply wstep_inv.
  - split; cbn; try done. rewrite H1. solve_Permutation.
Qed.

(** Changes and watchers, whatever the order of the goroutines: every
    change given to a goroutine for a channel is still with its goroutine, in
    the channel, received or dropped, once; no change is made up or delivered
    twice, no channel is registered twice and none holds more than ten. *)
Theorem watchers_at_most_once log x :
  wreach log x ->
  log ≡ₚ sending x ++ held (buf x) ++ received x ++ dropped x /\
  NoDup (chans x) /\ (forall ch b, buf x !! ch = Some b -> (length b <= chan_cap)%nat).
Proof. intros Hr. apply wreach_inv in Hr as []. done. Qed.

(** The steps of the channels of a MultipleServersDiscovery. *)
Inductive dstep : MultipleServersDiscovery -> MultipleServersDiscovery -> Prop :=
| ds_step ps x x' : wstep x x' -> dstep (mk_msd ps x) (mk_msd ps x').

Lemma dsteps ps x x' : rtc wstep x x' -> rtc dstep (mk_msd ps x) (mk_msd ps x').
Proof. induction 1; [done|]. eapply rtc_l; [by apply ds_step|done]. Qed.

(** Two updates can reach a client in the wrong order, because each is
    sent by its own goroutine: after [Update p1] and then [Update p2] on a
    discovery with one watcher, with everything delivered and received, the
    discovery has [p2] and the client that applied the changes as they came
    selects among the servers of [p1], for good. *)
Theorem update_reordered {S C} `{!Selector S} `{!RPCClient C} p0 p1 p2 :
  let '(d, ch) := msd_WatchService (NewMultipleServersDiscovery p0) in
  exists d', rtc dstep (Update p2 (Update p1 d)) d' /\
    msd_GetServices d' = p2 /\ sending (msd_watchers d') = [] /\ held (buf (msd_watchers d')) = [] /\
    received (msd_watchers d') = [(ch, p2); (ch, p1)] /\
    forall group order1 order2 (x x1 x2 : xClient S C),
      watch_update group p2 order2 x = (x1, Ok tt) -> watch_update group p1 order1 x1 = (x2, Ok tt) ->
      servers x2 = server_map group p1.
Proof.
  cbn. eexists. split.
  { apply dsteps. eapply rtc_l; [apply (ws_deliver 1); vm_compute; reflexivity|].
    eapply rtc_l; [apply (ws_deliver 0); vm_compute; reflexivity|].
    eapply rtc_l; [eapply (ws_receive 0); vm_compute; reflexivity|].
    apply rtc_once. eapply (ws_receive 0); vm_compute; reflexivity. }
  split_and!; try reflexivity.
  intros group order1 order2 x x1 x2 _ E2. revert E2. unfold watch_update.
  unfold mbind, prog_bind, get_st, lift, put_st. destruct (UpdateServer order1 (selector x1)); try done.
  by intros [= <-].
Qed.

(** ** The list of a consul discovery *)
Lemma cut_prefix_Some prefix s k : cut_prefix prefix s = Some k <-> s = prefix +:+ k.
Proof.
  revert s. induction prefix as [|a p IH]; intros s.
  - cbn. split; [by intros [= ->]|by intros ->].
  - destruct s as [|b s]; cbn [cut_prefix]; [done|].
    change (String a p +:+ k) with (String a (p +:+ k)).
    destruct (decide (a = b)) as [->|Hne]; [|naive_solver]. rewrite IH. naive_solver.
Qed.

Lemma append_assoc (a b c : string) : a +:+ (b +:+ c) = (a +:+ b) +:+ c.
Proof. apply bytes_of_inj. by rewrite !bytes_of_app, (assoc_L (++)). Qed.

Lemma elem_of_to_pairs base flt ps k v :
  (k, v) ∈ to_pairs base flt ps <->
  (path2 base k, v) ∈ ps /\ match flt with Some f => f (k, v) = true | None => True end.
Proof.
  unfold to_pairs. rewrite list_elem_of_omap. unfold path2. rewrite append_assoc. split.
  - intros ([key v'] & Hin & E). cbn in E. destruct (cut_prefix _ key) as [k'|] eqn:Ek; [|done].
    apply cut_prefix_Some in Ek as ->. cbn in E. destruct flt as [f|]; [|by simplify_eq].
    destruct (f (k', v')) eqn:Ef; by simplify_eq.
  - intros [Hin Hf]. eexists. split; [exact Hin|]. cbn.
    rewrite (proj2 (cut_prefix_Some (base +:+ "/") _ k)) by done. cbn.
    destruct flt as [f|]; [|done]. by rewrite Hf.
Qed.

Section consul.
Context {W : Type} (st : Store W) (nodes : W -> gmap string string) {Hst : StoreLaws st nodes}.

(** What a new discovery of a path in normal form lists. *)
Lemma NewConsulDiscoveryStore_lists base w w' d :
  clean_base base = Ok base -> NewConsulDiscoveryStore st base w = (w', Ok d) ->
  forall k v, (k, v) ∈ cd_GetServices d <-> nodes w !! path2 base k = Some v.
Proof.
  intros Hb. unfold NewConsulDiscoveryStore, list_or_missing. prog_step. rewrite Hb.
  destruct (List st base w) as [w1 r] eqn:E. intros Hd k v.
  destruct r as [ps|e| | |]; simplify_eq/=.
  - rewrite elem_of_to_pairs. unfold path2. rewrite (List_Ok _ _ _ _ _ _ E). tauto.
  - assert (He : e = ErrKeyNotFound /\ d = mk_cd base [] no_watchers (-1) None OpenChan).
    { destruct e; simplify_eq/=. case_decide; by simplify_eq. }
    destruct He as [-> ->]. cbn. pose proof (List_missing _ _ _ k E) as Hm. fold (path2 base k) in Hm. rewrite Hm.
    split; [by intros ?%elem_of_nil|done].
Qed.

Lemma clean_base_trimmed base name :
  trimmed base -> name <> "" -> one_segment name -> clean_base (path2 base name) = Ok (path2 base name).
Proof.
  intros Ht Hn Hs. destruct base as [|c b]; [done|]. cbn in Ht.
  change (path2 (String c b) name) with (String c (path2 b name)). unfold clean_base.
  rewrite decide_False by done. f_equal.
  assert (Hl : last_slash (String c (path2 b name)) = None); [|rewrite Hl; by case_match].
  unfold last_slash. change (String c (path2 b name)) with (path2 (String c b) name).
  rewrite bytes_of_path2, rev_app_distr. cbn [rev].
  destruct (rev (bytes_of name)) as [|x l] eqn:E.
  - exfalso. apply Hn. apply (f_equal (@rev byte)) in E. rewrite rev_involutive in E.
    by apply (bytes_of_inj name "").
  - cbn. rewrite decide_False; [done|]. intros ->. apply Hs. apply list_elem_of_In. apply in_rev. rewrite E. by left.
Qed.

(** C21: from the server's registry to the client's list: when the calls of a
    registry plugin have published its services, a consul discovery made for a
    service finds the server under its address, with the metadata of the last
    registration, and does not find it when the service is no longer
    registered (names whose last call failed apart). *)
Theorem discovery_finds_registered base_ok n p w name w' d :
  published nodes base_ok n p w -> trimmed (BasePath p) -> name <> "" -> one_segment name -> name ∉ failed n ->
  NewConsulDiscoveryStore st (path2 (BasePath p) name) w = (w', Ok d) ->
  (forall m, metas p !! name = Some m -> forall v, (ServiceAddress p, v) ∈ cd_GetServices d <-> v = m) /\
  (name ∈ Services p <-> is_Some (metas p !! name)) /\
  (name ∉ Services p -> name ∈ owned n -> forall v, (ServiceAddress p, v) ∉ cd_GetServices d).
Proof.
  intros [_ Ha Hn Hg] Ht Hne Hs Hf E.
  pose proof (NewConsulDiscoveryStore_lists _ _ _ _ (clean_base_trimmed _ _ Ht Hne Hs) E) as Hl.
  assert (Hpath : path2 (path2 (BasePath p) name) (ServiceAddress p) = nodePath p name).
  { apply bytes_of_inj. unfold nodePath, path3. rewrite !bytes_of_path2. by rewrite <- app_assoc. }
  split_and!; [| |].
  - intros m Hm v. rewrite Hl, Hpath, (Hn _ _ Hm Hf). naive_solver.
  - apply Ha.
  - intros Hin Ho v. rewrite Hl, Hpath, Hg; [done| |done|done]. apply eq_None_not_Some. by rewrite <- Ha.
Qed.
End consul.

(** ** Watching *)

(** A turn of the watch loop: new pairs of the store replace the list and
    are sent once to each registered watcher; a nil value empties the list and
    no watcher is told. *)
Theorem watch_turn_spec ps d :
  let d' := (watch_turn (Pairs ps) d).1 in
  (forall k v, (k, v) ∈ cd_GetServices d' <->
     (path2 (basePath d) k, v) ∈ ps /\ match filter_ d with Some f => f (k, v) = true | None => True end) /\
  sending (watching d') = sending (watching d) ++ ((fun ch => (ch, cd_GetServices d')) <$> chans (watching d)) /\
  (let d0 := (watch_turn Nil d).1 in cd_GetServices d0 = [] /\ watching d0 = watching d).
Proof. cbn. split; [|done]. intros k v. apply elem_of_to_pairs. Qed.

Lemma attempts_delays retries retry t failures ok delays :
  t = 0 \/ second <= t -> attempts retries retry t failures = Some (ok, delays) ->
  Forall (fun x => second <= x <= 30 * second) delays.
Proof.
  revert retry t delays. induction failures as [|[|] fs IH]; intros retry t delays Ht E; cbn [attempts] in E.
  - destruct (_ || _); simplify_eq. constructor.
  - destruct (_ || _); [|simplify_eq; constructor].
    destruct (attempts retries _ _ fs) as [[ok' ds]|] eqn:E'; [|done]. cbn in E. simplify_eq.
    pose proof (next_delay_bounds t Ht). constructor; [done|]. eapply IH; [|exact E']. right. tauto.
  - destruct (_ || _); simplify_eq; constructor.
Qed.

Lemma attempts_fail retries retry t l : 0 < retries -> 0 <= retry ->
  attempts retries retry t (true :: l) =
    '(ok, delays) ← attempts retries (retry - 1) (next_delay t) l; Some (ok, next_delay t :: delays).
Proof.
  intros Hr Hretry. cbn [attempts].
  by rewrite (proj2 (Z.leb_le 0 retry)), orb_true_r, (proj2 (Z.ltb_lt 0 retries)) by lia.
Qed.

Lemma attempts_over retries t l : 0 < retries -> attempts retries (-1) t l = Some (false, []).
Proof. intros Hr. destruct l as [|[|] l]; cbn [attempts]; by rewrite (proj2 (Z.ltb_ge retries 0)) by lia. Qed.

Lemma attempts_all_fail retries retry t k :
  0 < retries -> 0 <= retry ->
  exists delays, attempts retries retry t (replicate (S (Z.to_nat retry) + k) true) = Some (false, delays) /\
    Z.of_nat (length delays) = retry + 1.
Proof.
  intros Hr. remember (Z.to_nat retry) as n eqn:En. revert retry t En.
  induction n as [|n IH]; intros retry t En Hretry; cbn [replicate Nat.add]; rewrite attempts_fail by done.
  - assert (retry = 0) as -> by lia. change (0 - 1) with (-1). rewrite attempts_over by done. by eexists.
  - destruct (IH (retry - 1) (next_delay t)) as (delays & H2 & H3); [lia|lia|].
    cbn [replicate Nat.add] in H2. rewrite H2. eexists. split; [done|]. cbn. lia.
Qed.

Lemma attempts_forever t retries retry n : (retries < 0 \/ retries = 0 /\ 0 <= retry) ->
  attempts retries retry t (replicate n true) = None.
Proof.
  revert t retry. induction n as [|n IH]; intros t retry H; cbn [replicate attempts].
  - destruct H as [H|[-> H]]; [by rewrite (proj2 (Z.ltb_lt retries 0))|by rewrite (proj2 (Z.leb_le 0 retry)), orb_true_r].
  - replace ((retries <? 0) || (0 <=? retry)) with true by (symmetry; apply orb_true_iff; lia).
    rewrite (proj2 (Z.ltb_ge 0 retries)) by lia. by rewrite IH.
Qed.

(** The attempts at [WatchTree] that all fail: with a positive
    [RetriesAfterWatchFailed] r there are r+1 of them, and then the watch ends;
    with a negative one they go on for ever, and so they do with zero, which
    is documented as no retry.  Every sleep is between one and thirty seconds. *)
Theorem watch_attempts_bounded d :
  let r := RetriesAfterWatchFailed d in
  (forall failures ok delays, watch_attempts d failures = Some (ok, delays) ->
     Forall (fun x => second <= x <= 30 * second) delays) /\
  (0 < r -> forall k, exists delays,
     watch_attempts d (replicate (S (Z.to_nat r) + k) true) = Some (false, delays) /\ Z.of_nat (length delays) = r + 1) /\
  (r <= 0 -> forall n, watch_attempts d (replicate n true) = None).
Proof.
  cbn zeta. unfold watch_attempts. split_and!.
  - intros failures ok delays E. eapply attempts_delays; [by left|exact E].
  - intros Hr k. apply attempts_all_fail; lia.
  - intros Hr n. apply attempts_forever. lia.
Qed.

(** ** Witnesses *)
Lemma watchers_at_most_once_witness :
  [(0%nat, [("tcp@a", "")])] ≡ₚ [(0%nat, [("tcp@a", "")])] ++ held {[0%nat := []]} ++ [] ++ [].
Proof.
  apply (watchers_at_most_once [(0%nat, [("tcp@a", "")])] (notify [("tcp@a", "")] (WatchService no_watchers).1)).
  apply (wr_notify [("tcp@a", "")] [] (WatchService no_watchers).1).
  exact (wr_step _ _ _ wr_init (ws_watch no_watchers)).
Defined.

Definition arith_store : gmap string string := {["irpc/Arith/tcp@a" := "group=a"]}.
Definition arith_plugin : registry_plugin := set_Services ["Arith"] {["Arith" := "group=a"]} (ready "irpc" "tcp@a" 10).
Definition arith_discovery : ConsulDiscovery := mk_cd "irpc/Arith" [("tcp@a", "group=a")] no_watchers (-1) None OpenChan.

Lemma arith_published : published id (fun _ => True) (mk_notes ∅ ∅) arith_plugin arith_store.
Proof.
  split; cbn; try done.
  - intros name. rewrite list_elem_of_singleton. split.
    + intros ->. rewrite lookup_singleton_eq. by eexists.
    + destruct (decide (name = "Arith")) as [->|Hne]; [done|].
      rewrite lookup_singleton_ne by done. by intros [].
  - by intros name m [<- <-]%lookup_singleton_Some _.
Qed.

Lemma discovery_finds_registered_witness :
  ("tcp@a", "group=a") ∈ cd_GetServices arith_discovery /\ ("tcp@a", "") ∉ cd_GetServices arith_discovery.
Proof.
  assert (E : NewConsulDiscoveryStore map_store (path2 "irpc" "Arith") arith_store = (arith_store, Ok arith_discovery))
    by (vm_compute; reflexivity).
  assert (Hs : one_segment "Arith") by (unfold one_segment; apply (bool_decide_unpack _); vm_compute; exact I).
  destruct (discovery_finds_registered map_store id (fun _ => True) (mk_notes ∅ ∅) arith_plugin arith_store "Arith"
    arith_store arith_discovery arith_published) as [H _]; [done|done|exact Hs|by intros ?%elem_of_empty|exact E|].
  split; [by apply (H "group=a" eq_refl)|]. by intros ?%(H "group=a" eq_refl).
Defined.
