(* ===== verification/XSetup.v ===== *)
(** How an xClient is made and kept up to date: [NewXClient], [SetSelector],
    [ConfigGeoSelector], [watch] and [Close] of client/xclient.go, over the
    interface [ServiceDiscovery] of client/discovery.go, with every selector of
    the repository behind one interface value that may be nil.

    A server that is published as inactive, or for another group, is never
    selected, from the creation of the client through every change. *)
From S2P Require Import Prelude Go Share UrlQuery HashUtils Float64 Selectors Geo Breaker Message Client XClient XClientFacts KVStore.
From S2P Require Import Discovery.
Open Scope go_scope.

(** ** The discovery a client is given *)
Class ServiceDiscovery (D : Type) : Type := {
  GetServices : D -> change;
  dWatchService : D -> D * option nat;
  dRemoveWatcher : option nat -> D -> D
}.

Definition on_chan {D} (f : nat -> D -> D) (ch : option nat) (d : D) : D :=
  match ch with Some ch => f ch d | None => d end.

#[export] Instance p2p_discovery : ServiceDiscovery Peer2PeerDiscovery := {
  GetServices := p2p_GetServices;
  dWatchService d := (d, p2p_WatchService d);
  dRemoveWatcher _ d := d
}.

#[export] Instance msd_discovery : ServiceDiscovery MultipleServersDiscovery := {
  GetServices := msd_GetServices;
  dWatchService d := let '(d, ch) := msd_WatchService d in (d, Some ch);
  dRemoveWatcher := on_chan msd_RemoveWatcher
}.

#[export] Instance consul_discovery : ServiceDiscovery ConsulDiscovery := {
  GetServices := cd_GetServices;
  dWatchService d := let '(d, ch) := cd_WatchService d in (d, Some ch);
  dRemoveWatcher := on_chan cd_RemoveWatcher
}.

(** ** The selector of a client: an interface value *)
Section selectors.
Context {S T : Type} `{Selector S} `{Selector T}.

(** The nil interface: its method panics, and [watch] does not call it. *)
#[export] Instance option_Selector : Selector (option S) := {
  Select rnd r s := match s with Some s => let '(s, k) := Select rnd r s in (Some s, k) | None => (None, Panic) end;
  UpdateServer order s := match s with Some s => s ← UpdateServer order s; Ok (Some s) | None => Ok None end;
  served s := match s with Some s => served s | None => [] end;
  selector_wf s := match s with Some s => selector_wf s | None => True end
}.

#[export] Instance option_SelectorLaws `{!SelectorLaws S} : SelectorLaws (option S).
Proof.
  split.
  - intros rnd r [s|] s' k Hwf; cbn; [|by intros [= <- <-]]. destruct (Select rnd r s) as [s1 k1] eqn:E.
    intros [= <- <-]. by apply (Select_served rnd r s s1 k1).
  - intros order [s|] s' Hwf; cbn.
    + destruct (UpdateServer order s) as [s1| | | |] eqn:E; try done. intros [= <-].
      by apply (UpdateServer_served order s s1).
    + intros [= <-]. by split; [intros x ?%elem_of_nil|].
Qed.

(** One of two implementations. *)
#[export] Instance sum_Selector : Selector (S + T) := {
  Select rnd r s :=
    match s with
    | inl s => let '(s, k) := Select rnd r s in (inl s, k)
    | inr t => let '(t, k) := Select rnd r t in (inr t, k)
    end;
  UpdateServer order s :=
    match s with
    | inl s => s ← UpdateServer order s; Ok (inl s)
    | inr t => t ← UpdateServer order t; Ok (inr t)
    end;
  served s := match s with inl s => served s | inr t => served t end;
  selector_wf s := match s with inl s => selector_wf s | inr t => selector_wf t end
}.

#[export] Instance sum_SelectorLaws `{!SelectorLaws S, !SelectorLaws T} : SelectorLaws (S + T).
Proof.
  split.
  - intros rnd r [s|s] s' k Hwf; cbn; destruct (Select rnd r s) as [s1 k1] eqn:E; intros [= <- <-];
      by apply (Select_served rnd r s s1 k1).
  - intros order [s|s] s' Hwf; cbn; destruct (UpdateServer order s) as [s1| | | |] eqn:E; try done; intros [= <-];
      by apply (UpdateServer_served order s s1).
Qed.
End selectors.

Section setup.
(** [U] is the user's own selector. *)
Context {H U C : Type} `{DoubleJump H} `{!DoubleJumpLaws H} `{Selector U} `{!SelectorLaws U} `{RPCClient C} `{GoMath}.
Context (AvgRtt : string -> option Z) (dial : nat -> string -> C + error) (rnd : nat -> nat) (clock : nat -> Z).

#[local] Instance made_Selector : Selector (anySelector (H := H)) := any_Selector AvgRtt.
#[local] Instance made_SelectorLaws : SelectorLaws (anySelector (H := H)) := any_SelectorLaws AvgRtt.

Definition clientSelector : Type := anySelector (H := H) + (geoSelector + U).
Notation xstate := (xClient (option clientSelector) C).

(** The selector a new client gets: none for [Closest], which
    [ConfigGeoSelector] sets, and for the user's own. *)
Definition first_selector (mode : SelectMode) (order : change) : result (option clientSelector) :=
  match mode with
  | Closest | SelectByUser => Ok None
  | _ =>
      s ← newSelector AvgRtt mode order;
      Ok (match s with Some s => Some (inl s) | None => None end)
  end.

(** [NewXClient]: [sorted] are the services as [sort.Slice] leaves them, and
    [order] is the server map in the order [newSelector] meets it. *)
Definition NewXClient {D} `{ServiceDiscovery D} (fm : FailMode) (mode : SelectMode) (group : string) (retries : Z)
    (gen : option ConsecCircuitBreaker) (sorted order : change) (d : D) : result (xstate * option nat * D) :=
  s ← first_selector mode order;
  let '(d, ch) := dWatchService d in
  Ok (mk_xClient fm retries gen false "" (server_map group sorted) s ∅ ∅ ∅ [] 0, ch, d).

Definition SetSelector (s : U) (order : change) : prog xstate unit :=
  s ← lift (UpdateServer order s);
  modify (set_selector (Some (inr (inr s)))).

(** The select mode it sets is only read by [NewXClient]. *)
Definition ConfigGeoSelector (latitude longitude : float) (order : change) : prog xstate unit :=
  modify (set_selector (Some (inr (inl (newGeoSelector order latitude longitude))))).

(** The goroutine [Close] starts: the watch channel is removed and closed;
    closing the nil channel of a discovery that is not watched panics, which is
    recovered. *)
Definition Close_watch {D} `{ServiceDiscovery D} (ch : option nat) (close : nat -> D -> D) (d : D) : D :=
  on_chan close ch (dRemoveWatcher ch d).

(** ** What the client can select *)

(** [order] lists the server map. *)
Definition lists (order : change) (m : gmap string string) : Prop := order ≡ₚ map_to_list m.

(** The states of a client of the group [group]: made by [NewXClient], changed
    by selections, by changes of the servers and by its configuration. *)
Inductive client_reach (group : string) : xstate -> Prop :=
| cr_new D (HD : ServiceDiscovery D) fm mode retries gen sorted order (d d' : D) x ch :
    lists order (server_map group sorted) ->
    NewXClient fm mode group retries gen sorted order d = Ok (x, ch, d') -> client_reach group x
| cr_select r x x' res : client_reach group x -> selectClient dial rnd clock r x = (x', Ok res) -> client_reach group x'
| cr_change pairs order x x' : client_reach group x -> lists order (server_map group pairs) ->
    watch_update group pairs order x = (x', Ok tt) -> client_reach group x'
| cr_set s order x x' : client_reach group x -> selector_wf s -> lists order (servers x) ->
    SetSelector s order x = (x', Ok tt) -> client_reach group x'
| cr_geo la lo order x x' : client_reach group x -> lists order (servers x) ->
    ConfigGeoSelector la lo order x = (x', Ok tt) -> client_reach group x'
| cr_other x x' : client_reach group x -> servers x' = servers x -> selector x' = selector x -> client_reach group x'.

(** The servers of the client are live ones of its group, and its selector has
    no others. *)
Definition client_ok (group : string) (x : xstate) : Prop :=
  (forall k v, servers x !! k = Some v -> keep_server group v = true) /\
  selector_wf (selector x) /\ forall k, k ∈ served (selector x) -> is_Some (servers x !! k).

Lemma lists_lookup order m k : lists order m -> k ∈ order.*1 -> is_Some (m !! k).
Proof.
  intros Hl ([k' v] & -> & Hin)%list_elem_of_fmap. exists v. apply elem_of_map_to_list. unfold lists in Hl.
  by rewrite <- Hl.
Qed.

Lemma server_map_live group pairs k v : server_map group pairs !! k = Some v -> keep_server group v = true.
Proof. unfold server_map, filterByStateAndGroup. by intros [_ ?]%map_lookup_filter_Some. Qed.

Lemma first_selector_ok mode order s : first_selector mode order = Ok s ->
  selector_wf s /\ forall k, k ∈ served s -> k ∈ order.*1.
Proof.
  assert (Hnone : selector_wf (None : option clientSelector) /\
    forall k, k ∈ served (None : option clientSelector) -> k ∈ order.*1) by (split; [done|by intros k ?%elem_of_nil]).
  assert (Hmade : forall s0, newSelector AvgRtt mode order = Ok s0 ->
    Ok (match s0 with Some s0 => Some (inl s0) | None => None end) = Ok s ->
    selector_wf s /\ forall k, k ∈ served s -> k ∈ order.*1).
  { intros [s0|] Hnew [= <-]; [|exact Hnone]. apply newSelector_served in Hnew as [Hs Hwf].
    split; [exact Hwf|]. intros k Hk. cbn in Hk. by rewrite Hs in Hk. }
  destruct mode; cbn [first_selector]; try (intros [= <-]; exact Hnone);
    (destruct (newSelector AvgRtt _ order) as [s0| | | |] eqn:E; try done; cbn; by apply Hmade).
Qed.


(** Updating a selector with the servers. *)
Lemma update_ok group order x s : client_ok group x -> lists order (servers x) ->
  UpdateServer order (selector x) = Ok s -> client_ok group (set_selector s x).
Proof.
  intros (Hlive & Hwf & _) Hl He. destruct (UpdateServer_served order _ s Hwf He) as [Hs Hwf'].
  split_and!; [exact Hlive|exact Hwf'|]. intros k Hk. cbn in *. eapply lists_lookup; eauto.
Qed.

Lemma getCachedClient_setup k (x x' : xstate) res : getCachedClient dial clock k x = (x', res) ->
  servers x' = servers x /\ selector x' = selector x.
Proof.
  intros E. pose proof (getCachedClient_keeps dial clock (fun x : xstate => (servers x, selector x))) as Hk.
  specialize (Hk ltac:(by split) k x). rewrite E in Hk. by injection Hk.
Qed.

Lemma client_ok_same group (x x' : xstate) : servers x' = servers x -> selector x' = selector x ->
  client_ok group x -> client_ok group x'.
Proof. unfold client_ok. by intros -> ->. Qed.

Lemma selectClient_ok group r (x x' : xstate) k client err : client_ok group x ->
  selectClient dial rnd clock r x = (x', Ok (k, client, err)) ->
  client_ok group x' /\ (k = "" \/ exists v, servers x !! k = Some v /\ keep_server group v = true).
Proof.
  intros (Hlive & Hwf & Hserved). unfold selectClient, ask, mbind, prog_bind, get_st, put_st, lift, mret, prog_ret. cbn.
  destruct (Select (rnd (tick x)) r (selector x)) as [s [key| | | |]] eqn:Es; cbn in Es; rewrite ?Es; try done.
  destruct (Select_served _ _ _ _ _ Hwf Es) as (Hs1 & Hs2 & Hs3).
  match goal with |- context [set_selector s ?y] => set (x1 := set_selector s y) end.
  assert (Hok : client_ok group x1) by (split_and!; [exact Hlive|exact Hs2|]; intros y Hy; apply Hserved; by rewrite <- Hs1).
  case_decide as Hkey; [intros [= <- <- _ _]; split; [done|by left]|].
  destruct (getCachedClient dial clock key x1) as [x2 [[client' err']| | | |]] eqn:Eg; try done.
  apply getCachedClient_setup in Eg as [Hg1 Hg2]. intros [= <- <- _ _].
  split; [by eapply client_ok_same|]. right. destruct (Hs3 key eq_refl) as [|Hin]; [done|].
  destruct (Hserved _ Hin) as [v Hv]. exists v. split; [done|]. by eapply Hlive.
Qed.

Lemma client_reach_ok group x : client_reach group x -> client_ok group x.
Proof.
  induction 1 as [D HD fm mode retries gen sorted order d d' x ch Hl E|r x x' [[k client] err] _ IH E
    |pairs order x x' _ IH Hl E|s order x x' _ IH Hwf Hl E|la lo order x x' _ IH Hl E|x x' _ IH E1 E2].
  - unfold NewXClient in E. destruct (first_selector mode order) as [s| | | |] eqn:Es; try done.
    apply first_selector_ok in Es as [Hwf Hs]. cbn in E. destruct (dWatchService d) as [d1 ch1].
    injection E as <- _ _. split_and!; cbn; [apply server_map_live|done|].
    intros k Hk. eapply lists_lookup; [exact Hl|by apply Hs].
  - by eapply selectClient_ok.
  - unfold watch_update in E. prog_step. destruct (UpdateServer order (selector x)) as [s| | | |] eqn:Es; try done.
    injection E as <-. destruct IH as (_ & Hwf & _).
    apply (UpdateServer_served order _ s Hwf) in Es as [Hs1 Hs2].
    split_and!; [cbn; apply server_map_live|exact Hs2|]. intros k Hk. cbn in *. eapply lists_lookup; eauto.
  - unfold SetSelector in E. prog_step. destruct (UpdateServer order s) as [s'| | | |] eqn:Es; try done.
    injection E as <-. apply (UpdateServer_served order s s' Hwf) in Es as [Hs1 Hs2].
    destruct IH as (Hlive & _). split_and!; [exact Hlive|exact Hs2|]. intros k Hk. cbn in *. eapply lists_lookup; eauto.
  - injection E as <-. destruct IH as (Hlive & _). split_and!; [exact Hlive|done|]. intros k Hk. cbn in Hk |- *.
    eapply lists_lookup; [exact Hl|].
    by apply createGeoServer_served.
  - by eapply client_ok_same.
Qed.

(** C35: whatever selector a client has, made for its mode, geographic or the
    user's, and whatever changes its discovery sends, a selection names no server
    or one that is in the current server map; that server is not published as
    inactive, and is of the client's group if it has one. *)
Theorem selection_live group r x x' k client err : client_reach group x ->
  selectClient dial rnd clock r x = (x', Ok (k, client, err)) ->
  k = "" \/ exists v, servers x !! k = Some v /\
    (snd (ParseQuery (bytes_of v)) = true ->
     UrlQuery.Get (fst (ParseQuery (bytes_of v))) "state" <> "inactive" /\
     (group <> "" -> UrlQuery.Get (fst (ParseQuery (bytes_of v))) "group" = group)).
Proof.
  intros Hok%client_reach_ok E. destruct (selectClient_ok group r x x' k client err Hok E) as [_ [->|(v & Hv & Hlive)]];
    [by left|]. right. exists v. split; [done|]. unfold keep_server in Hlive.
  destruct (ParseQuery (bytes_of v)) as [values ok]. cbn in *. intros ->.
  apply andb_true_iff in Hlive as [Hs Hg]. apply negb_true_iff, bool_decide_eq_false in Hs.
  split; [done|]. intros Hne. apply orb_true_iff in Hg. rewrite !bool_decide_eq_true in Hg.
  by destruct Hg as [|<-].
Qed.

(** A client made for the closest server panics at its first selection unless
    it was told where it is. *)
Lemma closest_unconfigured_panics {D} `{ServiceDiscovery D} fm group retries gen sorted order (d d' : D) x ch r :
  NewXClient fm Closest group retries gen sorted order d = Ok (x, ch, d') ->
  (selectClient dial rnd clock r x).2 = Panic.
Proof. unfold NewXClient. cbn. destruct (dWatchService d). by intros [= <- _ _]. Qed.
End setup.

(** ** One list of services, sorted by several clients

    A change is one slice, which every watcher receives; each client sorts it in
    place, without a lock.  A swap reads two elements and writes two. *)
Section shared_sort.
Context {A : Type}.

Inductive swap_op : Type := ReadBoth | WriteI | WriteJ.

(** The steps of [s[i], s[j] = s[j], s[i]] by one client; [tmp] are the two
    elements it has read. *)
Definition swap_step (i j : nat) (o : swap_op) (m : list A * option (A * A)) : list A * option (A * A) :=
  let '(l, tmp) := m in
  match o, tmp with
  | ReadBoth, _ => (l, x ← l !! i; y ← l !! j; Some (x, y))
  | WriteI, Some (_, y) => (<[i := y]> l, tmp)
  | WriteJ, Some (x, _) => (<[j := x]> l, tmp)
  | _, None => (l, tmp)
  end.

(** Two clients on the same slice, each with what it has read; the schedule
    says whose step is next. *)
Definition swaps (i j : nat) (schedule : list (bool * swap_op)) (l : list A) : list A :=
  (fold_left (fun '(l, t1, t2) '(second, o) =>
     if second : bool then let '(l, t2) := swap_step i j o (l, t2) in (l, t1, t2)
     else let '(l, t1) := swap_step i j o (l, t1) in (l, t1, t2)) schedule (l, None, None)).1.1.

Lemma swap_alone i j (l : list A) x y : l !! i = Some x -> l !! j = Some y ->
  swaps i j [(false, ReadBoth); (false, WriteI); (false, WriteJ)] l = <[j := x]> (<[i := y]> l).
Proof. intros Hi Hj. unfold swaps. cbn. by rewrite Hi, Hj. Qed.

(** One client alone exchanges the two services; in step, two clients that
    sort the same pair lose one service and have the other twice. *)
Lemma shared_sort_loses (x y : A) :
  swaps 0 1 [(false, ReadBoth); (false, WriteI); (false, WriteJ)] [y; x] = [x; y] /\
  swaps 0 1 [(false, ReadBoth); (false, WriteI); (true, ReadBoth); (false, WriteJ); (true, WriteI); (true, WriteJ)] [y; x]
    = [x; x].
Proof. done. Qed.
End shared_sort.

(** ** Witness: of two servers the first is inactive *)
Definition two_services : change := [("tcp@a:1", "state=inactive"); ("tcp@b:1", "")].
Definition no_dial (_ : nat) (_ : string) : Client unit unit + error := inr EOF.

Definition watched_client :=
  NewXClient (H := list string) (U := geoSelector) (C := Client unit unit) (fun _ => None) Failover RoundRobin "" 3 None
    two_services [("tcp@b:1", "")] (NewMultipleServersDiscovery two_services).

Definition first_state : xClient (option (clientSelector (H := list string) (U := geoSelector))) (Client unit unit) :=
  mk_xClient Failover 3 None false "" {["tcp@b:1" := ""]} (Some (inl (SelRoundRobin (mk_rr ["tcp@b:1"] 0)))) ∅ ∅ ∅ [] 0.

Lemma watched_client_made : watched_client =
  Ok (first_state, Some 0%nat, (msd_WatchService (NewMultipleServersDiscovery two_services)).1).
Proof. vm_compute. reflexivity. Qed.

Lemma selection_live_witness :
  exists x', selectClient (S := option clientSelector) (H := option_Selector (H := sum_Selector (H := any_Selector (fun _ => None))))
    no_dial (fun _ => 0%nat) (fun _ => 0) toy_request first_state = (x', Ok ("tcp@b:1", None, Some EOF)) /\
  ("tcp@b:1" = "" \/ exists v, servers first_state !! "tcp@b:1" = Some v /\
    (snd (ParseQuery (bytes_of v)) = true ->
     UrlQuery.Get (fst (ParseQuery (bytes_of v))) "state" <> "inactive" /\
     ("" <> "" -> UrlQuery.Get (fst (ParseQuery (bytes_of v))) "group" = ""))).
Proof.
  eexists. split; [vm_compute; reflexivity|].
  eapply (selection_live (H := list string) (U := geoSelector) (fun _ => None) no_dial (fun _ => 0%nat) (fun _ => 0) ""
    toy_request first_state).
  - eapply (cr_new _ _ _ _ _ MultipleServersDiscovery msd_discovery _ _ _ _ two_services [("tcp@b:1", "")]); [|exact watched_client_made].
    vm_compute. reflexivity.
  - vm_compute. reflexivity.
Defined.
