(* ===== verification/Access.v ===== *)
(** serverplugin/alias.go, blacklist.go, whitelist.go, rate_limiting.go,
    req_rate_limiting.go, req_rate_limiting_redis.go and tee.go: the plugins
    that decide who may connect and call, under which name, and that copy what
    a connection reads. *)
From S2P Require Import Prelude Go KVStore Message Plugins ServerPlugins.
Open Scope go_scope.

(** ** AliasPlugin *)
Definition aliasAppliedKey : string := "__aliasAppliedKey".

(** An [aliasPair] is a service path and a method. *)
Record AliasPlugin : Type := mk_alias {
  Aliases : gmap string (string * string);
  ReseverseAliases : gmap string (string * string)
}.

Definition NewAliasPlugin : AliasPlugin := mk_alias ∅ ∅.

Definition alias_key (sp sm : string) : string := sp +:+ "." +:+ sm.

Definition Alias (aliasServicePath aliasServiceMethod servicePath serviceMethod : string) (p : AliasPlugin) : AliasPlugin :=
  mk_alias (<[alias_key aliasServicePath aliasServiceMethod := (servicePath, serviceMethod)]> (Aliases p))
           (<[alias_key servicePath serviceMethod := (aliasServicePath, aliasServiceMethod)]> (ReseverseAliases p)).

Definition rename (pm : string * string) (r : message) : message :=
  set_ServicePath pm.1 (set_ServiceMethod pm.2 r).

(** [PostReadRequest]; it returns nil. *)
Definition alias_PostReadRequest (p : AliasPlugin) (r : message) : message :=
  match Aliases p !! alias_key (ServicePath r) (ServiceMethod r) with
  | Some pm => set_Metadata (Some (<[aliasAppliedKey := "true"]> (default ∅ (Metadata r)))) (rename pm r)
  | None => r
  end.

(** [PreWriteResponse] on the request and the response; it returns nil. *)
Definition alias_PreWriteResponse (p : AliasPlugin) (r : message) (res : option message) : message * option message :=
  if decide (meta_get aliasAppliedKey (Metadata r) = "true") then
    match ReseverseAliases p !! alias_key (ServicePath r) (ServiceMethod r) with
    | Some pm => (set_Metadata (delete aliasAppliedKey <$> Metadata r) (rename pm r), rename pm <$> res)
    | None => (r, res)
    end
  else (r, res).

(** The plugin as a container sees it.  Its [PreWriteResponse] has three
    parameters and a [PreWriteResponsePlugin] four, so the type assertion of
    the container fails and it is no hook. *)
Definition alias_hooks {W V} (i : nat) (p : AliasPlugin) : Plugin W V := {|
  pid := i; Register := None; Unregister := None; RegisterFunction := None; HandleConnAccept := None;
  HandleConnClose := None; PreReadRequest := None;
  PostReadRequest := Some (fun r _ => mret (alias_PostReadRequest p r, None));
  PreHandleRequest := None; PreCall := None; PostCall := None; PreWriteResponse := None;
  PostWriteResponse := None; PreWriteRequest := None; PostWriteRequest := None; HeartbeatRequest := None
|}.

(** ** BlacklistPlugin and WhitelistPlugin *)

Section lists.
(** The standard library's net: [SplitHostPort], [ParseIP] and
    [IPNet.Contains]. *)
Context {IP IPNet : Type} (SplitHostPort : string -> option string) (ParseIP : string -> IP)
  (Contains : IPNet -> IP -> bool).

Record BlacklistPlugin : Type := mk_blacklist { Blacklist : gmap string bool; BlacklistMask : list IPNet }.
Record WhitelistPlugin : Type := mk_whitelist { Whitelist : gmap string bool; WhitelistMask : list IPNet }.

(** The loop over the masks. *)
Fixpoint in_masks (masks : list IPNet) (ip : IP) : bool :=
  match masks with
  | [] => false
  | mask :: masks => if Contains mask ip then true else in_masks masks ip
  end.

(** [HandleConnAccept] for a connection with the remote address [addr]. *)
Definition black_HandleConnAccept (p : BlacklistPlugin) (addr : string) : bool :=
  match SplitHostPort addr with
  | None => true
  | Some ip =>
      if default false (Blacklist p !! ip) then false
      else if in_masks (BlacklistMask p) (ParseIP ip) then false else true
  end.

Definition white_HandleConnAccept (p : WhitelistPlugin) (addr : string) : bool :=
  match SplitHostPort addr with
  | None => false
  | Some ip =>
      if default false (Whitelist p !! ip) then true
      else if in_masks (WhitelistMask p) (ParseIP ip) then true else false
  end.

(** The address is listed: by itself or in a network. *)
Definition listed (ips : gmap string bool) (masks : list IPNet) (addr : string) : Prop :=
  exists ip, SplitHostPort addr = Some ip /\
    (ips !! ip = Some true \/ exists mask, mask ∈ masks /\ Contains mask (ParseIP ip) = true).
End lists.
Arguments mk_blacklist {IPNet}.
Arguments mk_whitelist {IPNet}.

(** ** RateLimitingPlugin and ReqRateLimitingPlugin *)

(** github.com/juju/ratelimit: [TakeAvailable(1)] and [Wait(1)] of a bucket. *)
Record Bucket (W : Type) : Type := mk_Bucket { TakeAvailable : prog W Z; Wait : prog W unit }.
Arguments mk_Bucket {W}.
Arguments TakeAvailable {W}.
Arguments Wait {W}.

Definition rate_HandleConnAccept {W} (b : Bucket W) : prog W bool :=
  n ← TakeAvailable b; mret (0 <? n).

(** [PostReadRequest] of ReqRateLimitingPlugin. *)
Definition req_PostReadRequest {W} (b : Bucket W) (block : bool) : prog W (option error) :=
  if block then Wait b;; mret None
  else count ← TakeAvailable b;
       mret (if decide (count = 1) then None else Some ErrReqReachLimit).

(** github.com/go-redis/redis_rate: [Allow] for a key gives the number allowed,
    and an error. *)
Definition redis_PostReadRequest {W} (Allow : string -> prog W (Z * option error)) (r : message) :
    prog W (option error) :=
  '(allowed, err) ← Allow (path2 (ServicePath r) (ServiceMethod r));
  mret (match err with
        | Some e => Some e
        | None => if 0 <? allowed then None else Some ErrReqReachLimit
        end).

(** ** TeeConnPlugin *)

(** An [io.Writer] is a number; [tee] is the connection the plugin gives back,
    with the writer the plugin had when it was accepted. *)
Record teeConn (C : Type) : Type := mk_tee { Conn : C; writer : option nat }.
Arguments mk_tee {C}.
Arguments Conn {C}.
Arguments writer {C}.

Definition tee_HandleConnAccept {C} (plugin : option nat) (conn : C) : teeConn C * bool := (mk_tee conn plugin, true).

(** The plugin's [Update]. *)
Definition tee_Update (w : option nat) (plugin : option nat) : option nat := w.

Section tee.
Context {C : Type} (read : nat -> C -> C * (list byte * option error)).

(** [Read] into a buffer of [k] bytes: what the connection put into it, and
    the writers' contents. *)
Definition tee_Read (k : nat) (t : teeConn C) (ws : gmap nat (list byte)) :
    teeConn C * gmap nat (list byte) * (list byte * option error) :=
  let '(c, (p, err)) := read k (Conn t) in
  let ws := match p, writer t with
            | _ :: _, Some i => <[i := default [] (ws !! i) ++ p]> ws
            | _, _ => ws
            end in
  (mk_tee c (writer t), ws, (p, err)).

(** Reads of the sizes [ks], one after the other: all the bytes read. *)
Fixpoint tee_reads (ks : list nat) (t : teeConn C) (ws : gmap nat (list byte)) :
    teeConn C * gmap nat (list byte) * list byte :=
  match ks with
  | [] => (t, ws, [])
  | k :: ks =>
      let '(t, ws, (p, _)) := tee_Read k t ws in
      let '(t, ws, ps) := tee_reads ks t ws in (t, ws, p ++ ps)
  end.
End tee.

(** ** Properties *)

(** An alias and back: a request for an alias is read as one for the
    service and method the alias was last set to, with a mark; restoring it
    gives the request its own names again and takes the mark away, and the
    response gets the request's names.  Later aliases for other names and other
    services change nothing of this.  But the container never calls the
    plugin's [PreWriteResponse], so that no answer is restored. *)
Theorem alias_roundtrip a b c d p others r res :
  Forall (fun '(a', b', c', d') => alias_key a' b' <> alias_key a b /\ alias_key c' d' <> alias_key c d) others ->
  ServicePath r = a -> ServiceMethod r = b ->
  let p := fold_left (fun p '(a, b, c, d) => Alias a b c d p) others (Alias a b c d p) in
  let r1 := alias_PostReadRequest p r in
  (ServicePath r1 = c /\ ServiceMethod r1 = d /\ Payload r1 = Payload r /\
   meta_get aliasAppliedKey (Metadata r1) = "true") /\
  alias_PreWriteResponse p r1 (Some res) =
    (set_Metadata (Some (delete aliasAppliedKey (default ∅ (Metadata r)))) r, Some (rename (a, b) res)) /\
  forall (W V : Type) i err (w : W),
    DoPreWriteResponse err [alias_hooks (V := V) i p] (r1, Some res) w = (w, Ok ((r1, Some res), None)).
Proof.
  intros Hf Ha Hb. cbn zeta.
  set (q := fold_left _ _ _).
  assert (H : Aliases q !! alias_key a b = Some (c, d) /\ ReseverseAliases q !! alias_key c d = Some (a, b)).
  { subst q. assert (H0 : Aliases (Alias a b c d p) !! alias_key a b = Some (c, d) /\
      ReseverseAliases (Alias a b c d p) !! alias_key c d = Some (a, b))
      by (cbn; by rewrite !lookup_insert_eq).
    revert H0. generalize (Alias a b c d p).
    induction Hf as [|[[[a' b'] c'] d'] l [H1 H2] _ IH]; intros q Hq; [done|]. cbn. apply IH. cbn.
    by rewrite !lookup_insert_ne. }
  destruct H as [H1 H2]. unfold alias_PostReadRequest. rewrite Ha, Hb, H1. split_and!; try done.
  - unfold meta_get. cbn. by rewrite lookup_insert_eq.
  - unfold alias_PreWriteResponse, meta_get. cbn. rewrite lookup_insert_eq. cbn. rewrite H2.
    rewrite decide_True by done. f_equal. unfold rename, set_Metadata, set_ServicePath, set_ServiceMethod. cbn.
    destruct r; cbn in *. subst. by rewrite delete_insert_eq.
Qed.

(** The two lists: with the same addresses and networks the whitelist
    lets in exactly the connections the blacklist refuses, and these are the
    listed ones; an address that does not split is refused by the whitelist
    and let in by the blacklist. *)
Theorem lists_complement {IP IPNet} (SplitHostPort : string -> option string) (ParseIP : string -> IP)
    (Contains : IPNet -> IP -> bool) ips masks addr :
  white_HandleConnAccept SplitHostPort ParseIP Contains (mk_whitelist ips masks) addr =
    negb (black_HandleConnAccept SplitHostPort ParseIP Contains (mk_blacklist ips masks) addr) /\
  (white_HandleConnAccept SplitHostPort ParseIP Contains (mk_whitelist ips masks) addr = true <->
   listed SplitHostPort ParseIP Contains ips masks addr).
Proof.
  unfold white_HandleConnAccept, black_HandleConnAccept, listed. cbn.
  destruct (SplitHostPort addr) as [ip|]; [|split; [done|naive_solver]].
  assert (Hm : in_masks Contains masks (ParseIP ip) = true <->
               exists mask, mask ∈ masks /\ Contains mask (ParseIP ip) = true).
  { induction masks as [|m masks IH]; cbn.
    - split; [done|]. by intros (m & ?%elem_of_nil & _).
    - destruct (Contains m (ParseIP ip)) eqn:E.
      + split; [intros _; exists m; by split; [left|]|done].
      + rewrite IH. split; [intros (m' & ? & ?); exists m'; split; [by right|done]|].
        intros (m' & [->|?]%elem_of_cons & ?); [congruence|eauto]. }
  destruct (ips !! ip) as [[|]|] eqn:E; cbn; destruct (in_masks Contains masks (ParseIP ip)) eqn:Em; split; try done;
    split; intros H; try done; try (exists ip; split; [done|]; rewrite ?E; tauto);
    destruct H as (ip' & [= <-] & [?|?]); try congruence; tauto.
Qed.

Section rate.
Context {W : Type} (b : Bucket W) (avail : W -> Z) (cap : Z) (fill : Z -> W -> W).

(** The documented behaviour of a token bucket: a token is taken when there is
    one; time adds tokens up to the capacity. *)
Class BucketLaws : Prop := {
  take_some w : 0 < avail w -> exists w', TakeAvailable b w = (w', Ok 1) /\ avail w' = avail w - 1;
  take_none w : avail w <= 0 -> exists w', TakeAvailable b w = (w', Ok 0) /\ avail w' = avail w;
  fill_some k w : avail (fill k w) = Z.min cap (avail w + k)
}.
Context {Hb : BucketLaws}.

(** Requests and the passing of time, in any order: how many requests are let
    through. *)
Fixpoint admitted (evs : list (option Z)) : prog W Z :=
  match evs with
  | [] => mret 0
  | Some k :: evs => modify (fill k);; admitted evs
  | None :: evs =>
      err ← req_PostReadRequest b false;
      n ← admitted evs;
      mret (match err with None => n + 1 | Some _ => n end)
  end.

Definition filled (evs : list (option Z)) : Z := foldr Z.add 0 (default 0 <$> evs).
Definition requests (evs : list (option Z)) : Z := Z.of_nat (length (filter (fun e => e = None) evs)).

Lemma req_take w : 0 <= avail w ->
  exists w', req_PostReadRequest b false w = (w', Ok (if 0 <? avail w then None else Some ErrReqReachLimit)) /\
    avail w' = if 0 <? avail w then avail w - 1 else 0.
Proof.
  intros Hw. unfold req_PostReadRequest. prog_step. destruct (Z.ltb_spec 0 (avail w)) as [H|H].
  - destruct (take_some w H) as (w' & -> & E). exists w'. by rewrite E.
  - destruct (take_none w H) as (w' & -> & E). exists w'. split; [done|lia].
Qed.

(** The bound of a rate limit: of the requests between a start with [a]
    tokens and any later time, at most [a] and the tokens added since are let
    through, never more than the requests; without added tokens exactly the
    first [a] are. *)
Theorem rate_limit_bounds evs w :
  0 <= avail w <= cap -> Forall (fun e => match e with Some k => 0 <= k | None => True end) evs ->
  exists w' n, admitted evs w = (w', Ok n) /\
    0 <= n <= requests evs /\ n <= avail w + filled evs /\ 0 <= avail w' <= cap /\
    (Forall (fun e => e = None) evs -> n = Z.min (avail w) (requests evs)).
Proof.
  intros Hw Hf. revert w Hw. induction Hf as [|[k|] evs Hk _ IH]; intros w Hw.
  - exists w, 0. unfold requests, filled. cbn. split_and!; try done; lia.
  - destruct (IH (fill k w)) as (w' & n & E & H1 & H2 & H3 & _); [rewrite fill_some; lia|].
    exists w', n. cbn [admitted]. prog_step. rewrite E.
    unfold requests, filled in *. rewrite filter_cons_False by done. cbn. rewrite fill_some in H2.
    split_and!; try done; try lia. by intros [? _]%Forall_cons.
  - destruct (req_take w) as (w1 & E1 & E2); [lia|].
    destruct (IH w1) as (w' & n & E & H1 & H2 & H3 & H4); [destruct (Z.ltb_spec 0 (avail w)); lia|].
    cbn [admitted]. prog_step. rewrite E1, E. eexists w', _. split; [done|].
    unfold requests, filled in *. rewrite filter_cons_True by done. cbn.
    destruct (Z.ltb_spec 0 (avail w)) as [Hp|Hp]; rewrite E2 in *; split_and!; try done; try lia;
      intros [_ Hn]%Forall_cons; specialize (H4 Hn); lia.
Qed.
End rate.

(** The tee: whatever the sizes of the reads, the writer of an accepted
    connection has received exactly the bytes the server read from it, in
    order, and no other writer has received anything. *)
Theorem tee_copies {C} (read : nat -> C -> C * (list byte * option error)) ks (c : C) i ws :
  let '(t, ws', bs) := tee_reads read ks (tee_HandleConnAccept (Some i) c).1 ws in
  default [] (ws' !! i) = default [] (ws !! i) ++ bs /\ writer t = Some i /\
  forall j, j <> i -> ws' !! j = ws !! j.
Proof.
  cbn. generalize c. revert ws. induction ks as [|k ks IH]; intros ws c0; cbn; [by rewrite app_nil_r|].
  unfold tee_Read. cbn. destruct (read k c0) as [c1 [p err]].
  match goal with |- context [tee_reads read ks _ ?ws1'] => set (ws1 := ws1') end.
  assert (Hws : default [] (ws1 !! i) = default [] (ws !! i) ++ p /\ forall j, j <> i -> ws1 !! j = ws !! j).
  { subst ws1. destruct p; cbn; [by rewrite app_nil_r|]. rewrite lookup_insert_eq. split; [done|].
    intros. by rewrite lookup_insert_ne. }
  destruct Hws as [Hi Hj].
  specialize (IH ws1 c1). destruct (tee_reads read ks (mk_tee c1 (Some i)) ws1) as [[t ws'] bs].
  destruct IH as (H1 & H2 & H3). split_and!; [|done|].
  - by rewrite H1, Hi, (assoc_L (++)).
  - intros j Hne. by rewrite H3, Hj.
Qed.

(** ** Witnesses *)
Definition sample_request : message :=
  set_ServicePath "a" (set_ServiceMethod "b" NewMessage).

Lemma alias_roundtrip_witness :
  ServicePath (alias_PostReadRequest (Alias "a" "b" "Arith" "Mul" NewAliasPlugin) sample_request) = "Arith".
Proof.
  apply (alias_roundtrip "a" "b" "Arith" "Mul" NewAliasPlugin [] sample_request NewMessage (Forall_nil_2 _) eq_refl eq_refl).
Defined.

Definition z_bucket : Bucket Z := mk_Bucket (fun n => if 0 <? n then (n - 1, Ok 1) else (n, Ok 0)) (fun n => (n, Ok tt)).

Lemma z_bucket_laws : BucketLaws z_bucket id 10 (fun k n => Z.min 10 (n + k)).
Proof.
  split; cbn; unfold id; intros.
  - rewrite (proj2 (Z.ltb_lt 0 w)) by done. by eexists.
  - rewrite (proj2 (Z.ltb_ge 0 w)) by done. by eexists.
  - done.
Qed.

Lemma rate_limit_bounds_witness :
  exists w' n, admitted z_bucket (fun k n => Z.min 10 (n + k)) [None; None; Some 5; None] 1 = (w', Ok n) /\ n <= 6.
Proof.
  destruct (rate_limit_bounds z_bucket id 10 (fun k n => Z.min 10 (n + k)) (Hb := z_bucket_laws)
    [None; None; Some 5; None] 1) as (w' & n & E & _ & H & _); [unfold id; lia|repeat constructor; lia|].
  exists w', n. split; [exact E|]. exact H.
Defined.
