(* ===== verification/TypePools.v ===== *)
(** server/pool.go: the pools of argument and reply objects, one per type, which
    the handlers of requests share.  Objects live in a heap, so that two
    handlers could hold the same one; [sync.Pool] may give back any object it
    was given, and may forget any. *)
From S2P Require Import Prelude Go Service.
Open Scope go_scope.

Section pools.
Context {V : Type} (zero : gtype -> V).
(** The [Reset] method of the pointers to a type that has one. *)
Context (Reset : gtype -> option (V -> V)).
Context (UsePool : bool).

(** An object is the type it was made with and its contents; a pointer to it
    is its number. *)
Record typePools : Type := mk_pools {
  pools : gmap gtype (list nat);
  heap : gmap nat (gtype * V);
  next_obj : nat
}.

(** [p.New(t)]: the reply type of a method is a pointer, so the object has the
    type it points to. *)
Definition New_ (t : gtype) (p : typePools) : typePools * nat :=
  (mk_pools (pools p) (<[next_obj p := (Indirect t, zero (Indirect t))]> (heap p)) (S (next_obj p)), next_obj p).

Definition Init (t : gtype) (p : typePools) : typePools := mk_pools (<[t := []]> (pools p)) (heap p) (next_obj p).

(** [Get]: [choice] is the place of the object [sync.Pool] gives back; with no
    object there it makes a new one.  A type without pool is a nil pointer. *)
Definition Get (choice : nat) (t : gtype) : prog typePools nat := fun p =>
  if negb UsePool then let '(p, x) := New_ t p in (p, Ok x)
  else match pools p !! t with
       | None => (p, Panic)
       | Some xs =>
           match xs !! choice with
           | Some x => (mk_pools (<[t := delete choice xs]> (pools p)) (heap p) (next_obj p), Ok x)
           | None => let '(p, x) := New_ t p in (p, Ok x)
           end
       end.

(** [o.Reset()] for an object that has the method. *)
Definition reset_obj (x : nat) (h : gmap nat (gtype * V)) : gmap nat (gtype * V) :=
  match h !! x with
  | Some (ty, v) => match Reset ty with Some f => <[x := (ty, f v)]> h | None => h end
  | None => h
  end.

Definition Put (t : gtype) (x : nat) : prog typePools unit := fun p =>
  if negb UsePool then (p, Ok tt)
  else match pools p !! t with
       | None => (mk_pools (pools p) (reset_obj x (heap p)) (next_obj p), Panic)
       | Some xs => (mk_pools (<[t := xs ++ [x]]> (pools p)) (reset_obj x (heap p)) (next_obj p), Ok tt)
       end.

(** ** The handlers

    A handler gets an object for a type, writes it, and its deferred call gives
    it back for the same type.  [held] are the objects out, with the type each
    was asked for. *)
Record pstate : Type := mk_pstate { tp : typePools; held : list (gtype * nat) }.

Definition no_pools : pstate := mk_pstate (mk_pools ∅ ∅ 0) [].

Inductive pstep : pstate -> pstate -> Prop :=
| ps_init t s : pstep s (mk_pstate (Init t (tp s)) (held s))
| ps_get choice t p' x s : Get choice t (tp s) = (p', Ok x) -> pstep s (mk_pstate p' ((t, x) :: held s))
| ps_write i t x ty v v' s : held s !! i = Some (t, x) -> heap (tp s) !! x = Some (ty, v) ->
    pstep s (mk_pstate (mk_pools (pools (tp s)) (<[x := (ty, v')]> (heap (tp s))) (next_obj (tp s))) (held s))
| ps_put i t x p' s : held s !! i = Some (t, x) -> Put t x (tp s) = (p', Ok tt) ->
    pstep s (mk_pstate p' (delete i (held s)))
| ps_forget i t xs s : pools (tp s) !! t = Some xs ->
    pstep s (mk_pstate (mk_pools (<[t := delete i xs]> (pools (tp s))) (heap (tp s)) (next_obj (tp s))) (held s)).

(** An object of the type that is asked for. *)
Definition typed (h : gmap nat (gtype * V)) (t : gtype) (x : nat) : Prop := exists v, h !! x = Some (Indirect t, v).

(** The objects in the pools, each with the type of its pool. *)
Definition pooled (m : gmap gtype (list nat)) : list (gtype * nat) :=
  map_to_list m ≫= fun '(t, xs) => (fun x => (t, x)) <$> xs.

Record pinv (s : pstate) : Prop := {
  pi_typed : Forall (fun '(t, x) => typed (heap (tp s)) t x) (held s ++ pooled (pools (tp s)));
  pi_nodup : NoDup (held s ++ pooled (pools (tp s))).*2;
  pi_old : Forall (fun '(_, x) => x < next_obj (tp s))%nat (held s ++ pooled (pools (tp s)));
  pi_fresh : forall x, (next_obj (tp s) <= x)%nat -> heap (tp s) !! x = None
}.

Lemma pooled_insert m t xs : pooled (<[t := xs]> m) ≡ₚ ((fun x => (t, x)) <$> xs) ++ pooled (delete t m).
Proof.
  unfold pooled. rewrite <- insert_delete_eq, (map_to_list_insert (delete t m)) by apply lookup_delete_eq.
  done.
Qed.

Lemma pooled_lookup m t xs : m !! t = Some xs -> pooled m ≡ₚ ((fun x => (t, x)) <$> xs) ++ pooled (delete t m).
Proof. intros Hm. rewrite <- pooled_insert. by rewrite insert_id. Qed.

(** What the invariant says of a list of objects, wherever they are. *)
Definition obj_ok (h : gmap nat (gtype * V)) (n : nat) (l : list (gtype * nat)) : Prop :=
  Forall (fun '(t, x) => typed h t x /\ (x < n)%nat) l /\ NoDup l.*2 /\ forall x, (n <= x)%nat -> h !! x = None.

Lemma pinv_obj_ok s : pinv s <-> obj_ok (heap (tp s)) (next_obj (tp s)) (held s ++ pooled (pools (tp s))).
Proof.
  split.
  - intros [H1 H2 H3 H4]. split_and!; [|done|done]. rewrite Forall_forall in H1, H3 |- *.
    intros [t x] Hin. split; [by apply (H1 _ Hin)|by apply (H3 _ Hin)].
  - intros (H1 & H2 & H3). split; [|done| |done]; (eapply Forall_impl; [exact H1|]); intros [t x]; tauto.
Qed.

#[local] Instance obj_ok_perm h n : Proper ((≡ₚ) ==> iff) (obj_ok h n).
Proof. intros l l' Hl. unfold obj_ok. by rewrite Hl. Qed.

Lemma obj_ok_app_r h n l l' : obj_ok h n (l ++ l') -> obj_ok h n l'.
Proof.
  intros (H1 & H2 & H3). rewrite fmap_app in H2. apply Forall_app in H1 as [_ H1].
  apply NoDup_app in H2 as (_ & _ & H2). done.
Qed.

Lemma obj_ok_new h n l t : obj_ok h n l ->
  obj_ok (<[n := (Indirect t, zero (Indirect t))]> h) (S n) ((t, n) :: l).
Proof.
  intros (H1 & H2 & H3). split_and!.
  - constructor; [split; [|lia]; eexists; by rewrite lookup_insert_eq|].
    eapply Forall_impl; [exact H1|]. intros [t' x] [[v Hv] Hx]. split; [|lia]. exists v.
    by rewrite lookup_insert_ne by lia.
  - cbn. apply NoDup_cons. split; [|done]. intros Hin. apply list_elem_of_fmap in Hin as ([t' x] & Heq & Hin).
    cbn in Heq. subst x. rewrite Forall_forall in H1. apply H1 in Hin as [_ Hx]. lia.
  - intros x Hx. rewrite lookup_insert_ne by lia. apply H3. lia.
Qed.

Lemma obj_ok_write h n l x ty v v' : h !! x = Some (ty, v) -> obj_ok h n l -> obj_ok (<[x := (ty, v')]> h) n l.
Proof.
  intros Hx (H1 & H2 & H3). split_and!; [|done|].
  - eapply Forall_impl; [exact H1|]. intros [t y] [[vy Hy] Hlt]. split; [|done]. unfold typed.
    destruct (decide (y = x)) as [->|Hne]; [|rewrite lookup_insert_ne by done; eauto].
    rewrite lookup_insert_eq. rewrite Hx in Hy. simplify_eq. by eexists.
  - intros y Hy. rewrite lookup_insert_ne; [by apply H3|]. intros ->. by rewrite H3 in Hx.
Qed.

Lemma obj_ok_reset h n l x : obj_ok h n l -> obj_ok (reset_obj x h) n l.
Proof.
  intros Hl. unfold reset_obj. destruct (h !! x) as [[ty v]|] eqn:E; [|done].
  destruct (Reset ty); [|done]. by eapply obj_ok_write.
Qed.

Lemma pstep_inv s s' : pstep s s' -> pinv s -> pinv s'.
Proof.
  intros Hs. rewrite !pinv_obj_ok.
  destruct Hs as [t s|choice t p' x s E|i t x ty v v' s Hi Hx|i t x p' s Hi E|i t xs s Hp]; cbn; intros Hinv.
  - rewrite pooled_insert. cbn. destruct (pools (tp s) !! t) as [xs|] eqn:Et; [|by rewrite delete_id].
    rewrite (pooled_lookup _ _ _ Et) in Hinv.
    apply (obj_ok_app_r _ _ ((fun x => (t, x)) <$> xs)). revert Hinv. apply obj_ok_perm. solve_Permutation.
  - unfold Get in E. destruct UsePool; cbn in E.
    + destruct (pools (tp s) !! t) as [xs|] eqn:Et; [|done]. destruct (xs !! choice) as [y|] eqn:Ey.
      * injection E as <- <-. cbn. rewrite pooled_insert. revert Hinv. apply obj_ok_perm.
        rewrite (pooled_lookup _ _ _ Et). rewrite (delete_Permutation xs choice y Ey) at 2. cbn. solve_Permutation.
      * injection E as <- <-. cbn. by apply obj_ok_new.
    + injection E as <- <-. cbn. by apply obj_ok_new.
  - by eapply obj_ok_write.
  - unfold Put in E. destruct UsePool; cbn in E.
    + destruct (pools (tp s) !! t) as [xs|] eqn:Et; [|done]. injection E as <-. cbn.
      rewrite pooled_insert, fmap_app. cbn. apply obj_ok_reset. revert Hinv. apply obj_ok_perm.
      rewrite (pooled_lookup _ _ _ Et). rewrite (delete_Permutation _ _ _ Hi) at 2. cbn. solve_Permutation.
    + injection E as <-. apply (obj_ok_app_r _ _ [(t, x)]). revert Hinv. apply obj_ok_perm.
      rewrite (delete_Permutation _ _ _ Hi) at 2. solve_Permutation.
  - rewrite pooled_insert. destruct (xs !! i) as [y|] eqn:Ey.
    + apply (obj_ok_app_r _ _ [(t, y)]). revert Hinv. apply obj_ok_perm. rewrite (pooled_lookup _ _ _ Hp).
      rewrite (delete_Permutation xs i y Ey) at 2. cbn. solve_Permutation.
    + revert Hinv. apply obj_ok_perm. apply lookup_ge_None in Ey.
      rewrite delete_take_drop, take_ge, drop_ge, app_nil_r by lia. by rewrite (pooled_lookup _ _ _ Hp).
Qed.

Definition preachable (s : pstate) : Prop := rtc pstep no_pools s.

Lemma preachable_inv s : preachable s -> pinv s.
Proof.
  intros Hr. assert (H0 : pinv no_pools).
  { split; cbn; try done; constructor. }
  induction Hr as [|x y z Hs _ IH]; [done|]. apply IH. by eapply pstep_inv.
Qed.

(** C24: the pools are well typed, whatever the handlers do and whatever
    [sync.Pool] gives back: the object a handler gets for a type has that type
    (the type it points to, for a pointer), and no other handler holds it until
    it is given back; without pools it is the zero value. *)
Theorem pools_typed s choice t p' x :
  preachable s -> Get choice t (tp s) = (p', Ok x) ->
  typed (heap p') t x /\ x ∉ (held s).*2 /\ NoDup (held s).*2 /\
  (UsePool = false -> heap p' !! x = Some (Indirect t, zero (Indirect t))).
Proof.
  intros Hr E. pose proof (preachable_inv _ Hr) as Hs.
  assert (Hs' : pinv (mk_pstate p' ((t, x) :: held s))) by (eapply pstep_inv; [by eapply ps_get|done]).
  destruct Hs' as [H1 H2 _ _]. cbn in H1, H2.
  apply Forall_cons in H1 as [H1 _]. apply NoDup_cons in H2 as [H2 H3].
  rewrite fmap_app, not_elem_of_app in H2. rewrite fmap_app in H3. apply NoDup_app in H3 as [H3 _].
  split_and!; try tauto.
  intros Hp. unfold Get in E. rewrite Hp in E. cbn in E. injection E as <- <-. cbn. by rewrite lookup_insert_eq.
Qed.

(** A pooled object keeps what its last handler wrote unless the type has
    a [Reset] method, so that the next handler's argument, which the codec
    decodes into, does not start from the zero value. *)
Theorem pools_stale s i t x v :
  UsePool = true -> held s !! i = Some (t, x) -> heap (tp s) !! x = Some (Indirect t, v) ->
  is_Some (pools (tp s) !! t) -> Reset (Indirect t) = None ->
  exists s1 p2 choice, pstep s s1 /\ Get choice t (tp s1) = (p2, Ok x) /\ heap p2 !! x = Some (Indirect t, v).
Proof.
  intros Hu Hi Hx [xs Hp] Hr. eexists _, _, (length xs). split; [|split].
  - eapply ps_put; [exact Hi|]. unfold Put. rewrite Hu, Hp. cbn. done.
  - unfold Get. rewrite Hu. cbn. rewrite lookup_insert_eq.
    rewrite lookup_app_r, Nat.sub_diag by done. cbn. done.
  - cbn. unfold reset_obj. by rewrite Hx, Hr.
Qed.
End pools.

(** ** Witnesses *)
Definition int_type : gtype := TNamed "" "int".
Definition pool_run : pstate (V := Z) :=
  mk_pstate (mk_pools (<[int_type := []]> ∅) (<[0%nat := (int_type, 7)]> (<[0%nat := (int_type, 0)]> ∅)) 1) [(int_type, 0%nat)].

(** A pool without objects makes a new one. *)
Lemma Get_int m h n choice : m !! int_type = Some [] ->
  Get (fun _ => 0) true choice int_type (mk_pools m h n) = (mk_pools m (<[n := (int_type, 0)]> h) (S n), Ok n).
Proof. intros Hm. unfold Get. cbn. by rewrite Hm. Qed.

Lemma pool_run_reachable : preachable (fun _ => 0) (fun _ => None) true pool_run.
Proof.
  eapply rtc_l; [exact (ps_init _ _ _ int_type no_pools)|].
  eapply rtc_l.
  { apply (ps_get _ _ _ 0 int_type (mk_pools (<[int_type := []]> ∅) (<[0%nat := (int_type, 0)]> ∅) 1) 0%nat (mk_pstate _ [])).
    apply (Get_int (<[int_type := []]> ∅) ∅ 0 0), lookup_insert_eq. }
  apply rtc_once. unfold pool_run.
  exact (ps_write _ _ _ 0 int_type 0%nat int_type 0 7
    (mk_pstate (mk_pools (<[int_type := []]> ∅) (<[0%nat := (int_type, 0)]> ∅) 1) [(int_type, 0%nat)]) eq_refl eq_refl).
Qed.

Lemma pools_typed_witness : 1%nat ∉ (held pool_run).*2.
Proof.
  apply (pools_typed (fun _ => 0) (fun _ => None) true pool_run 0 int_type
    (mk_pools (<[int_type := []]> ∅) (<[1%nat := (int_type, 0)]> (<[0%nat := (int_type, 7)]> (<[0%nat := (int_type, 0)]> ∅))) 2) 1%nat pool_run_reachable).
  apply (Get_int (<[int_type := []]> ∅) (<[0%nat := (int_type, 7)]> (<[0%nat := (int_type, 0)]> ∅)) 1 0), lookup_insert_eq.
Defined.

Lemma pools_stale_witness :
  exists s1 p2 choice, pstep (fun _ => 0) (fun _ => None) true pool_run s1 /\
    Get (fun _ => 0) true choice int_type (tp s1) = (p2, Ok 0%nat) /\ heap p2 !! 0%nat = Some (int_type, 7).
Proof.
  apply (pools_stale (fun _ => 0) (fun _ => None) true pool_run 0 int_type 0%nat 7); try reflexivity.
  exists []. apply lookup_insert_eq.
Defined.
