(* ===== verification/FileTransfer.v ===== *)
(** server/file_transfer.go, server/stream.go and the methods SendFile,
    DownloadFile and Stream of client/xclient.go: a call of a service gives a
    token, and a connection to another port that starts with the token is given
    to a handler.

    The cache of tokens is golang-lru, a record of operations with laws; a
    connection is a number with what its peer will send; the two accept loops
    are the same code up to the kinds of tokens. *)
From S2P Require Import Prelude Go Backoff.
Open Scope go_scope.

(** ** Data of share/share.go *)
Record FileTransferArgs : Type := mk_fta { FileName : string; FileSize : Z; Meta : gmap string string }.
Record DownloadFileArgs : Type := mk_dfa { dFileName : string; dMeta : gmap string string }.
Record StreamServiceArgs : Type := mk_ssa { sMeta : gmap string string }.
(** [FileTransferReply] and [StreamServiceReply]. *)
Record TokenReply : Type := mk_reply { Token : list byte; rAddr : string }.

(** ** The cache *)

(** [lru.Cache] with values [I]; [cached] is what it holds. *)
Record Lru (L I : Type) : Type := mk_lru {
  Add : string -> I -> L -> L;
  Get : string -> L -> L * option I;
  Remove : string -> L -> L;
  cached : L -> gmap string I
}.
Arguments mk_lru {L I}.
Arguments Add {L I}.
Arguments Get {L I}.
Arguments Remove {L I}.
Arguments cached {L I}.

(** The documented behaviour: [Add] may evict other keys. *)
Class LruLaws {L I} (c : Lru L I) : Prop := {
  Add_same k i l : cached c (Add c k i l) !! k = Some i;
  Add_other k i l k' j : k' <> k -> cached c (Add c k i l) !! k' = Some j -> cached c l !! k' = Some j;
  Get_same k l : cached c (Get c k l).1 = cached c l;
  Get_value k l : (Get c k l).2 = cached c l !! k;
  Remove_same k l : cached c (Remove c k l) = delete k (cached c l)
}.

(** A cache that never evicts. *)
Definition map_lru {I} : Lru (gmap string I) I :=
  mk_lru (fun k i m => <[k := i]> m) (fun k m => (m, m !! k)) (fun k m => delete k m) id.

#[export] Instance map_lru_laws {I} : LruLaws (map_lru (I := I)).
Proof.
  split; cbn; unfold id; intros; try done.
  - by rewrite lookup_insert_eq.
  - by rewrite lookup_insert_ne in *.
Qed.

(** ** The accept loop of FileTransfer.start and StreamService.start *)
Section accept.
Context {L I : Type} (lru : Lru L I).

(** [ln.Accept()]: an error, which may be temporary, or a connection with what
    its peer sends; no reader when the peer keeps silent before the token is
    complete. *)
Inductive accept_event : Type :=
| AcceptErr (temporary : bool) (e : error)
| Accepted (conn : nat) (input : option reader).

(** [sleeps] are the delays slept, [handled] the goroutines of handlers with
    what they got, [closed] the connections closed, [issued] the tokens given
    out; the last three are observers' logs. *)
Record ft_state : Type := mk_ft {
  cachedTokens : L;
  tempDelay : Z;
  sleeps : list Z;
  handled : list (string * I * nat * reader);
  closed : list nat;
  issued : list (string * I)
}.

Definition set_tokens (l : L) (s : ft_state) : ft_state :=
  mk_ft l (tempDelay s) (sleeps s) (handled s) (closed s) (issued s).
Definition set_delay (d : Z) (ds : list Z) (s : ft_state) : ft_state :=
  mk_ft (cachedTokens s) d ds (handled s) (closed s) (issued s).
Definition close_conn (c : nat) (s : ft_state) : ft_state :=
  mk_ft (cachedTokens s) (tempDelay s) (sleeps s) (handled s) (closed s ++ [c]) (issued s).
Definition go_handler (h : string * I * nat * reader) (s : ft_state) : ft_state :=
  mk_ft (cachedTokens s) (tempDelay s) (sleeps s) (handled s ++ [h]) (closed s) (issued s).
Definition issue (token : list byte) (i : I) (s : ft_state) : ft_state :=
  mk_ft (Add lru (string_of token) i (cachedTokens s)) (tempDelay s) (sleeps s) (handled s) (closed s)
    (issued s ++ [(string_of token, i)]).

(** A turn of the loop; an error is its return.  [s.done] is nil, so its case
    is never ready.  [has_handler] says if the handler for a token's kind was
    given. *)
Definition accept_turn (has_handler : I -> bool) (ev : accept_event) : prog ft_state unit :=
  match ev with
  | AcceptErr true e =>
      s ← get_st; let d := accept_delay (tempDelay s) in put_st (set_delay d (sleeps s ++ [d]) s)
  | AcceptErr false e => fail e
  | Accepted conn input =>
      modify (fun s => set_delay 0 (sleeps s) s);;
      match input with
      | None => lift Blocked
      | Some r =>
          let '(token, err, r) := ReadFull 32 r in
          match err with
          | Some _ => modify (close_conn conn)
          | None =>
              let tokenStr := string_of token in
              s ← get_st;
              let '(l, info) := Get lru tokenStr (cachedTokens s) in
              put_st (set_tokens l s);;
              match info with
              | None => modify (close_conn conn)
              | Some i =>
                  modify (fun s => set_tokens (Remove lru tokenStr (cachedTokens s)) s);;
                  if has_handler i then modify (go_handler (tokenStr, i, conn, r)) else modify (close_conn conn)
              end
          end
      end
  end.
End accept.

(** ** FileTransfer *)
Inductive fileToken : Type := tokenInfo (args : FileTransferArgs) | downloadTokenInfo (args : DownloadFileArgs).

(** The struct; the handlers are user code and only said to be there. *)
Record FileTransfer : Type := mk_FileTransfer {
  Addr : string; AdvertiseAddr : string; handler : bool; downloadFileHandler : bool; done_chan : chan_state
}.

Definition NewFileTransfer (addr : string) (handler downloadFileHandler : bool) : FileTransfer :=
  mk_FileTransfer addr "" handler downloadFileHandler NilChan.

Definition reply_addr (addr advertise : string) : string := if decide (advertise = "") then addr else advertise.

Section file_transfer.
Context {L : Type} (lru : Lru L fileToken).

(** [rand] is what [rand.Read] gives: 32 bytes, or an error. *)
Definition TransferFile (ft : FileTransfer) (rand : list byte + error) (args : FileTransferArgs) :
    prog (ft_state (L := L) (I := fileToken)) TokenReply :=
  match rand with
  | inr e => fail e
  | inl token => modify (issue lru token (tokenInfo args));; mret (mk_reply token (reply_addr (Addr ft) (AdvertiseAddr ft)))
  end.

Definition DownloadFile (ft : FileTransfer) (rand : list byte + error) (args : DownloadFileArgs) :
    prog (ft_state (L := L) (I := fileToken)) TokenReply :=
  match rand with
  | inr e => fail e
  | inl token => modify (issue lru token (downloadTokenInfo args));; mret (mk_reply token (reply_addr (Addr ft) (AdvertiseAddr ft)))
  end.

Definition ft_start_turn (ft : FileTransfer) : accept_event -> prog (ft_state (L := L) (I := fileToken)) unit :=
  accept_turn lru (fun i => match i with tokenInfo _ => handler ft | downloadTokenInfo _ => downloadFileHandler ft end).
End file_transfer.

Definition ft_Stop (ft : FileTransfer) : result FileTransfer :=
  c ← close_chan (done_chan ft);
  Ok (mk_FileTransfer (Addr ft) (AdvertiseAddr ft) (handler ft) (downloadFileHandler ft) c).

(** ** StreamService *)
Record StreamService : Type := mk_StreamService {
  sAddr : string; sAdvertiseAddr : string; shandler : bool;
  acceptor : option (StreamServiceArgs -> bool); sdone : chan_state
}.

(** The acceptor that is given is not used. *)
Definition NewStreamService (addr : string) (streamHandler : bool) (_ : option (StreamServiceArgs -> bool)) : StreamService :=
  mk_StreamService addr "" streamHandler None NilChan.

Section stream.
Context {L : Type} (lru : Lru L StreamServiceArgs).

Definition Stream (s : StreamService) (rand : list byte + error) (args : StreamServiceArgs) :
    prog (ft_state (L := L) (I := StreamServiceArgs)) TokenReply :=
  if match acceptor s with Some f => negb (f args) | None => false end then fail ErrNotAccept
  else match rand with
       | inr e => fail e
       | inl token => modify (issue lru token args);; mret (mk_reply token (reply_addr (sAddr s) (sAdvertiseAddr s)))
       end.

Definition stream_start_turn (s : StreamService) : accept_event -> prog (ft_state (L := L) (I := StreamServiceArgs)) unit :=
  accept_turn lru (fun _ => shandler s).
End stream.

Definition stream_Stop (s : StreamService) : result StreamService :=
  c ← close_chan (sdone s);
  Ok (mk_StreamService (sAddr s) (sAdvertiseAddr s) (shandler s) (acceptor s) c).

(** ** The client *)

Definition FileTransferBufferSize : nat := 1024.

(** The loop of [SendFile]: what is left of the file, what the connection got,
    and whether the context is done at the turn [k]; a write fails with [werr]
    at its turn, a read with the error at the end of the file.  The limit on
    the rate only sleeps.  No result when [fuel] turns do not end it. *)
Fixpoint send_loop (fuel : nat) (canceled : nat -> bool) (werr : nat -> option error) (k : nat)
    (file : reader) (sent : list byte) : option (list byte * result unit) :=
  match fuel with
  | O => None
  | S fuel =>
      if canceled k then send_loop fuel canceled werr (S k) file sent
      else
        let chunk := take FileTransferBufferSize (rest file) in
        match chunk with
        | [] => Some (sent, match fin file with EOF => Ok tt | e => Err e end)
        | _ =>
            match werr k with
            | Some EOF => Some (sent, Ok tt)
            | Some e => Some (sent, Err e)
            | None =>
                send_loop fuel canceled werr (S k) (mk_reader (drop FileTransferBufferSize (rest file)) (fin file))
                  (sent ++ chunk)
            end
        end
  end.

(** The loop of [DownloadFile]: the reads of the connection, as chunks with
    the error that comes with each; the writes to [saveTo] may fail. *)
Fixpoint recv_loop (canceled : nat -> bool) (k : nat) (reads : list (list byte * option error))
    (werr : nat -> option error) (saved : list byte) : option (list byte * option error) :=
  match reads with
  | [] => None
  | (chunk, er) :: reads =>
      if canceled k then None else
      match (match chunk with [] => None | _ => werr k end) with
      | Some ew => Some (saved, Some ew)
      | None =>
          match er with
          | Some EOF => Some (saved ++ chunk, None)
          | Some e => Some (saved ++ chunk, Some e)
          | None => recv_loop canceled (S k) reads werr (saved ++ chunk)
          end
      end
  end.

(** The part the three methods of xClient share: the call for the token, the
    connection to the address in its reply, the write of the token; [inr] is a
    return before the connection is used. *)
Definition with_connection {A} (call : result TokenReply) (dial : string -> option error) (twrite : option error)
    (k : list byte -> A) : A + result unit :=
  match call with
  | Ok reply =>
      match dial (rAddr reply) with
      | Some e => inr (Err e)
      | None => match twrite with Some e => inr (Err e) | None => inl (k (Token reply)) end
      end
  | Err e => inr (Err e)
  | Panic => inr Panic | Fatal => inr Fatal | Blocked => inr Blocked
  end.

(** [os.Open] and [os.Stat]: the name, size and contents of the file. *)
Record opened : Type := mk_opened { oName : string; oSize : Z; oFile : reader }.

(** [xClient.SendFile]: what was written on the connection, and
    the result; none while the loop goes on.  [call] is the RPC for the token. *)
Definition SendFile (fuel : nat) (open_file : opened + error) (meta : gmap string string)
    (call : FileTransferArgs -> result TokenReply) (dial : string -> option error) (twrite : option error)
    (canceled : nat -> bool) (werr : nat -> option error) : option (list byte * result unit) + result unit :=
  match open_file with
  | inr e => inr (Err e)
  | inl o => with_connection (call (mk_fta (oName o) (oSize o) meta)) dial twrite (send_loop fuel canceled werr 0 (oFile o))
  end.

(** [xClient.DownloadFile]: what [saveTo] has, and the error. *)
Definition xDownloadFile (requestFileName : string) (meta : gmap string string)
    (call : DownloadFileArgs -> result TokenReply) (dial : string -> option error) (twrite : option error)
    (canceled : nat -> bool) (reads : list (list byte * option error)) (werr : nat -> option error) :
    option (list byte * option error) + result unit :=
  with_connection (call (mk_dfa requestFileName meta)) dial twrite (fun _ => recv_loop canceled 0 reads werr []).

(** [xClient.Stream]: the token written on the connection it gives back. *)
Definition xStream (meta : gmap string string) (call : StreamServiceArgs -> result TokenReply)
    (dial : string -> option error) (twrite : option error) : list byte + result unit :=
  with_connection (call (mk_ssa meta)) dial twrite id.

(** ** Tokens *)
Section tokens.
Context {L I : Type} (lru : Lru L I) {Hlru : LruLaws lru} (has_handler : I -> bool).

(** Tokens are given out and connections accepted, in any order. *)
Inductive ft_step : ft_state (L := L) (I := I) -> ft_state (L := L) (I := I) -> Prop :=
| fs_issue token i s : ft_step s (issue lru token i s)
| fs_accept ev s s' r : accept_turn lru has_handler ev s = (s', r) -> ft_step s s'.

Definition with_token (t : string) (s : ft_state (L := L) (I := I)) : nat :=
  length (filter (fun h => h.1.1.1 = t) (handled s)).
Definition issues (t : string) (s : ft_state (L := L) (I := I)) : nat :=
  length (filter (fun x => x.1 = t) (issued s)).
Definition in_cache (t : string) (s : ft_state (L := L) (I := I)) : nat :=
  match cached lru (cachedTokens s) !! t with Some _ => 1 | None => 0 end.

Record ft_inv (s : ft_state (L := L) (I := I)) : Prop := {
  fi_cached t i : cached lru (cachedTokens s) !! t = Some i -> (t, i) ∈ issued s;
  fi_handled t i c r : (t, i, c, r) ∈ handled s -> (t, i) ∈ issued s /\ has_handler i = true;
  fi_count t : (with_token t s + in_cache t s <= issues t s)%nat;
  fi_sleeps : (tempDelay s = 0 \/ 5 * millisecond <= tempDelay s <= second) /\
    Forall (fun d => 5 * millisecond <= d <= second) (sleeps s)
}.

Lemma fi_issue token i s : ft_inv s -> ft_inv (issue lru token i s).
Proof.
  intros [H1 H2 H3 H4]. split; cbn; [| | |done].
  - intros t j Ht. apply elem_of_app. destruct (decide (t = string_of token)) as [->|Hne].
    + rewrite Add_same in Ht. simplify_eq. right. by left.
    + left. apply H1. by eapply Add_other.
  - intros t j c r [Hin Hh]%H2. split; [|done]. apply elem_of_app. by left.
  - intros t. specialize (H3 t). unfold with_token, in_cache, issues in *. cbn.
    rewrite filter_app, length_app, filter_cons, filter_nil. cbn.
    destruct (decide (string_of token = t)) as [<-|Hne]; cbn.
    + rewrite Add_same. destruct (cached lru _ !! _); lia.
    + destruct (cached lru (Add lru _ _ _) !! t) eqn:E; [|lia]. apply Add_other in E; [|done]. rewrite E in H3. lia.
Qed.

(** The state after a turn that read a known token. *)
Lemma fi_take t i s l :
  cached lru (cachedTokens s) !! t = Some i -> cached lru l = delete t (cached lru (cachedTokens s)) ->
  ft_inv s ->
  ft_inv (set_tokens l s) /\
  (forall c r, has_handler i = true -> ft_inv (go_handler (t, i, c, r) (set_tokens l s))).
Proof.
  intros Ht Hl [H1 H2 H3 H4].
  assert (Hc : forall t', (in_cache t' (set_tokens l s) = if decide (t' = t) then 0 else in_cache t' s)%nat).
  { intros t'. unfold in_cache. cbn. rewrite Hl. destruct (decide (t' = t)) as [->|Hne].
    - by rewrite lookup_delete_eq. - by rewrite lookup_delete_ne. }
  split; [|intros c r Hh].
  - split; cbn; [| |intros t'|done].
    + intros t' j Ht'. rewrite Hl in Ht'. apply lookup_delete_Some in Ht' as [_ ?]. by apply H1.
    + by apply H2.
    + specialize (H3 t'). rewrite Hc. unfold with_token, issues in *. cbn. destruct (decide (t' = t)); lia.
  - split; cbn; [| |intros t'|done].
    + intros t' j Ht'. rewrite Hl in Ht'. apply lookup_delete_Some in Ht' as [_ ?]. by apply H1.
    + intros t' j c' r' [Hin|Hin]%elem_of_app; [by eapply H2|].
      apply list_elem_of_singleton in Hin. simplify_eq. split; [by apply H1|done].
    + specialize (H3 t'). change (in_cache t' (go_handler (t, i, c, r) (set_tokens l s))) with (in_cache t' (set_tokens l s)).
      rewrite Hc. unfold with_token, issues in *. cbn. rewrite filter_app, length_app, filter_cons, filter_nil. cbn.
      destruct (decide (t' = t)) as [->|Hne].
      * rewrite decide_True by done. cbn. unfold in_cache in H3. rewrite Ht in H3. lia.
      * rewrite decide_False by done. cbn. lia.
Qed.

Lemma fi_same s l : ft_inv s -> cached lru l = cached lru (cachedTokens s) -> ft_inv (set_tokens l s).
Proof.
  intros [H1 H2 H3 H4] Hl. split; cbn; [by rewrite Hl|done| |done].
  intros t. specialize (H3 t). unfold in_cache, with_token, issues in *. cbn. by rewrite Hl.
Qed.

Lemma fi_delay s d ds : ft_inv s -> (d = 0 \/ 5 * millisecond <= d <= second) ->
  Forall (fun d => 5 * millisecond <= d <= second) ds -> ft_inv (set_delay d ds s).
Proof. intros [] ? ?. by split. Qed.

Lemma fi_close s c : ft_inv s -> ft_inv (close_conn c s).
Proof. by intros []. Qed.

Lemma ft_step_inv s s' : ft_step s s' -> ft_inv s -> ft_inv s'.
Proof.
  intros [token i s0|ev s0 s1 r E] Hs; [by apply fi_issue|].
  destruct ev as [[|] e|conn [rd|]]; cbn [accept_turn] in E; prog_step.
  - injection E as <- _. pose proof (fi_sleeps _ Hs) as [H1 H2]. pose proof (accept_delay_bounds _ H1) as H3.
    apply fi_delay; [done|by right|]. apply Forall_app. split; [done|]. by constructor.
  - by injection E as <- _.
  - assert (Hd : ft_inv (set_delay 0 (sleeps s0) s0)) by (apply fi_delay; [done|by left|apply Hs]).
    destruct (ReadFull 32 rd) as [[tok err] rd']. destruct err as [e|].
    { injection E as <- _. by apply fi_close. }
    cbn [cachedTokens set_delay] in E.
    pose proof (Get_same (string_of tok) (cachedTokens s0)) as Hg.
    pose proof (Get_value (string_of tok) (cachedTokens s0)) as Hv.
    destruct (Get lru (string_of tok) (cachedTokens s0)) as [l info]. cbn in Hg, Hv.
    destruct info as [i|]; [|injection E as <- _; apply fi_close; by apply (fi_same (set_delay 0 (sleeps s0) s0))].
    destruct (fi_take (string_of tok) i (set_delay 0 (sleeps s0) s0) (Remove lru (string_of tok) l)) as [Hi1 Hi2];
      [by symmetry|by rewrite Remove_same, Hg|done|].
    destruct (has_handler i) eqn:Eh; injection E as <- _.
    + by apply Hi2.
    + by apply fi_close.
  - injection E as <- _. apply fi_delay; [done|by left|apply Hs].
Qed.

(** A service with no token out. *)
Definition ft_start (l : L) : ft_state (L := L) (I := I) := mk_ft l 0 [] [] [] [].

Lemma ft_reach_inv l s : cached lru l = ∅ -> rtc ft_step (ft_start l) s -> ft_inv s.
Proof.
  intros Hl Hr. assert (H0 : ft_inv (ft_start l)).
  { split; cbn.
    - intros t i. by rewrite Hl, lookup_empty.
    - intros t i c r []%elem_of_nil.
    - intros t. unfold with_token, in_cache, issues. cbn. by rewrite Hl, lookup_empty.
    - split; [by left|constructor]. }
  induction Hr as [|x y z Hs _ IH]; [done|]. apply IH. by eapply ft_step_inv.
Qed.

(** C23: what connections can do with tokens, whatever their order: a handler
    only starts for a connection that sent a token which was given out, with
    the arguments it was given out for, and not more often than the token was
    given out, that is once; a connection whose token has no handler, or with
    no known token, gets none. *)
Theorem tokens_one_time l s :
  cached lru l = ∅ -> rtc ft_step (ft_start l) s ->
  (forall t i c r, (t, i, c, r) ∈ handled s -> (t, i) ∈ issued s /\ has_handler i = true) /\
  (forall t, (with_token t s <= issues t s)%nat).
Proof.
  intros Hl Hr. pose proof (ft_reach_inv l s Hl Hr) as [H1 H2 H3 _]. split; [done|].
  intros t. specialize (H3 t). lia.
Qed.

(** The delay after a temporary error of [Accept] is always between 5 ms
    and one second, starts at 5 ms after an accepted connection and doubles. *)
Theorem accept_delay_bounded l s e :
  cached lru l = ∅ -> rtc ft_step (ft_start l) s ->
  Forall (fun d => 5 * millisecond <= d <= second) (sleeps s) /\
  (accept_turn lru has_handler (AcceptErr true e) s).1.(tempDelay) =
    (if decide (tempDelay s = 0) then 5 * millisecond else Z.min second (2 * tempDelay s)) /\
  forall c input, tempDelay (accept_turn lru has_handler (Accepted c input) s).1 = 0.
Proof.
  intros Hl Hr. pose proof (ft_reach_inv l s Hl Hr) as [_ _ _ [H1 H2]]. split_and!; [done| |].
  - cbn [accept_turn]. prog_step. cbn [fst tempDelay set_delay]. unfold accept_delay, backoff, millisecond, second. case_decide; lia.
  - intros c [r|]; cbn [accept_turn]; prog_step; [|done].
    destruct (ReadFull 32 r) as [[tok [e'|]] r']; [done|]. cbn [cachedTokens set_delay].
    destruct (Get lru _ _) as [l' [i|]]; [|done]. by destruct (has_handler i).
Qed.
End tokens.

(** ** Sending a file *)
Lemma send_loop_all fuel file e sent k :
  (length file < fuel)%nat ->
  send_loop fuel (fun _ => false) (fun _ => None) k (mk_reader file e) sent =
    Some (sent ++ file, match e with EOF => Ok tt | e => Err e end).
Proof.
  revert file sent k. induction fuel as [|fuel IH]; intros file sent k Hf; [lia|]. cbn [send_loop rest fin].
  destruct file as [|b file]; [rewrite take_nil, app_nil_r; by destruct e|].
  destruct (take FileTransferBufferSize (b :: file)) as [|x chunk] eqn:E; [done|]. rewrite <- E.
  rewrite IH.
  - by rewrite <- app_assoc, take_drop.
  - unfold FileTransferBufferSize. rewrite length_drop. cbn [length] in *. lia.
Qed.

(** C22: a file sent is the file received: [SendFile] asks for a token with the
    name, the size and the metadata of the file; when [TransferFile] gives it
    and it is still in the cache, [SendFile], with a context that is not
    cancelled and no error of the network, returns nil with fuel for a turn per
    byte, and the accept loop that reads what it wrote gives the connection to
    the upload handler, with the arguments of the call and with exactly the
    bytes of the file to read. *)
Theorem upload_end_to_end {L} (lru : Lru L fileToken) (Hlru : LruLaws lru) ft token name size meta s0 s1 reply s file conn e :
  length token = 32%nat -> handler ft = true ->
  TransferFile lru ft (inl token) (mk_fta name size meta) s0 = (s1, Ok reply) ->
  cached lru (cachedTokens s) !! string_of token = Some (tokenInfo (mk_fta name size meta)) ->
  cached lru (cachedTokens s1) !! string_of token = Some (tokenInfo (mk_fta name size meta)) /\
  Token reply = token /\ rAddr reply = reply_addr (Addr ft) (AdvertiseAddr ft) /\
  exists sent s2,
    SendFile (S (length file)) (inl (mk_opened name size (mk_reader file EOF))) meta
      (fun args => (TransferFile lru ft (inl token) args s0).2) (fun _ => None) None (fun _ => false) (fun _ => None) =
      inl (Some (sent, Ok tt)) /\
    ft_start_turn lru ft (Accepted conn (Some (mk_reader sent e))) s = (s2, Ok tt) /\
    handled s2 = handled s ++ [(string_of token, tokenInfo (mk_fta name size meta), conn, mk_reader file e)] /\
    cached lru (cachedTokens s2) !! string_of token = None.
Proof.
  intros Hlen Hh Ht Hc. unfold TransferFile in Ht. prog_step. injection Ht as <- <-.
  split_and!; [cbn; by rewrite Add_same|done|done|].
  pose proof (Get_same (string_of token) (cachedTokens s)) as Hg.
  pose proof (Get_value (string_of token) (cachedTokens s)) as Hv. rewrite Hc in Hv.
  destruct (Get lru (string_of token) (cachedTokens s)) as [l info] eqn:El. cbn in Hg, Hv. subst info.
  exists (token ++ file). eexists. unfold SendFile, with_connection, TransferFile. prog_step. cbn [snd Token rAddr oFile].
  rewrite send_loop_all by lia. split; [done|].
  unfold ft_start_turn. cbn [accept_turn]. prog_step.
  replace 32 with (Z.of_nat (length token)) by lia. rewrite ReadFull_app. cbn [cachedTokens set_delay].
  rewrite El, Hh. split; [done|]. cbn. split; [done|]. by rewrite Remove_same, lookup_delete_eq.
Qed.

Lemma send_loop_stuck fuel canceled werr k file sent :
  (forall j, (k <= j)%nat -> canceled j = true) -> send_loop fuel canceled werr k file sent = None.
Proof.
  revert k. induction fuel as [|fuel IH]; intros k Hc; [done|]. cbn [send_loop]. rewrite Hc by lia.
  apply IH. intros j Hj. apply Hc. lia.
Qed.

(** [SendFile] does not return once its context is done: the case of the
    select is empty and the loop goes round for ever; with a context done after
    [k] turns and a file that needs more, no number of turns is enough. *)
Theorem SendFile_never_returns fuel o meta call reply dial canceled k :
  call (mk_fta (oName o) (oSize o) meta) = Ok reply -> dial (rAddr reply) = None ->
  (k * FileTransferBufferSize <= length (rest (oFile o)))%nat ->
  (forall j, canceled j = (k <=? j)%nat) ->
  SendFile fuel (inl o) meta call dial None canceled (fun _ => None) = inl None.
Proof.
  intros Hcall Hd Hk Hc. unfold SendFile, with_connection. rewrite Hcall, Hd. f_equal.
  assert (H : forall m j fuel file sent, (j + m)%nat = k -> (m * FileTransferBufferSize <= length (rest file))%nat ->
    send_loop fuel canceled (fun _ => None) j file sent = None).
  { clear fuel Hk. induction m as [|m IH]; intros j fuel file sent Hj Hm.
    - apply send_loop_stuck. intros i Hi. rewrite Hc. apply Nat.leb_le. lia.
    - destruct fuel as [|fuel]; [done|]. cbn [send_loop]. rewrite Hc, (proj2 (Nat.leb_gt k j)) by lia.
      destruct (take FileTransferBufferSize (rest file)) as [|x chunk] eqn:E.
      + unfold FileTransferBufferSize in *. destruct (rest file); [cbn in Hm; lia|done].
      + apply IH; [lia|]. cbn [rest]. rewrite length_drop. unfold FileTransferBufferSize in *. lia. }
  by apply (H k 0%nat).
Qed.

(** [Stop] of a file transfer and of a stream service panics: nothing
    makes the channel it closes.  A stream service never asks the acceptor it
    was made with. *)
Theorem services_Stop_panics addr h dh sh acc :
  ft_Stop (NewFileTransfer addr h dh) = Panic /\ stream_Stop (NewStreamService addr sh acc) = Panic /\
  forall L (lru : Lru L StreamServiceArgs) token args s,
    Stream lru (NewStreamService addr sh acc) (inl token) args s =
      (issue lru token args s, Ok (mk_reply token addr)).
Proof. done. Qed.

(** ** Receiving a file *)

(** A file downloaded is what the handler sent: when the reads of the
    connection end with the end of the stream, [DownloadFile] has written
    exactly the bytes read, in order, and returns nil; a network error is
    returned, with what came before it written. *)
Theorem DownloadFile_saves chunks last er name meta call reply dial :
  call (mk_dfa name meta) = Ok reply -> dial (rAddr reply) = None ->
  xDownloadFile name meta call dial None (fun _ => false) (((fun c => (c, None)) <$> chunks) ++ [(last, Some er)]) (fun _ => None) =
    inl (Some (concat chunks ++ last, match er with EOF => None | _ => Some er end)).
Proof.
  intros Hcall Hd. unfold xDownloadFile, with_connection. rewrite Hcall, Hd. f_equal.
  assert (H : forall k saved, recv_loop (fun _ => false) k (((fun c => (c, None)) <$> chunks) ++ [(last, Some er)])
    (fun _ => None) saved = Some (saved ++ concat chunks ++ last, match er with EOF => None | _ => Some er end)).
  { induction chunks as [|c chunks IH]; intros k saved; cbn.
    - destruct last; by destruct er.
    - destruct c; rewrite IH; cbn; by rewrite ?app_nil_r, <- ?app_assoc. }
  by rewrite H.
Qed.

(** ** Witnesses *)
Definition zero_token : list byte := replicate 32 x00.
Definition sample_args : FileTransferArgs := mk_fta "a.txt" 3 ∅.
Definition sample_ft : FileTransfer := NewFileTransfer ":8001" true true.
Definition sample_start : ft_state (L := gmap string fileToken) (I := fileToken) := ft_start ∅.

Lemma tokens_one_time_witness :
  (with_token (string_of zero_token) (issue map_lru zero_token (tokenInfo sample_args) sample_start) <= 1)%nat.
Proof.
  destruct (tokens_one_time map_lru (fun _ => true) ∅
    (issue map_lru zero_token (tokenInfo sample_args) sample_start) eq_refl) as [_ H].
  - apply rtc_once. apply fs_issue.
  - apply H.
Defined.

Lemma accept_delay_bounded_witness :
  Forall (fun d => 5 * millisecond <= d <= second)
    (sleeps (accept_turn map_lru (fun _ => true) (AcceptErr true EOF) sample_start).1).
Proof.
  apply (accept_delay_bounded map_lru (fun _ => true) ∅ _ EOF eq_refl).
  apply rtc_once. apply (fs_accept map_lru (fun _ => true) (AcceptErr true EOF) sample_start _ (Ok tt) eq_refl).
Defined.

Definition sample_file : opened := mk_opened "a.txt" 3 (mk_reader [x01; x02; x03] EOF).

Lemma upload_end_to_end_witness :
  exists sent s2,
    SendFile 4 (inl sample_file) ∅ (fun args => (TransferFile map_lru sample_ft (inl zero_token) args sample_start).2)
      (fun _ => None) None (fun _ => false) (fun _ => None) = inl (Some (sent, Ok tt)) /\
    handled (s2 : ft_state (L := gmap string fileToken) (I := fileToken)) =
      [(string_of zero_token, tokenInfo sample_args, 1%nat, mk_reader [x01; x02; x03] EOF)].
Proof.
  destruct (upload_end_to_end map_lru map_lru_laws sample_ft zero_token "a.txt" 3 ∅ sample_start
    (issue map_lru zero_token (tokenInfo sample_args) sample_start) (mk_reply zero_token ":8001")
    (issue map_lru zero_token (tokenInfo sample_args) sample_start) [x01; x02; x03] 1%nat EOF)
    as (_ & _ & _ & sent & s2 & H1 & _ & H2 & _); [reflexivity|reflexivity|reflexivity|vm_compute; reflexivity|].
  exists sent, s2. split; [exact H1|exact H2].
Defined.

Lemma SendFile_never_returns_witness :
  SendFile 100 (inl sample_file) ∅ (fun _ => Ok (mk_reply zero_token ":8001")) (fun _ => None) None (fun _ => true)
    (fun _ => None) = inl None.
Proof.
  apply (SendFile_never_returns 100 sample_file ∅ (fun _ => Ok (mk_reply zero_token ":8001"))
    (mk_reply zero_token ":8001") (fun _ => None) (fun _ => true) 0).
  - reflexivity. - reflexivity. - cbn; lia. - intros j. reflexivity.
Defined.

Lemma DownloadFile_saves_witness :
  xDownloadFile "a.txt" ∅ (fun _ => Ok (mk_reply zero_token ":8001")) (fun _ => None) None (fun _ => false)
    [([x01], None); ([x02], Some EOF)] (fun _ => None) = inl (Some ([x01; x02], None)).
Proof.
  apply (DownloadFile_saves [[x01]] [x02] EOF "a.txt" ∅ (fun _ => Ok (mk_reply zero_token ":8001"))
    (mk_reply zero_token ":8001") (fun _ => None) eq_refl eq_refl).
Defined.
