(* ===== verification/JsonRpc.v ===== *)
(** server/server_jsonrpc2.go and server_jsonrpc2_struct.go: JSON-RPC 2.0 over
    HTTP.  encoding/json is an argument ([Unmarshal] of a request, [Marshal] of
    a response); the HTTP headers and the response writer are those of
    Gateway. *)
From S2P Require Import Prelude Go Share Header Message MessageFacts UrlQuery Plugins ServerPlugins.
From S2P Require Import Service Server ServerFacts Gateway.
Open Scope go_scope.

(** ** Data *)
Definition CodeParseJSONRPCError : Z := -32700.
Definition CodeMethodNotFound : Z := -32601.
Definition CodeInternalJSONRPCError : Z := -32603.

Record ID : Type := mk_ID { IDName : string; Number : Z }.

Record jsonrpcRequest : Type := mk_jsonrpcRequest { Method : string; Params : option (list byte); rID : option ID }.

Record JSONRPCError : Type := mk_JSONRPCError { Code : Z; jMessage : string }.

Record jsonrpcResponse : Type := mk_jsonrpcResponse {
  Result : option (list byte); jError : option JSONRPCError; resID : option ID
}.

Definition IsNotify (r : jsonrpcRequest) : bool := match rID r with None => true | Some _ => false end.

(** The method [String] of an ID, with [strconv.Quote]. *)
Definition ID_String (Quote : string -> string) (id : option ID) : string :=
  match id with
  | None => ""
  | Some id => if decide (IDName id = "") then "#" +:+ pretty (Number id) else Quote (IDName id)
  end.

(** encoding/json for a string and for an [int64]: [Unmarshal] writes through a
    pointer to a variable, whose old value it is given. *)
Section json.
Context (MarshalString : string -> list byte + error) (MarshalInt : Z -> list byte + error)
  (UnmarshalString : list byte -> string -> string * option error) (UnmarshalInt : list byte -> Z -> Z * option error).

Definition VersionTag_MarshalJSON : list byte + error := MarshalString "2.0".

Definition VersionTag_UnmarshalJSON (data : list byte) : option error :=
  match UnmarshalString data "" with
  | (_, Some e) => Some e
  | (version, None) => if decide (version <> "2.0") then Some (ErrorString ("invalid RPC version " +:+ version)) else None
  end.

Definition ID_MarshalJSON (id : ID) : list byte + error :=
  if decide (IDName id <> "") then MarshalString (IDName id) else MarshalInt (Number id).

Definition ID_UnmarshalJSON (data : list byte) : ID * option error :=
  match UnmarshalInt data 0 with
  | (n, None) => (mk_ID "" n, None)
  | (n, Some _) => let '(name, err) := UnmarshalString data "" in (mk_ID name n, err)
  end.

(** What encoding/json promises of the strings of [text], which is valid UTF-8,
    and of numbers: a variable of another type is left as it is. *)
Context (text : string -> Prop).
Hypothesis json_string : forall s x, text s -> exists d, MarshalString s = inl d /\ UnmarshalString d x = (s, None) /\
  forall n, exists e, UnmarshalInt d n = (n, Some e).
Hypothesis json_int : forall n x, - 2 ^ 63 <= n < 2 ^ 63 -> exists d, MarshalInt n = inl d /\ UnmarshalInt d x = (n, None).

(** An id comes back as it was sent, also the number of an id with a name, which
    is not sent; the version is accepted, and no other string. *)
Lemma ID_roundtrip id : text (IDName id) -> - 2 ^ 63 <= Number id < 2 ^ 63 ->
  exists d, ID_MarshalJSON id = inl d /\
    ID_UnmarshalJSON d = (if decide (IDName id = "") then id else mk_ID (IDName id) 0, None).
Proof.
  intros Ht Hn. unfold ID_MarshalJSON, ID_UnmarshalJSON. destruct (decide (IDName id = "")) as [E|E].
  - rewrite decide_False by (by intros ?). destruct (json_int (Number id) 0 Hn) as (d & -> & Hu). exists d. split; [done|].
    rewrite Hu. destruct id. cbn in E. by subst.
  - rewrite decide_True by done. destruct (json_string (IDName id) "" Ht) as (d & -> & Hs & Hi). exists d. split; [done|].
    destruct (Hi 0) as [e ->]. by rewrite Hs.
Qed.

Lemma VersionTag_only v : text v -> text "2.0" ->
  exists d, MarshalString v = inl d /\ (VersionTag_UnmarshalJSON d = None <-> v = "2.0").
Proof.
  intros Hv _. destruct (json_string v "" Hv) as (d & Hd & Hs & _). exists d. split; [done|].
  unfold VersionTag_UnmarshalJSON. rewrite Hs. destruct (decide (v <> "2.0")) as [Hne|Heq%dec_stable]; done.
Qed.
End json.

(** The method [JSONRPCError] of an error. *)
Definition JSONRPCError_text (err : option JSONRPCError) : string := match err with None => "" | Some e => jMessage e end.

(** A write through a pointer to a response: a nil one panics. *)
Definition deref (res : option jsonrpcResponse) : result jsonrpcResponse :=
  match res with Some r => Ok r | None => Panic end.
Definition set_ID (id : option ID) (res : jsonrpcResponse) : jsonrpcResponse :=
  mk_jsonrpcResponse (Result res) (jError res) id.
Definition set_Error (code : Z) (message : string) (res : jsonrpcResponse) : jsonrpcResponse :=
  mk_jsonrpcResponse (Result res) (Some (mk_JSONRPCError code message)) (resID res).
Definition set_Result (p : list byte) (res : jsonrpcResponse) : jsonrpcResponse :=
  mk_jsonrpcResponse (Some p) (jError res) (resID res).

(** [strings.LastIndex(s, ".")] with what is before and after it. *)
Fixpoint last_dot (s : list byte) : option (list byte * list byte) :=
  match s with
  | [] => None
  | b :: s =>
      match last_dot s with
      | Some (l, r) => Some (b :: l, r)
      | None => if decide (b = "."%byte) then Some ([], s) else None
      end
  end.

Section jsonrpc.
Context {W V : Type}.
Context (codecs : byte -> option (ServerCodec V)) (zero : gtype -> V)
        (cs : compressors) (get : Z -> list byte)
        (order : gmap string string -> list (string * string)).
Context (Unmarshal : list byte -> jsonrpcRequest + error) (Marshal : jsonrpcResponse -> list byte + error).

(** The message a request becomes, from the pooled message [m]; an error for a
    method without a service path, and a panic for a request without params. *)
Definition jsonrpc_message (m : message) (r : jsonrpcRequest) (header : httpHeader) : result (message + string) :=
  let md := default ∅ (Metadata m) in
  let h := if IsNotify r then SetOneway true (hdr m) else hdr m in
  let h := SetSerializeType JSON (SetMessageType Request h) in
  match last_dot (bytes_of (Method r)) with
  | None | Some ([], _) => Ok (inr "must contains servicePath and method")
  | Some (sp, sm) =>
      match Params r with
      | None => Panic
      | Some params =>
          let meta := hGet gXMeta header in
          let md := if decide (meta = "") then md else first_values (ParseQuery (bytes_of meta)).1 ∪ md in
          let auth := hGet "Authorization" header in
          let md := if decide (auth = "") then md else <[AuthKey := auth]> md in
          Ok (inl (mk_message h (string_of sp) (string_of sm) (Some md) params (data m)))
      end
  end.

(** [handleJSONRPCRequest] from the value [res] its named result has at the
    start, which is nil; [m], [c] and [c'] are the messages from the pool. *)
Definition handleJSONRPC_from (res : option jsonrpcResponse) (s : config W V) (m c c' : message) (r : jsonrpcRequest)
    (header : httpHeader) : prog (hstate (W := W)) (option jsonrpcResponse) :=
  _ ← on_world (DoPreReadRequest (Plugins s));
  res ← lift (deref res);
  let res := set_ID (rID r) res in
  msg ← lift (jsonrpc_message m r header);
  match msg with
  | inr e => mret (Some (set_Error CodeMethodNotFound e res))
  | inl req =>
  '(req, err) ← on_world (DoPostReadRequest None (Plugins s) req);
  match err with
  | Some e => mret (Some (set_Error CodeInternalJSONRPCError (Error e) res))
  | None =>
  '(req, err) ← on_world (auth s req);
  match err with
  | Some e =>
      '((req, _), _) ← on_world (DoPreWriteResponse (Some e) (Plugins s) (req, None));
      _ ← on_world (DoPostWriteResponse (Some e) (Plugins s) (req, Some (Clone req c')));
      mret (Some (set_Error CodeInternalJSONRPCError (Error e) res))
  | None =>
  '(resp, err) ← handleRequest codecs zero s c req;
  if IsNotify r then mret None
  else
    '((req, _), _) ← on_world (DoPreWriteResponse err (Plugins s) (req, None));
    match err with
    | Some e =>
        _ ← on_world (DoPostWriteResponse (Some e) (Plugins s) (req, Some (Clone req c')));
        mret (Some (set_Error CodeInternalJSONRPCError (Error e) res))
    | None =>
        _ ← on_world (DoPostWriteResponse None (Plugins s) (req, Some (Clone req c')));
        mret (Some (set_Result (Payload resp) res))
    end
  end
  end
  end.

Definition handleJSONRPCRequest : config W V -> message -> message -> message -> jsonrpcRequest -> httpHeader ->
    prog (hstate (W := W)) (option jsonrpcResponse) := handleJSONRPC_from None.

(** [writeResponse]: the header it sets is named Context-Type. *)
Definition jsonrpc_writeResponse (res : jsonrpcResponse) (w : httpResponse) : httpResponse :=
  match Marshal res with
  | inr e => httpError (Error e) 500 w
  | inl data => rWrite data (rSet "Context-Type" "application/json" w)
  end.

(** A goroutine: its panic is not recovered and ends the process. *)
Definition go {A} (p : prog (hstate (W := W)) A) : prog (hstate (W := W)) unit := fun s =>
  match p s with
  | (s, Panic) | (s, Fatal) => (s, Fatal)
  | (s, _) => (s, Ok tt)
  end.

(** [jsonrpcHandler]: [body] is what reading the body gives.  A panic of the
    handler is recovered by net/http, which drops the connection.  The
    goroutine of a notification runs at once here. *)
Definition jsonrpcHandler (s : config W V) (m c c' : message) (header : httpHeader) (body : list byte + error) :
    prog (hstate (W := W)) httpResponse :=
  match body with
  | inr e => mret (httpError (Error e) 500 empty_response)
  | inl data =>
      match Unmarshal data with
      | inr e =>
          mret (jsonrpc_writeResponse
            (set_Error CodeParseJSONRPCError (Error e) (mk_jsonrpcResponse None None None)) empty_response)
      | inl req =>
          match rID req with
          | Some _ =>
              res ← handleJSONRPCRequest s m c c' req header;
              mret (match res with Some res => jsonrpc_writeResponse res empty_response | None => empty_response end)
          | None => go (handleJSONRPCRequest s m c c' req header);; mret empty_response
          end
      end
  end.

(** ** Properties *)

(** What the rest of the handler would do with an allocated result: the answer
    has the request's id, and one without error has the payload that the same
    message gets over a connection. *)
Lemma handleJSONRPC_allocated s m c c' r header h h' res0 res :
  handleJSONRPC_from (Some res0) s m c c' r header h = (h', Ok (Some res)) ->
  resID res = rID r /\
  (jError res = jError res0 /\
   (exists req resp h1 h2, handleRequest codecs zero s c req h1 = (h2, Ok (resp, None)) /\ Result res = Some (Payload resp)) \/
   exists code text, jError res = Some (mk_JSONRPCError code text)).
Proof.
  unfold handleJSONRPC_from, mbind, prog_bind, mret, prog_ret, lift, deref, mbind.
  destruct (on_world (DoPreReadRequest (Plugins s)) h) as [h1 [pre|e| | |]]; try done.
  destruct (jsonrpc_message m r header) as [[req|txt]|e| | |]; try done; [|intros [= _ <-]; split; [done|right; by eexists _, _]].
  destruct (on_world (DoPostReadRequest None (Plugins s) req) h1) as [h2 [[req2 [e|]]|e| | |]]; try done;
    [intros [= _ <-]; split; [done|right; by eexists _, _]|].
  destruct (on_world (auth s req2) h2) as [h3 [[req3 [e|]]|e| | |]]; try done.
  - destruct (on_world (DoPreWriteResponse (Some e) (Plugins s) (req3, None)) h3) as [h4 [[[req4 r4] e4]|e4| | |]]; try done.
    destruct (on_world (DoPostWriteResponse (Some e) (Plugins s) (req4, Some (Clone req4 c'))) h4) as [h5 [x5|e5| | |]]; try done.
    intros [= _ <-]. split; [done|right; by eexists _, _].
  - destruct (handleRequest codecs zero s c req3 h3) as [h4 [[resp err]|e| | |]] eqn:Eh; try done.
    destruct (IsNotify r); [done|].
    destruct (on_world (DoPreWriteResponse err (Plugins s) (req3, None)) h4) as [h5 [[[req4 r4] e4]|e4| | |]]; try done.
    destruct err as [e|].
    + destruct (on_world (DoPostWriteResponse (Some e) (Plugins s) (req4, Some (Clone req4 c'))) h5) as [h6 [x|e6| | |]]; try done.
      intros [= _ <-]. split; [done|right; by eexists _, _].
    + destruct (on_world (DoPostWriteResponse None (Plugins s) (req4, Some (Clone req4 c'))) h5) as [h6 [x|e6| | |]]; try done.
      intros [= _ <-]. split; [done|]. left. split; [done|]. by eexists req3, resp, h3, h4.
Qed.

(** JSON-RPC never answers a call: whatever the server and the request, if
    the body parses, the handler runs the hooks that precede reading and then
    panics, because it writes the id through its nil result; the client of a
    request with an id gets no answer, and a notification, which is handled in
    a goroutine of its own, ends the whole process.  Only a body that does not
    parse gets a response, with the code of a parse error. *)
Theorem jsonrpc_panics s m c c' header data w rm w' err :
  DoPreReadRequest (Plugins s) w = (w', Ok err) ->
  (forall req, Unmarshal data = inl req ->
     jsonrpcHandler s m c c' header (inl data) (w, rm) =
       ((w', rm), if IsNotify req then Fatal else Panic)) /\
  (forall e, Unmarshal data = inr e ->
     jsonrpcHandler s m c c' header (inl data) (w, rm) =
       ((w, rm), Ok (jsonrpc_writeResponse
         (mk_jsonrpcResponse None (Some (mk_JSONRPCError CodeParseJSONRPCError (Error e))) None) empty_response))).
Proof.
  intros Hp. split.
  - intros req Hu. unfold jsonrpcHandler, handleJSONRPCRequest, handleJSONRPC_from, IsNotify. rewrite Hu.
    destruct (rID req); unfold go, mbind, prog_bind, on_world, lift; cbn; by rewrite Hp.
  - intros e Hu. unfold jsonrpcHandler. by rewrite Hu.
Qed.
End jsonrpc.

(** ** Witness: a notification to a server without services *)
Definition empty_server : config unit unit := mk_config (mk_registry ∅ ∅) ∅ [] None.

Lemma jsonrpc_panics_witness :
  jsonrpcHandler (fun _ => None) (fun _ => tt) (fun _ => inl (mk_jsonrpcRequest "Arith.Mul" None None))
    (fun _ => inl []) empty_server NewMessage NewMessage NewMessage ∅ (inl []) (tt, ∅) = ((tt, ∅), Fatal).
Proof.
  destruct (jsonrpc_panics (fun _ => None) (fun _ => tt) (fun _ => inl (mk_jsonrpcRequest "Arith.Mul" None None))
    (fun _ => inl []) empty_server NewMessage NewMessage NewMessage ∅ [] tt ∅ tt None eq_refl) as [H _].
  exact (H (mk_jsonrpcRequest "Arith.Mul" None None) eq_refl).
Defined.
