(* ===== verification/Listener.v ===== *)
(** server/server_serve.go (Serve, ServeListener, ServeHTTP, ServeWS), server.go
    (New, Close, Shutdown), server_base.go, listener.go, listener_unix.go,
    memconn.go, options.go and the matchers of gateway.go: how a server listens,
    accepts connections and closes them.

    ServerConn is the life of one connection; here a server has many, each with
    the goroutine of its [serveConn], and only their opening and closing is
    seen.  A number names a connection through all its wrappers. *)
From S2P Require Import Prelude Go Share Header Message Plugins ServerPlugins Service Server Backoff ServerConn.
Open Scope go_scope.

(** ** Making a listener *)

(** What is asked of the net, tls, reuseport and memconn packages. *)
Inductive listen_call : Type :=
| NetListen (network address : string)
| TLSListen (network address : string)
| ReusablePort (network address : string)
| ListenUnix (address : string)
| MemListen (address : string)
| KcpListen (address : string)
| QuicListen (address : string) (protocols : list string).

(** A [MakeListener]: given if the server has a TLS configuration, and the
    address; it can fail, or panic, before it calls. *)
Definition MakeListener : Type := bool -> string -> result listen_call.

Definition tcpMakeListener (network : string) : MakeListener := fun tls address =>
  Ok (if tls then TLSListen network address else NetListen network address).

(** [address[:strings.LastIndex(address, ":")]]. *)
Fixpoint before_last_colon (s : list byte) : option (list byte) :=
  match s with
  | [] => None
  | b :: s =>
      match before_last_colon s with
      | Some l => Some (b :: l)
      | None => if decide (b = ":"%byte) then Some [] else None
      end
  end.

(** [strings.Trim(s, " ")] and the two trimmings of brackets. *)
Fixpoint trim_left (s : list byte) : list byte :=
  match s with b :: s' => if decide (b = " "%byte) then trim_left s' else s | [] => [] end.
Definition trim_spaces (s : list byte) : list byte := rev (trim_left (rev (trim_left s))).
Definition trim_brackets (s : list byte) : list byte :=
  let s := match s with b :: s' => if decide (b = "["%byte) then s' else s | [] => [] end in
  match last s with Some b => if decide (b = "]"%byte) then take (length s - 1) s else s | None => s end.

(** [validIP6], where [is_ip6] says that [net.ParseIP] gives an address with no
    IPv4 form; without a colon the slice panics. *)
Definition validIP6 (is_ip6 : list byte -> bool) (ipAddress : string) : result bool :=
  match before_last_colon (trim_spaces (bytes_of ipAddress)) with
  | None => Panic
  | Some ip => Ok (is_ip6 (trim_brackets ip))
  end.

Definition reuseportMakeListener (is_ip6 : list byte -> bool) : MakeListener := fun _ address =>
  ip6 ← validIP6 is_ip6 address; Ok (ReusablePort (if ip6 : bool then "tcp6" else "tcp4") address).

Definition unixMakeListener : MakeListener := fun _ address => Ok (ListenUnix address).
Definition memuConnMakeListener : MakeListener := fun _ address => Ok (MemListen address).

(** [makeListeners] after the [init] functions of a build without tags. *)
Definition makeListeners (is_ip6 : list byte -> bool) : gmap string MakeListener :=
  list_to_map [("tcp", tcpMakeListener "tcp"); ("tcp4", tcpMakeListener "tcp4"); ("tcp6", tcpMakeListener "tcp6");
    ("http", tcpMakeListener "tcp"); ("ws", tcpMakeListener "tcp"); ("wss", tcpMakeListener "tcp");
    ("reuseport", reuseportMakeListener is_ip6); ("unix", unixMakeListener); ("memu", memuConnMakeListener)].

Definition RegisterMakeListener (network : string) (ml : MakeListener) (t : gmap string MakeListener) :
    gmap string MakeListener := <[network := ml]> t.

Definition makeListener (t : gmap string MakeListener) (tls : bool) (network address : string) : result listen_call :=
  match t !! network with
  | None => Err (Foreign ("can not make listener for " +:+ network))
  | Some ml =>
      if decide (network = "wss" /\ tls = false) then Err (Foreign "must set tlsConfig for wss") else ml tls address
  end.

(** ** Serve *)

(** What [Serve] runs on the listener: an HTTP server with [ServeHTTP] or with
    [ServeWS] on the RPC path, or [ServeListener] behind the matchers. *)
Inductive matcher : Type := RPCPrefix | PluginMatch (p : nat) | JSONRPC2Header | HTTP1Fast.

Inductive served : Type :=
| ServedHTTP (path : string)
| ServedWS (path : string)
| ServedListener (matchers : option (list matcher)).

Definition DefaultRPCPath : string := "/_irpc_".

(** [startGateway]: the matchers in the order they are tried; none for other
    networks, whose listener is used directly.  [plugins] are those with
    [MuxMatch]. *)
Definition startGateway (plugins : list nat) (DisableJSONRPC DisableHTTPGateway : bool) (network : string) :
    option (list matcher) :=
  if bool_decide (network ∈ ["tcp"; "tcp4"; "tcp6"; "reuseport"]) then
    Some (RPCPrefix :: (PluginMatch <$> plugins) ++ (if DisableJSONRPC then [] else [JSONRPC2Header]) ++
      (if DisableHTTPGateway then [] else [HTTP1Fast]))
  else None.

Definition Serve (t : gmap string MakeListener) (tls : bool) (listen : listen_call -> option error)
    (plugins : list nat) (DisableJSONRPC DisableHTTPGateway : bool) (network address : string) : result served :=
  call ← makeListener t tls network address;
  match listen call with
  | Some e => Err e
  | None =>
      Ok (if decide (network = "http") then ServedHTTP DefaultRPCPath
          else if bool_decide (network ∈ ["ws"; "wss"]) then ServedWS DefaultRPCPath
          else ServedListener (startGateway plugins DisableJSONRPC DisableHTTPGateway network))
  end.

(** [irpcPrefixByteMatcher]: the first byte of the connection is the magic
    number. *)
Definition irpcPrefixByteMatcher (input : list byte) : bool :=
  match input with b :: _ => bool_decide (b = magicNumber) | [] => false end.

(** cmux gives a connection to the first matcher that takes it; [other] says
    what the matchers of plugins and of HTTP do. *)
Definition route (other : matcher -> list byte -> bool) (ms : list matcher) (input : list byte) : option matcher :=
  list_find (fun m => (match m with RPCPrefix => irpcPrefixByteMatcher input | _ => other m input end) = true) ms
    ≫= (fun x => Some x.2).

(** ** The server

    [ln] is nil until a listener is served, and then says if it is closed;
    [accepting] is the connection [Accept] gave to [ServeListener] and that it
    has not registered yet; [serving] are the goroutines of [serveConn];
    [returned] is what [ServeListener] returned.  [opened], [closed] and
    [sleeps] are observers' logs: the connections accepted, the calls of
    [Close] on them, the delays slept. *)
Section listener.
Context {W V : Type} (s : config W V).
(** The connection's [Close], and what [Handshake] returns for a connection
    that is a [*tls.Conn]. *)
Context (close : nat -> prog W unit) (handshake : nat -> option (option error)).

Record lserver : Type := mk_lserver {
  lworld : W;
  ln : option bool;
  accepting : option nat;
  tempDelay : Z;
  sleeps : list Z;
  activeConn : gset nat;
  serving : list nat;
  inShutdown : bool;
  doneChan : bool;
  returned : option error;
  opened : list nat;
  closed : list nat
}.

(** [New]. *)
Definition New (w : W) : lserver := mk_lserver w None None 0 [] ∅ [] false false None [] [].

Definition set_lworld (w : W) (x : lserver) : lserver :=
  mk_lserver w (ln x) (accepting x) (tempDelay x) (sleeps x) (activeConn x) (serving x) (inShutdown x) (doneChan x)
    (returned x) (opened x) (closed x).
Definition set_ln (l : option bool) (x : lserver) : lserver :=
  mk_lserver (lworld x) l (accepting x) (tempDelay x) (sleeps x) (activeConn x) (serving x) (inShutdown x) (doneChan x)
    (returned x) (opened x) (closed x).
Definition set_accepting (c : option nat) (x : lserver) : lserver :=
  mk_lserver (lworld x) (ln x) c (tempDelay x) (sleeps x) (activeConn x) (serving x) (inShutdown x) (doneChan x)
    (returned x) (opened x) (closed x).
Definition set_delay (d : Z) (ds : list Z) (x : lserver) : lserver :=
  mk_lserver (lworld x) (ln x) (accepting x) d ds (activeConn x) (serving x) (inShutdown x) (doneChan x)
    (returned x) (opened x) (closed x).
Definition set_active (a : gset nat) (x : lserver) : lserver :=
  mk_lserver (lworld x) (ln x) (accepting x) (tempDelay x) (sleeps x) a (serving x) (inShutdown x) (doneChan x)
    (returned x) (opened x) (closed x).
Definition set_serving (l : list nat) (x : lserver) : lserver :=
  mk_lserver (lworld x) (ln x) (accepting x) (tempDelay x) (sleeps x) (activeConn x) l (inShutdown x) (doneChan x)
    (returned x) (opened x) (closed x).
Definition set_flags (ish don : bool) (x : lserver) : lserver :=
  mk_lserver (lworld x) (ln x) (accepting x) (tempDelay x) (sleeps x) (activeConn x) (serving x) ish don
    (returned x) (opened x) (closed x).
Definition set_returned (e : option error) (x : lserver) : lserver :=
  mk_lserver (lworld x) (ln x) (accepting x) (tempDelay x) (sleeps x) (activeConn x) (serving x) (inShutdown x) (doneChan x)
    e (opened x) (closed x).
Definition log_conns (o c : list nat) (x : lserver) : lserver :=
  mk_lserver (lworld x) (ln x) (accepting x) (tempDelay x) (sleeps x) (activeConn x) (serving x) (inShutdown x) (doneChan x)
    (returned x) (opened x ++ o) (closed x ++ c).

Definition on_lworld {A} (p : prog W A) : prog lserver A := fun x =>
  let '(w, r) := p (lworld x) in (set_lworld w x, r).

Definition setActiveConn (c : nat) (x : lserver) : lserver := set_active (activeConn x ∪ {[c]}) x.
Definition deleteActiveConn (c : nat) (x : lserver) : lserver := set_active (activeConn x ∖ {[c]}) x.
Definition go_serveConn (c : nat) (x : lserver) : lserver := set_serving (serving x ++ [c]) x.

Definition close_conn (c : nat) : prog lserver unit := on_lworld (close c);; modify (log_conns [] [c]).

(** ** ServeListener *)

(** [ln.Accept()]: an error, whether it is temporary and whether it is
    cmux's [ErrListenerClosed]; or a connection. *)
Inductive accept_event : Type :=
| AcceptErr (temporary cmux_closed : bool) (e : error)
| Accepted (c : nat).

(** The start of [ServeListener]. *)
Definition serve_start (x : lserver) : lserver := set_ln (Some false) x.

(** The turn of the loop up to the hooks: what it returns, if it does; it blocks
    on [doneChan] while [Shutdown] waits. *)
Definition accept_turn (ev : accept_event) : prog lserver (option error) :=
  match ev with
  | AcceptErr temporary cmux_closed e =>
      x ← get_st;
      if inShutdown x then (if doneChan x then mret (Some ErrServerClosed) else lift Blocked)
      else if (temporary : bool) then
        let d := accept_delay (tempDelay x) in put_st (set_delay d (sleeps x ++ [d]) x);; mret None
      else if (cmux_closed : bool) then mret (Some ErrServerClosed)
      else mret (Some e)
  | Accepted c => modify (fun x => log_conns [c] [] (set_accepting (Some c) (set_delay 0 (sleeps x) x)));; mret None
  end.

(** The rest of the turn: the hooks of the plugins, the handshake of TLS, the
    registration and the start of the connection's goroutine. *)
Definition register_conn (c : nat) : prog lserver (option error) :=
  '(c, ok) ← on_lworld (DoPostConnAccept close (Plugins s) c);
  modify (set_accepting None);;
  if negb ok then close_conn c;; mret None
  else
    match handshake c with
    | Some (Some e) => mret (Some e)
    | _ => modify (setActiveConn c);; modify (go_serveConn c);; mret None
    end.

(** ** The other entries *)
Definition newline : string := string_of [x0a].

(** [ServeHTTP]: the bytes of the answer, if [serveConn] does not run; for
    [CONNECT], [hijack] is the connection or an error. *)
Definition ServeHTTP (Method : string) (hijack : nat + error) : prog lserver (option (Z * string)) :=
  if decide (Method <> "CONNECT") then mret (Some (405, "405 must CONNECT" +:+ newline))
  else
    match hijack with
    | inr e => mret None
    | inl c => modify (fun x => log_conns [c] [] x);; modify (setActiveConn c);; modify (go_serveConn c);; mret None
    end.

(** What [ServeHTTP] writes on a hijacked connection. *)
Definition connected : string := "200 Connected to irpc".
Definition hijack_answer : string := "HTTP/1.0 " +:+ connected +:+ newline +:+ newline.

Definition ServeWS (c : nat) : prog lserver unit :=
  modify (fun x => log_conns [c] [] x);; modify (setActiveConn c);; modify (go_serveConn c).

(** ** The end of connections *)

(** The end of the [i]-th goroutine [serveConn]: [closeConn]. *)
Definition closeConn (c : nat) : prog lserver unit :=
  modify (deleteActiveConn c);; close_conn c;; _ ← on_lworld (DoPostConnClose c (Plugins s)); mret tt.

(** The loop over [activeConn], which ranges over them in some order [cs]. *)
Fixpoint close_all (cs : list nat) : prog lserver unit :=
  match cs with
  | [] => mret tt
  | c :: cs =>
      close_conn c;; modify (deleteActiveConn c);; _ ← on_lworld (DoPostConnClose c (Plugins s)); close_all cs
  end.

Definition close_ln (x : lserver) : lserver := set_ln (match ln x with None => None | Some _ => Some true end) x.

(** [Close]. *)
Definition Close (cs : list nat) : prog lserver unit :=
  modify close_ln;; close_all cs;; modify (fun x => set_flags (inShutdown x) true x).

(** [Shutdown] up to its wait, which panics without a listener, and after it. *)
Definition Shutdown_begin : prog lserver unit :=
  modify (fun x => set_flags true (doneChan x) x);;
  on_lworld (unregister_all s (map_to_list (serviceMap (services s))).*1);;
  x ← get_st;
  match ln x with None => lift Panic | Some _ => modify close_ln end.

Definition Shutdown_end (cs : list nat) : prog lserver unit :=
  close_all cs;; modify (fun x => set_flags (inShutdown x) true x).

(** ** Steps *)

(** The goroutines of a server: [ServeListener], the HTTP server, those of the
    connections, and any calls of [Close] and [Shutdown].

    A step of [ServeListener] that does not wait and does not panic. *)
Definition listener_moves (p : prog lserver (option error)) (x x' : lserver) : Prop :=
  exists y r, p x = (y, Ok r) /\ x' = match r with None => y | Some e => set_returned (Some e) y end.

Inductive lstep : lserver -> lserver -> Prop :=
| l_accept_err t z e x x' : returned x = None -> accepting x = None -> is_Some (ln x) ->
    listener_moves (accept_turn (AcceptErr t z e)) x x' -> lstep x x'
| l_accept c x x' : returned x = None -> accepting x = None -> ln x = Some false -> c ∉ opened x ->
    listener_moves (accept_turn (Accepted c)) x x' -> lstep x x'
| l_register c x x' : returned x = None -> accepting x = Some c -> listener_moves (register_conn c) x x' -> lstep x x'
| l_http m h x x' r : (forall c, h = inl c -> c ∉ opened x) -> ServeHTTP m h x = (x', Ok r) -> lstep x x'
| l_ws c x x' : c ∉ opened x -> ServeWS c x = (x', Ok tt) -> lstep x x'
| l_end i c x x' : serving x !! i = Some c -> (inShutdown x = true -> doneChan x = true) ->
    closeConn c (set_serving (delete i (serving x)) x) = (x', Ok tt) -> lstep x x'
| l_close cs x x' : cs ≡ₚ elements (activeConn x) -> Close cs x = (x', Ok tt) -> lstep x x'
| l_shutdown x x' : inShutdown x = false -> Shutdown_begin x = (x', Ok tt) -> lstep x x'
| l_shutdown_end cs x x' : inShutdown x = true -> cs ≡ₚ elements (activeConn x) -> Shutdown_end cs x = (x', Ok tt) -> lstep x x'.

Definition lreachable (w : W) : lserver -> Prop := rtc lstep (serve_start (New w)).

(** ** Invariant *)

(** Plugins may wrap a connection but do not put another in its place. *)
Context (keeps : forall c w w' c' ok, DoPostConnAccept close (Plugins s) c w = (w', Ok (c', ok)) -> c' = c).

(** [c] failed its handshake, which ended [ServeListener]. *)
Definition failed_handshake (x : lserver) (c : nat) : Prop :=
  exists e, handshake c = Some (Some e) /\ returned x = Some e.

Definition delays_ok (x : lserver) : Prop :=
  (tempDelay x = 0 \/ 5 * millisecond <= tempDelay x <= second) /\
  Forall (fun d => 5 * millisecond <= d <= second) (sleeps x).

Record linv (x : lserver) : Prop := {
  li_opened : NoDup (opened x);
  li_accepting c : accepting x = Some c -> c ∈ opened x /\ c ∉ serving x /\ c ∉ closed x;
  li_serving : NoDup (serving x) /\ forall c, c ∈ serving x -> c ∈ opened x;
  li_active c : c ∈ activeConn x -> c ∈ serving x /\ c ∉ closed x;
  li_inactive c : c ∈ serving x -> c ∉ activeConn x -> c ∈ closed x;
  li_closed c : c ∈ closed x -> c ∈ opened x;
  li_all c : c ∈ opened x -> accepting x = Some c \/ c ∈ serving x \/ c ∈ closed x \/ failed_handshake x c;
  li_delays : delays_ok x
}.

Lemma on_lworld_Ok {A} (p : prog W A) x x' a :
  on_lworld p x = (x', Ok a) -> exists w, x' = set_lworld w x /\ p (lworld x) = (w, Ok a).
Proof. unfold on_lworld. destruct (p (lworld x)) as [w r]. intros [= <- ->]. by exists w. Qed.

Lemma close_conn_Ok c x x' : close_conn c x = (x', Ok tt) -> exists w, x' = set_lworld w (log_conns [] [c] x).
Proof.
  unfold close_conn, mbind, prog_bind. destruct (on_lworld (close c) x) as [y [[]| | | |]] eqn:E; try done.
  apply on_lworld_Ok in E as (w & -> & _). intros [= <-]. by exists w.
Qed.

Lemma linv_world w x : linv x -> linv (set_lworld w x).
Proof. by intros []. Qed.

(** [Close] on a registered connection, which takes it off [activeConn]. *)
Lemma linv_closed c x : c ∈ activeConn x -> linv x -> linv (log_conns [] [c] (deleteActiveConn c x)).
Proof.
  intros Hc [H1 H2 [H3 H3'] H4 H5 H6 H7 H8]. destruct (H4 c Hc) as [Hs Hn].
  split; cbn; rewrite ?app_nil_r; try done.
  - intros c' Hc'. destruct (H2 c' Hc') as (? & ? & ?). split_and!; [done|done|]. set_solver.
  - intros c' Ha. destruct (H4 c'); set_solver.
  - intros c' Hc' Hn'. destruct (decide (c' = c)); [set_solver|]. apply elem_of_app. left. apply H5; [done|]. set_solver.
  - intros c'. specialize (H6 c'). specialize (H3' c). set_solver.
  - intros c' Hc'. destruct (H7 c' Hc') as [?|[?|[?|?]]]; [by left|by right; left| |by do 3 right].
    do 2 right. left. apply elem_of_app. by left.
Qed.

(** The end of a connection's goroutine. *)
Lemma linv_ended i c x : serving x !! i = Some c -> linv x ->
  linv (log_conns [] [c] (deleteActiveConn c (set_serving (delete i (serving x)) x))).
Proof.
  intros Hi [H1 H2 [H3 H3'] H4 H5 H6 H7 H8].
  assert (Hc : c ∈ serving x) by by eapply list_elem_of_lookup_2.
  pose proof (delete_Permutation _ _ _ Hi) as Hp.
  assert (Hin : forall c', c' ∈ serving x <-> c' = c \/ c' ∈ delete i (serving x)).
  { intros c'. rewrite Hp at 1. apply elem_of_cons. }
  rewrite Hp in H3. apply NoDup_cons in H3 as [Hni H3].
  split; cbn; rewrite ?app_nil_r; try done.
  - intros c' Hc'. destruct (H2 c' Hc') as (? & Hns & ?). rewrite Hin in Hns. split_and!; [done|tauto|].
    apply not_elem_of_app. split; [done|]. intros ->%list_elem_of_singleton. tauto.
  - split; [done|]. intros c' ?. apply H3', Hin. by right.
  - intros c' [Ha Hne]%elem_of_difference. destruct (H4 c' Ha) as [Hs' Hn']. apply Hin in Hs' as [->|?]; [set_solver|].
    split; [done|]. set_solver.
  - intros c' Hc' Hn'. apply elem_of_app. left. apply H5; [apply Hin; by right|]. intros Ha. apply Hn'. set_solver.
  - intros c' [?|Hx%list_elem_of_singleton]%elem_of_app; [by apply H6|subst; by apply H3'].
  - intros c' Hc'. destruct (H7 c' Hc') as [?|[Hs'|[?|?]]]; [by left| | |by do 3 right].
    + apply Hin in Hs' as [->|?]; [do 2 right; left; set_solver|by right; left].
    + do 2 right. left. apply elem_of_app. by left.
Qed.

(** The registration of a new connection [c] in [y], which is [x] but for the
    way [c] came in. *)
Lemma linv_registered c x y :
  linv x -> NoDup (opened y) -> c ∈ opened y -> c ∉ serving x -> c ∉ closed x -> accepting y <> Some c ->
  (forall c', c' <> c -> (c' ∈ opened y <-> c' ∈ opened x) /\ (accepting y = Some c' <-> accepting x = Some c')) ->
  serving y = serving x -> closed y = closed x -> activeConn y = activeConn x -> returned y = returned x ->
  delays_ok y -> linv (go_serveConn c (setActiveConn c y)).
Proof.
  intros [H1 H2 [H3 H3'] H4 H5 H6 H7 H8] Ho Hc Hs Hcl Ha Hsame Es Ec Ea Er Hd.
  assert (Hne : forall c', c' ∈ opened x -> c' ∈ opened y).
  { intros c' ?. destruct (decide (c' = c)) as [->|]; [done|]. by apply Hsame. }
  split; cbn; rewrite ?Es, ?Ec, ?Ea; try done.
  - intros c' Hc'. assert (c' <> c) as Hcc by congruence. apply Hsame in Hc'; [|done].
    destruct (H2 c' Hc') as (? & ? & ?). split_and!; [by apply Hne| |done]. set_solver.
  - split; [|intros c' [?|Hx%list_elem_of_singleton]%elem_of_app; [by apply Hne, H3'|by subst]].
    apply NoDup_app. split_and!; [done|set_solver|apply NoDup_singleton].
  - intros c' [Hac| ->%elem_of_singleton]%elem_of_union; [|set_solver]. destruct (H4 c' Hac). set_solver.
  - intros c' [?|Hx%list_elem_of_singleton]%elem_of_app Hn; [apply H5; [done|set_solver]|subst; set_solver].
  - intros c' ?. by apply Hne, H6.
  - intros c' Hc'. destruct (decide (c' = c)) as [->|Hcc]; [right; left; set_solver|].
    destruct (Hsame c' Hcc) as [E1 E2]. apply E1 in Hc'. unfold failed_handshake. cbn. rewrite Er.
    destruct (H7 c' Hc') as [?|[?|[?|?]]]; [by left; apply E2|right; left; set_solver|by do 2 right; left|by do 3 right].
Qed.

Lemma close_all_linv cs x x' : NoDup cs -> (forall c, c ∈ cs -> c ∈ activeConn x) -> linv x ->
  close_all cs x = (x', Ok tt) ->
  linv x' /\ opened x' = opened x /\ returned x' = returned x /\ serving x' = serving x.
Proof.
  intros Hnd. revert x. induction Hnd as [|c cs Hc Hnd IH]; intros x Hcs Hi E; [by injection E as <-|].
  cbn [close_all] in E. unfold mbind at 1, prog_bind at 1 in E.
  destruct (close_conn c x) as [y [[]| | | |]] eqn:E1; try done. apply close_conn_Ok in E1 as (w & ->).
  unfold mbind at 1, prog_bind at 1, modify in E.
  unfold mbind, prog_bind in E. destruct (on_lworld (DoPostConnClose c (Plugins s)) _) as [y [b| | | |]] eqn:E2; try done.
  apply on_lworld_Ok in E2 as (w' & -> & _).
  apply IH in E as (H1 & H2 & H3 & H4).
  - split_and!; [done|rewrite H2; cbn; by rewrite app_nil_r|by rewrite H3|by rewrite H4].
  - intros c' Hc'. cbn. apply elem_of_difference. split; [apply Hcs; by right|]. intros ->%elem_of_singleton. done.
  - apply linv_world. apply (linv_world w (log_conns [] [c] (deleteActiveConn c x))), linv_closed; [apply Hcs; by left|done].
Qed.

Lemma linv_flags a b x : linv x -> linv (set_flags a b x).
Proof. by intros []. Qed.

Lemma linv_ln l x : linv x -> linv (set_ln l x).
Proof. by intros []. Qed.

Lemma linv_err_turn t z e x x' : returned x = None -> linv x ->
  listener_moves (accept_turn (AcceptErr t z e)) x x' -> linv x'.
Proof.
  intros Hr Hi (y & r & E & ->). cbn [accept_turn] in E. prog_step.
  assert (Hret : forall e', linv (set_returned (Some e') x)).
  { intros e'. destruct Hi as [H1 H2 H3 H4 H5 H6 H7 H8]. split; cbn; try done.
    intros c Hc. destruct (H7 c Hc) as [?|[?|[?|(e0 & _ & Hn)]]]; [by left|by right; left|by do 2 right; left|congruence]. }
  destruct (inShutdown x), (doneChan x), t, z; try done; injection E as <- <-; try apply Hret;
    destruct Hi as [H1 H2 H3 H4 H5 H6 H7 [H8 H9]]; pose proof (accept_delay_bounds _ H8) as Hb;
    (split; try done; split; cbn; [by right|]; apply Forall_app; split; [done|by constructor]).
Qed.

Lemma linv_accepted c x x' : accepting x = None -> c ∉ opened x -> linv x ->
  listener_moves (accept_turn (Accepted c)) x x' -> linv x'.
Proof.
  intros Ha Hc [H1 H2 [H3 H3'] H4 H5 H6 H7 [_ H8]] (y & r & E & ->). cbn in E. injection E as <- <-.
  split; cbn; rewrite ?app_nil_r; try done.
  - apply NoDup_app. split_and!; [done|set_solver|apply NoDup_singleton].
  - intros c' [= <-]. split_and!; [set_solver|intros ?%H3'; done|intros ?%H6; done].
  - split; [done|]. intros c' ?%H3'. set_solver.
  - intros c' ?%H6. set_solver.
  - intros c' [Hc'|Hc']%elem_of_app; [|left; apply list_elem_of_singleton in Hc'; by subst].
    destruct (H7 c' Hc') as [?|[?|[?|?]]]; [congruence|by right; left|by do 2 right; left|by do 3 right].
  - split; [by left|done].
Qed.

Lemma register_moves c x x' : listener_moves (register_conn c) x x' ->
  exists w ok, DoPostConnAccept close (Plugins s) c (lworld x) = (w, Ok (c, ok)) /\
  let y := set_accepting None (set_lworld w x) in
  (ok = false /\ exists w', x' = set_lworld w' (log_conns [] [c] y)) \/
  (ok = true /\ (exists e, handshake c = Some (Some e) /\ x' = set_returned (Some e) y)) \/
  (ok = true /\ (forall e, handshake c <> Some (Some e)) /\ x' = go_serveConn c (setActiveConn c y)).
Proof.
  intros (y & r & E & ->). unfold register_conn, mbind at 1, prog_bind at 1 in E.
  destruct (on_lworld _ x) as [y1 [[c' ok]| | | |]] eqn:E1; try done.
  apply on_lworld_Ok in E1 as (w & -> & E1). pose proof (keeps _ _ _ _ _ E1) as ->.
  exists w, ok. split; [done|]. cbn zeta. unfold mbind at 1, prog_bind at 1, modify at 1 in E.
  destruct ok; cbn [negb] in E.
  - right. destruct (handshake c) as [[e|]|] eqn:Eh; prog_step; injection E as <- <-;
      [left; split; [done|by exists e]|right; by split_and!|right; by split_and!].
  - left. split; [done|]. unfold mbind, prog_bind at 1 in E.
    destruct (close_conn c (set_accepting None (set_lworld w x))) as [z [[]| | | |]] eqn:Ec; try done.
    injection E as <- <-. by apply close_conn_Ok.
Qed.
Lemma linv_register c x x' : returned x = None -> accepting x = Some c -> linv x ->
  listener_moves (register_conn c) x x' -> linv x'.
Proof.
  intros Hr Ha Hi (w & ok & _ & Hx')%register_moves. destruct (li_accepting x Hi c Ha) as (Ho & Hs & Hc).
  assert (Hothers : forall c', c' ∈ opened x -> c' <> c -> c' ∈ serving x \/ c' ∈ closed x).
  { intros c' Hc' Hne. destruct (li_all x Hi c' Hc') as [?|[?|[?|(e & _ & ?)]]]; [congruence|by left|by right|congruence]. }
  destruct Hx' as [(_ & w' & ->)|[(_ & e & He & ->)|(_ & _ & ->)]].
  - apply linv_world. destruct Hi as [H1 H2 [H3 H3'] H4 H5 H6 H7 H8]. split; cbn; rewrite ?app_nil_r; try done.
    + intros c' Hc'. destruct (H4 c' Hc'). split; [done|]. set_solver.
    + intros c' ? ?. apply elem_of_app. left. by apply H5.
    + intros c' [?|Hx%list_elem_of_singleton]%elem_of_app; [by apply H6|by subst].
    + intros c' Hc'. right. destruct (decide (c' = c)) as [->|Hne]; [right; left; set_solver|].
      destruct (Hothers c' Hc' Hne); [by left|right; left; set_solver].
  - destruct Hi as [H1 H2 H3 H4 H5 H6 H7 H8]. split; cbn; try done.
    intros c' Hc'. right. destruct (decide (c' = c)) as [->|Hne]; [do 2 right; by exists e|].
    destruct (Hothers c' Hc' Hne); [by left|by right; left].
  - apply (linv_registered c x); try done; [apply Hi| |apply Hi].
    intros c' Hne. split; [done|]. cbn. rewrite Ha. split; [done|congruence].
Qed.

Lemma linv_open c x : c ∉ opened x -> linv x -> linv (go_serveConn c (setActiveConn c (log_conns [c] [] x))).
Proof.
  intros Hc Hi. pose proof Hi as [H1 H2 [H3 H3'] H4 H5 H6 H7 H8].
  apply (linv_registered c x); cbn; rewrite ?app_nil_r; try done.
  - apply NoDup_app. split_and!; [done|set_solver|apply NoDup_singleton].
  - set_solver.
  - by intros ?%H3'.
  - by intros ?%H6.
  - intros (? & _)%H2. done.
  - intros c' Hne. split; [set_solver|done].
Qed.

Lemma lstep_linv x x' : lstep x x' -> linv x -> linv x'.
Proof.
  intros Hst Hi. destruct Hst as [t z e x x' Hr _ _ Hm|c x x' _ Ha _ Hc Hm|c x x' Hr Ha Hm|m h x x' r Hh E|c x x' Hc E
    |i c x x' Hs _ E|cs x x' Hcs E|x x' _ E|cs x x' _ Hcs E].
  - by eapply linv_err_turn.
  - by eapply linv_accepted.
  - by eapply linv_register.
  - unfold ServeHTTP in E. case_decide; [by injection E as <- _|]. destruct h as [c|e]; [|by injection E as <- _].
    prog_step. injection E as <- _. apply linv_open; [by apply Hh|done].
  - unfold ServeWS in E. prog_step. injection E as <-. by apply linv_open.
  - unfold closeConn, mbind, prog_bind, modify in E.
    destruct (close_conn c _) as [y [[]| | | |]] eqn:Ec; try done. apply close_conn_Ok in Ec as (w & ->).
    destruct (on_lworld _ _) as [y [b| | | |]] eqn:Ed; try done. apply on_lworld_Ok in Ed as (w' & -> & _).
    injection E as <-. apply linv_world, (linv_world w), (linv_ended i c x); done.
  - unfold Close, mbind, prog_bind, modify in E.
    destruct (close_all cs (close_ln x)) as [y [[]| | | |]] eqn:Ec; try done. injection E as <-.
    apply linv_flags. eapply close_all_linv; [..|exact Ec]; [| |by apply linv_ln].
    + rewrite Hcs. apply NoDup_elements.
    + intros c Hc. cbn. rewrite Hcs in Hc. by apply elem_of_elements.
  - unfold Shutdown_begin, mbind, prog_bind, modify, get_st, lift in E.
    destruct (on_lworld _ _) as [y [[]| | | |]] eqn:Ed; try done. apply on_lworld_Ok in Ed as (w & -> & _).
    destruct (ln _); [|done]. injection E as <-. by apply linv_ln, linv_world, linv_flags.
  - unfold Shutdown_end, mbind, prog_bind, modify in E.
    destruct (close_all cs x) as [y [[]| | | |]] eqn:Ec; try done. injection E as <-.
    apply linv_flags. eapply close_all_linv; [..|exact Ec]; [| |done].
    + rewrite Hcs. apply NoDup_elements.
    + intros c Hc. rewrite Hcs in Hc. by apply elem_of_elements.
Qed.

Lemma lreachable_linv w x : lreachable w x -> linv x.
Proof.
  intros Hr. assert (H0 : linv (serve_start (New w))).
  { split; cbn; try done.
    - constructor. - by split; [constructor|]. - by intros c ?%elem_of_nil. - by split; [left|constructor]. }
  induction Hr as [|x y z Hst _ IH]; [done|]. apply IH. by eapply lstep_linv.
Qed.
(** ** Properties *)

(** C27: no connection is lost, whatever the order of [ServeListener], the HTTP
    server, the goroutines of the connections, [Close] and [Shutdown]: a
    connection that was accepted is still with [ServeListener], has its
    goroutine, or was closed, except one whose TLS handshake failed, which ended
    [ServeListener]; [activeConn] has only open connections with their
    goroutine; once all goroutines have ended it is empty and every connection
    was closed, that one apart; and a delay of [ServeListener] is between 5 ms
    and a second. *)
Theorem server_connections w x :
  lreachable w x ->
  NoDup (opened x) /\
  (forall c, c ∈ opened x -> accepting x = Some c \/ c ∈ serving x \/ c ∈ closed x \/ failed_handshake x c) /\
  (forall c, c ∈ activeConn x -> c ∈ serving x /\ c ∉ closed x) /\
  (serving x = [] -> accepting x = None ->
     activeConn x = ∅ /\ forall c, c ∈ opened x -> c ∈ closed x \/ failed_handshake x c) /\
  Forall (fun d => 5 * millisecond <= d <= second) (sleeps x).
Proof.
  intros Hr. pose proof (lreachable_linv _ _ Hr) as [H1 H2 _ H4 _ _ H7 [_ H8]]. split_and!; try done.
  intros Hs Ha. split.
  - apply set_eq. intros c. split; [|set_solver]. intros [Hc _]%H4. rewrite Hs in Hc. by apply elem_of_nil in Hc.
  - intros c Hc. destruct (H7 c Hc) as [?|[Hin|[?|?]]]; [congruence| |by left|by right].
    rewrite Hs in Hin. by apply elem_of_nil in Hin.
Qed.

(** A connection nobody has any more, after [ServeListener] returned [e]. *)
Definition leaked (e : error) (c : nat) (x : lserver) : Prop :=
  returned x = Some e /\ accepting x = None /\ c ∈ opened x /\ c ∉ serving x /\ c ∉ closed x /\ c ∉ activeConn x.

Lemma close_all_leaked cs e c x x' : c ∉ cs -> leaked e c x -> close_all cs x = (x', Ok tt) -> leaked e c x'.
Proof.
  revert x. induction cs as [|c' cs IH]; intros x Hc (H1 & H2 & H3 & H4 & H5 & H6) E; [by injection E as <-|].
  apply not_elem_of_cons in Hc as [Hne Hc].
  cbn [close_all] in E. unfold mbind at 1, prog_bind at 1 in E.
  destruct (close_conn c' x) as [y [[]| | | |]] eqn:E1; try done. apply close_conn_Ok in E1 as (w & ->).
  unfold mbind at 1, prog_bind at 1, modify in E.
  unfold mbind, prog_bind in E. destruct (on_lworld (DoPostConnClose c' (Plugins s)) _) as [y [b| | | |]] eqn:E2; try done.
  apply on_lworld_Ok in E2 as (w' & -> & _).
  apply IH in E; [done|done|]. unfold leaked. cbn. split_and!; try done; set_solver.
Qed.

Lemma lstep_leaked e c x x' : lstep x x' -> leaked e c x -> leaked e c x'.
Proof.
  intros Hst Hl. pose proof Hl as (H1 & H2 & H3 & H4 & H5 & H6).
  destruct Hst as [t z e' x x' Hr _ _ Hm|c' x x' Hr Ha _ Hc Hm|c' x x' Hr Ha Hm|m h x x' r Hh E|c' x x' Hc E
    |i c' x x' Hs _ E|cs x x' Hcs E|x x' _ E|cs x x' _ Hcs E]; try congruence.
  - unfold ServeHTTP in E. case_decide; [by injection E as <- _|]. destruct h as [c'|e']; [|by injection E as <- _].
    specialize (Hh c' eq_refl). prog_step. injection E as <- _. unfold leaked. cbn. rewrite app_nil_r. split_and!; set_solver.
  - unfold ServeWS in E. prog_step. injection E as <-. unfold leaked. cbn. rewrite app_nil_r. split_and!; set_solver.
  - assert (Hne : c' <> c) by (intros ->; apply H4; by eapply list_elem_of_lookup_2).
    unfold closeConn, mbind, prog_bind, modify in E.
    destruct (close_conn c' _) as [y [[]| | | |]] eqn:Ec; try done. apply close_conn_Ok in Ec as (w & ->).
    destruct (on_lworld _ _) as [y [b| | | |]] eqn:Ed; try done. apply on_lworld_Ok in Ed as (w' & -> & _).
    injection E as <-. unfold leaked. cbn. rewrite app_nil_r. split_and!; try done; [|set_solver|set_solver].
    intros Hd. apply H4. rewrite (delete_Permutation _ _ _ Hs). by right.
  - unfold Close, mbind, prog_bind, modify in E.
    destruct (close_all cs (close_ln x)) as [y [[]| | | |]] eqn:Ec; try done. injection E as <-.
    apply (close_all_leaked cs e c) in Ec; [done| |done]. rewrite Hcs. by rewrite elem_of_elements.
  - unfold Shutdown_begin, mbind, prog_bind, modify, get_st, lift in E.
    destruct (on_lworld _ _) as [y [[]| | | |]] eqn:Ed; try done. apply on_lworld_Ok in Ed as (w & -> & _).
    destruct (ln _); [|done]. by injection E as <-.
  - unfold Shutdown_end, mbind, prog_bind, modify in E.
    destruct (close_all cs x) as [y [[]| | | |]] eqn:Ec; try done. injection E as <-.
    apply (close_all_leaked cs e c) in Ec; [done| |done]. rewrite Hcs. by rewrite elem_of_elements.
Qed.

(** One failed TLS handshake stops the server: when [ServeListener] has a
    connection the plugins let in and whose handshake fails, it returns the
    error, although nobody called [Close] or [Shutdown]; from then on it never
    has a connection again, and the one that failed is never closed. *)
Theorem handshake_stops_server w0 x c e w :
  lreachable w0 x -> returned x = None -> accepting x = Some c ->
  DoPostConnAccept close (Plugins s) c (lworld x) = (w, Ok (c, true)) -> handshake c = Some (Some e) ->
  exists x', lstep x x' /\ listener_moves (register_conn c) x x' /\
    inShutdown x' = inShutdown x /\ doneChan x' = doneChan x /\
    forall y, rtc lstep x' y -> returned y = Some e /\ accepting y = None /\ c ∉ closed y.
Proof.
  intros Hreach Hr Ha Hp He. pose proof (lreachable_linv _ _ Hreach) as Hi.
  destruct (li_accepting x Hi c Ha) as (Ho & Hs & Hc).
  exists (set_returned (Some e) (set_accepting None (set_lworld w x))).
  assert (Hm : listener_moves (register_conn c) x (set_returned (Some e) (set_accepting None (set_lworld w x)))).
  { eexists _, (Some e). split; [|reflexivity]. unfold register_conn, mbind, prog_bind, on_lworld. rewrite Hp. cbn.
    by rewrite He. }
  split; [by eapply l_register|]. split_and!; [done|done|done|].
  assert (Hl : leaked e c (set_returned (Some e) (set_accepting None (set_lworld w x)))).
  { unfold leaked. cbn. split_and!; try done. intros [? _]%(li_active x Hi). done. }
  intros y Hy. assert (leaked e c y) as (? & ? & _ & _ & ? & _); [|done].
  clear Hm. remember (set_returned _ _) as z eqn:Ez. clear Ez.
  induction Hy as [|a b d Hst _ IH]; [done|]. by apply IH, (lstep_leaked e c a).
Qed.
(** [ServeHTTP] and [ServeWS] register a connection without asking the plugins:
    those that refuse connections do not see it. *)
Lemma http_skips_hooks c x :
  (ServeHTTP "CONNECT" (inl c) x).1 = (ServeWS c x).1 /\ c ∈ activeConn (ServeWS c x).1 /\ c ∈ serving (ServeWS c x).1 /\
  lworld (ServeWS c x).1 = lworld x.
Proof. cbn. split_and!; [done|set_solver|set_solver|done]. Qed.

(** [Shutdown] of a server that never listened panics, after it told the plugins
    and marked the server, whose mutex it still holds; [Close] does not. *)
Lemma Shutdown_before_Serve w : serviceMap (services s) = ∅ ->
  Shutdown_begin (New w) = (set_flags true false (New w), Panic) /\ Close [] (New w) = (set_flags false true (New w), Ok tt).
Proof. intros Hs. unfold Shutdown_begin. rewrite Hs, map_to_list_empty. done. Qed.

(** After [Shutdown], [ServeListener] returns [ErrServerClosed]; after [Close],
    which does not mark the server, the error of the closed listener. *)
Lemma ServeListener_after_close e x :
  (inShutdown x = true -> doneChan x = true ->
     accept_turn (AcceptErr false false e) x = (x, Ok (Some ErrServerClosed))) /\
  (inShutdown x = false -> accept_turn (AcceptErr false false e) x = (x, Ok (Some e))).
Proof. split; [intros H1 H2|intros H1]; cbn [accept_turn]; prog_step; by rewrite H1, ?H2. Qed.
End listener.

(** ** Routing *)

(** On a TCP listener, the connections whose first byte is the magic number are
    those [ServeListener] gets, whatever the plugins and options. *)
Lemma route_rpc other plugins j h network ms input :
  startGateway plugins j h network = Some ms ->
  (route other ms input = Some RPCPrefix <-> exists rest, input = magicNumber :: rest).
Proof.
  unfold startGateway, route. case_bool_decide; [|done]. intros [= <-]. cbn [list_find].
  destruct input as [|b rest]; cbn [irpcPrefixByteMatcher].
  - rewrite decide_False by done. split; [|by intros [? ?]]. intros E.
    destruct (list_find _ _) as [[n m]|] eqn:F; [|done]. apply list_find_Some in F as (F & _ & _). cbn in E. simplify_eq.
    apply list_elem_of_lookup_2 in F. set_unfold. destruct F as [F|F]; [by destruct F as (? & ? & _)|].
    destruct F as [F|F]; destruct j, h; set_solver.
  - case_bool_decide as Hb.
    + rewrite decide_True by done. subst. split; [intros _; by eexists|done].
    + rewrite decide_False by done. split; [|intros [? [= ? ?]]; congruence]. intros E.
      destruct (list_find _ _) as [[n m]|] eqn:F; [|done]. apply list_find_Some in F as (F & _ & _). cbn in E. simplify_eq.
      apply list_elem_of_lookup_2 in F. set_unfold. destruct F as [F|F]; [by destruct F as (? & ? & _)|].
      destruct F as [F|F]; destruct j, h; set_solver.
Qed.

(** ** Witnesses: a server without plugins *)
Definition plain_config : config unit unit := mk_config (mk_registry ∅ ∅) ∅ [] None.
Definition plain_close (_ : nat) : prog unit unit := mret tt.
Definition bad_tls (c : nat) : option (option error) :=
  if (c =? 1)%nat then Some (Some (Foreign "tls: first record does not look like a TLS handshake")) else None.

Lemma plain_keeps c w w' c' ok :
  DoPostConnAccept plain_close (Plugins plain_config) c w = (w', Ok (c', ok)) -> c' = c.
Proof. by intros [= _ <- _]. Qed.

Definition with_ws : lserver := go_serveConn 5 (setActiveConn 5 (log_conns [5%nat] [] (serve_start (New tt)))).

Lemma server_connections_witness : 5%nat ∈ serving with_ws /\ 5%nat ∉ closed with_ws.
Proof.
  destruct (server_connections plain_config plain_close bad_tls plain_keeps tt with_ws) as (_ & _ & Ha & _).
  - apply rtc_once. apply (l_ws _ _ _ 5%nat); [by intros ?%elem_of_nil|reflexivity].
  - apply Ha. unfold with_ws. cbn. set_solver.
Defined.

Definition with_tls : lserver := log_conns [1%nat] [] (set_accepting (Some 1%nat) (set_delay 0 [] (serve_start (New tt)))).

Lemma handshake_stops_server_witness :
  exists x', lstep plain_config plain_close bad_tls with_tls x' /\ inShutdown x' = false /\ 1%nat ∉ closed x'.
Proof.
  destruct (handshake_stops_server plain_config plain_close bad_tls plain_keeps tt with_tls 1%nat
    (Foreign "tls: first record does not look like a TLS handshake") tt) as (x' & Hst & _ & Hs & _ & Hy);
    [|reflexivity|reflexivity|reflexivity|reflexivity|].
  - apply rtc_once. apply (l_accept _ _ _ 1%nat); [reflexivity|reflexivity|reflexivity|by intros ?%elem_of_nil|].
    eexists _, None. split; reflexivity.
  - exists x'. split; [exact Hst|]. split; [exact Hs|]. by apply Hy.
Defined.
