(* ===== verification/Push.v ===== *)
(** server/server.go, SendMessage: a message from the server to a client, and
    what the input loop of client/client.go does with it. *)
From S2P Require Import Prelude Go Share Header Message MessageFacts Plugins ServerPlugins.
From S2P Require Import Client ClientFacts Service Server.
Open Scope go_scope.

Section push.
Context {W V : Type}.
Context (cs : compressors) (get : Z -> list byte) (order : gmap string string -> list (string * string)).

(** The world, the counter [s.seq] and the frames written on the connection. *)
Record pstate : Type := mk_pstate { pworld : W; pseq : Z; pout : list (list byte) }.

Definition on_pworld {A} (p : prog W A) : prog pstate A := fun x =>
  let '(w, r) := p (pworld x) in (mk_pstate w (pseq x) (pout x), r).

(** [SendMessage]: [m0] is the message from the pool and [werr] the error of the
    connection's [Write]. *)
Definition SendMessage (s : config W V) (m0 : message) (werr : option error)
    (servicePath serviceMethod : string) (metadata : option (gmap string string)) (data_ : list byte) :
    prog pstate (option error) :=
  _ ← on_pworld (DoPreWriteRequest (Plugins s));
  let h := SetMessageType Request (hdr m0) in
  modify (fun x => mk_pstate (pworld x) (u64 (pseq x + 1)) (pout x));;
  x ← get_st;
  let h := SetSerializeType SerializeNone (SetOneway true (SetSeq (pseq x) h)) in
  let req := mk_message h servicePath serviceMethod metadata data_ (data m0) in
  '(b, h) ← lift (EncodeSlicePointer cs get (order (default ∅ metadata)) req);
  modify (fun x => mk_pstate (pworld x) (pseq x) (match werr with None => pout x ++ [b] | Some _ => pout x end));;
  _ ← on_pworld (DoPostWriteRequest werr (Plugins s) (set_hdr h req));
  mret werr.

(** Messages sent one after the other, whatever the errors. *)
Record push : Type := mk_push {
  uPath : string; uMethod : string; uMeta : option (gmap string string); uData : list byte; uPool : message
}.

Fixpoint send_all (s : config W V) (ps : list push) : prog pstate unit :=
  match ps with
  | [] => mret tt
  | p :: ps => _ ← SendMessage s (uPool p) None (uPath p) (uMethod p) (uMeta p) (uData p); send_all s ps
  end.

(** ** What a push reads as *)

(** The message a client gets for the push [p] with the number [n]. *)
Record pushed (n : Z) (p : push) (m : message) : Prop := {
  pu_path : ServicePath m = uPath p;
  pu_method : ServiceMethod m = uMethod p;
  pu_meta : Metadata m = norm_meta (uMeta p);
  pu_payload : Payload m = uData p;
  pu_request : MessageType (hdr m) = Request;
  pu_oneway : IsOneway (hdr m) = true;
  pu_heartbeat : IsHeartbeat (hdr m) = false;
  pu_serialize : SerializeType (hdr m) = SerializeNone;
  pu_seq : Seq (hdr m) = n
}.

(** The numbers of the next pushes. *)
Fixpoint numbered {A} (n : Z) (ps : list A) : list (Z * A) :=
  match ps with [] => [] | p :: ps => (u64 (n + 1), p) :: numbered (u64 (n + 1)) ps end.

Context `{!CompressorLaws cs, !BufferGet get} (order_perm : forall m, order m ≡ₚ map_to_list m).

(** A container without hooks for requests of the server. *)
Definition silent (s : config W V) : Prop :=
  Forall (fun p => PreWriteRequest p = None /\ PostWriteRequest p = None) (Plugins s).

(** A frame that a client reads as [m']. *)
Definition reads_push (bs : list byte) (n : Z) (p : push) : Prop :=
  Z.of_nat (length bs) < two32 ->
  forall tail fn, exists m',
    Decode cs 0 (mk_reader (bs ++ tail) fn, NewMessage) = ((mk_reader tail fn, m'), Ok tt) /\ pushed n p m'.

Lemma push_header n : let h := SetSerializeType SerializeNone (SetOneway true (SetSeq n (SetMessageType Request newHeader))) in
  Header_wf h /\ CheckMagicNumber h = true /\
  view h = with_serialize SerializeNone (with_oneway true (with_seq (u64 n) (view newHeader))).
Proof.
  assert (E : let h := SetSerializeType SerializeNone (SetOneway true (SetSeq n (SetMessageType Request newHeader))) in
    view h = with_serialize SerializeNone (with_oneway true (with_seq (u64 n) (view newHeader)))).
  { cbv zeta. rewrite view_SetSerializeType, view_SetOneway, view_SetSeq, view_SetMessageType by auto 10 with header. done. }
  split_and!; [auto 10 with header| |exact E]. apply bool_decide_eq_true. exact (f_equal f_magic E).
Qed.

Lemma SendMessage_reads s p x : silent s -> hdr (uPool p) = newHeader ->
  exists bs, SendMessage s (uPool p) None (uPath p) (uMethod p) (uMeta p) (uData p) x =
      (mk_pstate (pworld x) (u64 (pseq x + 1)) (pout x ++ [bs]), Ok None) /\
    reads_push bs (u64 (pseq x + 1)) p.
Proof.
  intros Hq Hpool. destruct (push_header (u64 (pseq x + 1))) as (Hw & Hmg & Hview).
  set (h0 := SetSerializeType SerializeNone (SetOneway true (SetSeq (u64 (pseq x + 1)) (SetMessageType Request newHeader)))) in *.
  set (req := mk_message h0 (uPath p) (uMethod p) (uMeta p) (uData p) (data (uPool p))).
  destruct (compressPayload_ok cs req) as (h & pl & Hc).
  pose proof (EncodeSlicePointer_wire cs get (order (default ∅ (uMeta p))) req Hw) as E.
  rewrite Hc in E. cbn [mbind result_bind] in E.
  eexists. split.
  - unfold SendMessage, DoPreWriteRequest, DoPostWriteRequest, on_pworld, mbind, prog_bind, modify, get_st, lift, mret, prog_ret.
    rewrite (until_error_none PreWriteRequest) by (eapply Forall_impl; [exact Hq|by intros ? [? ?]]). cbn [pworld pseq pout].
    rewrite Hpool. fold h0. fold req. rewrite E.
    rewrite (until_error_none PostWriteRequest) by (eapply Forall_impl; [exact Hq|by intros ? [? ?]]). reflexivity.
  - intros Hlen tail fn.
    destruct (Decode_EncodeSlicePointer cs get 0 (order (default ∅ (uMeta p))) req NewMessage _ h tail fn _ _
      Hw Hmg newHeader_wf eq_refl (order_perm _) E Hlen ltac:(lia)) as (d & pl' & _ & Hd).
    eexists. split; [exact Hd|].
    destruct (compressPayload_header cs req h pl Hw Hc) as [ct Hv]. cbn [hdr req] in Hv. rewrite Hview in Hv.
    split; cbn [hdr ServicePath ServiceMethod Metadata Payload]; try done;
      [exact (f_equal f_type Hv)|exact (f_equal f_oneway Hv)|exact (f_equal f_heartbeat Hv)
      |exact (f_equal f_serialize Hv)|].
    etransitivity; [exact (f_equal f_seq Hv)|]. cbn. unfold u64. by rewrite Z.mod_mod.
Qed.

Lemma send_all_reads s ps x : silent s -> Forall (fun p => hdr (uPool p) = newHeader) ps ->
  exists bss, send_all s ps x =
      (mk_pstate (pworld x) (foldl (fun n _ => u64 (n + 1)) (pseq x) ps) (pout x ++ bss), Ok tt) /\
    Forall2 (fun bs np => reads_push bs np.1 np.2) bss (numbered (pseq x) ps).
Proof.
  intros Hq Hps. revert x. induction Hps as [|p ps Hp _ IH]; intros x.
  - exists []. cbn. rewrite app_nil_r. split; [by destruct x|constructor].
  - destruct (SendMessage_reads s p x Hq Hp) as (bs & E & Hr).
    destruct (IH (mk_pstate (pworld x) (u64 (pseq x + 1)) (pout x ++ [bs]))) as (bss & E' & Hrs).
    exists (bs :: bss). cbn [send_all numbered]. unfold mbind, prog_bind. rewrite E, E'. cbn.
    rewrite <- app_assoc. split; [done|]. by constructor.
Qed.

(** ** The client's side *)
Context {A R : Type} (codecs : byte -> option (Codec A R)) (corder : option (gmap string string) -> list (string * string)).

(** The channel for server messages with [ms] more in it. *)
Definition with_msgs (ch : srvchan) (ms : list message) (c : Client A R) : Client A R :=
  set_smc (Some (mk_srvchan (scap ch) (smsgs ch ++ ms) false)) c.

(** What a push does to a client, on every branch of [handleServerRequest]. *)
Lemma pushed_input n p m c : pushed n p m ->
  input_message codecs (fun m => m) corder m c =
    match handleServerRequest m c with (c', Ok _) => (c', Ok None) | (c', Blocked) => (c', Blocked) | (c', _) => (c', Panic) end.
Proof.
  intros []. unfold input_message.
  assert (isServerMessage m = true) as ->.
  { unfold isServerMessage. by rewrite pu_request0, pu_heartbeat0, pu_oneway0. }
  cbn [mbind option_bind]. unfold handleServerRequest. by repeat case_match.
Qed.

Lemma input_read fuel addr r r' m c c' :
  Decode cs 0 (r, NewMessage) = ((r', m), Ok tt) -> input_message codecs (fun m => m) corder m c = (c', Ok None) ->
  input codecs cs (fun m => m) corder (S fuel) addr r c = input codecs cs (fun m => m) corder fuel addr r' c'.
Proof. intros H1 H2. cbn [input]. by rewrite H1, H2. Qed.

Lemma input_pushes addr bss nps ch c :
  Forall2 (fun bs np => reads_push bs np.1 np.2) bss nps -> Forall (fun bs => Z.of_nat (length bs) < two32) bss ->
  ServerMessageChan c = Some ch -> sclosed ch = false -> (length (smsgs ch) + length bss <= scap ch)%nat ->
  exists ms, Forall2 (fun np m => pushed np.1 np.2 m) nps ms /\
    input codecs cs (fun m => m) corder (S (length bss)) addr (mk_reader (concat bss) EOF) c =
      input_end addr EOF (map_to_list (pending c)).*2 (with_msgs ch ms c).
Proof.
  intros Hr Hlen. revert ch c. induction Hr as [|bs np bss nps Hb _ IH]; intros ch c Hc Hcl Hcap.
  - exists []. split; [constructor|].
    change (input codecs cs (fun m => m) corder (S (length [])) addr (mk_reader (concat []) EOF) c)
      with (input_end addr EOF (map_to_list (pending c)).*2 c).
    f_equal. unfold with_msgs. rewrite app_nil_r. destruct ch, c. cbn in *. by subst.
  - apply Forall_cons in Hlen as [Hl Hlen]. cbn [length] in Hcap.
    destruct (Hb Hl (concat bss) EOF) as (m & Hd & Hm).
    cbn [length concat]. rewrite (input_read _ _ _ _ _ _ (with_msgs ch [m] c) Hd).
    2: { rewrite (pushed_input _ _ m c Hm). unfold handleServerRequest. by rewrite Hc, Hcl, decide_True by lia. }
    destruct (IH Hlen (mk_srvchan (scap ch) (smsgs ch ++ [m]) false) (with_msgs ch [m] c)) as (ms & Hms & E).
    { done. } { done. } { cbn. rewrite length_app. cbn. lia. }
    exists (m :: ms). split; [by constructor|]. rewrite E. f_equal.
    unfold with_msgs. cbn. by rewrite <- app_assoc.
Qed.

(** ** Properties *)

(** C28: what a server pushes is what its client gets: the messages sent with
    [SendMessage], one after the other, arrive in order on the client's channel
    for server messages, when it has room, with the path, the method, the
    metadata and the payload they were sent with and with the numbers of the
    server's counter, which wraps around at 2^64; nothing else of the client
    changes before the end of the connection, so no pending call is touched. *)
Theorem pushes_received s ps x addr ch (c : Client A R) :
  silent s -> Forall (fun p => hdr (uPool p) = newHeader) ps ->
  ServerMessageChan c = Some ch -> sclosed ch = false -> (length (smsgs ch) + length ps <= scap ch)%nat ->
  exists bss, send_all s ps x =
      (mk_pstate (pworld x) (foldl (fun n _ => u64 (n + 1)) (pseq x) ps) (pout x ++ bss), Ok tt) /\
    length bss = length ps /\
    (Forall (fun bs => Z.of_nat (length bs) < two32) bss ->
     exists ms, Forall2 (fun np m => pushed np.1 np.2 m) (numbered (pseq x) ps) ms /\
       input codecs cs (fun m => m) corder (S (length ps)) addr (mk_reader (concat bss) EOF) c =
         input_end addr EOF (map_to_list (pending c)).*2 (with_msgs ch ms c)).
Proof.
  intros Hq Hps Hc Hcl Hcap. destruct (send_all_reads s ps x Hq Hps) as (bss & E & Hr).
  assert (Hl : length bss = length ps).
  { rewrite (Forall2_length _ _ _ Hr). generalize (pseq x). clear. induction ps as [|p ps IH]; intros n; [done|]. cbn. by rewrite IH. }
  exists bss. split; [exact E|]. split; [exact Hl|]. intros Hlen. rewrite <- Hl. apply input_pushes; try done. by rewrite Hl.
Qed.

(** A push that does not fit: it is lost without a word, or blocks the input
    loop for good with [BidirectionalBlock]; a closed channel is taken away; no
    channel, no message. *)
Lemma push_not_received n p m (c : Client A R) : pushed n p m ->
  input_message codecs (fun m => m) corder m c =
    match ServerMessageChan c with
    | None => (c, Ok None)
    | Some ch =>
        if sclosed ch then (set_smc None c, Ok None)
        else if decide (length (smsgs ch) < scap ch)%nat then (with_msgs ch [m] c, Ok None)
        else if oBidirectionalBlock (option_ c) then (c, Blocked) else (c, Ok None)
    end.
Proof.
  intros Hm. rewrite (pushed_input n p) by done. unfold handleServerRequest, with_msgs.
  destruct (ServerMessageChan c) as [ch|]; [|done]. destruct (sclosed ch); [done|].
  destruct (decide _); [done|]. by destruct (oBidirectionalBlock _).
Qed.
End push.

(** ** Witness: two pushes around the end of the counter, to a client that waits
    for a call *)
Definition quiet_server : config unit unit := mk_config (mk_registry ∅ ∅) ∅ [] None.
Definition two_pushes : list push :=
  [mk_push "chat" "say" None [x01] NewMessage; mk_push "chat" "bye" None [] NewMessage].
Definition listening : Client (list byte) (list byte) := set_smc (Some (mk_srvchan 2 [] false)) (one_call (Some [])).

Lemma pushes_received_witness :
  exists bss ms,
    send_all raw_compressors dirty_get map_to_list quiet_server two_pushes (mk_pstate tt (two64 - 1) []) =
      (mk_pstate tt 1 bss, Ok tt) /\
    Forall2 (fun np m => pushed np.1 np.2 m) [(0, mk_push "chat" "say" None [x01] NewMessage);
      (1, mk_push "chat" "bye" None [] NewMessage)] ms /\
    input test_codecs raw_compressors (fun m => m) (fun _ => []) 3 "srv:1" (mk_reader (concat bss) EOF) listening =
      input_end "srv:1" EOF [0%nat] (with_msgs (mk_srvchan 2 [] false) ms listening).
Proof.
  destruct (pushes_received raw_compressors dirty_get map_to_list (fun m => reflexivity _) test_codecs (fun _ => [])
    quiet_server two_pushes (mk_pstate tt (two64 - 1) []) "srv:1" (mk_srvchan 2 [] false) listening)
    as (bss & E & Hl & H); [constructor|repeat constructor|reflexivity|reflexivity|cbn; lia|].
  pose proof E as E'. vm_compute in E'. injection E' as <-.
  destruct H as (ms & Hms & Hi); [repeat constructor|].
  eexists _, ms. split; [exact E|]. split; [exact Hms|exact Hi].
Defined.
