(* ===== verification/Connect.v ===== *)
(** client/client_connect.go: how a client connects, and its HTTP handshake with
    ServeHTTP of server/server_serve.go.

    Dialling is an oracle; what the peer sends on a connection is a list of
    segments, one for each [Read] that takes it. *)
From S2P Require Import Prelude Go UrlQuery Plugins ClientPlugins Listener.
Open Scope go_scope.

(** ** net/http: the response to CONNECT *)

(** A line up to its line feed, without a trailing carriage return, and the
    bytes after it; none while it is not complete. *)
Definition trim_cr (l : list byte) : list byte :=
  match last l with Some b => if decide (b = x0d) then take (length l - 1) l else l | None => l end.

Definition read_line (s : list byte) : option (list byte * list byte) :=
  match split_at x0a s with
  | (l, Some rest) => Some (trim_cr l, rest)
  | (_, None) => None
  end.

Definition is_digit (b : byte) : bool := (48 <=? bz b) && (bz b <=? 57).

(** [http.ParseHTTPVersion]. *)
Definition is_http_version (p : list byte) : bool :=
  match p with
  | ["H"; "T"; "T"; "P"; "/"; a; "."; b]%byte => is_digit a && is_digit b
  | _ => false
  end.

(** The status of a status line. *)
Definition parse_status (line : list byte) : list byte + error :=
  match split_at " " line with
  | (_, None) => inr (Foreign "malformed HTTP response")
  | (proto, Some status) =>
      let status := trim_left status in
      let code := (split_at " " status).1 in
      if negb (bool_decide (length code = 3%nat) && forallb is_digit code) then inr (Foreign "malformed HTTP status code")
      else if is_http_version proto then inl status
      else inr (Foreign "malformed HTTP version")
  end.

(** The header lines up to the empty line; the fuel is the number of bytes. *)
Fixpoint skip_header (fuel : nat) (s : list byte) : option (unit + error) :=
  match fuel with
  | O => None
  | S fuel =>
      match read_line s with
      | None => None
      | Some ([], _) => Some (inl tt)
      | Some (l, rest) =>
          match split_at ":" l with
          | (_, None) => Some (inr (Foreign "malformed MIME header line"))
          | _ => skip_header fuel rest
          end
      end
  end.

(** What [http.ReadResponse] makes of the bytes read so far: the status or an
    error, or nothing while it has to read on. *)
Definition parse_response (s : list byte) : option (list byte + error) :=
  match read_line s with
  | None => None
  | Some (line, rest) =>
      match parse_status line with
      | inr e => Some (inr e)
      | inl status =>
          match skip_header (S (length rest)) rest with
          | None => None
          | Some (inr e) => Some (inr e)
          | Some (inl _) => Some (inl status)
          end
      end
  end.

(** [http.ReadResponse(bufio.NewReader(conn), ...)]: the segments taken are
    gone with the bufio reader, also the bytes of the last one after the
    response.  [fin] is the error when the segments are over. *)
Fixpoint ReadResponse (acc : list byte) (segs : list (list byte)) (fin : error) :
    (list byte + error) * list (list byte) :=
  match parse_response acc with
  | Some r => (r, segs)
  | None =>
      match segs with
      | [] => (inr (match fin with EOF => ErrUnexpectedEOF | e => e end), [])
      | seg :: segs => ReadResponse (acc ++ seg) segs fin
      end
  end.

(** ** Dialling *)

(** What is asked of the net, tls, websocket and memconn packages. *)
Inductive dial_call : Type :=
| NetDial (network address : string)
| TLSDial (network address : string)
| WSDial (url origin : string) (tls : bool)
| MemDial (network address : string).

(** The options the connection set-up reads. *)
Record dial_option : Type := mk_dial_option {
  TLSConfig : bool; RPCPath : string; Heartbeat : bool; HeartbeatInterval : Z
}.

Section connect.
Context {W V F : Type}.
(** A connection or an error; the error of a [Write]; what the peer sends. *)
Context (dial : dial_call -> nat + error) (wr : nat -> list byte -> option error)
        (received : nat -> list (list byte) * error).

(** The world, the bytes written on connections and the connections closed. *)
Record cstate : Type := mk_cstate { cworld : W; sent : list (nat * list byte); cclosed : list nat }.

Definition on_cworld {A} (p : prog W A) : prog cstate A := fun x =>
  let '(w, r) := p (cworld x) in (mk_cstate w (sent x) (cclosed x), r).
Definition log_sent (c : nat) (bs : list byte) (x : cstate) : cstate :=
  mk_cstate (cworld x) (sent x ++ [(c, bs)]) (cclosed x).
Definition log_closed (c : nat) (x : cstate) : cstate := mk_cstate (cworld x) (sent x) (cclosed x ++ [c]).

(** A connection with the segments still to be read from it. *)
Definition dialled : Type := (option (nat * list (list byte)) * option error)%type.
Definition of_dial (r : nat + error) : dialled :=
  match r with inl c => (Some (c, (received c).1), None) | inr e => (None, Some e) end.

Definition net_dial (o : dial_option) (network address : string) : nat + error :=
  dial (if TLSConfig o then TLSDial network address else NetDial network address).

Definition newDirectConn (o : dial_option) (network address : string) : prog cstate dialled :=
  mret (of_dial (net_dial o network address)).

Definition rpc_path (o : dial_option) : string := if decide (RPCPath o = "") then DefaultRPCPath else RPCPath o.

Definition connect_request (path : string) : list byte :=
  bytes_of ("CONNECT " +:+ path +:+ " HTTP/1.0" +:+ newline +:+ newline).

Definition newDirectHTTPConn (o : dial_option) (network address : string) : prog cstate dialled :=
  match net_dial o "tcp" address with
  | inr e => mret (None, Some e)
  | inl c =>
      let req := connect_request (rpc_path o) in
      match wr c req with
      | Some e => modify (log_closed c);; mret (Some (c, (received c).1), Some e)
      | None =>
          modify (log_sent c req);;
          match ReadResponse [] (received c).1 (received c).2 with
          | (inl status, segs) =>
              if decide (string_of status = connected) then mret (Some (c, segs), None)
              else modify (log_closed c);;
                   mret (None, Some (Foreign ("dial-http " +:+ network +:+ " " +:+ address +:+ ": unexpected HTTP response: " +:+
                                     string_of status)))
          | (inr e, _) =>
              modify (log_closed c);;
              mret (None, Some (Foreign ("dial-http " +:+ network +:+ " " +:+ address +:+ ": " +:+ Error e)))
          end
      end
  end.

Definition newDirectWSConn (o : dial_option) (network address : string) : prog cstate dialled :=
  let path := rpc_path o in
  let '(url, origin) :=
    if decide (network = "ws") then ("ws://" +:+ address +:+ path, "http://" +:+ address)
    else ("wss://" +:+ address +:+ path, "https://" +:+ address) in
  mret (of_dial (dial (WSDial url origin (TLSConfig o)))).

Definition newDirectKCPConn : prog cstate dialled := mret (None, Some (ErrorString "kcp unsupported")).
Definition newDirectQuicConn : prog cstate dialled := mret (None, Some (ErrorString "quic unsupported")).
Definition newMemuConn (network address : string) : prog cstate dialled := mret (of_dial (dial (MemDial network address))).

Definition ConnFactoryFn : Type := dial_option -> string -> string -> prog cstate dialled.

Definition ConnFactories : gmap string ConnFactoryFn :=
  list_to_map [("http", newDirectHTTPConn); ("kcp", fun _ _ _ => newDirectKCPConn); ("quic", fun _ _ _ => newDirectQuicConn);
    ("unix", newDirectConn); ("memu", fun _ n a => newMemuConn n a)].

(** ** Connect *)

(** What a connected client starts with: its connection, what it will read,
    and whether the heartbeat goroutine runs beside that of [input]. *)
Record started_client : Type := mk_started { sc_conn : nat; sc_input : list (list byte); sc_heartbeat : bool }.

Definition dial_network (factories : gmap string ConnFactoryFn) (o : dial_option) (network address : string) :
    prog cstate dialled :=
  if decide (network = "http") then newDirectHTTPConn o network address
  else if bool_decide (network ∈ ["ws"; "wss"]) then newDirectWSConn o network address
  else match factories !! network with
       | Some fn => fn o network address
       | None => newDirectConn o network address
       end.

Definition Connect (factories : gmap string ConnFactoryFn) (o : dial_option) (plugins : option (pluginContainer W V F))
    (network address : string) : prog cstate (option started_client * option error) :=
  '(conn, err) ← dial_network factories o network address;
  match err, conn with
  | None, Some (c, segs) =>
      '(c, err) ← match plugins with None => mret (c, None) | Some p => on_cworld (DoConnCreated p c) end;
      match err with
      | Some e => mret (None, Some e)
      | None => mret (Some (mk_started c segs (Heartbeat o && (0 <? HeartbeatInterval o))), None)
      end
  | None, None => mret (None, None)
  | Some e, _ =>
      match plugins with None => mret tt | Some p => on_cworld (DoConnCreateFailed network address p) end;;
      mret (None, Some e)
  end.

(** ** The handshake *)

(** The method of the request a server reads. *)
Definition request_method (req : list byte) : string := string_of (split_at " " req).1.

Notation answer := (bytes_of hijack_answer).

Lemma parse_answer t : parse_response (answer ++ t) = Some (inl (bytes_of connected)).
Proof. vm_compute. reflexivity. Qed.

Lemma parse_answer_part n : (n < length answer)%nat -> parse_response (take n answer) = None.
Proof.
  intros Hn. assert (H : forallb (fun n => match parse_response (take n answer) with None => true | Some _ => false end)
    (seq 0 (length answer)) = true) by (vm_compute; reflexivity).
  rewrite forallb_forall in H. specialize (H n). destruct (parse_response (take n answer)); [|done].
  discriminate H. apply in_seq. lia.
Qed.

Lemma ReadResponse_answer segs acc tail fin :
  acc ++ concat segs = answer ++ tail -> (length acc < length answer)%nat ->
  exists lost segs',
    ReadResponse acc segs fin = (inl (bytes_of connected), segs') /\ tail = lost ++ concat segs' /\
    ((exists k, acc ++ concat (take k segs) = answer) -> lost = []).
Proof.
  revert acc. induction segs as [|seg segs IH]; intros acc E Hl.
  { cbn in E. apply (f_equal length) in E. rewrite !length_app in E. cbn [length] in E. lia. }
  assert (Hacc : acc = take (length acc) answer).
  { apply (f_equal (take (length acc))) in E. by rewrite take_app_length, take_app_le in E by lia. }
  cbn [concat] in E. rewrite app_assoc in E.
  assert (Hk : forall k, acc ++ concat (take k (seg :: segs)) = answer -> exists k', k = S k' /\ (acc ++ seg) ++ concat (take k' segs) = answer).
  { intros [|k] Ek; cbn in Ek; [rewrite app_nil_r in Ek; rewrite Ek in Hl; lia|]. exists k. by rewrite <- app_assoc. }
  assert (Hp : parse_response acc = None) by (rewrite Hacc; by apply parse_answer_part).
  cbn [ReadResponse]. rewrite Hp.
  destruct (decide (length (acc ++ seg) < length answer)%nat) as [Hs|Hs].
  - destruct (IH _ E Hs) as (lost & segs' & H1 & H2 & H3). exists lost, segs'. split_and!; [done|done|].
    intros [k (k' & _ & Ek)%Hk]. apply H3. by exists k'.
  - assert (exists t, acc ++ seg = answer ++ t) as [t Et].
    { destruct (app_eq_inv _ _ _ _ E) as [(t & Et & _)|(t & Et & _)]; [by exists t|].
      exists []. assert (t = []) as ->; [|by rewrite Et, !app_nil_r].
      apply (f_equal length) in Et. rewrite length_app in Et. destruct t; [done|]. cbn [length] in Et. lia. }
    exists t, segs. split_and!.
    + rewrite Et. destruct segs; cbn [ReadResponse]; by rewrite parse_answer.
    + rewrite Et, <- app_assoc in E. by apply app_inv_head in E.
    + intros [k (k' & _ & Ek)%Hk]. rewrite Et in Ek. apply (f_equal length) in Ek. rewrite !length_app in Ek.
      destruct t; [done|]. cbn in Ek. lia.
Qed.

(** A client that connects over HTTP: its request has the method that
    [ServeHTTP] wants, which registers the connection and starts its goroutine;
    however the answer of [ServeHTTP] is cut into segments, [Connect] returns
    the connection, open and with [input] started, and the client then reads
    what the server sent after the answer, except bytes that came in the same
    segment as the end of the answer, which are lost with the reader of the
    handshake; when the answer ends a segment none are. *)
Theorem http_connects factories o address c segs fin tail x :
  net_dial o "tcp" address = inl c -> wr c (connect_request (rpc_path o)) = None ->
  received c = (segs, fin) -> concat segs = answer ++ tail ->
  exists lost segs',
    Connect factories o None "http" address x =
      (log_sent c (connect_request (rpc_path o)) x,
       Ok (Some (mk_started c segs' (Heartbeat o && (0 <? HeartbeatInterval o))), None)) /\
    tail = lost ++ concat segs' /\ ((exists k, concat (take k segs) = answer) -> lost = []) /\
    forall W' c' (y : lserver (W := W')),
      ServeHTTP (request_method (connect_request (rpc_path o))) (inl c') y = ((ServeWS c' y).1, Ok None).
Proof.
  intros Hd Hw Hr Hs. destruct (ReadResponse_answer segs [] tail fin Hs) as (lost & segs' & H1 & H2 & H3); [vm_compute; lia|].
  exists lost, segs'. split_and!; [|done|exact H3|].
  - unfold Connect, dial_network, newDirectHTTPConn. rewrite decide_True by done. rewrite Hd, Hw, Hr.
    unfold mbind, prog_bind, modify. cbn [fst snd]. rewrite H1. rewrite decide_True by (apply string_of_bytes_of). done.
  - intros W' c' y. unfold ServeHTTP. rewrite decide_False; [done|]. intros Hm. apply Hm. unfold connect_request, request_method.
    reflexivity.
Qed.

(** The connection [Connect] dials with the library's factories. *)
Definition dials (o : dial_option) (network address : string) : nat + error :=
  if decide (network = "http") then net_dial o "tcp" address
  else if decide (network = "ws") then dial (WSDial ("ws://" +:+ address +:+ rpc_path o) ("http://" +:+ address) (TLSConfig o))
  else if decide (network = "wss") then dial (WSDial ("wss://" +:+ address +:+ rpc_path o) ("https://" +:+ address) (TLSConfig o))
  else if decide (network = "kcp") then inr (ErrorString "kcp unsupported")
  else if decide (network = "quic") then inr (ErrorString "quic unsupported")
  else if decide (network = "memu") then dial (MemDial network address)
  else net_dial o network address.

(** Only the HTTP handshake uses a connection while it is dialled. *)
Lemma dial_network_plain o network address x : network <> "http" ->
  dial_network ConnFactories o network address x = (x, Ok (of_dial (dials o network address))).
Proof.
  intros Hh. unfold dial_network, dials. rewrite !decide_False by done.
  destruct (decide (network = "ws")) as [->|Hws]; [done|]. destruct (decide (network = "wss")) as [->|Hwss]; [done|].
  rewrite bool_decide_eq_false_2 by set_solver. unfold ConnFactories.
  destruct (decide (network = "kcp")) as [->|H1]; [done|]. destruct (decide (network = "quic")) as [->|H2]; [done|].
  destruct (decide (network = "memu")) as [->|H3]; [done|]. destruct (decide (network = "unix")) as [->|H4]; [done|].
  cbn [list_to_map foldr]. by rewrite !lookup_insert_ne, lookup_empty by done.
Qed.

Lemma dial_network_http o address x x' r err :
  dial_network ConnFactories o "http" address x = (x', Ok (r, err)) ->
  match err with
  | None => exists c segs, r = Some (c, segs) /\ dials o "http" address = inl c /\ cclosed x' = cclosed x
  | Some e => cworld x' = cworld x /\ forall c, dials o "http" address = inl c -> cclosed x' = cclosed x ++ [c]
  end.
Proof.
  unfold dial_network, dials. rewrite !decide_True by done. unfold newDirectHTTPConn.
  destruct (net_dial o "tcp" address) as [c|e]; [|by intros [= <- <- <-]].
  destruct (wr c _) as [e|]; [intros [= <- <- <-]; split; [done|by intros ? [= <-]]|].
  unfold mbind, prog_bind, modify. cbn [fst snd].
  destruct (ReadResponse _ _ _) as [[st|e] segs]; [case_decide|]; intros [= <- <- <-].
  - by exists c, segs. - split; [done|by intros ? [= <-]]. - split; [done|by intros ? [= <-]].
Qed.

(** C29: what becomes of the connection that [Connect] dials, on every network
    of the library: if [Connect] returns no error the client has it, open, as
    the plugins gave it; if it returns an error, either no connection was
    dialled, or it is closed and the plugins were told, or a plugin refused it,
    and then the error is the plugin's, the connection stays open with nobody
    to close it and the plugins are not told. *)
Theorem Connect_settles o plugins network address x x' r err :
  Connect ConnFactories o plugins network address x = (x', Ok (r, err)) ->
  match err with
  | None => exists c st, dials o network address = inl c /\ r = Some st /\ cclosed x' = cclosed x /\
      match plugins with
      | None => sc_conn st = c
      | Some p => DoConnCreated p c (cworld x) = (cworld x', Ok (sc_conn st, None))
      end
  | Some e => r = None /\
      ((forall c, dials o network address = inl c -> cclosed x' = cclosed x ++ [c]) /\
       match plugins with
       | None => cworld x' = cworld x
       | Some p => DoConnCreateFailed network address p (cworld x) = (cworld x', Ok tt)
       end \/
       exists c p c', dials o network address = inl c /\ plugins = Some p /\ cclosed x' = cclosed x /\
         DoConnCreated p c (cworld x) = (cworld x', Ok (c', Some e)))
  end.
Proof.
  unfold Connect, mbind at 1, prog_bind at 1. intros E.
  assert (Hdial : exists x1 d err1, dial_network ConnFactories o network address x = (x1, Ok (d, err1)) /\ cworld x1 = cworld x /\
    match err1 with
    | None => exists c segs, d = Some (c, segs) /\ dials o network address = inl c /\ cclosed x1 = cclosed x
    | Some e => forall c, dials o network address = inl c -> cclosed x1 = cclosed x ++ [c]
    end).
  { destruct (dial_network ConnFactories o network address x) as [x1 [[d err1]| | | |]] eqn:Ed; try done.
    exists x1, d, err1. split; [done|]. destruct (decide (network = "http")) as [->|Hh].
    - assert (Hw : cworld x1 = cworld x).
      { revert Ed. unfold dial_network, newDirectHTTPConn. rewrite decide_True by done.
        unfold mbind, prog_bind, modify. repeat case_match; by intros [= <- _ _]. }
      apply dial_network_http in Ed. destruct err1 as [e|]; tauto.
    - rewrite dial_network_plain in Ed by done. injection Ed as <- Ed. unfold of_dial in Ed.
      destruct (dials o network address) as [c|e]; injection Ed as <- <-; split; try done. by eexists c, _. }
  destruct Hdial as (x1 & d & err1 & Ed & Hw & Hd). rewrite Ed in E. destruct err1 as [e|].
  - unfold mbind, prog_bind in E. destruct plugins as [p|].
    + destruct (on_cworld (DoConnCreateFailed network address p) x1) as [x2 [[]| | | |]] eqn:Ef; try done.
      injection E as <- <- <-. split; [done|]. left. unfold on_cworld in Ef. rewrite Hw in Ef.
      destruct (DoConnCreateFailed network address p (cworld x)) as [w [[]| | | |]]; try done.
      injection Ef as <-. by split.
    + injection E as <- <- <-. split; [done|]. by left.
  - destruct Hd as (c & segs & -> & Hc & Hcl). unfold mbind, prog_bind in E. destruct plugins as [p|].
    + destruct (on_cworld (DoConnCreated p c) x1) as [x2 [[c' [e|]]| | | |]] eqn:Ef; try done;
        unfold on_cworld in Ef; rewrite Hw in Ef;
        destruct (DoConnCreated p c (cworld x)) as [w [[c2 e2]| | | |]] eqn:Eh; try done; injection Ef as <- -> ->;
        injection E as <- <- <-.
      * split; [done|]. right. by exists c, p, c'.
      * by eexists c, _.
    + injection E as <- <- <-. by eexists c, _.
Qed.
End connect.

(** ** Witnesses: the answer cut in two, with a byte behind it *)
Definition cut_answer : list (list byte) :=
  [take 5 (bytes_of hijack_answer); drop 5 (bytes_of hijack_answer) ++ [x08]; [x01]].
Definition default_option : dial_option := mk_dial_option false DefaultRPCPath false 0.
Definition idle : cstate (W := unit) := mk_cstate tt [] [].

Lemma http_connects_witness :
  exists lost segs',
    Connect (V := unit) (F := unit) (fun _ => inl 1%nat) (fun _ _ => None) (fun _ => (cut_answer, EOF)) ∅ default_option None
      "http" "srv:80" idle =
      (log_sent 1 (connect_request "/_irpc_") idle, Ok (Some (mk_started 1 segs' false), None)) /\
    [x08; x01] = lost ++ concat segs'.
Proof.
  destruct (http_connects (W := unit) (V := unit) (F := unit) (fun _ => inl 1%nat) (fun _ _ => None)
    (fun _ => (cut_answer, EOF)) ∅ default_option "srv:80" 1%nat cut_answer EOF [x08; x01] idle)
    as (lost & segs' & H1 & H2 & _); [reflexivity|reflexivity|reflexivity|reflexivity|].
  exists lost, segs'. split; [exact H1|exact H2].
Defined.

Lemma Connect_settles_witness :
  exists c st, dials (fun _ => inl 1%nat) default_option "tcp" "srv:80" = inl c /\
    Some (mk_started 1 [] false) = Some st /\ @nil nat = [] /\ sc_conn st = c.
Proof.
  apply (Connect_settles (W := unit) (V := unit) (F := unit) (fun _ => inl 1%nat) (fun _ _ => None) (fun _ => ([], EOF))
    default_option None "tcp" "srv:80" idle idle (Some (mk_started 1 [] false)) None).
  vm_compute. reflexivity.
Defined.
