(* ===== verification/Mdns.v ===== *)
(** serverplugin/mdns.go: the plugin that publishes the services of a server in
    one mDNS text record.

    zeroconf is an interface with its documented behaviour; a call of a method
    on a nil server panics.  The fields shared with the other registry plugins
    are those of Registries, apart from the list of services, which holds the
    metadata here. *)
From S2P Require Import Prelude Go KVStore UrlQuery Registries.
Open Scope go_scope.

Record serviceMeta : Type := mk_serviceMeta { Service : string; Meta : string; smAddress : string }.

(** [server] says if it was created. *)
Record MDNSRegisterPlugin : Type := mk_mdns {
  mAddress : string;
  port : Z;
  mServices : list serviceMeta;
  mInterval : Z;
  server : bool;
  domain : string;
  mdying : chan_state;
  mdone : chan_state
}.

Definition NewMDNSRegisterPlugin (serviceAddress : string) (port updateInterval : Z) (domain : string) : MDNSRegisterPlugin :=
  mk_mdns serviceAddress port [] updateInterval false (if decide (domain = "") then "local." else domain) OpenChan OpenChan.

(** [zeroconf.Register], [SetText] and [Shutdown]; [text] is the record that is
    published. *)
Record Zeroconf (W : Type) : Type := mk_Zeroconf {
  ZRegister : string -> Z -> list string -> prog W unit;
  SetText : list string -> prog W unit;
  ZShutdown : prog W unit
}.
Arguments mk_Zeroconf {W}.
Arguments ZRegister {W}.
Arguments SetText {W}.
Arguments ZShutdown {W}.

Class ZeroconfLaws {W} (z : Zeroconf W) (text : W -> list string) : Prop := {
  text_Register domain port t w w' : ZRegister z domain port t w = (w', Ok tt) -> text w' = t;
  text_SetText t w : exists w', SetText z t w = (w', Ok tt) /\ text w' = t
}.

Section mdns.
Context {W : Type} (z : Zeroconf W) (Metrics : option (Meters W)).
(** [json.Marshal] of the services, and the port of an address: [SplitHostPort]
    and [Atoi], if they succeed. *)
Context (Marshal : list serviceMeta -> list byte) (HostPort : string -> option Z).

Definition mdns_state : Type := MDNSRegisterPlugin * W.
Definition on_zeroconf {A} (m : prog W A) : prog mdns_state A := fun '(p, w) => let '(w, r) := m w in ((p, w), r).

(** The text published for some services. *)
Definition text_of (services : list serviceMeta) : list string := [string_of (QueryEscape (Marshal services))].

(** The part of an address after the first ["@"], unless it comes first. *)
Definition after_at (addr : string) : string :=
  match split_at "@" (bytes_of addr) with
  | ([], _) | (_, None) => addr
  | (_, Some rest) => string_of rest
  end.

Definition set_mServices (ss : list serviceMeta) (p : MDNSRegisterPlugin) : MDNSRegisterPlugin :=
  mk_mdns (mAddress p) (port p) ss (mInterval p) (server p) (domain p) (mdying p) (mdone p).
Definition set_server (port : Z) (b : bool) (p : MDNSRegisterPlugin) : MDNSRegisterPlugin :=
  mk_mdns (mAddress p) port (mServices p) (mInterval p) b (domain p) (mdying p) (mdone p).
Definition set_mchans (dy dn : chan_state) (p : MDNSRegisterPlugin) : MDNSRegisterPlugin :=
  mk_mdns (mAddress p) (port p) (mServices p) (mInterval p) (server p) (domain p) dy dn.

(** [if err != nil { panic(err) }]. *)
Definition or_panic {A} (m : prog mdns_state A) : prog mdns_state A := fun s =>
  match m s with (s, Err _) => (s, Panic) | r => r end.

Definition initMDNS : prog mdns_state unit :=
  '(p, _) ← get_st;
  match HostPort (after_at (mAddress p)) with
  | None => lift Panic
  | Some n =>
      modify (fun '(p, w) => (set_server n (server p) p, w));;
      or_panic (on_zeroconf (ZRegister z (domain p) n (text_of (mServices p))));;
      modify (fun '(p, w) => (set_server n true p, w))
  end.

(** [p.server.SetText] and [p.server.Shutdown] with the current services. *)
Definition publish : prog mdns_state unit :=
  '(p, _) ← get_st;
  if server p then on_zeroconf (SetText z (text_of (mServices p))) else lift Panic.
Definition shutdown_server : prog mdns_state unit :=
  '(p, _) ← get_st; if server p then on_zeroconf (ZShutdown z) else lift Panic.

(** [Start]: whether the refresh goroutine runs. *)
Definition mStart : prog mdns_state bool :=
  '(p, _) ← get_st;
  (if negb (server p) && negb (bool_decide (length (mServices p) = 0%nat)) then initMDNS else mret tt);;
  mret (0 <? mInterval p).

(** A tick of the refresh goroutine: the meters are set in the metadata of
    every service. *)
Definition refresh_meta (ex : list (string * string)) (sm : serviceMeta) : serviceMeta :=
  mk_serviceMeta (Service sm) (refreshed ex (Meta sm)) (smAddress sm).

Definition mTick : prog mdns_state unit :=
  '(p, w) ← get_st;
  if negb (server p) && bool_decide (length (mServices p) = 0%nat) then mret tt
  else
    put_st (set_mServices (refresh_meta (extra Metrics w) <$> mServices p) p, w);;
    publish.

(** The end of the goroutine: [close(p.done)] and the deferred [Shutdown]. *)
Definition mExit : prog mdns_state unit :=
  '(p, _) ← get_st;
  c ← lift (close_chan (mdone p));
  modify (fun '(p, w) => (set_mchans (mdying p) c p, w));;
  shutdown_server.

(** [Stop] up to its wait for [done]. *)
Definition mStop : prog mdns_state unit :=
  shutdown_server;;
  '(p, _) ← get_st;
  c ← lift (close_chan (mdying p));
  modify (fun '(p, w) => (set_mchans c (mdone p) p, w)).

Definition mMark (meter : string) : prog mdns_state unit :=
  match Metrics with Some m => on_zeroconf (Mark m meter) | None => mret tt end.
Definition mHandleConnAccept {C} (conn : C) : prog mdns_state (C * bool) := mMark "connections";; mret (conn, true).
Definition mPreCall {V} (args : V) : prog mdns_state V := mMark "calls";; mret args.

Definition empty_service : error := ErrorString "register service `name` can't be empty".

Definition mRegister (name metadata : string) : prog mdns_state unit :=
  if blank name then fail empty_service else
  modify (fun '(p, w) => (set_mServices (mServices p ++ [mk_serviceMeta name metadata (mAddress p)]) p, w));;
  '(p, _) ← get_st;
  if server p then publish else initMDNS.

Definition mRegisterFunction (serviceName fname metadata : string) : prog mdns_state unit := mRegister serviceName metadata.

Definition mUnregister (name : string) : prog mdns_state unit :=
  '(p, w) ← get_st;
  if bool_decide (length (mServices p) = 0%nat) then mret tt
  else if blank name then fail empty_service
  else
    put_st (set_mServices (filter (fun sm => Service sm <> name) (mServices p)) p, w);;
    publish.

(** ** What is published *)
Context (text : W -> list string) {Hz : ZeroconfLaws z text}.

(** Calls of the server and ticks of the goroutine, in any order; an error of a
    call goes back to its caller. *)
Inductive mdns_event : Type := ERegister (name metadata : string) | EUnregister (name : string) | ETick.

Definition run_event (e : mdns_event) : prog mdns_state unit :=
  match e with
  | ERegister name metadata => mRegister name metadata
  | EUnregister name => mUnregister name
  | ETick => mTick
  end.

Fixpoint mdns_run (es : list mdns_event) : prog mdns_state unit := fun s =>
  match es with
  | [] => (s, Ok tt)
  | e :: es => match run_event e s with
               | (s, Ok _) | (s, Err _) => mdns_run es s
               | r => r
               end
  end.

(** The services after the events: those registered with a name and not
    unregistered since, in order, a service registered twice twice. *)
Definition spec_event (l : list (string * string)) (e : mdns_event) : list (string * string) :=
  match e with
  | ERegister name metadata => if blank name then l else l ++ [(name, metadata)]
  | EUnregister name => if blank name then l else filter (fun nm => nm.1 <> name) l
  | ETick => l
  end.

(** A service entry for a registration: the meters apart, the metadata's values
    are the registered ones. *)
Definition entry_for (addr : string) (sm : serviceMeta) (nm : string * string) : Prop :=
  Service sm = nm.1 /\ smAddress sm = addr /\
  forall k, k <> "calls" -> k <> "connections" ->
    UrlQuery.Get (ParseQuery (bytes_of (Meta sm))).1 k = UrlQuery.Get (ParseQuery (bytes_of nm.2)).1 k.

Definition mdns_ok (l : list (string * string)) (s : mdns_state) : Prop :=
  Forall2 (entry_for (mAddress s.1)) (mServices s.1) l /\
  (server s.1 = true -> text s.2 = text_of (mServices s.1)) /\
  (server s.1 = false -> mServices s.1 = []).

Lemma refreshed_keeps w k v : k <> "calls" -> k <> "connections" ->
  UrlQuery.Get (ParseQuery (bytes_of (refreshed (extra Metrics w) v))).1 k = UrlQuery.Get (ParseQuery (bytes_of v)).1 k.
Proof.
  intros H1 H2. unfold refreshed. rewrite bytes_of_string_of, ParseQuery_Values_Encode. cbn [fst].
  rewrite Get_sort_by_key. unfold extra. destruct Metrics as [m|]; [|done]. cbn [fold_left].
  by rewrite !Get_Set_ne.
Qed.

Lemma Forall2_filter_entry addr name ss l : Forall2 (entry_for addr) ss l ->
  Forall2 (entry_for addr) (filter (fun sm => Service sm <> name) ss) (filter (fun nm => nm.1 <> name) l).
Proof.
  induction 1 as [|sm nm ss l (H1 & H2 & H3) _ IH]; [constructor|].
  rewrite !filter_cons, H1. case_decide; [|done]. by constructor.
Qed.

Lemma publish_ok l p w : server p = true -> Forall2 (entry_for (mAddress p)) (mServices p) l ->
  exists w', publish (p, w) = ((p, w'), Ok tt) /\ mdns_ok l (p, w').
Proof.
  intros Hs Hl. unfold publish, mbind, prog_bind, get_st, on_zeroconf. rewrite Hs.
  destruct (text_SetText (text_of (mServices p)) w) as (w' & -> & Et). exists w'.
  split; [done|]. split_and!; [done|done|]. cbn. congruence.
Qed.

Lemma run_event_ok e l s s' r : mdns_ok l s -> run_event e s = (s', r) ->
  match r with Ok _ | Err _ => mdns_ok (spec_event l e) s' /\ mAddress s'.1 = mAddress s.1 | _ => True end.
Proof.
  destruct s as [p w]. intros (Hl & Ht & Hn) E. cbn [fst snd] in *. destruct e as [name metadata|name|]; cbn [run_event spec_event] in *.
  - unfold mRegister in E. destruct (blank name); [injection E as <- <-; done|].
    unfold mbind, prog_bind, modify, get_st in E.
    set (p1 := set_mServices (mServices p ++ [mk_serviceMeta name metadata (mAddress p)]) p) in *.
    assert (Hl1 : Forall2 (entry_for (mAddress p1)) (mServices p1) (l ++ [(name, metadata)])).
    { apply Forall2_app; [done|]. constructor; [done|constructor]. }
    destruct (server p1) eqn:Hs.
    + destruct (publish_ok _ p1 w Hs Hl1) as (w' & E1 & ?). rewrite E1 in E. by injection E as <- <-.
    + unfold initMDNS, or_panic, mbind, prog_bind, get_st, modify, lift, on_zeroconf in E.
      destruct (HostPort _) as [n|]; [|by injection E as <- <-].
      destruct (ZRegister z (domain p1) n (text_of (mServices p1)) w) as [w' [[]| | | |]] eqn:Ez; injection E as <- <-; try done.
      apply text_Register in Ez. split; [|done]. split_and!; done.
  - unfold mUnregister, mbind, prog_bind, get_st, put_st in E. case_bool_decide as Hlen.
    + injection E as <- <-. destruct (mServices p) eqn:Em; [|done]. inversion Hl; subst. cbn.
      assert (H0 : mdns_ok [] (p, w)) by (unfold mdns_ok; cbn; rewrite Em; split_and!; [constructor|done|done]).
      by destruct (blank name).
    + destruct (blank name); [injection E as <- <-; done|].
      assert (Hs : server p = true) by (destruct (server p) eqn:?; [done|]; by rewrite Hn in Hlen).
      set (p1 := set_mServices (filter (fun sm => Service sm <> name) (mServices p)) p) in *.
      destruct (publish_ok _ p1 w Hs (Forall2_filter_entry _ name _ _ Hl)) as (w' & E1 & ?).
      rewrite E1 in E. by injection E as <- <-.
  - unfold mTick, mbind, prog_bind, get_st, put_st in E. destruct (server p) eqn:Hs; cbn [negb andb] in E.
    + set (p1 := set_mServices (refresh_meta (extra Metrics w) <$> mServices p) p) in *.
      destruct (publish_ok l p1 w Hs) as (w' & E1 & ?); [|rewrite E1 in E; by injection E as <- <-].
      apply Forall2_fmap_l. eapply Forall2_impl; [exact Hl|]. intros sm nm (H1 & H2 & H3). split_and!; [done|done|].
      intros k Hk1 Hk2. cbn [Meta refresh_meta]. rewrite refreshed_keeps by done. by apply H3.
    + rewrite Hn in E by done. cbn in E. injection E as <- <-. split; [|done]. unfold mdns_ok. cbn. by rewrite Hs.
Qed.

(** What an mDNS plugin publishes, after any sequence of calls and ticks
    that does not panic, some of which return errors: its services are those
    registered and not unregistered since, in order, a service registered twice
    twice; each has the server's address and the metadata it was registered
    with, the meters apart; and the text record is the encoding of exactly
    these services once the record exists. *)
Theorem mdns_published addr n interval dom es w p w' :
  mdns_run es (NewMDNSRegisterPlugin addr n interval dom, w) = ((p, w'), Ok tt) ->
  Forall2 (entry_for addr) (mServices p) (fold_left spec_event es []) /\
  (server p = true -> text w' = text_of (mServices p)) /\ (server p = false -> mServices p = []).
Proof.
  intros E.
  assert (H : forall es l s s', mdns_ok l s -> mdns_run es s = (s', Ok tt) ->
    mdns_ok (fold_left spec_event es l) s' /\ mAddress s'.1 = mAddress s.1).
  { clear - Hz. induction es as [|e es IH]; intros l s s' Hs E; [by injection E as <-|]. cbn [mdns_run] in E.
    destruct (run_event e s) as [s1 r] eqn:E1. pose proof (run_event_ok _ _ _ _ _ Hs E1) as H1.
    destruct r as [[]|e1| | |]; try done; destruct H1 as [H1 H2];
      destruct (IH _ _ _ H1 E) as [H3 H4]; split; try done; congruence. }
  assert (H0 : mdns_ok [] (NewMDNSRegisterPlugin addr n interval dom, w)) by (split_and!; [constructor|done|done]).
  destruct (H es [] _ _ H0 E) as [(H1 & H2 & H3) H4].
  cbn [fst snd] in *. rewrite H4 in H1. done.
Qed.

(** [Stop] of a plugin that never published panics, and so does the end of its
    refresh goroutine, which nothing recovers. *)
Lemma mdns_Stop_unpublished p w : server p = false ->
  mStop (p, w) = ((p, w), Panic) /\
  (mdone p = OpenChan -> exists s, mExit (p, w) = (s, Panic)).
Proof.
  intros Hs. unfold mStop, mExit, shutdown_server. prog_step. rewrite Hs. split; [done|].
  intros Hd. rewrite Hd. cbn. rewrite Hs. by eexists.
Qed.
End mdns.

(** ** Witness: a registry that is a text *)
Definition text_zeroconf : Zeroconf (list string) :=
  mk_Zeroconf (fun _ _ t _ => (t, Ok tt)) (fun t _ => (t, Ok tt)) (fun _ => ([], Ok tt)).

#[export] Instance text_zeroconf_laws : ZeroconfLaws text_zeroconf id.
Proof. split; [by intros ? ? ? ? ? [= <-]|intros t w; by exists t]. Qed.

Definition names_json (ss : list serviceMeta) : list byte := concat ((fun sm => bytes_of (Service sm +:+ ";")) <$> ss).

Definition mdns_events : list mdns_event :=
  [ERegister "Arith" "group=a"; ERegister "" ""; ERegister "Echo" ""; EUnregister "Arith"; ETick].

Definition mdns_end := mdns_run text_zeroconf None names_json (fun _ => Some 8972) mdns_events
  (NewMDNSRegisterPlugin "tcp@srv:8972" 0 0 "", []).

Lemma mdns_published_witness : mdns_end.1.2 = ["Echo%3B"] /\ Service <$> mServices mdns_end.1.1 = ["Echo"].
Proof.
  destruct (mdns_published text_zeroconf None names_json (fun _ => Some 8972) id "tcp@srv:8972" 0 0 "" mdns_events []
    mdns_end.1.1 mdns_end.1.2) as (_ & H & _); [vm_compute; reflexivity|].
  split; [|vm_compute; reflexivity].
  etransitivity; [exact (H ltac:(vm_compute; reflexivity))|vm_compute; reflexivity].
Defined.
