(* ===== verification/AsyncWrite.v ===== *)
(** server/server_serve.go with [AsyncWrite]: the goroutine that writes the
    answers of a connection, the channel of one frame before it, and the
    goroutines of requests that send to the channel, while the read loop may
    end and [doneChan] may be closed. *)
From S2P Require Import Prelude Go.

Notation frame := (list byte).

(** [senders] are the goroutines at [writeCh <- data] with their frame, [buf]
    is the channel, of capacity 1; [out] is what the connection took; [lost]
    are the frames whose send panicked, which is recovered.  [entered] is the
    order in which frames entered the channel. *)
Record astate : Type := mk_astate {
  senders : list frame;
  buf : list frame;
  chClosed : bool;
  doneClosed : bool;
  writing : bool;
  out : list frame;
  lost : list frame;
  produced : list frame;
  entered : list frame
}.

Definition start_async : astate := mk_astate [] [] false false true [] [] [] [].

(** [writeResponse]: the encoded answer [data] is to be sent. *)
Definition async_writeResponse (data : frame) (x : astate) : astate :=
  mk_astate (senders x ++ [data]) (buf x) (chClosed x) (doneClosed x) (writing x) (out x) (lost x)
    (produced x ++ [data]) (entered x).

(** The send of the [i]-th goroutine: it panics on a closed channel, enters the
    channel when there is room, and waits otherwise. *)
Definition send_frame (i : nat) (x : astate) : option astate :=
  data ← senders x !! i;
  if chClosed x then
    Some (mk_astate (delete i (senders x)) (buf x) (chClosed x) (doneClosed x) (writing x) (out x) (lost x ++ [data])
      (produced x) (entered x))
  else if decide (length (buf x) < 1)%nat then
    Some (mk_astate (delete i (senders x)) (buf x ++ [data]) (chClosed x) (doneClosed x) (writing x) (out x) (lost x)
      (produced x) (entered x ++ [data]))
  else None.

(** A turn of [serveAsyncWrite]: the case of [doneChan], or that of [writeCh],
    whose value is nil when the channel is closed and empty. *)
Definition stop_writer (x : astate) : astate :=
  mk_astate (senders x) (buf x) (chClosed x) (doneClosed x) false (out x) (lost x) (produced x) (entered x).

Definition serveAsyncWrite (case_done : bool) (x : astate) : option astate :=
  if negb (writing x) then None
  else if case_done then (if doneClosed x then Some (stop_writer x) else None)
  else match buf x with
       | data :: rest =>
           Some (mk_astate (senders x) rest (chClosed x) (doneClosed x) true (out x ++ [data]) (lost x) (produced x) (entered x))
       | [] => if chClosed x then Some (stop_writer x) else None
       end.

(** The end of [serveConn] closes [writeCh]; [Shutdown] and [Close] close
    [doneChan]. *)
Definition close_writeCh (x : astate) : astate :=
  mk_astate (senders x) (buf x) true (doneClosed x) (writing x) (out x) (lost x) (produced x) (entered x).
Definition close_doneChan (x : astate) : astate :=
  mk_astate (senders x) (buf x) (chClosed x) true (writing x) (out x) (lost x) (produced x) (entered x).

Inductive astep : astate -> astate -> Prop :=
| as_produce data x : astep x (async_writeResponse data x)
| as_send i x x' : send_frame i x = Some x' -> astep x x'
| as_write d x x' : serveAsyncWrite d x = Some x' -> astep x x'
| as_close x : chClosed x = false -> astep x (close_writeCh x)
| as_done x : astep x (close_doneChan x).

Definition areachable : astate -> Prop := rtc astep start_async.

Record ainv (x : astate) : Prop := {
  ai_all : produced x ≡ₚ senders x ++ lost x ++ entered x;
  ai_fifo : entered x = out x ++ buf x;
  ai_cap : (length (buf x) <= 1)%nat;
  ai_lost : lost x <> [] -> chClosed x = true;
  ai_stopped : writing x = false -> doneClosed x = true \/ (chClosed x = true /\ buf x = [])
}.

Lemma send_frame_inv i x x' : send_frame i x = Some x' -> ainv x -> ainv x'.
Proof.
  unfold send_frame. destruct (senders x !! i) as [data|] eqn:Hi; [|done]. cbn [mbind option_bind].
  intros E [H1 H2 H3 H4 H5].
  destruct (chClosed x) eqn:Hc; [|case_decide as Hl; [|done]]; injection E as <-; split; cbn; try done.
  - rewrite H1, (delete_Permutation _ _ _ Hi) at 1. cbn. rewrite <- !app_assoc. cbn. solve_Permutation.
  - rewrite H1, (delete_Permutation _ _ _ Hi) at 1. cbn. solve_Permutation.
  - by rewrite H2, app_assoc.
  - rewrite length_app. cbn. lia.
  - intros Hw. destruct (H5 Hw) as [?|[? _]]; [by left|congruence].
Qed.

Lemma serveAsyncWrite_inv d x x' : serveAsyncWrite d x = Some x' -> ainv x -> ainv x'.
Proof.
  unfold serveAsyncWrite. intros E [H1 H2 H3 H4 H5]. destruct (writing x) eqn:Hw; [|done]. cbn [negb] in E.
  destruct d.
  - destruct (doneClosed x) eqn:Hd; [|done]. injection E as <-. split; cbn; try done. by left.
  - destruct (buf x) as [|data rest] eqn:Hb.
    + destruct (chClosed x) eqn:Hc; [|done]. injection E as <-. split; cbn; rewrite ?Hb; try done. intros _. by right.
    + injection E as <-. split; cbn; try done.
      * rewrite H2. by rewrite <- app_assoc.
      * cbn in H3. lia.
Qed.

Lemma areachable_inv x : areachable x -> ainv x.
Proof.
  intros Hr. assert (H0 : ainv start_async) by (split; cbn; [done|done|lia|done|done]).
  induction Hr as [|x y z Hst _ IH]; [done|]. apply IH.
  destruct Hst as [data x|i x x' E|d x x' E|x Hc|x].
  - destruct H0 as [H1 H2 H3 H4 H5]. split; cbn; try done. rewrite H1. solve_Permutation.
  - by eapply send_frame_inv.
  - by eapply serveAsyncWrite_inv.
  - destruct H0 as [H1 H2 H3 H4 H5]. split; cbn; try done.
    intros Hw. destruct (H5 Hw) as [?|[? ?]]; [by left|by right].
  - destruct H0 as [H1 H2 H3 H4 H5]. split; cbn; try done. by left.
Qed.

(** ** Properties *)

(** C37: what the asynchronous writer does with the answers of a connection,
    under every order of the goroutines: each answer is still with its sender,
    in the channel, written, or lost, once; they are written in the order in
    which they entered the channel; none is lost while the channel is open; and
    when the writer has stopped without [doneChan], all that entered the
    channel was written. *)
Theorem async_writes x :
  areachable x ->
  produced x ≡ₚ senders x ++ lost x ++ out x ++ buf x /\
  entered x = out x ++ buf x /\ (length (buf x) <= 1)%nat /\
  (chClosed x = false -> lost x = []) /\
  (writing x = false -> doneClosed x = false -> entered x = out x).
Proof.
  intros Hr. pose proof (areachable_inv x Hr) as [H1 H2 H3 H4 H5]. split_and!; try done.
  - by rewrite <- H2.
  - intros Hc. destruct (lost x); [done|]. by rewrite H4 in Hc.
  - intros Hw Hd. destruct (H5 Hw) as [?|[_ Hb]]; [congruence|]. by rewrite H2, Hb, app_nil_r.
Qed.

(** An answer can be lost although its connection still takes bytes: the
    read loop ends while a request is handled, as it does when a [Shutdown]
    begins that waits for this very request; the end of the loop closes the
    channel, and the send of the answer panics. *)
Theorem async_answer_lost data :
  exists x, areachable x /\ doneClosed x = false /\ writing x = true /\
    produced x = [data] /\ lost x = [data] /\ out x = [] /\ senders x = [] /\
    forall y, rtc astep x y -> data ∈ lost y.
Proof.
  eexists. split_and!.
  - eapply rtc_l; [apply as_close; reflexivity|]. eapply rtc_l; [apply (as_produce data)|].
    apply rtc_once. apply (as_send 0). reflexivity.
  - done. - done. - done. - done. - done. - done.
  - intros y Hr. remember (mk_astate _ _ _ _ _ _ _ _ _) as x eqn:Ex.
    assert (Hx : data ∈ lost x) by (subst; by left). clear Ex.
    induction Hr as [|x y z Hst _ IH]; [done|]. apply IH.
    destruct Hst as [d x|i x x' E|d x x' E|x Hc|x]; try done.
    + unfold send_frame in E. destruct (senders x !! i); [|done]. cbn [mbind option_bind] in E.
      destruct (chClosed x); [|case_decide; [|done]]; injection E as <-; cbn; [|done].
      apply elem_of_app. by left.
    + unfold serveAsyncWrite in E. destruct (writing x), d; cbn [negb] in E; try done.
      * destruct (doneClosed x); [|done]. by injection E as <-.
      * destruct (buf x); [destruct (chClosed x); [|done]|]; by injection E as <-.
Qed.

(** ** Witness: one answer, written *)
Definition one_written : astate := mk_astate [] [] false false true [[x08]] [] [[x08]] [[x08]].

Lemma async_writes_witness : entered one_written = out one_written ++ buf one_written.
Proof.
  destruct (async_writes one_written) as (_ & H & _); [|exact H].
  eapply rtc_l; [apply (as_produce [x08])|]. eapply rtc_l; [apply (as_send 0); reflexivity|].
  apply rtc_once. apply (as_write false). reflexivity.
Defined.
