(* ===== verification/Compress.v ===== *)
(** util/compress.go: gzip over pooled buffers.  The slice that [Zip] returns is
    the array of a buffer that is already back in the pool, so arrays are
    shared: a heap of arrays, and slices that name one.

    compress/gzip is an argument: what its writer has put into the buffer when
    it is closed, and what its reader gives for bytes. *)
From S2P Require Import Prelude Go Header Message.
Open Scope go_scope.

(** [arrays] holds the contents of every array to its capacity; [pool] are the
    buffers in [spBuffer], by their arrays. *)
Record zstate : Type := mk_zstate { arrays : gmap nat (list byte); pool : list nat }.

(** A slice of an array from its start, and the bytes it has now. *)
Definition zslice : Type := (nat * nat)%type.
Definition read_slice (x : zstate) (sl : zslice) : list byte := take sl.2 (default [] (arrays x !! sl.1)).

Section compress.
Context (gzip : list byte -> list byte) (gunzip : list byte -> list byte + error).

(** [spBuffer.Get()]: one of the pool, or a new buffer without an array. *)
Definition get_buffer (choice : option nat) (x : zstate) : option nat * zstate :=
  match choice ≫= fun i => pool x !! i with
  | Some a => (Some a, mk_zstate (arrays x) (filter (fun b => b <> a) (pool x)))
  | None => (None, x)
  end.

(** The writes to a reset buffer: in its array when they fit, and else in a new
    one with [spare] bytes left over, after [spill] bytes went to the old. *)
Definition write_buffer (data : list byte) (b : option nat) (spare spill : nat) (x : zstate) : nat * zstate :=
  let new := fresh (dom (arrays x)) in
  let grown (m : gmap nat (list byte)) := (new, mk_zstate (<[new := data ++ replicate spare x00]> m) (pool x)) in
  match b with
  | None => grown (arrays x)
  | Some a =>
      let old := default [] (arrays x !! a) in
      if decide (length data <= length old)%nat
      then (a, mk_zstate (<[a := data ++ drop (length data) old]> (arrays x)) (pool x))
      else let k := (spill `min` length old)%nat in
           grown (<[a := take k data ++ drop k old]> (arrays x))
  end.

(** [Zip]: the deferred function puts the buffer back before the caller has the
    slice. *)
Definition Zip (choice : option nat) (spare spill : nat) (data : list byte) (x : zstate) : zslice * zstate :=
  let '(b, x) := get_buffer choice x in
  let '(a, x) := write_buffer (gzip data) b spare spill x in
  ((a, length (gzip data)), mk_zstate (arrays x) (pool x ++ [a])).

(** [Unzip] copies what it reads. *)
Definition Unzip (data : list byte) : list byte + error := gunzip data.

(** ** Properties *)

(** The arrays of the pool exist and are there once. *)
Definition zinv (x : zstate) : Prop := NoDup (pool x) /\ forall a, a ∈ pool x -> a ∈ dom (arrays x).

Lemma write_buffer_reads data b spare spill x a x' :
  write_buffer data b spare spill x = (a, x') -> (forall c, b = Some c -> c ∈ dom (arrays x)) ->
  read_slice x' (a, length data) = data /\ pool x' = pool x /\ a ∈ dom (arrays x') /\
  dom (arrays x) ⊆ dom (arrays x') /\ (b <> Some a -> a ∉ dom (arrays x)) /\
  forall a', a' <> a -> b <> Some a' -> arrays x' !! a' = arrays x !! a'.
Proof.
  intros E Hb. pose proof (is_fresh (dom (arrays x))) as Hf. unfold write_buffer, read_slice in *.
  destruct b as [c|]; [case_decide as Hl|]; injection E as <- <-; cbn [fst snd arrays pool].
  - rewrite lookup_insert_eq. cbn. rewrite take_app_length. split_and!; try done; try set_solver.
    intros a' Hne _. by rewrite lookup_insert_ne.
  - rewrite lookup_insert_eq. cbn [from_option]. unfold id. rewrite take_app_length.
    split_and!; try done; try set_solver.
    intros a' Hne Hc. rewrite !lookup_insert_ne by congruence. done.
  - rewrite lookup_insert_eq. cbn [from_option]. unfold id. rewrite take_app_length. split_and!; try done; try set_solver.
    intros a' Hne _. by rewrite lookup_insert_ne.
Qed.

Lemma get_buffer_spec choice x b x' : get_buffer choice x = (b, x') -> zinv x ->
  arrays x' = arrays x /\ (forall c, b = Some c -> c ∈ pool x /\ pool x' = filter (fun d => d <> c) (pool x)) /\
  (b = None -> pool x' = pool x).
Proof.
  unfold get_buffer. destruct (choice ≫= _) as [a|] eqn:Ea; intros [= <- <-] Hi; [|done].
  split_and!; [done| |done]. intros c [= <-]. split; [|done].
  destruct choice as [i|]; [|done]. cbn in Ea. by eapply list_elem_of_lookup_2.
Qed.

(** What [Zip] does: the slice has the compressed bytes; the buffer it names is
    in the pool; no slice of an array that was not taken changes. *)
Lemma Zip_spec choice spare spill data x sl x' : zinv x -> Zip choice spare spill data x = (sl, x') ->
  zinv x' /\ read_slice x' sl = gzip data /\ sl.1 ∈ pool x' /\
  forall a n, a ∈ dom (arrays x) -> (get_buffer choice x).1 <> Some a -> read_slice x' (a, n) = read_slice x (a, n).
Proof.
  intros [Hnd Hdom] E. unfold Zip in E.
  destruct (get_buffer choice x) as [b x1] eqn:Eg. destruct (get_buffer_spec _ _ _ _ Eg) as (Ha & Hb & Hn); [done|].
  destruct (write_buffer (gzip data) b spare spill x1) as [a x2] eqn:Ew. injection E as <- <-.
  destruct (write_buffer_reads _ _ _ _ _ _ _ Ew) as (H1 & H2 & H3 & H4 & H5 & H6).
  { intros c Hc. rewrite Ha. by apply Hdom, Hb. }
  rewrite Ha in *.
  assert (Hsub : forall c, c ∈ pool x1 -> c ∈ pool x /\ c <> a).
  { intros c Hc. destruct b as [d|].
    - destruct (Hb d eq_refl) as [Hd Hp]. rewrite Hp in Hc. apply list_elem_of_filter in Hc as [Hne Hc]. split; [done|].
      intros ->. destruct (decide (Some d = Some a)) as [Hda|Hda]; [congruence|]. by apply (H5 Hda), Hdom.
    - rewrite (Hn eq_refl) in Hc. split; [done|]. intros ->. by apply (H5 ltac:(done)), Hdom. }
  split_and!.
  - split; cbn; rewrite H2.
    + apply NoDup_app. split_and!; [|set_solver|apply NoDup_singleton].
      destruct b as [d|]; [rewrite (proj2 (Hb d eq_refl)); by apply NoDup_filter|by rewrite Hn].
    + intros c [Hc|Hc]%elem_of_app; [|apply list_elem_of_singleton in Hc; by subst]. apply H4, Hdom. by apply Hsub.
  - exact H1.
  - cbn. set_solver.
  - intros c n Hc Hne. cbn [fst] in Hne. unfold read_slice. cbn [fst snd arrays].
    destruct (decide (c = a)) as [->|Hca]; [by destruct (H5 Hne)|]. by rewrite H6.
Qed.

(** Other calls of [Zip], each with its choice of buffer. *)
Fixpoint zips (cs : list (option nat * nat * nat * list byte)) (x : zstate) : zstate :=
  match cs with [] => x | (choice, spare, spill, data) :: cs => zips cs (Zip choice spare spill data x).2 end.

(** No call among them takes the array [a]. *)
Fixpoint spares (a : nat) (cs : list (option nat * nat * nat * list byte)) (x : zstate) : Prop :=
  match cs with
  | [] => True
  | (choice, spare, spill, data) :: cs =>
      (get_buffer choice x).1 <> Some a /\ spares a cs (Zip choice spare spill data x).2
  end.

Context (gunzip_gzip : forall d, gunzip (gzip d) = inl d).

(** Gzip round trip, and how long it holds: what [Zip] returns unzips to
    the data, and still does after any number of other calls of [Zip] as long
    as none of them takes its buffer, which is in the pool; but a call that
    takes it, for data that compresses to as many bytes, turns the slice into
    the other data: its owner then sends what another goroutine compressed. *)
Theorem Zip_until_reused choice spare spill data x sl x1 :
  zinv x -> Zip choice spare spill data x = (sl, x1) ->
  Unzip (read_slice x1 sl) = inl data /\
  (forall cs, spares sl.1 cs x1 -> Unzip (read_slice (zips cs x1) sl) = inl data) /\
  (forall data2, length (gzip data2) = length (gzip data) ->
     exists i, forall spare2 spill2, Unzip (read_slice (Zip (Some i) spare2 spill2 data2 x1).2 sl) = inl data2).
Proof.
  intros Hi E. destruct (Zip_spec _ _ _ _ _ _ _ Hi E) as (Hi1 & Hr & Hp & _). unfold Unzip. split_and!.
  - by rewrite Hr.
  - intros cs Hcs. assert (Hz : forall cs y, zinv y -> sl.1 ∈ dom (arrays y) -> spares sl.1 cs y ->
      read_slice (zips cs y) sl = read_slice y sl).
    { clear - gzip gunzip. induction cs as [|[[[choice spare] spill] d] cs IH]; intros y Hy Hd Hs; [done|].
      destruct Hs as [Hne Hs]. cbn [zips]. destruct (Zip choice spare spill d y) as [sl' y'] eqn:Ey.
      destruct (Zip_spec _ _ _ _ _ _ _ Hy Ey) as (Hy' & _ & _ & Hk). cbn [snd] in *.
      rewrite IH; [|done| |done].
      - destruct sl as [a n]. by apply Hk.
      - unfold Zip in Ey. destruct (get_buffer choice y) as [b y1] eqn:Eg.
        destruct (get_buffer_spec _ _ _ _ Eg Hy) as (Ha & Hb & _).
        destruct (write_buffer (gzip d) b spare spill y1) as [a y2] eqn:Ew. injection Ey as _ <-. cbn.
        destruct (write_buffer_reads _ _ _ _ _ _ _ Ew) as (_ & _ & _ & Hsub & _).
        { intros c Hc. rewrite Ha. by apply Hy, Hb. }
        rewrite Ha in Hsub. by apply Hsub. }
    rewrite Hz; [by rewrite Hr|done|by apply Hi1|done].
  - intros data2 Hlen. apply list_elem_of_lookup_1 in Hp as [i Hpi]. exists i. intros spare2 spill2.
    unfold Zip, get_buffer. cbn [mbind option_bind]. rewrite Hpi. cbn [arrays].
    assert (Harr : exists old, arrays x1 !! sl.1 = Some old /\ (length (gzip data) <= length old)%nat).
    { assert (Hd : sl.1 ∈ dom (arrays x1)) by (apply Hi1; by eapply list_elem_of_lookup_2).
      apply elem_of_dom in Hd as [old Ho]. exists old. split; [done|]. unfold read_slice in Hr. rewrite Ho in Hr. cbn in Hr.
      rewrite <- Hr, length_take. lia. }
    destruct Harr as (old & Ho & Hl). unfold write_buffer. cbn [arrays]. rewrite Ho. cbn [from_option]. unfold id.
    rewrite decide_True by lia. unfold read_slice. cbn. rewrite lookup_insert_eq. cbn.
    assert (sl.2 = length (gzip data2)) as ->.
    { rewrite Hlen. unfold Zip in E. destruct (get_buffer choice x) as [b y]. destruct (write_buffer _ _ _ _ _). by injection E as <- _. }
    by rewrite take_app_length.
Qed.
End compress.

(** ** Witness: with a coding that adds a byte *)
Definition tag_gzip (d : list byte) : list byte := x1f :: d.
Definition tag_gunzip (d : list byte) : list byte + error := match d with _ :: d => inl d | [] => inr EOF end.

Lemma Zip_until_reused_witness :
  let '(sl, x1) := Zip tag_gzip None 4 0 [x01; x02] (mk_zstate ∅ []) in
  Unzip tag_gunzip (read_slice x1 sl) = inl [x01; x02] /\
  exists i, Unzip tag_gunzip (read_slice (Zip tag_gzip (Some i) 0 0 [x07; x08] x1).2 sl) = inl [x07; x08].
Proof.
  destruct (Zip tag_gzip None 4 0 [x01; x02] (mk_zstate ∅ [])) as [sl x1] eqn:E.
  destruct (Zip_until_reused tag_gzip tag_gunzip (fun d => eq_refl) None 4 0 [x01; x02] (mk_zstate ∅ []) sl x1)
    as (H1 & _ & H3); [split; [constructor|by intros a ?%elem_of_nil]|exact E|].
  split; [exact H1|]. destruct (H3 [x07; x08] eq_refl) as [i Hi]. exists i. apply Hi.
Defined.

(** ** protocol/compressor.go: SnappyCompressor

    The writer of snappy: the error of its [Write], and what is in the buffer
    after its [Close] or the error of that; its reader. *)
Section snappy.
Context (snappy_Write : list byte -> option error) (snappy_Close snappy_ReadAll : list byte -> list byte + error).

Definition snappy_Zip (data : list byte) : result (list byte) :=
  match data with
  | [] => Ok data
  | _ =>
      match snappy_Write data with
      | Some e => Err e
      | None => match snappy_Close data with inl z => Ok z | inr e => Err e end
      end
  end.

Definition snappy_Unzip (data : list byte) : result (list byte) :=
  match data with
  | [] => Ok data
  | _ => match snappy_ReadAll data with inl d => Ok d | inr e => Err e end
  end.

Definition SnappyCompressor : Compressor := mk_Compressor snappy_Zip snappy_Unzip.

(** Snappy writes a header, so what it makes of data is never empty: the
    shortcut for empty input does not take compressed data for empty data. *)
Lemma snappy_laws ct :
  (forall d, d <> [] -> snappy_Write d = None /\ exists z, snappy_Close d = inl z /\ z <> [] /\ snappy_ReadAll z = inl d) ->
  CompressorLaws (fun ct' => if decide (ct' = ct) then Some SnappyCompressor else None).
Proof.
  intros H ct' c d. case_decide; [|done]. intros [= <-]. cbn. unfold snappy_Zip, snappy_Unzip. destruct d as [|b d]; [by exists []|].
  destruct (H (b :: d)) as (-> & z & -> & Hz & Hr); [done|]. exists z. split; [done|]. destruct z; [done|]. by rewrite Hr.
Qed.
End snappy.
