(* ===== verification/Telemetry.v ===== *)
(** serverplugin/metrics.go, opentelemetry.go and trace.go, share/trace.go: the
    plugins that measure a server, and what they do to its requests and
    connections.

    go-metrics and OpenTelemetry are interfaces.  A hook reads values of its
    context, which are those of the request: they are part of the world here,
    [start_time] and [ctx_span]. *)
From S2P Require Import Prelude Go Share Header Message MessageFacts Plugins ServerPlugins.
From S2P Require Import Service Server ServerFacts ServerConn Access.
Open Scope go_scope.

(** A plugin without hooks. *)
Definition no_hooks {W V} (id : nat) : Plugin W V :=
  mk_Plugin id None None None None None None None None None None None None None None None.

(** ** MetricsPlugin *)
Section metrics.
Context {W V : Type}.
(** [Inc], [Mark] and [Update] of the metric of a name; the clock; the value of
    [StartRequestContextKey] in the context. *)
Context (Inc Mark : string -> prog W unit) (Update : string -> Z -> prog W unit) (now : W -> Z)
        (start_time : W -> option Z) (Prefix : string).

Definition withPrefix (m : string) : string := Prefix +:+ m.
Definition service_metric (r : message) (m : string) : string :=
  withPrefix ("service." +:+ ServicePath r +:+ "." +:+ ServiceMethod r +:+ m).

Definition metrics_Register (_ : string) (_ : V) (_ : string) : prog W (option error) :=
  Inc (withPrefix "serviceCounter");; mret None.

Definition metrics_HandleConnAccept (conn : nat) : prog W (nat * bool) :=
  Mark (withPrefix "clientMeter");; mret (conn, true).

Definition metrics_PreReadRequest : prog W (option error) := mret None.

Definition metrics_PostReadRequest (r : message) (_ : option error) : prog W (message * option error) :=
  if decide (ServicePath r = "") then mret (r, None)
  else Mark (service_metric r ".Read_Qps");; mret (r, None).

(** [ctx.Value(StartRequestContextKey).(int64)] panics without a value. *)
Definition metrics_PostWriteResponse (req : message) (res : option message) (_ : option error) :
    prog W (message * option message * option error) :=
  match res with
  | None => lift Panic
  | Some r =>
      if decide (ServicePath r = "") then mret (req, res, None)
      else
        Mark (service_metric r ".Write_Qps");;
        w ← get_st;
        match start_time w with
        | None => lift Panic
        | Some t =>
            (if 0 <? t then
               let t := i64 (now w - t) in
               if t <? 30 * 60 * second then Update (service_metric r ".CallTime") t else mret tt
             else mret tt);;
            mret (req, res, None)
        end
  end.

Definition MetricsPlugin (id : nat) : Plugin W V :=
  mk_Plugin id (Some metrics_Register) None None (Some metrics_HandleConnAccept) None (Some metrics_PreReadRequest)
    (Some metrics_PostReadRequest) None None None None (Some metrics_PostWriteResponse) None None None.

(** ReqRateLimitingPlugin of Access, as a plugin of the container. *)
Definition ReqRateLimitingPlugin (id : nat) (b : Bucket W) (block : bool) : Plugin W V :=
  mk_Plugin id None None None None None None
    (Some (fun r _ => err ← req_PostReadRequest b block; mret (r, err))) None None None None None None None None.
End metrics.

(** ** OpenTelemetryPlugin *)
Section telemetry.
Context {W V : Type}.
(** [tracer.Start] with the metadata the parent span is extracted from,
    [SetAttributes], [AddEvent] and [End] of a span; the pairs that the
    propagator injects for a span; the span in the context. *)
Context (TStart : string -> option (gmap string string) -> prog W nat)
        (TAttribute : nat -> string -> string -> prog W unit)
        (TEvent : nat -> string -> prog W unit) (TEnd : nat -> prog W unit)
        (injected : nat -> list (string * string))
        (ctx_span : W -> option nat) (set_span : nat -> W -> W).

(** [share.Inject] with the value of [ReqMetaDataKey]: none, or a map, which may
    be nil; assigning to a nil map panics. *)
Definition Inject (pairs : list (string * string)) (meta : option (option (gmap string string))) :
    result (option (gmap string string)) :=
  let set m := fold_left (fun m '(k, v) => <[k := v]> m) pairs m in
  match meta with
  | None => Ok (Some (set ∅))
  | Some (Some m) => Ok (Some (set m))
  | Some None => match pairs with [] => Ok None | _ => Panic end
  end.

(** [metadataSupplier], through which a propagator reads and writes. *)
Definition supplier_Get (key : string) (metadata : option (gmap string string)) : string :=
  default "" (metadata ≫= (fun m => m !! key)).
Definition supplier_Set (key value : string) (metadata : option (gmap string string)) : result (option (gmap string string)) :=
  match metadata with Some m => Ok (Some (<[key := value]> m)) | None => Panic end.
Definition supplier_Keys (order : gmap string string -> list string) (metadata : option (gmap string string)) : list string :=
  match metadata with Some m => order m | None => [] end.

(** [share.Extract] with the value of [ReqMetaDataKey]: what the propagator reads
    from the metadata, and the value of the key afterwards. *)
Definition Extract {T} (extract : option (gmap string string) -> T) (meta : option (option (gmap string string))) :
    option (gmap string string) * T :=
  let m := match meta with None => Some ∅ | Some m => m end in (m, extract m).

Definition otel_span (name key value : string) : prog W unit :=
  span ← TStart name None; TAttribute span key value;; TEnd span.

Definition otel_Register (name : string) (_ : V) (_ : string) : prog W (option error) :=
  otel_span "irpc.Register" "register_service" name;; mret None.
Definition otel_Unregister (name : string) : prog W (option error) :=
  otel_span "irpc.Unregister" "register_service" name;; mret None.
Definition otel_RegisterFunction (serviceName fName : string) (_ : V) (_ : string) : prog W (option error) :=
  otel_span "irpc.RegisterFunction" "register_function" (serviceName +:+ "." +:+ fName);; mret None.
Definition otel_HandleConnAccept (remote : nat -> string) (conn : nat) : prog W (nat * bool) :=
  otel_span "irpc.AcceptConn" "remote_addr" (remote conn);; mret (conn, true).

(** The context holds the request's own metadata map. *)
Definition otel_PreHandleRequest (r : message) : prog W (message * option error) :=
  span ← TStart ("irpc.service." +:+ ServicePath r +:+ "." +:+ ServiceMethod r) (Metadata r);
  md ← lift (Inject (injected span) (Some (Metadata r)));
  modify (set_span span);;
  TEvent span "PreHandleRequest";;
  mret (set_Metadata md r, None).

Definition otel_PostWriteResponse (req : message) (res : option message) (_ : option error) :
    prog W (message * option message * option error) :=
  w ← get_st;
  match ctx_span w with
  | None => lift Panic
  | Some span => TEvent span "PostWriteResponse";; TEnd span;; mret (req, res, None)
  end.

Definition OpenTelemetryPlugin (id : nat) (remote : nat -> string) : Plugin W V :=
  mk_Plugin id (Some otel_Register) (Some otel_Unregister) (Some otel_RegisterFunction)
    (Some (otel_HandleConnAccept remote)) None None None (Some otel_PreHandleRequest) None None None
    (Some otel_PostWriteResponse) None None None.

(** A span that one side injects is what the other side extracts, when the
    propagator finds the pairs it gave; other metadata stays, and a request
    without metadata ends the goroutine. *)
Lemma inject_extract {T} (extract : option (gmap string string) -> T) span sc (meta : option (gmap string string)) :
  NoDup (injected span).*1 ->
  (forall m, Forall (fun '(k, v) => supplier_Get k (Some m) = v) (injected span) -> extract (Some m) = sc) ->
  injected span <> [] ->
  match meta with
  | Some m => exists m', Inject (injected span) (Some meta) = Ok (Some m') /\
      Extract extract (Some (Some m')) = (Some m', sc) /\ forall k, k ∉ (injected span).*1 -> m' !! k = m !! k
  | None => Inject (injected span) (Some meta) = Panic
  end.
Proof.
  intros Hnd Hex Hne. destruct meta as [m|]; [|cbn; by destruct (injected span)].
  eexists. split; [done|]. revert Hnd Hex. generalize (injected span). clear. intros pairs Hnd Hex.
  assert (H : forall m0 : gmap string string, (forall k, k ∉ pairs.*1 -> fold_left (fun m '(k, v) => <[k := v]> m) pairs m0 !! k = m0 !! k) /\
    Forall (fun '(k, v) => fold_left (fun m '(k, v) => <[k := v]> m) pairs m0 !! k = Some v) pairs).
  { clear Hex. induction pairs as [|[k v] pairs IH]; intros m0; [done|]. cbn in Hnd. apply NoDup_cons in Hnd as [Hk Hnd].
    cbn [fold_left fmap list_fmap]. destruct (IH Hnd (<[k := v]> m0)) as [H1 H2]. split.
    - intros k' [Hne Hk']%not_elem_of_cons. rewrite H1 by done. by rewrite lookup_insert_ne.
    - constructor; [|done]. rewrite H1 by done. by rewrite lookup_insert_eq. }
  destruct (H m) as [H1 H2]. split; [|done]. unfold Extract. f_equal. apply Hex.
  eapply Forall_impl; [exact H2|]. intros [k v] Hkv. unfold supplier_Get. cbn. by rewrite Hkv.
Qed.
End telemetry.

(** ** TracePlugin *)
Section trace.
Context {W V : Type} (Trace : string -> string -> prog W unit).

(** [PostConnAccept] is not a hook of the container. *)
Definition TracePlugin (id : nat) (FunctionName TypeName : V -> string) : Plugin W V :=
  mk_Plugin id (Some (fun name rcvr _ => Trace "Register" ("register " +:+ name +:+ ": " +:+ TypeName rcvr);; mret None)) None
    (Some (fun serviceName fName fn _ =>
       Trace "RegisterFunction" ("register " +:+ serviceName +:+ "." +:+ fName +:+ ": " +:+ FunctionName fn);; mret None))
    None None None
    (Some (fun r _ => Trace "ReadRequest" ("read request " +:+ ServicePath r +:+ "." +:+ ServiceMethod r +:+ ", seq: " +:+ pretty (Seq (hdr r)));;
       mret (r, None)))
    None None None None
    (Some (fun req res err =>
       Trace "WriteResponse" (match err with
         | None => "succeed to call " +:+ ServicePath req +:+ "." +:+ ServiceMethod req +:+ ", seq: " +:+ pretty (Seq (hdr req))
         | Some _ => "failed to call"
         end);;
       mret (req, res, None))) None None None.
End trace.

(** ** What they do to requests and connections *)
Section effects.
Context {W V : Type}.
Context (codecs : byte -> option (ServerCodec V)) (zero : gtype -> V)
        (cs : compressors) (get : Z -> list byte)
        (order : gmap string string -> list (string * string)) (max : Z) (conn : nat).
Context `{!CompressorLaws cs, !BufferGet get} (order_perm : forall m, order m ≡ₚ map_to_list m).

(** A request without metadata is never answered on a server with the
    OpenTelemetry plugin, as soon as the propagator has something to inject:
    the decoder leaves the metadata nil, the plugin assigns to the nil map, and
    the panic ends the request's goroutine before the service runs; nothing is
    written, for a request that wants an answer too. *)
Theorem otel_unanswered TStart TAttribute TEvent TEnd injected ctx_span set_span n remote (s : config W V) c req w w' span :
  Plugins s = [OpenTelemetryPlugin TStart TAttribute TEvent TEnd injected ctx_span set_span n remote] ->
  IsHeartbeat (hdr req) = false -> Metadata req = None ->
  TStart ("irpc.service." +:+ ServicePath req +:+ "." +:+ ServiceMethod req) None w = (w', Ok span) ->
  injected span <> [] ->
  serve_request codecs zero cs get order s c req w = (w', Ok []).
Proof.
  intros Hp Hh Hm Ht Hi. unfold serve_request. rewrite Hh. unfold serve_call, on_handler, on_world.
  unfold mbind at 1, prog_bind at 1. rewrite Hp. unfold DoPreHandleRequest. cbn [until_error PreHandleRequest OpenTelemetryPlugin].
  unfold id, otel_PreHandleRequest. unfold mbind, prog_bind. rewrite Hm, Ht. unfold lift, Inject.
  destruct (injected span); [done|]. reflexivity.
Qed.

(** The answer to a refused request is written before the hooks that follow the
    writing. *)
Lemma refused_written (s : config W V) c req w err :
  Header_wf (hdr req) -> CheckMagicNumber (hdr req) = true -> IsOneway (hdr req) = false ->
  Forall (fun p => PreWriteResponse p = None) (Plugins s) ->
  exists bs res, ServicePath res = ServicePath req /\ ServiceMethod res = ServiceMethod req /\
    handleError cs get order s c req err (w, ∅, []) =
      (_ ← on_handler (on_world (DoPostWriteResponse (Some err) (Plugins s) (req, Some res))); mret tt) (w, ∅, [bs]).
Proof.
  intros Hw Hmg Ho Hpre. destruct (HandleError_answers err c req Hw) as [Ha _].
  destruct (compress_like_ok req _ Ha) as (Ha' & _).
  destruct (writeResponse_reads cs get order order_perm req _ Ha' Hmg) as (bs & m & Hwr & _).
  exists bs, m. unfold handleError. rewrite Ho. unfold sendResponse.
  assert (Hm : ServicePath m = ServicePath req /\ ServiceMethod m = ServiceMethod req).
  { unfold writeResponse in Hwr. destruct (EncodeSlicePointer _ _ _ _) as [[d h]| | | |]; try done.
    cbn in Hwr. injection Hwr as <- <-. destruct Ha'. by split. }
  destruct Hm as [H1 H2]. split_and!; [done|done|].
  unfold mbind, prog_bind at 1. unfold on_handler at 1, on_world at 1. unfold DoPreWriteResponse.
  rewrite (until_error_none PreWriteResponse) by done. cbn [from_option]. unfold id, lift at 1.
  change (Clone req c) with (Clone req c). unfold response in Hwr. rewrite Hwr. reflexivity.
Qed.
(** What the loop reads of a request above the limit, whatever follows the
    limiter among the plugins, if nothing precedes the decoding. *)
Lemma readRequest_limited (s : config W V) b n ps m0 m w r r' out w1 :
  Plugins s = ReqRateLimitingPlugin n b false :: ps -> (forall w, DoPreReadRequest (Plugins s) w = (w, Ok None)) ->
  Decode cs max (r, m0) = ((r', m), Ok tt) -> TakeAvailable b w = (w1, Ok 0) ->
  readRequest cs max s m0 (w, r, out) = ((w1, r', out), Ok (Some m, Some ErrReqReachLimit)).
Proof.
  intros Hp Hpre Hd Ht. unfold readRequest, world_, decode_request. unfold mbind, prog_bind.
  rewrite Hpre, Hd. rewrite Hp. unfold DoPostReadRequest. cbn [until_error PostReadRequest ReqRateLimitingPlugin].
  unfold req_PostReadRequest, mbind, prog_bind. rewrite Ht. reflexivity.
Qed.

(** A rate limit with metrics drops connections: a request above the limit
    is answered with the refusal, and with the limiter alone the loop reads on;
    but on a server that has the metrics plugin too, the hook after the writing
    asks the context for the start time, which only a request that was let in
    has, and panics: the loop ends and with it the connection, although other
    requests of the connection are being handled. *)
Theorem limited_connection_dropped Inc Mark Update now start_time Prefix n1 n2 b (s1 s2 : config W V) m0 m c x r' w1 w2 :
  Plugins s1 = [ReqRateLimitingPlugin n1 b false] ->
  Plugins s2 = [ReqRateLimitingPlugin n1 b false; MetricsPlugin Inc Mark Update now start_time Prefix n2] ->
  at_ x = Reading -> closed x = false ->
  Decode cs max (input x, m0) = ((r', m), Ok tt) -> Header_wf (hdr m) -> CheckMagicNumber (hdr m) = true ->
  IsOneway (hdr m) = false -> ServicePath m <> "" ->
  TakeAvailable b (world x) = (w1, Ok 0) ->
  Mark (service_metric Prefix m ".Write_Qps") w1 = (w2, Ok tt) -> start_time w2 = None ->
  (exists bs x1, serveConn_turn cs get order max conn s1 m0 c x = Some x1 /\
     at_ x1 = Checking /\ written x1 = written x ++ [bs] /\ tasks x1 = tasks x) /\
  (exists bs x2, serveConn_turn cs get order max conn s2 m0 c x = Some x2 /\
     at_ x2 = Returning /\ written x2 = written x ++ [bs] /\ tasks x2 = tasks x).
Proof.
  intros H1 H2 Hs Hc Hd Hw Hmg Ho Hsp Ht Hm Hst. split.
  - destruct (refused_written s1 c m w1 ErrReqReachLimit Hw Hmg Ho) as (bs & res & _ & _ & Hh).
    { rewrite H1. by repeat constructor. }
    exists bs. unfold serveConn_turn, serveConn_step at 2. rewrite Hs. unfold serveConn_read.
    rewrite (readRequest_limited s1 b n1 [] m0 m _ _ r' [] w1 H1) by (try done; intros w; by rewrite H1).
    cbn. unfold serveConn_step, serveConn_decide. cbn. unfold inline_, mbind, prog_bind. rewrite Hh, H1.
    eexists. split; [reflexivity|]. cbn. by rewrite Hc, app_nil_r.
  - destruct (refused_written s2 c m w1 ErrReqReachLimit Hw Hmg Ho) as (bs & res & Hp & Hsm & Hh).
    { rewrite H2. by repeat constructor. }
    exists bs. unfold serveConn_turn, serveConn_step at 2. rewrite Hs. unfold serveConn_read.
    rewrite (readRequest_limited s2 b n1 [MetricsPlugin Inc Mark Update now start_time Prefix n2] m0 m _ _ r' [] w1 H2)
      by (try done; intros w; by rewrite H2).
    cbn [mbind option_bind]. unfold serveConn_step, serveConn_decide.
    cbn [at_ set_phase decide_request]. unfold inline_, mbind at 1, prog_bind at 1. cbn [world input set_phase set_io]. rewrite Hh, H2.
    unfold DoPostWriteResponse. cbn [until_error PostWriteResponse ReqRateLimitingPlugin MetricsPlugin].
    unfold metrics_PostWriteResponse, on_handler, on_world, mbind, prog_bind. rewrite decide_False by (by rewrite Hp).
    assert (Hname : service_metric Prefix res ".Write_Qps" = service_metric Prefix m ".Write_Qps")
      by (unfold service_metric; by rewrite Hp, Hsm).
    rewrite Hname, Hm. unfold get_st. rewrite Hst. eexists. split; [reflexivity|]. cbn. by rewrite Hc, app_nil_r.
Qed.
End effects.

(** ** Witnesses *)
Definition plain_request : message := mk_message (SetSeq 7 newHeader) "Arith" "Mul" None [x01] (mk_slice [] 0).
Definition request_bytes : list byte :=
  match EncodeSlicePointer raw_compressors dirty_get [] plain_request with Ok (bs, _) => bs | _ => [] end.
Definition traced : config unit unit :=
  mk_config (mk_registry ∅ ∅) ∅
    [OpenTelemetryPlugin (fun _ _ => mret 3%nat) (fun _ _ _ => mret tt) (fun _ _ => mret tt) (fun _ => mret tt)
       (fun _ => [("traceparent", "00-1-2-01")]) (fun _ => None) (fun _ w => w) 1 (fun _ => "")] None.

Lemma otel_unanswered_witness :
  serve_request (fun _ => None) (fun _ => tt) raw_compressors dirty_get map_to_list traced NewMessage plain_request tt = (tt, Ok []).
Proof.
  apply (otel_unanswered (fun _ => None) (fun _ => tt) raw_compressors dirty_get map_to_list
    (fun _ _ => mret 3%nat) (fun _ _ _ => mret tt) (fun _ _ => mret tt) (fun _ => mret tt)
    (fun _ => [("traceparent", "00-1-2-01")]) (fun _ => None) (fun _ w => w) 1 (fun _ => "")
    traced NewMessage plain_request tt tt 3%nat); [reflexivity|reflexivity|reflexivity|reflexivity|discriminate].
Defined.

Definition empty_bucket : Bucket unit := mk_Bucket (mret 0) (mret tt).
Definition limited (metrics : bool) : config unit unit :=
  mk_config (mk_registry ∅ ∅) ∅
    (ReqRateLimitingPlugin 1 empty_bucket false ::
     (if metrics then [MetricsPlugin (fun _ => mret tt) (fun _ => mret tt) (fun _ _ => mret tt) (fun _ => 0) (fun _ => None) "" 2]
      else [])) None.

Lemma limited_connection_dropped_witness :
  exists x2, serveConn_turn raw_compressors dirty_get map_to_list 0 1 (limited true) NewMessage NewMessage
      (set_phase Reading (start_conn tt (mk_reader request_bytes EOF))) = Some x2 /\ at_ x2 = Returning /\ length (written x2) = 1%nat.
Proof.
  destruct (Decode raw_compressors 0 (mk_reader request_bytes EOF, NewMessage)) as [[r' m] res] eqn:E.
  pose proof E as E'. vm_compute in E'. injection E' as <- <- <-.
  destruct (limited_connection_dropped raw_compressors dirty_get map_to_list 0 1 (fun m => reflexivity _)
    (fun _ => mret tt) (fun _ => mret tt) (fun _ _ => mret tt) (fun _ => 0) (fun _ => None) "" 1 2 empty_bucket
    (limited false) (limited true) NewMessage _ NewMessage (set_phase Reading (start_conn tt (mk_reader request_bytes EOF))) _ tt tt
    eq_refl eq_refl eq_refl eq_refl E) as (_ & bs & x2 & H1 & H2 & H3 & _);
    [reflexivity|reflexivity|reflexivity|discriminate|reflexivity|reflexivity|reflexivity|].
  exists x2. split; [exact H1|]. split; [exact H2|]. rewrite H3. reflexivity.
Defined.
