(* ===== verification/Deadline.v ===== *)
(** The deadline of a call from the client to the server: setServerTimeout of
    client/xclient.go writes what is left of it into the request's metadata, and
    parseServerTimeout of server/server_util.go makes a deadline of it.  Times
    are nanoseconds of one clock. *)
From S2P Require Import Prelude Go Share UrlQuery Gateway Message MessageFacts XClient.
Open Scope go_scope.

(** [strconv.ParseInt(s, 10, 64)], which [Atoi] is where an int has 64 bits. *)
Definition ParseInt : string -> option Z := Atoi.

(** [parseServerTimeout]: the deadline of the request's context, made at [now]
    from a context without one; none for a request without metadata or without
    a number under the key. *)
Definition parseServerTimeout (now : Z) (req : option message) : option Z :=
  match req ≫= Metadata with
  | None => None
  | Some md =>
      let st := default "" (md !! ServerTimeout) in
      if decide (st = "") then None
      else match ParseInt st with
           | None => None
           | Some timeout => Some (now + i64 (timeout * millisecond))
           end
  end.

(** ** Decimal numbers *)

Lemma bytes_of_cons c s : bytes_of (String c s) = Ascii.byte_of_ascii c :: bytes_of s.
Proof. done. Qed.

Lemma digits_char acc d s : (d < 10)%N ->
  digits acc (bytes_of (String (pretty_N_char d) s)) = digits (acc * 10 + Z.of_N d) (bytes_of s).
Proof.
  intros Hd. assert (d = 0 \/ d = 1 \/ d = 2 \/ d = 3 \/ d = 4 \/ d = 5 \/ d = 6 \/ d = 7 \/ d = 8 \/ d = 9)%N as H by lia.
  destruct H as [->|[->|[->|[->|[->|[->|[->|[->|[->| ->]]]]]]]]]; reflexivity.
Qed.

Lemma digits_pretty_go x s : digits 0 (bytes_of (pretty_N_go x s)) = digits (Z.of_N x) (bytes_of s).
Proof.
  revert s. induction (N.lt_wf_0 x) as [x _ IH]. intros s. destruct (decide (x = 0%N)) as [->|Hx].
  - by rewrite pretty_N_go_0.
  - rewrite pretty_N_go_step by lia. rewrite IH by (apply N.div_lt; lia).
    rewrite digits_char by (apply N.mod_lt; lia). f_equal. rewrite N2Z.inj_div, N2Z.inj_mod.
    pose proof (Z.div_mod (Z.of_N x) 10). lia.
Qed.

(** The first character of a positive number is a digit. *)
Lemma pretty_N_go_head x s : (0 < x)%N -> exists d t, (d < 10)%N /\ pretty_N_go x s = String (pretty_N_char d) t.
Proof.
  revert s. induction (N.lt_wf_0 x) as [x _ IH]. intros s Hx. rewrite pretty_N_go_step by done.
  destruct (decide (x `div` 10 = 0)%N) as [E|E].
  - rewrite E, pretty_N_go_0. exists (x mod 10)%N, s. split; [apply N.mod_lt; lia|done].
  - apply IH; [apply N.div_lt; lia|lia].
Qed.

Lemma pretty_N_parse (n : N) : exists b ds,
  bytes_of (pretty n) = b :: ds /\ b <> "-"%byte /\ b <> "+"%byte /\ digits 0 (b :: ds) = Some (Z.of_N n).
Proof.
  unfold pretty, pretty_N. case_decide as Hn; [subst; by exists "0"%byte, []|].
  destruct (pretty_N_go_head n "") as (d & t & Hd & E); [lia|].
  exists (Ascii.byte_of_ascii (pretty_N_char d)), (bytes_of t). rewrite E. split; [done|].
  assert (Hb : Ascii.byte_of_ascii (pretty_N_char d) <> "-"%byte /\ Ascii.byte_of_ascii (pretty_N_char d) <> "+"%byte).
  { unfold pretty_N_char. by repeat case_match. }
  destruct Hb. split_and!; [done|done|]. rewrite <- bytes_of_cons, <- E. by rewrite digits_pretty_go.
Qed.

(** Printing and parsing a 64-bit integer. *)
Lemma ParseInt_pretty z : - two63 <= z < two63 -> ParseInt (pretty z) = Some z.
Proof.
  intros Hz. assert (Hg : forall n, n = z -> (if (- two63 <=? n) && (n <? two63) then Some n else None) = Some z).
  { intros n ->. by rewrite (proj2 (Z.leb_le _ _)), (proj2 (Z.ltb_lt _ _)) by lia. }
  unfold ParseInt, Atoi. destruct z as [|p|p].
  - reflexivity.
  - change (pretty (Z.pos p)) with (pretty (N.pos p)). destruct (pretty_N_parse (N.pos p)) as (b & ds & E & H1 & H2 & H3).
    rewrite E. cbn beta iota. rewrite !decide_False by done. rewrite H3. cbn [mbind option_bind]. by apply Hg.
  - change (bytes_of (pretty (Z.neg p))) with ("-"%byte :: bytes_of (pretty (N.pos p))). cbn beta iota.
    rewrite decide_True by done. destruct (pretty_N_parse (N.pos p)) as (b & ds & E & _ & _ & H3).
    rewrite E, H3. cbn [mbind option_bind]. by apply Hg.
Qed.

(** C40: the deadline of a call reaches the server: for a deadline that is less
    than 2^63 nanoseconds away, the metadata that [setServerTimeout] writes at
    [now], sent and read, gives the server at [now'] a deadline with exactly the
    whole milliseconds that were left to the client, never more than were left
    and less than a millisecond less; one that has passed stays passed; other
    metadata is kept, and a call without a deadline gets none. *)
Theorem deadline_roundtrip d now now' meta req :
  - two63 <= d - now < two63 ->
  Metadata req = norm_meta (setServerTimeout (Some d) now meta) ->
  parseServerTimeout now' (Some req) = Some (now' + Z.quot (d - now) millisecond * millisecond) /\
  (now <= d -> d - now - millisecond < Z.quot (d - now) millisecond * millisecond <= d - now) /\
  (d < now -> Z.quot (d - now) millisecond <= 0) /\
  (forall k, k <> ServerTimeout -> default ∅ (Metadata req) !! k = default ∅ meta !! k) /\
  (forall req', default ∅ meta !! ServerTimeout = None -> Metadata req' = norm_meta (setServerTimeout None now meta) ->
     parseServerTimeout now' (Some req') = None).
Proof.
  intros Hd Hm. pose proof (Z.quot_rem' (d - now) millisecond) as Hq.
  assert (Hr : (0 <= d - now -> 0 <= Z.rem (d - now) millisecond < millisecond) /\
    (d - now <= 0 -> - millisecond < Z.rem (d - now) millisecond <= 0)).
  { unfold millisecond. split; intros H; Z.to_euclidean_division_equations; lia. }
  assert (Hms : millisecond = 1000000) by reflexivity.
  assert (Hne : Metadata req = Some (<[ServerTimeout := pretty (Z.quot (d - now) 1000000)]> (default ∅ meta))).
  { rewrite Hm. unfold setServerTimeout, norm_meta. cbn [mbind option_bind]. rewrite decide_False; [done|].
    intros H. apply (f_equal (lookup ServerTimeout)) in H. by rewrite lookup_insert_eq, lookup_empty in H. }
  split_and!.
  - unfold parseServerTimeout. cbn [mbind option_bind]. rewrite Hne, lookup_insert_eq. cbn [from_option]. unfold id.
    assert (Hp : ParseInt (pretty (Z.quot (d - now) 1000000)) = Some (Z.quot (d - now) 1000000)).
    { apply ParseInt_pretty. destruct Hr. unfold two63 in *. lia. }
    rewrite decide_False, Hp.
    + do 2 f_equal. rewrite i64_small by (destruct Hr; unfold two63 in *; lia). by rewrite Hms.
    + intros E. rewrite E in Hp. done.
  - intros H. destruct Hr as [Hr _]. lia.
  - intros H. destruct Hr as [_ Hr]. lia.
  - intros k Hk. rewrite Hne. cbn. by rewrite lookup_insert_ne.
  - intros req' H E. unfold parseServerTimeout. cbn [mbind option_bind]. rewrite E. unfold setServerTimeout, norm_meta.
    destruct meta as [m|]; [|done]. cbn in H |- *. case_decide; [done|]. cbn. by rewrite H.
Qed.

(** A client that writes the key itself can ask for more milliseconds than fit:
    the product wraps around, and its request has expired before it starts. *)
Lemma timeout_wraps :
  parseServerTimeout 0 (Some (set_Metadata (Some {[ServerTimeout := "9223372036855"]}) NewMessage)) =
    Some (-9223372036854551616).
Proof. vm_compute. reflexivity. Qed.

(** ** Witness: a deadline in two and a half milliseconds *)
Definition timed_request : message :=
  set_Metadata (norm_meta (setServerTimeout (Some 2500000) 0 (Some {["k" := "v"]}))) NewMessage.

Lemma deadline_roundtrip_witness : parseServerTimeout 7 (Some timed_request) = Some 2000007.
Proof.
  destruct (deadline_roundtrip 2500000 0 7 (Some {["k" := "v"]}) timed_request) as [H _];
    [unfold two63; lia|reflexivity|]. exact H.
Defined.
