(* ===== verification/Reporters.v ===== *)
(** serverplugin/influxdb.go and the reporters of serverplugin/metrics.go: a
    goroutine that writes the metrics of a registry to InfluxDB at every tick.

    go-metrics (the registry and the snapshots of its metrics) and the client of
    InfluxDB are arguments; [F] are the floating-point numbers, which are only
    passed on. *)
From S2P Require Import Prelude Go KVStore.
Open Scope go_scope.

Section reporter.
Context {F : Type}.

(** ** The metrics of a registry, as snapshots *)

(** [Percentiles] gets its arguments in ten-thousandths. *)
Record summary : Type := mk_summary {
  sCount : Z; sMax : Z; sMin : Z; sMean : F; StdDev : F; Variance : F; Percentiles : list Z -> list F
}.
Record rates : Type := mk_rates { rCount : Z; Rate1 : F; Rate5 : F; Rate15 : F; RateMean : F }.

(** The cases of the type switch, and any other metric. *)
Inductive metric : Type :=
| Counter (v : Z) | Gauge (v : Z) | GaugeFloat64 (v : F)
| Histogram (ms : summary) | Meter (ms : rates) | Timer (ms : summary) (rs : rates)
| OtherMetric.

(** [client.Point], [client.BatchPoints]. *)
Inductive value : Type := VInt (z : Z) | VFloat (f : F).
Record Point : Type := mk_Point {
  Measurement : string; Tags : option (gmap string string); Fields : gmap string value; Time : Z
}.
Record BatchPoints : Type := mk_BatchPoints { Points : list Point; bDatabase : string }.

(** The six percentiles; the indexing panics on a shorter slice. *)
Definition percentiles (ms : summary) : result (list (string * value)) :=
  match Percentiles ms [5000; 7500; 9500; 9900; 9990; 9999] with
  | p50 :: p75 :: p95 :: p99 :: p999 :: p9999 :: _ =>
      Ok [("p50", VFloat p50); ("p75", VFloat p75); ("p95", VFloat p95); ("p99", VFloat p99); ("p999", VFloat p999);
          ("p9999", VFloat p9999)]
  | _ => Panic
  end.

Definition summary_fields (ms : summary) : list (string * value) :=
  [("count", VInt (sCount ms)); ("max", VInt (sMax ms)); ("mean", VFloat (sMean ms)); ("min", VInt (sMin ms));
   ("stddev", VFloat (StdDev ms)); ("variance", VFloat (Variance ms))].

(** What a metric has in its point: the end of its name, and its fields. *)
Definition metric_fields (i : metric) : result (option (string * list (string * value))) :=
  match i with
  | Counter v => Ok (Some (".count", [("value", VInt v)]))
  | Gauge v => Ok (Some (".gauge", [("value", VInt v)]))
  | GaugeFloat64 v => Ok (Some (".gauge", [("value", VFloat v)]))
  | Histogram ms => ps ← percentiles ms; Ok (Some (".histogram", summary_fields ms ++ ps))
  | Meter ms =>
      Ok (Some (".meter", [("count", VInt (rCount ms)); ("m1", VFloat (Rate1 ms)); ("m5", VFloat (Rate5 ms));
                           ("m15", VFloat (Rate15 ms)); ("mean", VFloat (RateMean ms))]))
  | Timer ms rs =>
      ps ← percentiles ms;
      Ok (Some (".timer", summary_fields ms ++ ps ++
                          [("m1", VFloat (Rate1 rs)); ("m5", VFloat (Rate5 rs)); ("m15", VFloat (Rate15 rs));
                           ("meanrate", VFloat (RateMean rs))]))
  | OtherMetric => Ok None
  end.

Definition point (tags : option (gmap string string)) (now : Z) (name : string) (i : metric) : result (option Point) :=
  match metric_fields i with
  | Ok (Some (suffix, fields)) => Ok (Some (mk_Point (name +:+ suffix) tags (list_to_map fields) now))
  | Ok None => Ok None
  | Err e => Err e
  | Panic => Panic | Fatal => Fatal | Blocked => Blocked
  end.

(** ** The reporter *)
Section run.
Context {W U C : Type}.
(** [reg.Each] in the order of its iteration, [time.Now], [url.Parse];
    [client.NewClient], which only builds a value from its configuration, and the
    methods of a client. *)
Context (Each : prog W (list (string * metric))) (now : prog W Z) (Parse : string -> U + error)
  (NewClient : U -> string -> string -> C + error)
  (Write : C -> BatchPoints -> prog W (option error)) (Ping : C -> prog W (option error)).

Record reporter : Type := mk_reporter {
  interval : Z; url : U; database : string; username : string; password : string; tags : option (gmap string string);
  client : option C
}.

Definition set_client (c : option C) (r : reporter) : reporter :=
  mk_reporter (interval r) (url r) (database r) (username r) (password r) (tags r) c.

(** [makeClient] assigns the client also when there is an error. *)
Definition makeClient (r : reporter) : reporter * option error :=
  match NewClient (url r) (username r) (password r) with
  | inl c => (set_client (Some c) r, None)
  | inr e => (set_client None r, Some e)
  end.

(** The function that [Each] calls; every point has its own time. *)
Fixpoint collect_points (tags : option (gmap string string)) (ms : list (string * metric)) : prog W (list Point) :=
  match ms with
  | [] => mret []
  | (name, i) :: ms =>
      t ← now;
      p ← lift (point tags t name i);
      ps ← collect_points tags ms;
      mret (option_list p ++ ps)
  end.

(** A method of the client; one of a nil client panics. *)
Definition with_client {A} (r : reporter) (f : C -> prog W A) : prog W A :=
  match client r with Some c => f c | None => lift Panic end.

Definition send_metrics (r : reporter) : prog W (option error) :=
  ms ← Each;
  pts ← collect_points (tags r) ms;
  with_client r (fun c => Write c (mk_BatchPoints pts (database r))).

(** The two cases of the select. *)
Inductive tick : Type := IntervalTick | PingTick.

Definition reporter_turn (t : tick) (r : reporter) : prog W reporter :=
  match t with
  | IntervalTick => _ ← send_metrics r; mret r
  | PingTick =>
      err ← with_client r Ping;
      match err with
      | Some _ => mret (makeClient r).1
      | None => mret r
      end
  end.

(** The loop, which has no end, over the ticks so far. *)
Fixpoint reporter_turns (ts : list tick) (r : reporter) : prog W reporter :=
  match ts with
  | [] => mret r
  | t :: ts => r ← reporter_turn t r; reporter_turns ts r
  end.

(** [run]: [time.NewTicker] panics unless the interval is positive. *)
Definition reporter_run (ts : list tick) (r : reporter) : prog W reporter :=
  if interval r <=? 0 then lift Panic else reporter_turns ts r.

(** None when it returns before its loop. *)
Definition InfluxDBWithTags (ts : list tick) (d : Z) (url database username password : string)
    (tags : option (gmap string string)) : prog W (option reporter) :=
  match Parse url with
  | inr _ => mret None
  | inl u =>
      match makeClient (mk_reporter d u database username password tags None) with
      | (r, None) => r ← reporter_run ts r; mret (Some r)
      | (_, Some _) => mret None
      end
  end.

Definition InfluxDB (ts : list tick) (d : Z) (url database username password : string) : prog W (option reporter) :=
  InfluxDBWithTags ts d url database username password None.

(** ** Facts *)

(** A call that returns, whatever the state. *)
Definition calm {A} (p : prog W A) : Prop := forall w, exists w' a, p w = (w', Ok a).

(** The name of the point of a metric; one of a kind that is not known has
    none. *)
Definition measured (x : string * metric) : option string :=
  match x.2 with
  | Counter _ => Some (x.1 +:+ ".count")
  | Gauge _ | GaugeFloat64 _ => Some (x.1 +:+ ".gauge")
  | Histogram _ => Some (x.1 +:+ ".histogram")
  | Meter _ => Some (x.1 +:+ ".meter")
  | Timer _ _ => Some (x.1 +:+ ".timer")
  | OtherMetric => None
  end.

(** go-metrics gives as many percentiles as it was asked for. *)
Definition sized (i : metric) : Prop :=
  match i with
  | Histogram ms | Timer ms _ => forall ps, length (Percentiles ms ps) = length ps
  | _ => True
  end.

Lemma percentiles_Ok ms : (forall ps, length (Percentiles ms ps) = length ps) -> exists ps, percentiles ms = Ok ps.
Proof.
  intros H. unfold percentiles. specialize (H [5000; 7500; 9500; 9900; 9990; 9999]).
  destruct (Percentiles ms [5000; 7500; 9500; 9900; 9990; 9999]) as [|? [|? [|? [|? [|? [|? l]]]]]]; try discriminate H. eauto.
Qed.

Lemma point_Ok tags t x : sized x.2 ->
  exists p, point tags t x.1 x.2 = Ok p /\ Measurement <$> p = measured x /\ forall q, p = Some q -> Tags q = tags.
Proof.
  destruct x as [name i]. intros H. unfold point, measured. cbn.
  destruct i as [v|v|v|ms|ms|ms rs|]; cbn -[list_to_map percentiles];
    try (eexists; split; [done|]; split; [done|]; by intros q [= <-]);
    destruct (percentiles_Ok ms H) as [ps ->]; cbn -[list_to_map]; eexists; (split; [done|]); (split; [done|]); by intros q [= <-].
Qed.

Lemma collect_points_Ok tags ms w : calm now -> Forall (fun x => sized x.2) ms ->
  exists w' pts, collect_points tags ms w = (w', Ok pts) /\ Measurement <$> pts = omap measured ms /\
    Forall (fun p => Tags p = tags) pts.
Proof.
  intros Hnow Hms. revert w. induction Hms as [|x ms Hx _ IH]; intros w; cbn [collect_points]; [by eexists _, _|].
  destruct x as [name i]. unfold mbind, prog_bind, lift. destruct (Hnow w) as (w1 & t & ->).
  destruct (point_Ok tags t (name, i) Hx) as (p & Hp & Hm & Ht). cbn in Hp. rewrite Hp.
  destruct (IH w1) as (w2 & pts & -> & Hpts & Htags). eexists w2, _. split; [done|]. cbn [omap list_omap].
  rewrite <- Hm. destruct p as [p|]; cbn; [|done]. split; [by rewrite Hpts|]. constructor; [by apply Ht|done].
Qed.

(** Two metrics never have points of the same name: no ending of a name is the
    ending of another. *)
Definition suffixes : list string := [".count"; ".gauge"; ".histogram"; ".meter"; ".timer"].

Lemma suffix_inj n1 n2 s1 s2 : s1 ∈ suffixes -> s2 ∈ suffixes -> n1 +:+ s1 = n2 +:+ s2 -> n1 = n2.
Proof.
  intros H1 H2 E. apply (f_equal bytes_of) in E. rewrite !bytes_of_app in E.
  assert (H : forall a b l1 l2 : list byte, a ++ l1 = b ++ l2 -> length l1 = length l2 -> l1 = l2 /\ a = b).
  { intros a b l1 l2 Hab Hl. apply app_inj_2 in Hab; [by destruct Hab|done]. }
  apply bytes_of_inj. unfold suffixes in *.
  rewrite !elem_of_cons in H1, H2.
  destruct H1 as [->|[->|[->|[->|[->|?%elem_of_nil]]]]]; try done;
    destruct H2 as [->|[->|[->|[->|[->|?%elem_of_nil]]]]]; try done;
    first [ by destruct (H _ _ _ _ E eq_refl) as [_ ?]
          | change (bytes_of ".histogram") with (bytes_of ".his" ++ bytes_of "togram") in E; rewrite app_assoc in E;
            destruct (H _ _ _ _ E eq_refl) as [Hs _]; vm_compute in Hs; discriminate Hs
          | destruct (H _ _ _ _ E eq_refl) as [Hs _]; vm_compute in Hs; discriminate Hs ].
Qed.

Lemma measured_suffix x m : measured x = Some m -> exists s, s ∈ suffixes /\ m = x.1 +:+ s.
Proof.
  unfold measured, suffixes. destruct x as [n [| | | | | |]]; cbn; intros [= <-]; eexists; (split; [|done]); set_solver.
Qed.

Lemma measured_NoDup ms : NoDup ms.*1 -> NoDup (omap measured ms).
Proof.
  induction ms as [|x ms IH]; [constructor|]. rewrite fmap_cons, NoDup_cons. intros [Hx Hms]. cbn.
  destruct (measured x) as [m|] eqn:E; [|by apply IH]. constructor; [|by apply IH].
  intros (y & Hy & Ey)%list_elem_of_omap. apply measured_suffix in E as (s1 & Hs1 & ->), Ey as (s2 & Hs2 & E).
  apply Hx, list_elem_of_fmap. exists y. split; [|done]. by apply (suffix_inj _ _ s1 s2).
Qed.

(** A send writes one batch: a point for each metric of a known kind, no two of
    the same name, with the tags of the reporter. *)
Lemma send_writes r c w : calm Each -> calm now -> (forall b, calm (Write c b)) -> client r = Some c ->
  (forall w w' ms, Each w = (w', Ok ms) -> Forall (fun x => sized x.2) ms) ->
  exists w1 ms w2 pts w3 err, Each w = (w1, Ok ms) /\ Write c (mk_BatchPoints pts (database r)) w2 = (w3, Ok err) /\
    send_metrics r w = (w3, Ok err) /\ Measurement <$> pts = omap measured ms /\ Forall (fun p => Tags p = tags r) pts /\
    (NoDup ms.*1 -> NoDup (Measurement <$> pts)).
Proof.
  intros HE Hn HW Hc Hs. destruct (HE w) as (w1 & ms & E1). pose proof (Hs _ _ _ E1) as Hms.
  destruct (collect_points_Ok (tags r) ms w1 Hn Hms) as (w2 & pts & E2 & Hpts & Htags).
  destruct (HW (mk_BatchPoints pts (database r)) w2) as (w3 & err & E3).
  exists w1, ms, w2, pts, w3, err. split; [done|]. split; [done|].
  split; [unfold send_metrics, with_client, mbind, prog_bind; by rewrite E1, E2, Hc|].
  split; [done|]. split; [done|]. intros HN. rewrite Hpts. by apply measured_NoDup.
Qed.

(** What the ticks do when no error stops anything. *)
Fixpoint all_turns (r : reporter) (c : C) (ts : list tick) (w : W) : W :=
  match ts with
  | [] => w
  | IntervalTick :: ts => all_turns r c ts (send_metrics r w).1
  | PingTick :: ts => all_turns r c ts (Ping c w).1
  end.

(** The reporter never stops by itself: a URL or a configuration that is refused
    ends it before its loop, with nothing written; otherwise it keeps one client,
    made from its configuration again after a ping that failed, and writes a batch
    at every tick of its interval, whatever the database answers. *)
Theorem reporter_goes_on ts d u db us pw tgs w : 0 < d -> calm Each -> calm now ->
  (forall c b, calm (Write c b)) -> (forall c, calm (Ping c)) ->
  (forall w w' ms, Each w = (w', Ok ms) -> Forall (fun x => sized x.2) ms) ->
  match Parse u with
  | inr _ => InfluxDBWithTags ts d u db us pw tgs w = (w, Ok None)
  | inl url =>
      match NewClient url us pw with
      | inr _ => InfluxDBWithTags ts d u db us pw tgs w = (w, Ok None)
      | inl c =>
          let r := mk_reporter d url db us pw tgs (Some c) in
          InfluxDBWithTags ts d u db us pw tgs w = (all_turns r c ts w, Ok (Some r))
      end
  end.
Proof.
  intros Hd HE Hn HW HP Hs. unfold InfluxDBWithTags. destruct (Parse u) as [url0|]; [|done].
  unfold makeClient. cbn [url username password]. destruct (NewClient url0 us pw) as [c|] eqn:Ec; [|done].
  set (r := mk_reporter d url0 db us pw tgs (Some c)). change (set_client (Some c) _) with r. unfold reporter_run. cbn [interval r].
  rewrite (proj2 (Z.leb_gt _ _)) by done.
  assert (H : reporter_turns ts r w = (all_turns r c ts w, Ok r)).
  { revert w. induction ts as [|t ts IH]; intros w; [done|]. cbn [reporter_turns all_turns]. unfold mbind at 1, prog_bind at 1.
    destruct t; cbn [reporter_turn].
    - destruct (send_writes r c w HE Hn (HW c) eq_refl Hs) as (? & ? & ? & ? & w3 & err & _ & _ & E & _).
      unfold mbind, prog_bind. rewrite E. apply IH.
    - destruct (HP c w) as (w1 & err & E). unfold with_client. cbn [client r].
      unfold mbind, prog_bind. rewrite E. cbn [fst]. destruct err; [|apply IH].
      unfold makeClient. cbn [url username password r]. rewrite Ec. apply IH. }
  unfold mbind, prog_bind. by rewrite H.
Qed.
End run.
End reporter.

(** ** The reporters of the metrics plugin: the goroutines it has started *)
Section plugin.
Context {Reg : Type} (DefaultRegistry : Reg).

Record PluginFields : Type := mk_PluginFields { Registry : Reg; Prefix : string }.

Definition NewMetricsPlugin (registry : Reg) : PluginFields := mk_PluginFields registry "".

(** With their registry and arguments; times in nanoseconds. *)
Inductive reporting : Type :=
| ReportLog (r : Reg) (freq : Z)
| ReportGraphite (r : Reg) (freq : Z) (prefix addr : string)
| ReportInfluxDB (r : Reg) (freq : Z) (url database username password : string) (tags : option (gmap string string))
| ReportExp (r : Reg).

Definition start_reporter (g : reporting) : prog (list reporting) unit := modify (fun gs => gs ++ [g]).

Definition plugin_Log (p : PluginFields) (freq : Z) := start_reporter (ReportLog (Registry p) freq).
Definition plugin_Graphite (p : PluginFields) (freq : Z) (prefix addr : string) :=
  start_reporter (ReportGraphite (Registry p) freq prefix addr).
Definition plugin_InfluxDB (p : PluginFields) (freq : Z) (url database username password : string) :=
  start_reporter (ReportInfluxDB (Registry p) freq url database username password None).
Definition plugin_InfluxDBWithTags (p : PluginFields) (freq : Z) (url database username password : string)
    (tags : option (gmap string string)) :=
  start_reporter (ReportInfluxDB (Registry p) freq url database username password tags).
Definition plugin_Exp (p : PluginFields) := start_reporter (ReportExp DefaultRegistry).

(** The registry a reporter reads. *)
Definition reads (g : reporting) : Reg :=
  match g with ReportLog r _ | ReportGraphite r _ _ _ | ReportInfluxDB r _ _ _ _ _ _ | ReportExp r => r end.

(** [Exp] is the one reporter that does not read the registry of its plugin. *)
Lemma Exp_reads_default p gs : Registry p <> DefaultRegistry ->
  exists g, (plugin_Exp p gs).1 = gs ++ [g] /\ reads g <> Registry p.
Proof. intros Hne. eexists. split; [reflexivity|]. cbn. congruence. Qed.
End plugin.

(** ** Check: the clock is the number of the reading, and what is written is kept *)
Example reporter_example :
  let world : Type := (Z * list (list string))%type in
  (InfluxDB (F := unit) (W := world) (U := unit) (C := unit)
    (mret [("calls", Counter 7); ("health", OtherMetric); ("load", Gauge 3)])
    (fun '(t, out) => ((t + 1, out), Ok t)) (fun _ => inl tt) (fun _ _ _ => inl tt)
    (fun _ b '(t, out) => ((t, out ++ [Measurement <$> Points b]), Ok (Some (ErrorString "down"))))
    (fun _ => mret (Some (ErrorString "down")))
    [IntervalTick; PingTick; IntervalTick] 1 "http://127.0.0.1:8086" "metrics" "" "" (0, [])).1 =
  (6, [["calls.count"; "load.gauge"]; ["calls.count"; "load.gauge"]]).
Proof. vm_compute. reflexivity. Qed.
