(* ===== verification/ServerSetup.v ===== *)
(** What a program does with a server before and beside serving: server/options.go
    and [New] with its options, [AddHandler], [Restart] and the addresses of
    server.go, server_cors.go, the start and the end of the HTTP gateways
    (gateway.go, server_jsonrpc2.go), [Enable*] of file_transfer.go and stream.go,
    the values of a [Context] of context.go. *)
From S2P Require Import Prelude Go Share Header Message Plugins ServerPlugins Service Server UrlQuery KVStore.
From S2P Require Import Registries RegistryFacts Publish Listener Gateway Logging.
Open Scope go_scope.

(** ** Options *)
Section options.
(** [tls.Config], and the functions given to [RegisterOnShutdown] and
    [RegisterOnRestart]. *)
Context {T H : Type}.

(** [CORSOptions]; the functions of a request are left out. *)
Record CORSOptions : Type := mk_CORSOptions {
  AllowedOrigins : list string;
  AllowOriginFunc : option (string -> bool);
  AllowedMethods : list string;
  AllowedHeaders : list string;
  ExposedHeaders : list string;
  MaxAge : Z;
  AllowCredentials : bool;
  OptionsPassthrough : bool;
  OptionsSuccessStatus : Z;
  cors_Debug : bool
}.

Definition AllowAllCORSOptions : CORSOptions :=
  mk_CORSOptions ["*"] None ["HEAD"; "GET"; "POST"; "PUT"; "PATCH"; "DELETE"] ["*"] [] 0 false false 0 false.

(** A value in [options]. *)
Inductive option_value : Type := Period (d : Z) | BlockCrypt.

(** The fields of [Server] that configure it. *)
Record settings : Type := mk_settings {
  tlsConfig : option T;
  readTimeout : Z;
  writeTimeout : Z;
  options : gmap string option_value;
  corsOptions : option CORSOptions;
  onShutdown : list H;
  onRestart : list H
}.

Definition Option : Type := settings -> settings.

Definition WithTLSConfig (cfg : option T) : Option := fun s =>
  mk_settings cfg (readTimeout s) (writeTimeout s) (options s) (corsOptions s) (onShutdown s) (onRestart s).
Definition WithReadTimeout (d : Z) : Option := fun s =>
  mk_settings (tlsConfig s) d (writeTimeout s) (options s) (corsOptions s) (onShutdown s) (onRestart s).
Definition WithWriteTimeout (d : Z) : Option := fun s =>
  mk_settings (tlsConfig s) (readTimeout s) d (options s) (corsOptions s) (onShutdown s) (onRestart s).
Definition set_options (o : gmap string option_value) : Option := fun s =>
  mk_settings (tlsConfig s) (readTimeout s) (writeTimeout s) o (corsOptions s) (onShutdown s) (onRestart s).
Definition SetCORS (o : option CORSOptions) : Option := fun s =>
  mk_settings (tlsConfig s) (readTimeout s) (writeTimeout s) (options s) o (onShutdown s) (onRestart s).
Definition RegisterOnShutdown (f : H) : Option := fun s =>
  mk_settings (tlsConfig s) (readTimeout s) (writeTimeout s) (options s) (corsOptions s) (onShutdown s ++ [f]) (onRestart s).
Definition RegisterOnRestart (f : H) : Option := fun s =>
  mk_settings (tlsConfig s) (readTimeout s) (writeTimeout s) (options s) (corsOptions s) (onShutdown s) (onRestart s ++ [f]).

(** Of kcp.go, with the build tag. *)
Definition WithBlockCrypt : Option := fun s => set_options (<["BlockCrypt" := BlockCrypt]> (options s)) s.

(** [New]: the options in their order, and the default of the keep-alive period,
    three minutes in nanoseconds. *)
Definition apply_options (ops : list Option) (s : settings) : settings := fold_left (fun s op => op s) ops s.

Definition no_settings : settings := mk_settings None 0 0 ∅ None [] [].

Definition New_settings (ops : list Option) : settings :=
  let s := apply_options ops no_settings in
  match options s !! "TCPKeepAlivePeriod" with
  | None => set_options (<["TCPKeepAlivePeriod" := Period (3 * 60 * 1000000000)]> (options s)) s
  | Some _ => s
  end.

(** What a setting is after a list of options: the last that sets it wins. *)
Inductive setting : Type := TLS (cfg : option T) | Read (d : Z) | WriteT (d : Z) | Crypt.

Definition option_of (x : setting) : Option :=
  match x with TLS cfg => WithTLSConfig cfg | Read d => WithReadTimeout d | WriteT d => WithWriteTimeout d | Crypt => WithBlockCrypt end.

Definition tls_of (x : setting) : option (option T) := match x with TLS c => Some c | _ => None end.
Definition read_of (x : setting) : option Z := match x with Read d => Some d | _ => None end.
Definition write_of (x : setting) : option Z := match x with WriteT d => Some d | _ => None end.

Lemma default_last {A} (d x : A) l : default d (last (x :: l)) = default x (last l).
Proof. destruct l as [|y l]; [done|]. change (last (x :: y :: l)) with (last (y :: l)). by destruct (last (y :: l)) eqn:E;
  [|apply last_None in E]. Qed.

(** Whatever the order of its options, a server has the last value given for
    each of its settings, and keeps connections alive. *)
Lemma New_settings_last xs :
  let s := New_settings (option_of <$> xs) in
  tlsConfig s = default None (last (omap tls_of xs)) /\
  readTimeout s = default 0 (last (omap read_of xs)) /\
  writeTimeout s = default 0 (last (omap write_of xs)) /\
  options s !! "TCPKeepAlivePeriod" = Some (Period 180000000000) /\
  (options s !! "BlockCrypt" = Some BlockCrypt <-> Crypt ∈ xs) /\ corsOptions s = None.
Proof.
  assert (H0 : forall s0, options s0 !! "TCPKeepAlivePeriod" = None ->
    tlsConfig (apply_options (option_of <$> xs) s0) = default (tlsConfig s0) (last (omap tls_of xs)) /\
    readTimeout (apply_options (option_of <$> xs) s0) = default (readTimeout s0) (last (omap read_of xs)) /\
    writeTimeout (apply_options (option_of <$> xs) s0) = default (writeTimeout s0) (last (omap write_of xs)) /\
    options (apply_options (option_of <$> xs) s0) !! "TCPKeepAlivePeriod" = None /\
    (options (apply_options (option_of <$> xs) s0) !! "BlockCrypt" = Some BlockCrypt <->
       options s0 !! "BlockCrypt" = Some BlockCrypt \/ Crypt ∈ xs) /\
    corsOptions (apply_options (option_of <$> xs) s0) = corsOptions s0).
  { induction xs as [|x xs IH]; intros s0 Ho.
    { split_and!; try done. rewrite elem_of_nil. cbn. tauto. }
    change (apply_options (option_of <$> x :: xs) s0) with (apply_options (option_of <$> xs) (option_of x s0)).
    destruct (IH (option_of x s0)) as (H1 & H2 & H3 & H4 & H5 & H6).
    { destruct x; cbn; [done|done|done|]. by rewrite lookup_insert_ne. }
    rewrite H1, H2, H3, H4, H5, H6, elem_of_cons.
    destruct x; cbn [omap list_omap tls_of read_of write_of]; rewrite ?default_last; split_and!; try done; cbn;
      rewrite ?lookup_insert_eq; naive_solver. }
  destruct (H0 no_settings eq_refl) as (H1 & H2 & H3 & H4 & H5 & H6).
  unfold New_settings. cbv zeta. rewrite H4. cbn. rewrite lookup_insert_eq, lookup_insert_ne by done.
  rewrite H1, H2, H3, H6. split_and!; try done. rewrite H5. cbn. split; [by intros [?|?]|by right].
Qed.

(** ** The listeners of kcp.go and quic.go, with their build tags *)
Definition kcpMakeListener (s : settings) : MakeListener := fun _ address =>
  match options s !! "BlockCrypt" with
  | None => Err (ErrorString "KCP BlockCrypt must be configured in server.Options")
  | Some BlockCrypt => Ok (KcpListen address)
  | Some _ => Panic
  end.

(** [protocols] are the [NextProtos] of the configuration, which are set when
    there are none. *)
Definition quicMakeListener (protocols : list string) : MakeListener := fun tls address =>
  if negb tls then Err (ErrorString "TLSConfig must be configured in server.Options")
  else Ok (QuicListen address (match protocols with [] => ["irpc"] | _ => protocols end)).

(** With the tags, a server listens on the two networks exactly when it was made
    with what they need. *)
Lemma tagged_listeners is_ip6 xs protocols tls address :
  let t := RegisterMakeListener "quic" (quicMakeListener protocols)
             (RegisterMakeListener "kcp" (kcpMakeListener (New_settings (option_of <$> xs))) (makeListeners is_ip6)) in
  (makeListener t tls "kcp" address = Ok (KcpListen address) <-> Crypt ∈ xs) /\
  ((exists ps, makeListener t tls "quic" address = Ok (QuicListen address ps)) <-> tls = true).
Proof.
  intros t. destruct (New_settings_last xs) as (_ & _ & _ & _ & Hc & _). unfold makeListener, t, RegisterMakeListener. split.
  - rewrite lookup_insert_ne, lookup_insert_eq, decide_False by naive_solver. rewrite <- Hc. unfold kcpMakeListener.
    by destruct (options _ !! "BlockCrypt") as [[]|].
  - rewrite lookup_insert_eq, decide_False by naive_solver. unfold quicMakeListener. destruct tls; naive_solver.
Qed.
End options.
Arguments settings : clear implicits.

(** [MuxMatch]: the plugins that add matchers, in their order, which
    [startGateway] puts behind that of irpc. *)
Definition MuxMatch {W V} (is_mux : Plugin W V -> bool) (p : pluginContainer W V) : list nat :=
  ServerPlugins.pid <$> filter (fun x => is_mux x = true) p.

(** ** The router *)
Section router.
Context {H : Type}.

Definition AddHandler (servicePath serviceMethod : string) (handler : H) (router : gmap string H) : gmap string H :=
  <[servicePath +:+ "." +:+ serviceMethod := handler]> router.

Definition add_handlers (hs : list (string * string * H)) (router : gmap string H) : gmap string H :=
  fold_left (fun r '(p, m, h) => AddHandler p m h r) hs router.

Definition key_of (x : string * string * H) : string := x.1.1 +:+ "." +:+ x.1.2.

(** Two handlers with the same key replace each other. *)
Lemma add_handlers_last hs r k :
  add_handlers hs r !! k = match last (filter (fun x => key_of x = k) hs) with Some x => Some x.2 | None => r !! k end.
Proof.
  revert r. induction hs as [|[[p m] h] hs IH]; intros r; [done|]. cbn [add_handlers fold_left]. fold (add_handlers hs).
  rewrite IH, filter_cons. unfold AddHandler. destruct (decide (key_of (p, m, h) = k)) as [<-|Hne].
  - unfold key_of at 3. cbn. rewrite lookup_insert_eq. destruct (last (filter _ hs)) eqn:E; [|by apply last_None in E as ->].
    destruct (filter _ hs); [done|]. change (last (_ :: ?y :: ?l)) with (last (y :: l)). by rewrite E.
  - by rewrite lookup_insert_ne.
Qed.

Definition dotless (m : string) : Prop := "."%byte ∉ bytes_of m.

Lemma key_inj p m p' m' : dotless m -> dotless m' -> p +:+ "." +:+ m = p' +:+ "." +:+ m' -> p = p' /\ m = m'.
Proof.
  unfold dotless. intros Hm Hm' E. apply (f_equal bytes_of) in E. rewrite !bytes_of_app in E.
  change (bytes_of ".") with ["."%byte] in E.
  assert (Hs : forall a b c d : list byte, "."%byte ∉ b -> "."%byte ∉ d -> a ++ ["."%byte] ++ b = c ++ ["."%byte] ++ d ->
    a = c /\ b = d).
  { intros a b c d Hb Hd Heq. apply app_eq_inv in Heq as [(k & -> & Hk)|(k & -> & Hk)]; (destruct k as [|x k]; [cbn in Hk|]).
    - injection Hk as ->. by rewrite app_nil_r.
    - injection Hk as <- ->. destruct Hd. set_solver.
    - injection Hk as ->. by rewrite app_nil_r.
    - injection Hk as <- ->. destruct Hb. set_solver. }
  apply Hs in E as [H1%bytes_of_inj H2%bytes_of_inj]; done.
Qed.
End router.

(** A request is given to the last handler added for its path and method, when
    no method has a dot; with a dot, handlers of other names take its place. *)
Lemma add_handlers_exact {H} (hs : list (string * string * H)) p m :
  Forall (fun x => dotless x.1.2) hs -> dotless m ->
  add_handlers hs ∅ !! (p +:+ "." +:+ m) = snd <$> last (filter (fun x => x.1 = (p, m)) hs).
Proof.
  intros Hhs Hm. rewrite add_handlers_last, lookup_empty.
  assert (E : filter (fun x => key_of x = p +:+ "." +:+ m) hs = filter (fun x => x.1 = (p, m)) hs).
  { induction Hhs as [|[[p' m'] h] hs Hx _ IH]; [done|]. rewrite !filter_cons, IH. unfold key_of. cbn in *.
    destruct (decide (p' +:+ "." +:+ m' = p +:+ "." +:+ m)) as [[-> ->]%key_inj|Hne]; [by rewrite decide_True|done|done|].
    rewrite decide_False; [done|]. by intros [= -> ->]. }
  rewrite E. by destruct (last _).
Qed.

Example dotted_handlers : add_handlers [("a.b", "c", 1); ("a", "b.c", 2)] ∅ !! ("a.b" +:+ "." +:+ "c") = Some 2.
Proof. vm_compute. reflexivity. Qed.

(** ** The values of a [Context] *)
Section context.
Context {K V : Type} `{Countable K}.

(** The connection is a number; a nil context is None, and so is a nil key or
    value. *)
Record Context : Type := mk_SContext {
  conn : nat; req : message; ctx : option (share_Context (K := K) (V := V)); writeCh : bool
}.

Definition Server_NewContext (c : option (share_Context (K := K) (V := V))) (conn : nat) (r : message) (ch : bool) : Context :=
  mk_SContext conn r c ch.

Definition set_ctx (c : option (share_Context (K := K) (V := V))) (x : Context) : Context :=
  mk_SContext (conn x) (req x) c (writeCh x).

(** Methods of a nil context panic at its mutex. *)
Definition Context_Get (key : K) (x : Context) : Context * result (option V) :=
  match ctx x with
  | None => (x, Panic)
  | Some c => let '(c, v) := ctx_Value key c in (set_ctx (Some c) x, Ok v)
  end.

Definition Context_SetValue (key : option K) (val : option V) (x : Context) : Context * result unit :=
  match key, val with
  | Some key, Some val =>
      match ctx x with
      | None => (x, Panic)
      | Some c => (set_ctx (Some (ctx_SetValue key val c)) x, Ok tt)
      end
  | _, _ => (x, Ok tt)
  end.

Definition Context_DeleteKey (key : option K) (x : Context) : Context :=
  match ctx x, key with
  | Some c, Some key => set_ctx (Some (ctx_DeleteKey (Some key) c)) x
  | _, _ => x
  end.

Definition Context_Payload (x : Context) : list byte := Payload (req x).
Definition Context_Metadata (x : Context) : option (gmap string string) := Metadata (req x).
Definition Context_ServicePath (x : Context) : string := ServicePath (req x).
Definition Context_ServiceMethod (x : Context) : string := ServiceMethod (req x).

(** The operations of a handler on the values of its context, over the plain map
    of values they stand for. *)
Inductive value_op : Type := OpSet (key : option K) (val : option V) | OpDelete (key : option K) | OpGet (key : K).

Definition run_value_op (o : value_op) (x : Context) : Context :=
  match o with
  | OpSet k v => (Context_SetValue k v x).1
  | OpDelete k => Context_DeleteKey k x
  | OpGet k => (Context_Get k x).1
  end.

Definition value_spec (o : value_op) (m : gmap K V) : gmap K V :=
  match o with
  | OpSet (Some k) (Some v) => <[k := v]> m
  | OpDelete (Some k) => delete k m
  | _ => m
  end.

Definition values_of (c : share_Context (K := K) (V := V)) : gmap K V := default ∅ (tags c).

(** A context implements the map of the values that were set and not deleted,
    over the values of the context it was made of, which stay. *)
Lemma Context_values os x c : ctx x = Some c ->
  exists c', ctx (fold_left (fun x o => run_value_op o x) os x) = Some c' /\ parent c' = parent c /\
    values_of c' = fold_left (fun m o => value_spec o m) os (values_of c) /\
    forall k, (Context_Get k (fold_left (fun x o => run_value_op o x) os x)).2 =
      Ok (match values_of c' !! k with Some v => Some v | None => parent c k end).
Proof.
  intros Hc.
  assert (Hstep : forall o x c, ctx x = Some c -> exists c', ctx (run_value_op o x) = Some c' /\ parent c' = parent c /\
    values_of c' = value_spec o (values_of c)).
  { clear. intros [k v|k|k] x c Hc; cbn; unfold Context_SetValue, Context_DeleteKey, Context_Get; rewrite Hc.
    - destruct k, v; by eexists.
    - destruct k as [k|]; [|by eexists]. eexists. split; [done|]. unfold values_of, ctx_DeleteKey.
      destruct (tags c) eqn:E; cbn; by rewrite ?E, ?delete_empty.
    - by eexists. }
  revert x c Hc. induction os as [|o os IH]; intros x c Hc; cbn [fold_left].
  - exists c. split; [done|]. split; [done|]. split; [done|]. intros k. unfold Context_Get. by rewrite Hc.
  - destruct (Hstep o x c Hc) as (c1 & H1 & Hp1 & Hv1). destruct (IH _ _ H1) as (c2 & H2 & Hp2 & Hv2 & Hg).
    exists c2. split; [done|]. rewrite Hv2, Hv1, Hp2, Hp1. split; [done|]. split; [done|].
    intros k. by rewrite Hg, Hp1, Hv2, Hv1.
Qed.
End context.

(** ** Restart, addresses *)
Section restart.
Context {W V : Type} (s : config W V).

Definition Address {A} (Addr : A) (x : lserver (W := W)) : option A := match ln x with None => None | Some _ => Some Addr end.

(** The connections in the order of an iteration. *)
Definition ActiveClientConn (order : gset nat -> list nat) (x : lserver (W := W)) : list nat := order (activeConn x).

(** [look] is [exec.LookPath] of the program, [spawn] what [os.StartProcess]
    gives for it: the number of the process or an error. *)
Definition startProcess (look : string + error) (spawn : string -> Z + error) : Z + error :=
  match look with inr e => inr e | inl argv0 => spawn argv0 end.

(** Up to the wait of [Shutdown]. *)
Definition Restart_begin (look : string + error) (spawn : string -> Z + error) : prog (lserver (W := W)) (option error) :=
  match startProcess look spawn with
  | inr e => mret (Some e)
  | inl pid => Shutdown_begin s;; mret None
  end.

(** A restart whose process does not start leaves the server as it is, and any
    other begins a shutdown, whether or not the new process could listen. *)
Lemma Restart_spec look spawn x :
  match look with
  | inl argv0 => match spawn argv0 with
                 | inl _ => (Restart_begin look spawn x).1 = (Shutdown_begin s x).1
                 | inr e => Restart_begin look spawn x = (x, Ok (Some e))
                 end
  | inr e => Restart_begin look spawn x = (x, Ok (Some e))
  end.
Proof.
  unfold Restart_begin, startProcess. destruct look as [argv0|e]; [|done]. destruct (spawn argv0); [|done].
  unfold mbind, prog_bind. by destruct (Shutdown_begin s x) as [? [| | | |]].
Qed.
End restart.

(** ** The HTTP gateways *)

(** The handlers of a server: the router of httprouter with its methods and
    patterns, a [http.ServeMux] with a pattern, and [cors.New(o).Handler(h)]. *)
Inductive http_handler : Type :=
| Router (routes : list (string * string))
| Mux (pattern : string) (conn_in_context : bool)
| WithCORS (o : CORSOptions) (h : http_handler).

(** [gatewayHTTPServer]: its handler, and whether [Shutdown] was called on it. *)
Record gateway : Type := mk_gateway { handler : http_handler; gateway_down : bool }.

Definition under_cors (o : option CORSOptions) (h : http_handler) : http_handler :=
  match o with Some o => WithCORS o h | None => h end.

(** The server that [startHTTP1APIGateway] makes and serves. *)
Definition startHTTP1APIGateway (o : option CORSOptions) : gateway :=
  mk_gateway (under_cors o (Router [("POST", "/*servicePath"); ("GET", "/*servicePath"); ("PUT", "/*servicePath")])) false.

(** What it logs at the end: [err] is what [Serve] returned, and [cmux_closed]
    that it is cmux's [ErrListenerClosed]. *)
Definition gateway_served (text : error -> string) (cmux_closed : error -> bool) (err : error) : severity * string :=
  if match err with ErrServerClosed => true | _ => cmux_closed err end then (Info, "gateway server closed")
  else (LError, "error in gateway Serve: " +:+ text err).

Definition startJSONRPC2 (o : option CORSOptions) : http_handler := under_cors o (Mux "/" true).

(** [shutdown] is what [http.Server.Shutdown] returns for the context. *)
Definition closeHTTP1APIGateway (shutdown : option error) (g : option gateway) : option gateway * option error :=
  match g with
  | None => (None, None)
  | Some g => (Some (mk_gateway (handler g) true), shutdown)
  end.

(** A handler, and the methods that get to it: rs/cors answers the preflight
    requests (OPTIONS with the method asked for) itself, unless it passes them
    through, and httprouter any method without a route. *)
Fixpoint reaches (h : http_handler) (method : string) (preflight : bool) : bool :=
  match h with
  | Router routes => bool_decide (method ∈ routes.*1)
  | Mux _ _ => true
  | WithCORS o h => if preflight && bool_decide (method = "OPTIONS") && negb (OptionsPassthrough o) then false else reaches h method preflight
  end.

(** The gateway serves three methods, whatever the CORS options allow; JSON-RPC
    serves all of them except for preflight requests when there are options. *)
Lemma gateway_reaches o method preflight :
  reaches (handler (startHTTP1APIGateway o)) method preflight = bool_decide (method ∈ ["POST"; "GET"; "PUT"]) /\
  (reaches (startJSONRPC2 o) method preflight = false <->
     method = "OPTIONS" /\ preflight = true /\ exists o', o = Some o' /\ OptionsPassthrough o' = false).
Proof.
  split.
  - destruct o as [o|]; [|done]. cbn. destruct preflight; cbn; [|done].
    destruct (bool_decide_reflect (method = "OPTIONS")) as [->|]; cbn; [|done]. by destruct (OptionsPassthrough o).
  - destruct o as [o|]; cbn; [|split; [done|naive_solver]].
    destruct preflight; cbn; [|split; [done|naive_solver]].
    destruct (bool_decide_reflect (method = "OPTIONS")); cbn; [|split; [done|naive_solver]].
    destruct (OptionsPassthrough o) eqn:E; cbn; split; try done; naive_solver.
Qed.

(** A gateway that was shut down ends with [http.ErrServerClosed], which is not
    the server's [ErrServerClosed]: an orderly end is logged as an error. *)
Example gateway_end_is_error :
  gateway_served Error (fun _ => false) (Foreign "http: Server closed") =
    (LError, "error in gateway Serve: http: Server closed").
Proof. vm_compute. reflexivity. Qed.

(** ** File transfer and streams *)
Section enable.
Context {B V W : Type} (upper_rune : string -> bool) (ImplementsContext : gtype -> bool).

Definition SendFileServiceName : string := "_FileTransfer".
Definition StreamServiceName : string := "_StreamService".

(** The once of [Start] and how many accept loops run. *)
Record starter : Type := mk_starter { once : bool; loops : nat }.

Definition Start (x : starter) : starter := if once x then x else mk_starter true (S (loops x)).

(** [EnableFileTransfer]: the errors are dropped. *)
Definition EnableFileTransfer (serviceName : string) (service : receiver B) (v : V) :
    starter -> prog (pserver B V W) starter := fun ft =>
  let name := if decide (serviceName = "") then SendFileServiceName else serviceName in
  let ft := Start ft in
  _ ← RegisterName upper_rune ImplementsContext name service v "";
  mret ft.

(** It is not exported, and nothing calls it. *)
Definition enableStreamService (serviceName : string) (service : receiver B) (v : V) :
    starter -> prog (pserver B V W) starter := fun st =>
  let name := if decide (serviceName = "") then StreamServiceName else serviceName in
  let st := Start st in
  _ ← RegisterName upper_rune ImplementsContext name service v "";
  mret st.

(** However often a transfer is enabled, one accept loop runs. *)
Lemma EnableFileTransfer_once name name' service service' v v' x ft ft1 ft2 x1 x2 :
  loops ft = (if once ft then 1 else 0)%nat ->
  EnableFileTransfer name service v ft x = (x1, Ok ft1) -> EnableFileTransfer name' service' v' ft1 x1 = (x2, Ok ft2) ->
  loops ft2 = 1%nat /\ once ft2 = true.
Proof.
  intros Hl. unfold EnableFileTransfer, mbind, prog_bind.
  destruct (RegisterName _ _ _ service _ _ x) as [y1 [?| | | |]]; try done. intros [= <- <-].
  destruct (RegisterName _ _ _ service' _ _ y1) as [y2 [?| | | |]]; try done. intros [= <- <-].
  unfold Start. destruct (once ft) eqn:E; cbn; rewrite ?E; [done|]. by rewrite Hl.
Qed.
End enable.

(** ** [validIP4] *)

(** A byte between two digits. *)
Definition digit_in (lo hi : Z) (b : byte) : bool := (48 + lo <=? bz b) && (bz b <=? 48 + hi).

(** The alternatives for a number in [ip4Reg]. *)
Definition octet (l : list byte) : bool :=
  match l with
  | [a] => digit_in 0 9 a
  | [a; b] => digit_in 1 9 a && digit_in 0 9 b
  | [a; b; c] =>
      (digit_in 1 1 a && digit_in 0 9 b && digit_in 0 9 c) || (digit_in 2 2 a && digit_in 0 4 b && digit_in 0 9 c) ||
      (digit_in 2 2 a && digit_in 5 5 b && digit_in 0 5 c)
  | _ => false
  end.

Definition ip4Reg (l : list byte) : bool :=
  match split_on "." l with [a; b; c; d] => octet a && octet b && octet c && octet d | _ => false end.

Definition validIP4 (ipAddress : string) : result bool :=
  match before_last_colon (trim_spaces (bytes_of ipAddress)) with
  | None => Panic
  | Some ip => Ok (ip4Reg ip)
  end.

Definition decimal (n : Z) : list byte :=
  let d k := zb (48 + k) in
  if n <? 10 then [d n] else if n <? 100 then [d (n / 10); d (n mod 10)]
  else [d (n / 100); d (n / 10 mod 10); d (n mod 10)].

Lemma digit_in_spec lo hi b : 0 <= lo -> hi <= 9 -> digit_in lo hi b = true <-> exists k, lo <= k <= hi /\ b = zb (48 + k).
Proof.
  intros Hlo Hhi. unfold digit_in. rewrite andb_true_iff, !Z.leb_le. split.
  - intros [H1 H2]. exists (bz b - 48). split; [lia|]. rewrite <- (zb_bz b) at 1. f_equal. lia.
  - intros (k & Hk & ->). rewrite bz_zb, Z.mod_small by lia. lia.
Qed.

Lemma octet_decimal l : octet l = true <-> exists n, 0 <= n < 256 /\ l = decimal n.
Proof.
  split.
  - unfold octet. destruct l as [|a [|b [|c [|]]]]; try done.
    + intros (k & Hk & ->)%digit_in_spec; [|lia..]. exists k. split; [lia|]. unfold decimal. by rewrite (proj2 (Z.ltb_lt _ _)) by lia.
    + rewrite andb_true_iff, !digit_in_spec by lia. intros [(i & Hi & ->) (j & Hj & ->)]. exists (10 * i + j). split; [lia|].
      unfold decimal. rewrite (proj2 (Z.ltb_ge _ _)), (proj2 (Z.ltb_lt _ _)) by lia.
      repeat f_equal; lia.
    + rewrite !orb_true_iff, !andb_true_iff, !digit_in_spec by lia.
      assert (H : forall i j k, 0 <= j <= 9 -> 0 <= k <= 9 -> 1 <= i -> 100 * i + 10 * j + k < 256 ->
        exists n, 0 <= n < 256 /\ [zb (48 + i); zb (48 + j); zb (48 + k)] = decimal n).
      { intros i j k Hj Hk Hi Hn. exists (100 * i + 10 * j + k). split; [lia|]. unfold decimal.
        rewrite !(proj2 (Z.ltb_ge _ _)) by lia. repeat f_equal; lia. }
      intros [[[[(i & Hi & ->) (j & Hj & ->)] (k & Hk & ->)]|[[(i & Hi & ->) (j & Hj & ->)] (k & Hk & ->)]]
             |[[(i & Hi & ->) (j & Hj & ->)] (k & Hk & ->)]]; apply H; lia.
  - intros (n & Hn & ->).
    assert (H : Forall (fun n => octet (decimal n) = true) (seqZ 0 256)) by (apply (bool_decide_unpack _); vm_compute; exact I).
    rewrite Forall_forall in H. apply H, elem_of_seqZ. lia.
Qed.

Lemma split_on_inv l : exists x xs, split_on "." l = x :: xs /\ l = x ++ concat (map (cons "."%byte) xs).
Proof.
  induction l as [|b l (x & xs & E & IH)]; [by exists [], []|]. cbn. rewrite E. destruct (decide (b = "."%byte)) as [->|].
  - exists [], (x :: xs). split; [done|]. cbn. by rewrite IH.
  - exists (b :: x), xs. split; [done|]. cbn. by rewrite IH.
Qed.

Lemma decimal_dotless n : 0 <= n < 256 -> "."%byte ∉ decimal n.
Proof.
  intros Hn. assert (H : Forall (fun n => "."%byte ∉ decimal n) (seqZ 0 256)) by (apply (bool_decide_unpack _); vm_compute; exact I).
  rewrite Forall_forall in H. apply H, elem_of_seqZ. lia.
Qed.

(** The addresses that are valid without their port: four numbers of one byte,
    without leading zeros. *)
Lemma ip4Reg_spec l : ip4Reg l = true <->
  exists a b c d, Forall (fun n => 0 <= n < 256) [a; b; c; d] /\
    l = decimal a ++ "."%byte :: decimal b ++ "."%byte :: decimal c ++ "."%byte :: decimal d.
Proof.
  unfold ip4Reg. split.
  - destruct (split_on_inv l) as (x & xs & -> & ->). destruct xs as [|x2 [|x3 [|x4 [|]]]]; try done.
    rewrite !andb_true_iff, !octet_decimal.
    intros [[[(a & Ha & ->) (b & Hb & ->)] (c & Hc & ->)] (d & Hd & ->)]. exists a, b, c, d.
    split; [by repeat (constructor; [done|])|]. cbn. by rewrite app_nil_r.
  - intros (a & b & c & d & H & ->). rewrite !Forall_cons in H. destruct H as (? & ? & ? & ? & _).
    rewrite !split_on_app, split_on_plain by (by apply decimal_dotless).
    rewrite !andb_true_iff, !octet_decimal. split_and!; eauto.
Qed.

Example valid_addresses : validIP4 "127.0.0.1:8972" = Ok true /\ validIP4 "256.0.0.1:80" = Ok false /\ validIP4 "127.0.0.1" = Panic.
Proof. vm_compute. done. Qed.
